(* ===== verification/_CoqProject ===== *)
-Q . S2P
Prelude.v
JsString.v
Regex.v
JsValue.v
Dates.v
Json.v
Secrets.v
Zod.v
Schemas.v
ConfigGenerator.v
Repositories.v
UseCases.v
Stores.v
ProjectionStores.v
RoutesProcess.v
RoutesSession.v
SshConnection.v
SshExecutor.v
SshRetry.v
SshPath.v
SshLog.v
Bootstrap.v
DesktopSecrets.v
WebPage.v
RoutesFlow.v
RouteViews.v
WebShell.v
UiKit.v
BootstrapPage.v
InstallPath.v
BootstrapView.v
DesktopMain.v
DesktopApp.v
