(* ===== verification/Prelude.v ===== *)
(** * nginx-admin: the control panel's TypeScript, modelled and verified

    nginx-admin is a control panel for nginx routes.  A web application edits routes and
    keeps them in a repository; a desktop application wraps it, holds the credentials of the
    managed host and runs commands there over SSH; a daemon on the host applies the routes.
    This library models the TypeScript of the panel, file by file, and proves what makes it
    correct.  The headers of the other files say more about each.

    ** The parts and how they interact

    - Language.  [JsString], [Regex], [JsValue], [Dates] and [Json] are the parts of
      JavaScript the code computes with: strings, the regular expressions of its literals, the
      values of type [unknown], dates, and [JSON.stringify] and [JSON.parse].
    - Core (packages/core).  [Secrets] is security/secrets.ts.  [Zod] is the schema language
      of entities/types.ts and [Schemas] the schemas and utils/validators.ts.
      [ConfigGenerator] is services/ConfigGenerator.ts.  [UseCases] holds useCases/ and
      services/IntegrationService.ts; they run on any instance of the class
      [RouteRepository] of [Repositories].
    - Repositories (packages/core/src/repositories and packages/infra/src/repositories).
      [Repositories] has the interface with its laws and its implementations [LocalStorage],
      [BrowserStorage] and [RemoteBridge].
    - Client state (packages/shared).  [Stores] has one module per store of store/slices,
      and the adapter that turns the routes store into a repository.
    - Commands (packages/app, packages/transport, packages/infra).  [ProjectionStores]
      has the interface of the projection, the laws the process relies on and the stores of
      the two applications that keep them.  [RoutesProcess] has the process, its gateway and
      the three executors that answer commands: in memory, over HTTP, and in the desktop
      renderer's local storage.  [RoutesSession] runs the process as each application
      composes it.
    - Pages (apps/web).  [WebPage] has the hooks of the routes page and the subscriptions
      between stores, [RouteViews] the components of that page, [WebShell] the page over them,
      the shell around it and the hook of the form fields, [UiKit] the components of
      ui-kit, [BootstrapPage] the page that installs the daemon and [BootstrapView] what that
      page shows while its operations overlap.  [BootstrapPage] calls [Bootstrap]'s client, which calls the preload script and
      through it the handlers of the main process.  [RoutesFlow] follows an operation of the
      routes page down to local storage.
    - Desktop main process (apps/desktop/src/main).  [SshConnection] and [SshExecutor] are
      ssh/, [SshRetry] adds what they log and the delay between attempts, [SshPath] runs the
      executor on the state of the connection manager, [SshLog] has the log of the manager and
      of one execution, [Bootstrap] is ipc/ with preload/, [InstallPath] an installation from
      the page down to the connection manager, [DesktopSecrets] is secrets/, [DesktopMain] is
      main.ts, which makes the executor from the environment and the migrated credentials, and
      [DesktopApp] the end of that file, the windows and the events of the application.

    A state of the code is a record here (a store, a page, the connection manager, one
    execution); an operation is a function on it of the same name.  What throws or awaits is
    of type [eff S A] (below): a function from a state to an outcome, [Return] or [Throw],
    and the state left behind.  Where operations overlap, the machine is a step relation
    ([Inductive]) over events: the client's stores, the process's methods, the connection
    manager, one execution on an SSH channel, the bootstrap page among its answers, the
    application's events, the advanced tab and the locations of a form.

    ** What the theorems show

    - Validation: which strings [validateDomain], [validatePort] and [validateUnixPath]
      accept, as grammars independent of the expressions; the rules of a parsed route; that
      parsing a parsed route changes nothing; that the factories make values of their types.
    - Secrets: no redacted text holds a bearer token, no serialised value or stored route has
      a field with a sensitive name, no reachable state of the stores shows either but for
      the routes the page just saved; a cleaned .env file sets no secret; what keytar stores is
      read back.
    - Routes: a creation or an update is all or nothing on any lawful repository; the browser
      repository gives back what it saved; the desktop's executor gives the answers of the one
      in memory, and the process always ends with its flag down, whatever store shows it.
      The process of the browser and that of the desktop behave alike over a session while
      local storage takes the writes, and the routes they show are the routes held; a write
      it refuses is an error the desktop shows.  A session of the routes page is the same
      session on one map in memory, as long as the browser takes the writes, and a write it
      refuses is lost and announced as saved.
    - Preview: the layout of every generated configuration, and that its header holds exactly
      the fields of a parsed route.
    - SSH: the manager's invariant over every order of events, an execution settles once and
      lets its timer and listener go, the number and the delays of the attempts, that the
      command line of a command decodes to its payload, and that the log changes nothing,
      tells no secret and accounts for every attempt to connect.  Executor and manager
      together refine a link that is up or down, over any session of commands, lost
      connections and shutdowns.
    - Bootstrap: shell words are quoted, the handlers answer only the trusted sender and
      never reject, an installation from the page reports what the host answered over the one
      connection it needs, and the page renders whatever the order of the answers.
    - Desktop: the runtime has only stored credentials, there is one window and its page is
      isolated, and without credentials a closed window stays closed.
    - Migration: at every point one of the two places still holds the credentials, and what
      each outcome leaves.
    - Pages: how a submission ends, when autosaving stops, that the locations of a form stay
      editable, and when the port's input and a cleared proxy input fail.  A component of the
      UI kit passes on every property it does not read.

    Several of these are defects of the code stated as what it does: the forced save that
    saves twice, the success notice after a failed save, the input that breaks its page.

    ** Parameters

    Code outside the repository is an argument of the definitions that use it, as a class:
    [Zod] with [ZodLaws] (one documented fact per combinator; [zod_model] is an instance),
    [HostDate] and the host's URL parser (the parsing of dates and addresses that no
    specification fixes), [ReactChild] (how a value is rendered), [ClassNames] (how
    class names are joined), [ReactHookForm] with its laws (the values of a form and what its
    fields show, the fallback of an undefined value included; [object_form] is an instance),
    [LocalStorageApi] (when the browser refuses a write), the credential store, the file
    system, [fetch] and the SSH client's events.  The clock, random suffixes and identifiers
    are arguments.  A theorem that needs a law of one of
    these has a witness at a concrete instance.

    ** Bounds and fuel

    - [json_parse] spends one unit of fuel per value and per further element or member, each
      of which takes a character of a well-formed text, and starts with one more than the
      length of the text; the round trip proves it enough for every text [print] writes.
      Running out is the syntax error a malformed text has anyway.
    - The retry loop of the SSH executor has as fuel the number of attempts the code allows,
      which its counter reaches exactly when the fuel ends.
    - A loop of the matcher of [Regex], and a replacement of all matches, have as fuel one
      more than the length of the text that is left: each turn of a loop must consume a
      character.  The matcher is proved equivalent to the relation [matches].

    ** What is left out

    - Characters above U+00FF, the rounding of numbers to double precision, numbers printed
      with an exponent, the sign of zero, and the order of keys that look like integers.
      Russian texts are their bytes, or constructors where the code only chooses one.
    - Keys of a stored map that are not strings: the code writes none, and one found in storage
      is read as the empty string.
    - An SSH client whose [exec] throws, in the machine of one execution: [SshLog] has that case
      by itself, where the timer and the abort listener stay.
    - A microtask between two awaits of one operation is not a step of its own, except in the
      machines above.  The hook's adapter starts its write and does not wait for it; here the
      write ends first, as it does with local storage.
    - Not modelled: the markup and class names of the pages; the log lines of the start
      but for the health check; type-only files; apps/web/src/design.tsx, all of it commented out; the daemon, a program in Rust; tests,
      build files and packaging. *)

From Stdlib Require Export ZArith Lia Ascii.
From stdpp Require Export base option list strings gmap.

#[global] Open Scope Z_scope.

(** ** Automation shared by the development *)

(** [lia] sees quotients and remainders through their defining equations. *)
Ltac Zify.zify_post_hook ::= Z.to_euclidean_division_equations.

Create HintDb js.
Create Rewrite HintDb js_rw.

(** Case analysis on the scrutinee of a [match] in the goal or a hypothesis. *)
Ltac case_scrut :=
  match goal with
  | |- context [match ?x with _ => _ end] => destruct x eqn:?
  | H : context [match ?x with _ => _ end] |- _ => destruct x eqn:?
  end.

(** Split boolean conjunctions, disjunctions and negations in the context. *)
Ltac bool_hyps :=
  repeat match goal with
  | H : (_ && _)%bool = true |- _ => apply andb_true_iff in H as [? ?]
  | H : (_ || _)%bool = false |- _ => apply orb_false_iff in H as [? ?]
  | H : negb _ = true |- _ => apply negb_true_iff in H
  | H : negb _ = false |- _ => apply negb_false_iff in H
  end.

(** A closed list of literals has no duplicates. *)
Ltac nodup_literals := cbn; refine (proj1 (bool_decide_spec (NoDup _)) _); vm_compute; exact I.

Ltac invert H := inversion H; subst; clear H.

(** ** Outcomes: a JavaScript computation returns a value or throws *)

(** The class of a thrown value, as the code's [instanceof] tests see it.  [EDom] is a
    [DOMException] with its name; the two application classes carry their [code]. *)
Inductive err_class :=
  | EError
  | EType
  | ESyntax
  | ERange
  | EZod
  | EDom (name : string)
  | ERemote (code : string)
  | ESecrets (code : string)
  | ENotError.

Record jserror := JsError { err_class_of : err_class; err_message : string }.

#[export] Instance err_class_eq_dec : EqDecision err_class.
Proof. solve_decision. Defined.

#[export] Instance jserror_eq_dec : EqDecision jserror.
Proof. solve_decision. Defined.

(** [error instanceof Error]: every class of the model but [ENotError]. *)
Definition instanceof_Error (e : jserror) : bool :=
  match err_class_of e with ENotError => false | _ => true end.

Inductive outcome (A : Type) :=
  | Return (a : A)
  | Throw (e : jserror).
Arguments Return {A} a.
Arguments Throw {A} e.

Lemma Return_inj {A} (a b : A) : Return a = Return b -> a = b.
Proof. congruence. Qed.

#[export] Instance outcome_ret : MRet outcome := fun A a => Return a.
#[export] Instance outcome_bind : MBind outcome := fun A B f m =>
  match m with Return a => f a | Throw e => Throw e end.

#[export] Instance outcome_fmap : FMap outcome := fun A B f m =>
  match m with Return a => Return (f a) | Throw e => Throw e end.

Definition is_return {A} (o : outcome A) : bool :=
  match o with Return _ => true | Throw _ => false end.

(** ** Computations over a state: run to an outcome and the state left behind.

    A [throw] keeps the writes made before it, as in JavaScript. *)
Definition eff (S A : Type) : Type := S -> outcome A * S.

#[export] Instance eff_ret {S} : MRet (eff S) := fun A a s => (Return a, s).
#[export] Instance eff_bind {S} : MBind (eff S) := fun A B f m s =>
  match m s with
  | (Return a, s') => f a s'
  | (Throw e, s') => (Throw e, s')
  end.

Definition throw {S A} (e : jserror) : eff S A := fun s => (Throw e, s).
Definition get_state {S} : eff S S := fun s => (Return s, s).
Definition modify {S} (f : S -> S) : eff S unit := fun s => (Return tt, f s).
Definition lift_outcome {S A} (o : outcome A) : eff S A := fun s => (o, s).

(** [try { m } catch (e) { h e }]. *)
Definition try_catch {S A} (m : eff S A) (h : jserror -> eff S A) : eff S A := fun s =>
  match m s with
  | (Return a, s') => (Return a, s')
  | (Throw e, s') => h e s'
  end.

(** [try { m } finally { f }], for an [f] that does not throw. *)
Definition try_finally {S A} (m : eff S A) (f : S -> S) : eff S A := fun s =>
  let (o, s') := m s in (o, f s').

Lemma eff_bind_ret {S A B} (a : A) (f : A -> eff S B) s :
  (mret a ≫= f) s = f a s.
Proof. reflexivity. Qed.

Lemma eff_bind_throw {S A B} e (f : A -> eff S B) s :
  (throw e ≫= f) s = (Throw e, s).
Proof. reflexivity. Qed.

Lemma eff_bind_assoc {S A B C} (m : eff S A) (f : A -> eff S B) (g : B -> eff S C) s :
  ((m ≫= f) ≫= g) s = (m ≫= (fun a => f a ≫= g)) s.
Proof. unfold mbind, eff_bind. by destruct (m s) as [[a|e] s']. Qed.

#[export] Hint Rewrite @eff_bind_ret @eff_bind_throw @eff_bind_assoc : js_rw.

(** Run a computation as far as its operations go: each becomes a [match] on the outcome of
    the one before it. *)
Ltac run_eff :=
  unfold try_catch, try_finally, get_state, modify, lift_outcome, throw, mbind, eff_bind, mret, eff_ret;
  cbn [fst snd].

(** Run a monadic action on every element of a list, in order. *)
Fixpoint mapM_eff {S A B} (f : A -> eff S B) (l : list A) : eff S (list B) :=
  match l with
  | [] => mret []
  | x :: l' => y ← f x; ys ← mapM_eff f l'; mret (y :: ys)
  end.

(** ** Lists *)

Lemma forallb_Forall {A} (p : A -> bool) l :
  forallb p l = true <-> Forall (fun x => p x = true) l.
Proof. rewrite List.forallb_forall, List.Forall_forall. done. Qed.

Lemma existsb_false_Forall {A} (p : A -> bool) l :
  existsb p l = false <-> Forall (fun x => p x = false) l.
Proof.
  induction l as [|x l IH]; simpl; [by split|].
  rewrite orb_false_iff, Forall_cons. by rewrite IH.
Qed.

Lemma Forall_map_iff {A B} (f : A -> B) (P : B -> Prop) l :
  Forall P (List.map f l) <-> Forall (fun x => P (f x)) l.
Proof. apply List.Forall_map. Qed.

Lemma filter_all {A} (p : A -> bool) l :
  Forall (fun x => p x = true) l -> List.filter p l = l.
Proof. induction 1 as [|x l Hx _ IH]; simpl; [done|]. by rewrite Hx, IH. Qed.

Lemma map_all_id {A} (f : A -> A) l :
  Forall (fun x => f x = x) l -> List.map f l = l.
Proof. induction 1 as [|x l Hx _ IH]; simpl; [done|]. by rewrite Hx, IH. Qed.

Lemma snoc_nonempty {A} (l : list A) x : l ++ [x] <> [].
Proof. destruct l; discriminate. Qed.

Lemma Forall_impl_strong {A} (P Q : A -> Prop) l :
  (forall x, In x l -> P x -> Q x) -> Forall P l -> Forall Q l.
Proof. intros H HP. rewrite List.Forall_forall in *. auto. Qed.

(** [Array.prototype.find]. *)
Abbreviation js_find := List.find.

Lemma find_app {A} (p : A -> bool) l1 l2 :
  js_find p (l1 ++ l2) = match js_find p l1 with Some x => Some x | None => js_find p l2 end.
Proof. induction l1 as [|x l1 IH]; simpl; [done|]. by destruct (p x). Qed.

Lemma find_none_filter {A} (p : A -> bool) l :
  js_find p l = None <-> Forall (fun x => p x = false) l.
Proof.
  induction l as [|x l IH]; simpl; [by split|].
  rewrite Forall_cons, <- IH. destruct (p x); intuition congruence.
Qed.
