(* ===== verification/JsString.v ===== *)
(** * JavaScript strings

    A [string] of the development is a JavaScript string whose UTF-16 code units are all
    below U+0100, one [ascii] per code unit.  On that range the operations below are the
    ECMAScript ones exactly: [toLowerCase] stays in the range, and the white space that
    [trim] and [\s] recognise there is TAB, LF, VT, FF, CR, SP and NBSP.  The Russian
    messages of the source are only ever passed along; they are spelled by their UTF-8
    bytes and nothing inspects them. *)

From S2P Require Import Prelude.

Definition code (c : ascii) : N := N_of_ascii c.

Definition char (n : N) : ascii := ascii_of_N n.

(** ** Character classes *)

Definition in_range (lo hi : N) (c : ascii) : bool := (lo <=? code c)%N && (code c <=? hi)%N.

Definition is_digit (c : ascii) : bool := in_range 48 57 c.
Definition is_lower (c : ascii) : bool := in_range 97 122 c.
Definition is_upper (c : ascii) : bool := in_range 65 90 c.
Definition is_alpha (c : ascii) : bool := is_lower c || is_upper c.
Definition is_alnum (c : ascii) : bool := is_alpha c || is_digit c.

(** [\w] *)
Definition is_word (c : ascii) : bool := is_alnum c || Ascii.eqb c "_".

(** [\s]: WhiteSpace and LineTerminator below U+0100. *)
Definition is_space (c : ascii) : bool :=
  in_range 9 13 c || (code c =? 32)%N || (code c =? 160)%N.

Definition LF : ascii := "010".
Definition CR : ascii := "013".
Definition TAB : ascii := "009".
Definition DQUOTE : ascii := "034".
Definition SQUOTE : ascii := "039".
Definition BACKSLASH : ascii := "092".
Definition nl : string := String LF "".
Definition dq : string := String DQUOTE "".

(** ** Strings as lists of code units *)

Abbreviation chars := String.list_ascii_of_string.
Abbreviation of_chars := String.string_of_list_ascii.

Fixpoint str_forallb (p : ascii -> bool) (s : string) : bool :=
  match s with
  | EmptyString => true
  | String c s' => p c && str_forallb p s'
  end.

Fixpoint str_existsb (p : ascii -> bool) (s : string) : bool :=
  match s with
  | EmptyString => false
  | String c s' => p c || str_existsb p s'
  end.

Fixpoint str_map (f : ascii -> ascii) (s : string) : string :=
  match s with
  | EmptyString => EmptyString
  | String c s' => String (f c) (str_map f s')
  end.

(** [toLowerCase] *)
Definition lower_char (c : ascii) : ascii :=
  if is_upper c || (in_range 192 222 c && negb (code c =? 215)%N)
  then char (code c + 32) else c.
Definition toLowerCase (s : string) : string := str_map lower_char s.

(** [s.startsWith(p)], [s.endsWith(p)], [s.includes(p)] *)
Fixpoint startsWith (p s : string) : bool :=
  match p, s with
  | EmptyString, _ => true
  | String a p', String b s' => Ascii.eqb a b && startsWith p' s'
  | String _ _, EmptyString => false
  end.

Fixpoint includes (p s : string) : bool :=
  startsWith p s ||
  match s with
  | EmptyString => false
  | String _ s' => includes p s'
  end.

Fixpoint str_rev_app (s acc : string) : string :=
  match s with
  | EmptyString => acc
  | String c s' => str_rev_app s' (String c acc)
  end.
Definition str_rev (s : string) : string := str_rev_app s "".

Definition endsWith (p s : string) : bool := startsWith (str_rev p) (str_rev s).

(** The rest of a string that starts with the code unit [c]. *)
Definition eat (c : ascii) (s : string) : option string :=
  match s with
  | String d s' => if Ascii.eqb c d then Some s' else None
  | EmptyString => None
  end.

(** [s.indexOf(c)] for one code unit; [None] is the -1 of the source. *)
Fixpoint indexOf (c : ascii) (s : string) : option nat :=
  match s with
  | EmptyString => None
  | String d s' => if Ascii.eqb c d then Some O else S <$> indexOf c s'
  end.

(** [s.slice(0, n)] and [s.slice(n)] for a non-negative [n]. *)
Fixpoint str_take (n : nat) (s : string) : string :=
  match n, s with
  | S n', String c s' => String c (str_take n' s')
  | _, _ => EmptyString
  end.

Fixpoint str_drop (n : nat) (s : string) : string :=
  match n, s with
  | S n', String _ s' => str_drop n' s'
  | _, _ => s
  end.

Fixpoint trimStart (s : string) : string :=
  match s with
  | EmptyString => EmptyString
  | String c s' => if is_space c then trimStart s' else s
  end.

Definition trimEnd (s : string) : string := str_rev (trimStart (str_rev s)).
Definition trim (s : string) : string := trimEnd (trimStart s).

(** [s.repeat(n)] *)
Fixpoint str_repeat (s : string) (n : nat) : string :=
  match n with O => EmptyString | S n' => s +:+ str_repeat s n' end.

(** [parts.join(sep)] *)
Fixpoint join (sep : string) (parts : list string) : string :=
  match parts with
  | [] => ""
  | [p] => p
  | p :: ps => p +:+ sep +:+ join sep ps
  end.

(** [s.split(/\r?\n/u)] *)
Fixpoint split_lines_go (cur : string) (s : string) : list string :=
  match s with
  | EmptyString => [str_rev cur]
  | String c s' =>
      if Ascii.eqb c LF then str_rev cur :: split_lines_go "" s'
      else match s' with
           | String d s'' =>
               if Ascii.eqb c CR && Ascii.eqb d LF
               then str_rev cur :: split_lines_go "" s''
               else split_lines_go (String c cur) s'
           | EmptyString => split_lines_go (String c cur) s'
           end
  end.
Definition split_lines (s : string) : list string := split_lines_go "" s.

(** Decimal notation of an integer ([`${n}`]): digits are produced from the right; [fuel]
    is the bit length, an upper bound on the number of decimal digits. *)
Definition digit_char (d : N) : ascii := char (48 + d).
Definition digit_val (c : ascii) : N := (code c - 48)%N.

Fixpoint show_N_go (fuel : nat) (n : N) (acc : string) : string :=
  match fuel with
  | O => acc
  | S f =>
      if (n <? 10)%N then String (digit_char n) acc
      else show_N_go f (n / 10) (String (digit_char (n mod 10)) acc)
  end.
Definition show_N (n : N) : string := show_N_go (S (N.size_nat n)) n "".
Definition show_Z (z : Z) : string :=
  if z <? 0 then String "-" (show_N (Z.abs_N z)) else show_N (Z.abs_N z).
Definition show_nat (n : nat) : string := show_N (N.of_nat n).

(** The value of a run of digits. *)
Fixpoint digits_val (acc : N) (s : string) : N :=
  match s with
  | EmptyString => acc
  | String c s' => digits_val (10 * acc + digit_val c) s'
  end.

(** ** Lemmas: append *)

Lemma app_nil_r_str (s : string) : s +:+ "" = s.
Proof. induction s as [|c s IH]; [done|]. simpl. unfold String.app in *. simpl. by rewrite IH. Qed.

Lemma app_cons (c : ascii) (s t : string) : String c s +:+ t = String c (s +:+ t).
Proof. done. Qed.

Lemma app_nil_l_str (s : string) : "" +:+ s = s.
Proof. done. Qed.

Lemma app_assoc_str (s t u : string) : (s +:+ t) +:+ u = s +:+ t +:+ u.
Proof. induction s as [|c s IH]; [done|]. by rewrite !app_cons, IH. Qed.

Lemma length_app_str (s t : string) :
  String.length (s +:+ t) = (String.length s + String.length t)%nat.
Proof. induction s as [|c s IH]; [done|]. rewrite app_cons. simpl. by rewrite IH. Qed.

Lemma app_inv_str (s t u : string) : s +:+ t = s +:+ u -> t = u.
Proof. induction s as [|c s IH]; [done|]. rewrite !app_cons. by intros [=]; auto. Qed.

#[export] Hint Rewrite app_nil_r_str app_nil_l_str app_cons app_assoc_str length_app_str : js_rw.

(** Expose the literal characters at the front of a concatenation. *)
Ltac str_norm := repeat rewrite ?app_cons, ?app_nil_l_str.

(** ** Lemmas: quantifiers over the code units *)

Lemma str_forallb_app p s t :
  str_forallb p (s +:+ t) = str_forallb p s && str_forallb p t.
Proof. induction s as [|c s IH]; [done|]. rewrite app_cons. simpl. by rewrite IH, andb_assoc. Qed.

Lemma str_existsb_app p s t :
  str_existsb p (s +:+ t) = str_existsb p s || str_existsb p t.
Proof. induction s as [|c s IH]; [done|]. rewrite app_cons. simpl. by rewrite IH, orb_assoc. Qed.

Lemma str_existsb_forallb p s : str_existsb p s = negb (str_forallb (fun c => negb (p c)) s).
Proof. induction s as [|c s IH]; simpl; [done|]. rewrite IH. by destruct (p c). Qed.

Lemma str_forallb_impl (p q : ascii -> bool) s :
  (forall c, p c = true -> q c = true) -> str_forallb p s = true -> str_forallb q s = true.
Proof.
  intros Hpq. induction s as [|c s IH]; simpl; [done|]. intros H. bool_hyps.
  rewrite Hpq by done. auto.
Qed.

#[export] Hint Rewrite str_forallb_app str_existsb_app : js_rw.

(** A predicate on code units holds of all of them when it holds of the 256 values. *)
Definition all_chars : list ascii := List.map (fun n => char (N.of_nat n)) (seq 0 256).

Lemma all_chars_spec (c : ascii) : c ∈ all_chars.
Proof.
  apply list_elem_of_In, List.in_map_iff. exists (N.to_nat (code c)). split.
  - rewrite N2Nat.id. apply ascii_N_embedding.
  - apply List.in_seq. pose proof (N_ascii_bounded c). unfold code. lia.
Qed.

Lemma all_chars_forallb (p : ascii -> bool) c : forallb p all_chars = true -> p c = true.
Proof. rewrite List.forallb_forall. intros H. apply H, list_elem_of_In, all_chars_spec. Qed.

(** ** Lemmas: reversal *)

Lemma str_rev_app_spec s acc : str_rev_app s acc = str_rev s +:+ acc.
Proof.
  unfold str_rev. revert acc. induction s as [|c s IH]; intros acc; simpl; [done|].
  rewrite IH, (IH (String c "")), app_assoc_str. done.
Qed.

Lemma str_rev_cons c s : str_rev (String c s) = str_rev s +:+ String c "".
Proof. unfold str_rev at 1. simpl. apply str_rev_app_spec. Qed.

Lemma str_rev_app_distr s t : str_rev (s +:+ t) = str_rev t +:+ str_rev s.
Proof.
  induction s as [|c s IH]; [by rewrite app_nil_r_str|].
  by rewrite app_cons, !str_rev_cons, IH, app_assoc_str.
Qed.

Lemma str_rev_involutive s : str_rev (str_rev s) = s.
Proof. induction s as [|c s IH]; [done|]. by rewrite str_rev_cons, str_rev_app_distr, IH. Qed.

Lemma str_forallb_rev p s : str_forallb p (str_rev s) = str_forallb p s.
Proof.
  induction s as [|c s IH]; [done|]. rewrite str_rev_cons, str_forallb_app, IH. simpl.
  by rewrite andb_true_r, andb_comm.
Qed.

#[export] Hint Rewrite str_rev_cons str_rev_app_distr str_rev_involutive str_forallb_rev : js_rw.

(** ** Lemmas: search *)

Lemma startsWith_spec p s : startsWith p s = true <-> exists t, s = p +:+ t.
Proof.
  revert s. induction p as [|a p IH]; intros s; simpl.
  - split; [by exists s | done].
  - destruct s as [|b s].
    + split; [done|]. by intros [t Ht].
    + rewrite andb_true_iff, IH, Ascii.eqb_eq. split.
      * intros [-> [t ->]]. by exists t.
      * intros [t Ht]. rewrite app_cons in Ht. injection Ht as -> ->. eauto.
Qed.

Lemma startsWith_app p t : startsWith p (p +:+ t) = true.
Proof. apply startsWith_spec. eauto. Qed.

Lemma includes_spec p s : includes p s = true <-> exists a b, s = a +:+ p +:+ b.
Proof.
  induction s as [|c s IH]; simpl.
  - rewrite orb_false_r, startsWith_spec. split.
    + intros [t Ht]. exists "", t. done.
    + intros (a & b & Hab). destruct a; [by exists b|done].
  - rewrite orb_true_iff, startsWith_spec, IH. split.
    + intros [[t Ht] | (a & b & ->)]; [by exists "", t | by exists (String c a), b].
    + intros (a & b & Hab). destruct a as [|d a]; [left; by exists b|].
      rewrite app_cons in Hab. injection Hab as -> ->. right. eauto.
Qed.

Lemma endsWith_spec p s : endsWith p s = true <-> exists t, s = t +:+ p.
Proof.
  unfold endsWith. rewrite startsWith_spec. split; intros [t Ht].
  - exists (str_rev t). rewrite <- (str_rev_involutive s), Ht.
    by rewrite str_rev_app_distr, str_rev_involutive.
  - exists (str_rev t). by rewrite Ht, str_rev_app_distr.
Qed.

Lemma indexOf_some c s n :
  indexOf c s = Some n ->
  s = str_take n s +:+ String c (str_drop (S n) s) /\ str_forallb (fun d => negb (Ascii.eqb c d)) (str_take n s) = true.
Proof.
  revert n. induction s as [|d s IH]; intros n; simpl; [done|].
  destruct (Ascii.eqb_spec c d) as [->|Hne].
  - intros [= <-]. done.
  - destruct (indexOf c s) as [m|] eqn:Hm; simpl; [|done]. intros [= <-].
    destruct (IH m eq_refl) as [Hs Hf]. split; simpl.
    + rewrite app_cons. f_equal. done.
    + rewrite Hf, andb_true_r. by apply negb_true_iff, Ascii.eqb_neq.
Qed.

Lemma indexOf_none c s : indexOf c s = None <-> str_forallb (fun d => negb (Ascii.eqb c d)) s = true.
Proof.
  induction s as [|d s IH]; simpl; [done|]. destruct (Ascii.eqb c d); simpl.
  - split; [done|]. done.
  - rewrite <- IH. by destruct (indexOf c s).
Qed.

(** ** Lemmas: trimming *)

Definition no_leading_space (s : string) : bool :=
  match s with EmptyString => true | String c _ => negb (is_space c) end.

Lemma trimStart_no_leading s : no_leading_space (trimStart s) = true.
Proof. induction s as [|c s IH]; simpl; [done|]. destruct (is_space c) eqn:E; simpl; [done|]. by rewrite E. Qed.

Lemma trimStart_id s : no_leading_space s = true -> trimStart s = s.
Proof. destruct s as [|c s]; simpl; [done|]. by destruct (is_space c). Qed.

Lemma trimStart_split s : exists w, s = w +:+ trimStart s /\ str_forallb is_space w = true.
Proof.
  induction s as [|c s IH]; simpl; [by exists ""|].
  destruct (is_space c) eqn:E; [|by exists ""].
  destruct IH as (w & Hw & Hs). exists (String c w). rewrite app_cons. simpl.
  rewrite E, <- Hw. auto.
Qed.

Lemma trimEnd_split s : exists w, s = trimEnd s +:+ w /\ str_forallb is_space w = true.
Proof.
  destruct (trimStart_split (str_rev s)) as (w & Hw & Hs). exists (str_rev w).
  unfold trimEnd. rewrite <- str_rev_app_distr, <- Hw, str_rev_involutive.
  by rewrite str_forallb_rev.
Qed.

Lemma trimEnd_idemp s : trimEnd (trimEnd s) = trimEnd s.
Proof.
  unfold trimEnd. rewrite str_rev_involutive. f_equal.
  apply trimStart_id, trimStart_no_leading.
Qed.

Lemma trimEnd_keep s c : is_space c = false -> trimEnd (s +:+ String c "") = s +:+ String c "".
Proof.
  intros Hc. unfold trimEnd. rewrite str_rev_app_distr.
  change (str_rev (String c "") +:+ str_rev s) with (String c (str_rev s)). cbn [trimStart].
  by rewrite Hc, str_rev_cons, str_rev_involutive.
Qed.

Lemma no_leading_trimEnd s : no_leading_space s = true -> no_leading_space (trimEnd s) = true.
Proof.
  destruct (trimEnd_split s) as (w & Hw & _). intros H.
  destruct (trimEnd s) as [|c t]; [done|]. rewrite Hw, app_cons in H. exact H.
Qed.

Lemma trim_idemp s : trim (trim s) = trim s.
Proof.
  unfold trim. rewrite (trimStart_id (trimEnd _)); [apply trimEnd_idemp|].
  apply no_leading_trimEnd, trimStart_no_leading.
Qed.

(** ** Lemmas: decimal notation *)

Lemma digit_char_val d : (d < 10)%N -> digit_val (digit_char d) = d.
Proof.
  intros H. unfold digit_val, digit_char, code, char. rewrite N_ascii_embedding by lia. lia.
Qed.

Lemma digit_char_digit d : (d < 10)%N -> is_digit (digit_char d) = true.
Proof.
  intros H. unfold is_digit, in_range, digit_char, code, char. rewrite N_ascii_embedding by lia.
  apply andb_true_iff; split; apply N.leb_le; lia.
Qed.

Lemma show_N_go_val fuel n acc :
  (n < 2 ^ N.of_nat fuel)%N -> digits_val 0 (show_N_go fuel n acc) = digits_val n acc.
Proof.
  revert n acc. induction fuel as [|f IH]; intros n acc Hn; cbn [show_N_go].
  - simpl in Hn. replace n with 0%N by lia. done.
  - destruct (N.ltb_spec n 10) as [Hlt|Hge]; simpl.
    + by rewrite digit_char_val.
    + rewrite IH.
      * simpl. rewrite digit_char_val by (apply N.mod_lt; lia). f_equal.
        pose proof (N.div_mod n 10 ltac:(lia)). lia.
      * rewrite Nat2N.inj_succ, N.pow_succ_r' in Hn.
        apply N.Div0.div_lt_upper_bound. lia.
Qed.

Lemma N_size_bound n : (n < 2 ^ N.of_nat (S (N.size_nat n)))%N.
Proof.
  rewrite Nat2N.inj_succ, N.pow_succ_r'.
  destruct (N.eq_dec n 0%N) as [->|Hn]; [done|].
  assert (n < 2 ^ N.size n)%N by apply N.size_gt.
  replace (N.of_nat (N.size_nat n)) with (N.size n); [lia|].
  destruct n as [|p]; [done|]. simpl. clear. induction p; simpl; rewrite ?IHp; lia.
Qed.

Lemma show_N_val n : digits_val 0 (show_N n) = n.
Proof. unfold show_N. by rewrite show_N_go_val by apply N_size_bound. Qed.

Lemma show_N_inj n m : show_N n = show_N m -> n = m.
Proof. intros H. rewrite <- (show_N_val n), <- (show_N_val m). by rewrite H. Qed.

Lemma show_N_go_digits fuel n acc :
  str_forallb is_digit acc = true -> str_forallb is_digit (show_N_go fuel n acc) = true.
Proof.
  revert n acc. induction fuel as [|f IH]; intros n acc Ha; simpl; [done|].
  destruct (N.ltb_spec n 10) as [Hlt|Hge]; simpl.
  - by rewrite digit_char_digit.
  - apply IH. simpl. rewrite digit_char_digit; [done|]. apply N.mod_lt. lia.
Qed.

Lemma show_N_digits n : str_forallb is_digit (show_N n) = true.
Proof. by apply show_N_go_digits. Qed.

Lemma show_N_go_nonempty fuel n c acc : exists d t, show_N_go fuel n (String c acc) = String d t.
Proof.
  revert n c acc. induction fuel as [|f IH]; intros n c acc; simpl; [eauto|].
  destruct (n <? 10)%N; eauto.
Qed.

Lemma show_N_nonempty n : exists d t, show_N n = String d t.
Proof.
  unfold show_N. cbn [show_N_go]. destruct (n <? 10)%N; [eauto|]. apply show_N_go_nonempty.
Qed.

(** ** Lemmas: joining *)

Lemma join_cons sep p ps : ps <> [] -> join sep (p :: ps) = p +:+ sep +:+ join sep ps.
Proof. by destruct ps. Qed.

Lemma join_app sep ps qs :
  ps <> [] -> qs <> [] -> join sep (ps ++ qs) = join sep ps +:+ sep +:+ join sep qs.
Proof.
  intros Hp Hq. induction ps as [|p ps IH]; [done|]. destruct ps as [|p' ps].
  - cbn [app]. by rewrite join_cons.
  - cbn [app]. rewrite (join_cons sep p (p' :: ps)), (join_cons sep p) by done.
    change (p' :: ps ++ qs) with ((p' :: ps) ++ qs). rewrite IH by done. by rewrite !app_assoc_str.
Qed.

Lemma join_empty_cons p ps : join "" (p :: ps) = p +:+ join "" ps.
Proof. destruct ps; [symmetry; apply app_nil_r_str|done]. Qed.

Lemma join_empty_app ps qs : join "" (ps ++ qs) = join "" ps +:+ join "" qs.
Proof.
  induction ps as [|p ps IH]; [done|]. cbn [app]. rewrite !join_empty_cons, IH. by rewrite app_assoc_str.
Qed.

Lemma str_forallb_join p sep ps :
  str_forallb p sep = true -> Forall (fun s => str_forallb p s = true) ps ->
  str_forallb p (join sep ps) = true.
Proof.
  intros Hs. induction 1 as [|s ps Hp Hps IH]; [done|]. destruct ps as [|s' ps]; [done|].
  rewrite join_cons by done. by rewrite !str_forallb_app, Hp, Hs, IH.
Qed.

Lemma str_snoc_view s : s = "" \/ exists m d, s = m +:+ String d "".
Proof.
  destruct (str_rev s) as [|d m] eqn:E.
  - left. rewrite <- (str_rev_involutive s), E. done.
  - right. exists (str_rev m), d. rewrite <- (str_rev_involutive s), E. by rewrite str_rev_cons.
Qed.
