(* ===== verification/Regex.v ===== *)
(** * ECMAScript regular expressions

    The source validates and redacts with regular-expression literals; this file models
    the part of the language they use: character classes, sequence, ordered alternation,
    greedy and lazy repetition, capture groups, [\b], [^] and [$].  [bt] is the
    specification's backtracking matcher with its continuation, [matches] the declarative
    relation between the position before and after a match, and [lang] the language of an
    expression without assertions.  The matcher is proved equivalent to both. *)

From S2P Require Import Prelude JsString.

Inductive regex :=
  | RChar (p : ascii -> bool)
  | REps
  | RSeq (r1 r2 : regex)
  | RAlt (r1 r2 : regex)
  | RStar (greedy : bool) (r : regex)
  | RGroup (n : nat) (r : regex)
  | RWordB
  | RStart
  | REnd.

(** A position of the input: the code unit before it, the rest, the captures so far. *)
Record pos := Pos { prev : option ascii; rest : string; caps : list (nat * string) }.

Definition remaining (st : pos) : nat := String.length (rest st).

(** [\b]: exactly one side of the position is a word character. *)
Definition word_opt (c : option ascii) : bool :=
  match c with Some a => is_word a | None => false end.
Definition hd_opt (s : string) : option ascii :=
  match s with String c _ => Some c | EmptyString => None end.
Definition at_word_boundary (st : pos) : bool :=
  xorb (word_opt (prev st)) (word_opt (hd_opt (rest st))).

(** The text between two positions of the same input. *)
Definition between (st st' : pos) : string :=
  str_take (remaining st - remaining st') (rest st).

(** ** The backtracking matcher *)
Section matcher.
Context {A : Type}.

(** One more iteration or leave the loop, in the order the quantifier prefers; an
    iteration that consumes nothing is refused.  [n] iterations suffice when [n] exceeds
    the length of the remaining input. *)
Fixpoint star_loop (greedy : bool) (step : pos -> (pos -> option A) -> option A)
    (n : nat) (st : pos) (k : pos -> option A) : option A :=
  match n with
  | O => k st
  | S n' =>
      let next st' :=
        if (remaining st' <? remaining st)%nat then star_loop greedy step n' st' k else None in
      if greedy
      then match step st next with Some a => Some a | None => k st end
      else match k st with Some a => Some a | None => step st next end
  end.

Fixpoint bt (r : regex) (st : pos) (k : pos -> option A) : option A :=
  match r with
  | RChar p =>
      match rest st with
      | String c s => if p c then k (Pos (Some c) s (caps st)) else None
      | EmptyString => None
      end
  | REps => k st
  | RSeq r1 r2 => bt r1 st (fun st' => bt r2 st' k)
  | RAlt r1 r2 => match bt r1 st k with Some a => Some a | None => bt r2 st k end
  | RStar g r1 => star_loop g (bt r1) (S (remaining st)) st k
  | RGroup n r1 =>
      bt r1 st (fun st' => k (Pos (prev st') (rest st') ((n, between st st') :: caps st')))
  | RWordB => if at_word_boundary st then k st else None
  | RStart => match prev st with None => k st | Some _ => None end
  | REnd => match rest st with EmptyString => k st | String _ _ => None end
  end.
End matcher.

(** ** Using a regular expression *)

(** A match starting exactly here. *)
Definition exec_here (r : regex) (p : option ascii) (s : string) : option pos :=
  bt r (Pos p s []) Some.

(** [r.test(s)]: a match somewhere, scanning from the left. *)
Fixpoint test_from (r : regex) (p : option ascii) (s : string) : bool :=
  match exec_here r p s with
  | Some _ => true
  | None => match s with String c s' => test_from r (Some c) s' | EmptyString => false end
  end.
Definition test (r : regex) (s : string) : bool := test_from r None s.

Definition capture (n : nat) (cs : list (nat * string)) : option string :=
  snd <$> js_find (fun c => Nat.eqb (fst c) n) cs.

(** [s.replace(r, f)] for a global [r]: the replacer receives the captures of the match
    and its offset.  An empty match advances by one code unit.  [fuel] exceeds the length
    of the input, and every round consumes at least one code unit or stops. *)
Fixpoint replace_from (fuel : nat) (r : regex) (f : list (nat * string) -> nat -> string)
    (off : nat) (p : option ascii) (s : string) : string :=
  match fuel with
  | O => s
  | S fuel' =>
      let skip :=
        match s with
        | String c s' => String c (replace_from fuel' r f (S off) (Some c) s')
        | EmptyString => EmptyString
        end in
      match exec_here r p s with
      | Some st' =>
          if (remaining st' <? String.length s)%nat
          then f (caps st') off +:+
               replace_from fuel' r f (off + (String.length s - remaining st')) (prev st') (rest st')
          else f (caps st') off +:+ skip
      | None => skip
      end
  end.
Definition replace_all (r : regex) (f : list (nat * string) -> nat -> string) (s : string) : string :=
  replace_from (S (String.length s)) r f 0 None s.

(** ** Notation of the literals *)

Definition rchar (c : ascii) : regex := RChar (Ascii.eqb c).
Fixpoint rlit (s : string) : regex :=
  match s with
  | EmptyString => REps
  | String c s' => RSeq (rchar c) (rlit s')
  end.

(** A letter under the [i] flag matches both its cases. *)
Definition eq_fold (c d : ascii) : bool :=
  Ascii.eqb c d || (is_alpha c && is_alpha d && Ascii.eqb (lower_char c) (lower_char d)).
Definition rchar_i (c : ascii) : regex := RChar (eq_fold c).
Fixpoint rlit_i (s : string) : regex :=
  match s with
  | EmptyString => REps
  | String c s' => RSeq (rchar_i c) (rlit_i s')
  end.

Definition ropt (r : regex) : regex := RAlt r REps.
Definition rplus (r : regex) : regex := RSeq r (RStar true r).
Definition rstar (r : regex) : regex := RStar true r.
Definition rlazy (r : regex) : regex := RStar false r.
Fixpoint rexact (n : nat) (r : regex) : regex :=
  match n with O => REps | S n' => RSeq r (rexact n' r) end.
Fixpoint rupto (n : nat) (r : regex) : regex :=
  match n with O => REps | S n' => ropt (RSeq r (rupto n' r)) end.
Fixpoint ralts (rs : list regex) : regex :=
  match rs with [] => REps | [r] => r | r :: rs' => RAlt r (ralts rs') end.
Fixpoint rseqs (rs : list regex) : regex :=
  match rs with [] => REps | [r] => r | r :: rs' => RSeq r (rseqs rs') end.

(** [^r$] *)
Definition ranchored (r : regex) : regex := RSeq RStart (RSeq r REnd).

Definition any_char : ascii -> bool := fun _ => true.
Definition not_line_end (c : ascii) : bool := negb (Ascii.eqb c LF || Ascii.eqb c CR).

(** ** The declarative relation *)

Inductive matches : regex -> pos -> pos -> Prop :=
  | M_char p c s pv cs :
      p c = true -> matches (RChar p) (Pos pv (String c s) cs) (Pos (Some c) s cs)
  | M_eps st : matches REps st st
  | M_seq r1 r2 st st1 st2 :
      matches r1 st st1 -> matches r2 st1 st2 -> matches (RSeq r1 r2) st st2
  | M_alt_l r1 r2 st st' : matches r1 st st' -> matches (RAlt r1 r2) st st'
  | M_alt_r r1 r2 st st' : matches r2 st st' -> matches (RAlt r1 r2) st st'
  | M_star_nil g r st : matches (RStar g r) st st
  | M_star_cons g r st st1 st2 :
      matches r st st1 -> (remaining st1 < remaining st)%nat ->
      matches (RStar g r) st1 st2 -> matches (RStar g r) st st2
  | M_group n r st st' :
      matches r st st' ->
      matches (RGroup n r) st (Pos (prev st') (rest st') ((n, between st st') :: caps st'))
  | M_wordb st : at_word_boundary st = true -> matches RWordB st st
  | M_start s cs : matches RStart (Pos None s cs) (Pos None s cs)
  | M_end pv cs : matches REnd (Pos pv "" cs) (Pos pv "" cs).
#[export] Hint Constructors matches : js.

(** [step] finds [R]-successors accepted by the continuation, and all of them. *)
Definition step_spec {A} (R : pos -> pos -> Prop)
    (step : pos -> (pos -> option A) -> option A) : Prop :=
  forall st k,
    (forall a, step st k = Some a -> exists st', R st st' /\ k st' = Some a) /\
    (step st k = None -> forall st', R st st' -> k st' = None).

Lemma star_loop_sound {A} g r (step : pos -> (pos -> option A) -> option A) n st k a :
  step_spec (matches r) step ->
  star_loop g step n st k = Some a ->
  exists st', matches (RStar g r) st st' /\ k st' = Some a.
Proof.
  intros Hstep. revert st a. induction n as [|n IH]; intros st a H; simpl in H; [by eauto with js|].
  set (next := fun st' => if (remaining st' <? remaining st)%nat
                          then star_loop g step n st' k else None) in H.
  assert (Hnext : forall b, step st next = Some b ->
      exists st', matches (RStar g r) st st' /\ k st' = Some b).
  { intros b Hb. apply Hstep in Hb as (st1 & Hm & Hb). unfold next in Hb.
    destruct (Nat.ltb_spec (remaining st1) (remaining st)) as [Hlt|]; [|done].
    destruct (IH _ _ Hb) as (st2 & Hm2 & Hk). eauto with js. }
  destruct g, (step st next) as [b|] eqn:Hs, (k st) as [c|] eqn:Hk; simplify_eq; eauto with js.
Qed.

Lemma star_loop_complete {A} g r (step : pos -> (pos -> option A) -> option A) n st k :
  step_spec (matches r) step -> (remaining st < n)%nat ->
  star_loop g step n st k = None ->
  forall st', matches (RStar g r) st st' -> k st' = None.
Proof.
  intros Hstep. revert st. induction n as [|n IH]; intros st Hn H; [lia|]. simpl in H.
  set (next := fun st' => if (remaining st' <? remaining st)%nat
                          then star_loop g step n st' k else None) in H.
  assert (Hk : k st = None /\ step st next = None).
  { destruct g, (step st next), (k st); simplify_eq; auto. }
  destruct Hk as [Hk Hs]. intros st' Hm. inversion Hm as [| | | | |g' r' st0 Heq|g' r' st0 st1 st2 Hm1 Hlt Hm2| | | |]; subst; [done|].
  pose proof (proj2 (Hstep _ _) Hs _ Hm1) as Hnx. unfold next in Hnx.
  destruct (Nat.ltb_spec (remaining st1) (remaining st)); [|lia].
  eapply IH; [|exact Hnx|exact Hm2]. lia.
Qed.

(** The matcher explores exactly the positions [matches] relates to its own. *)
Lemma bt_spec {A} (r : regex) : step_spec (A := A) (matches r) (bt r).
Proof.
  induction r as [p| |r1 IH1 r2 IH2|r1 IH1 r2 IH2|g r IH|n r IH| | |]; intros st k; simpl.
  - destruct st as [pv [|c s] cs]; simpl; [split; [done|]; intros _ st' H; inversion H|].
    destruct (p c) eqn:Hp; split; try done; eauto with js;
      intros Hk st' H; invert H; congruence.
  - split; [eauto with js|]. intros Hk st' H. by invert H.
  - split.
    + intros a H. apply IH1 in H as (st1 & H1 & H). apply IH2 in H as (st2 & H2 & H). eauto with js.
    + intros H st' Hm. invert Hm.
      match goal with H1 : matches r1 _ _ |- _ => apply (proj2 (IH1 _ _) H) in H1 as Hn end.
      by eapply (proj2 (IH2 _ _) Hn).
  - destruct (bt r1 st k) as [b|] eqn:H1; split.
    + intros a [= <-]. apply IH1 in H1 as (st1 & ? & ?). eauto with js.
    + done.
    + intros a H2. apply IH2 in H2 as (st1 & ? & ?). eauto with js.
    + intros H2 st' Hm. invert Hm; [by eapply (proj2 (IH1 _ _) H1) | by eapply (proj2 (IH2 _ _) H2)].
  - split.
    + intros a H. by eapply (star_loop_sound g r (bt r) (S (remaining st))) in H.
    + intros H. eapply (star_loop_complete g r (bt r) (S (remaining st))); [done|lia|exact H].
  - split.
    + intros a H. apply IH in H as (st1 & H1 & H). eauto with js.
    + intros H st' Hm. invert Hm.
      match goal with H1 : matches r _ _ |- _ => by apply (proj2 (IH _ _) H) in H1 end.
  - destruct (at_word_boundary st) eqn:Hb; split; try done; eauto with js;
      intros Hk st' H; invert H; congruence.
  - destruct st as [[c|] s cs]; simpl; split; try done; eauto with js;
      intros Hk st' H; by invert H.
  - destruct st as [pv [|c s] cs]; simpl; split; try done; eauto with js;
      intros Hk st' H; by invert H.
Qed.

Lemma exec_here_some r p s st' : exec_here r p s = Some st' -> matches r (Pos p s []) st'.
Proof. intros H. apply bt_spec in H as (st & Hm & [= ->]). done. Qed.

Lemma exec_here_none r p s : exec_here r p s = None <-> forall st', ~ matches r (Pos p s []) st'.
Proof.
  split.
  - intros H st' Hm. by pose proof (proj2 (bt_spec r _ _) H _ Hm).
  - intros H. destruct (exec_here r p s) as [st'|] eqn:E; [|done].
    by apply exec_here_some, H in E.
Qed.

(** ** [test] *)

(** The code unit before the position reached after reading [s] from [p]. *)
Fixpoint last_opt (p : option ascii) (s : string) : option ascii :=
  match s with EmptyString => p | String c s' => last_opt (Some c) s' end.

Lemma last_opt_some c s : last_opt None (String c s) <> None.
Proof. simpl. revert c. induction s as [|d s IH]; intros c; simpl; [done|apply IH]. Qed.

Lemma test_from_spec r p s :
  test_from r p s = true <->
  exists a b st', s = a +:+ b /\ matches r (Pos (last_opt p a) b []) st'.
Proof.
  revert p. induction s as [|c s IH]; intros p; simpl;
    destruct (exec_here r p _) as [st'|] eqn:E.
  - split; [intros _|done]. apply exec_here_some in E. by exists "", "", st'.
  - split; [done|]. intros (a & b & st' & Hab & Hm). destruct a; [|done].
    change ("" = b) in Hab. subst b. exfalso. revert Hm. by apply exec_here_none.
  - split; [intros _|done]. apply exec_here_some in E. by exists "", (String c s), st'.
  - rewrite IH. split.
    + intros (a & b & st' & -> & Hm). by exists (String c a), b, st'.
    + intros (a & b & st' & Hab & Hm). destruct a as [|d a].
      * change (String c s = b) in Hab. subst b. exfalso. revert Hm. by apply exec_here_none.
      * rewrite app_cons in Hab. injection Hab as -> ->. eauto.
Qed.

Lemma test_spec r s :
  test r s = true <->
  exists a b st', s = a +:+ b /\ matches r (Pos (last_opt None a) b []) st'.
Proof. apply test_from_spec. Qed.

(** ** Languages *)

(** The words of an expression; assertions have none, so [lang] is about the others. *)
Inductive lang : regex -> string -> Prop :=
  | L_char p c : p c = true -> lang (RChar p) (String c "")
  | L_eps : lang REps ""
  | L_seq r1 r2 s t : lang r1 s -> lang r2 t -> lang (RSeq r1 r2) (s +:+ t)
  | L_alt_l r1 r2 s : lang r1 s -> lang (RAlt r1 r2) s
  | L_alt_r r1 r2 s : lang r2 s -> lang (RAlt r1 r2) s
  | L_star_nil g r : lang (RStar g r) ""
  | L_star_cons g r s t : lang r s -> lang (RStar g r) t -> lang (RStar g r) (s +:+ t)
  | L_group n r s : lang r s -> lang (RGroup n r) s.
#[export] Hint Constructors lang : js.

Fixpoint assertion_free (r : regex) : bool :=
  match r with
  | RChar _ | REps => true
  | RSeq r1 r2 | RAlt r1 r2 => assertion_free r1 && assertion_free r2
  | RStar _ r1 | RGroup _ r1 => assertion_free r1
  | RWordB | RStart | REnd => false
  end.

Lemma last_opt_app p s t : last_opt p (s +:+ t) = last_opt (last_opt p s) t.
Proof. revert p. induction s as [|c s IH]; intros p; [done|]. apply IH. Qed.

Lemma matches_lang r st st' :
  assertion_free r = true -> matches r st st' ->
  exists t, rest st = t +:+ rest st' /\ prev st' = last_opt (prev st) t /\ lang r t.
Proof.
  intros Haf Hm. induction Hm; simpl in *; try done.
  - eexists (String c ""). eauto with js.
  - exists "". eauto with js.
  - apply andb_true_iff in Haf as [Ha1 Ha2].
    destruct (IHHm1 Ha1) as (t1 & -> & Hp1 & Hl1). destruct (IHHm2 Ha2) as (t2 & -> & Hp2 & Hl2).
    exists (t1 +:+ t2). rewrite app_assoc_str, last_opt_app, <- Hp1. eauto with js.
  - apply andb_true_iff in Haf as [Ha1 Ha2]. destruct IHHm as (t & -> & ? & Hl); eauto with js.
  - apply andb_true_iff in Haf as [Ha1 Ha2]. destruct IHHm as (t & -> & ? & Hl); eauto with js.
  - exists "". eauto with js.
  - destruct (IHHm1 Haf) as (t1 & -> & Hp1 & Hl1). destruct (IHHm2 Haf) as (t2 & -> & Hp2 & Hl2).
    exists (t1 +:+ t2). rewrite app_assoc_str, last_opt_app, <- Hp1. eauto with js.
  - destruct (IHHm Haf) as (t & -> & ? & Hl). eauto 6 with js.
Qed.

Lemma lang_matches r t :
  lang r t -> forall pv u cs, exists cs', matches r (Pos pv (t +:+ u) cs) (Pos (last_opt pv t) u cs').
Proof.
  induction 1 as [p c Hp| |r1 r2 s t _ IH1 _ IH2|r1 r2 s _ IH|r1 r2 s _ IH|g r|g r s t _ IH1 _ IH2|n r s _ IH];
    intros pv u cs.
  - exists cs. by constructor.
  - exists cs. constructor.
  - destruct (IH1 pv (t +:+ u) cs) as (cs1 & H1). destruct (IH2 (last_opt pv s) u cs1) as (cs2 & H2).
    exists cs2. rewrite app_assoc_str, last_opt_app. eauto with js.
  - destruct (IH pv u cs) as (cs1 & H1). eauto with js.
  - destruct (IH pv u cs) as (cs1 & H1). eauto with js.
  - exists cs. constructor.
  - destruct s as [|c s]; [by apply IH2|].
    destruct (IH1 pv (t +:+ u) cs) as (cs1 & H1).
    destruct (IH2 (last_opt pv (String c s)) u cs1) as (cs2 & H2).
    exists cs2. rewrite app_assoc_str, last_opt_app. eapply M_star_cons; [exact H1| |exact H2].
    unfold remaining. cbn [rest]. rewrite !length_app_str. simpl. lia.
  - destruct (IH pv u cs) as (cs1 & H1). eexists. apply (M_group n) in H1. exact H1.
Qed.

(** An anchored expression accepts exactly the words of its body. *)
Theorem test_anchored r s :
  assertion_free r = true -> test (ranchored r) s = true <-> lang r s.
Proof.
  intros Haf. rewrite test_spec. split.
  - intros (a & b & st' & -> & Hm). invert Hm.
    assert (Ha : last_opt None a = None) by (match goal with H : matches RStart _ _ |- _ => by inversion H end).
    match goal with H : matches RStart _ _ |- _ => invert H end.
    match goal with H : matches (RSeq r REnd) _ _ |- _ => invert H end.
    match goal with H : matches REnd _ _ |- _ => invert H end.
    match goal with H : matches r _ _ |- _ => apply matches_lang in H as (t & Ht & _ & Hl); [|done] end.
    subst. simpl in Ht. rewrite app_nil_r_str in Ht. subst t.
    destruct a as [|c a]; [exact Hl|].
    by apply last_opt_some in Ha.
  - intros Hl. destruct (lang_matches r s Hl None "" []) as (cs & Hm). rewrite app_nil_r_str in Hm.
    exists "", s. eexists. split; [done|]. eapply M_seq; [apply M_start|]. eauto with js.
Qed.

(** ** Every consumed code unit belongs to some class of the expression *)

Fixpoint regex_within (p : ascii -> bool) (r : regex) : bool :=
  match r with
  | RChar q => forallb (fun c => implb (q c) (p c)) all_chars
  | RSeq r1 r2 | RAlt r1 r2 => regex_within p r1 && regex_within p r2
  | RStar _ r1 | RGroup _ r1 => regex_within p r1
  | REps | RWordB | RStart | REnd => true
  end.

Lemma regex_within_char p q c :
  regex_within p (RChar q) = true -> q c = true -> p c = true.
Proof.
  intros H Hq. pose proof (all_chars_forallb (fun c => implb (q c) (p c)) c H) as Hi.
  simpl in Hi. by rewrite Hq in Hi.
Qed.

Lemma lang_within p r t :
  regex_within p r = true -> lang r t -> str_forallb p t = true.
Proof.
  intros Hw Hl. induction Hl; cbn [regex_within] in Hw; bool_hyps; rewrite ?str_forallb_app; auto.
  - cbn [str_forallb]. by erewrite regex_within_char.
  - by rewrite IHHl1, IHHl2.
  - by rewrite IHHl1, IHHl2.
Qed.

Lemma test_anchored_within p r s :
  assertion_free r = true -> regex_within p r = true ->
  test (ranchored r) s = true -> str_forallb p s = true.
Proof. intros Haf Hw Ht. eapply lang_within; [exact Hw|]. by apply test_anchored. Qed.

(** ** Replacement *)

Lemma replace_from_id fuel r f off p s :
  test_from r p s = false -> replace_from fuel r f off p s = s.
Proof.
  revert off p s. induction fuel as [|fuel IH]; intros off p s H; [done|].
  destruct s as [|c s]; simpl in *; destruct (exec_here r p _); try done. by rewrite IH.
Qed.

(** A text without a match is left alone. *)
Lemma replace_all_id r f s : test r s = false -> replace_all r f s = s.
Proof. apply replace_from_id. Qed.

(** One round at a non-empty match. *)
Lemma replace_from_match fuel r f off p s st' :
  exec_here r p s = Some st' -> (remaining st' < String.length s)%nat ->
  replace_from (S fuel) r f off p s =
  f (caps st') off +:+
  replace_from fuel r f (off + (String.length s - remaining st')) (prev st') (rest st').
Proof. intros He Hlt. cbn [replace_from]. rewrite He. by destruct (Nat.ltb_spec (remaining st') (String.length s)); [|lia]. Qed.

Lemma replace_from_skip fuel r f off p c s :
  exec_here r p (String c s) = None ->
  replace_from (S fuel) r f off p (String c s) = String c (replace_from fuel r f (S off) (Some c) s).
Proof. intros He. cbn [replace_from]. by rewrite He. Qed.

(** Skipping a prefix keeps the absence of matches. *)
Lemma test_from_drop r p s t : test_from r p (s +:+ t) = false -> test_from r (last_opt p s) t = false.
Proof.
  revert p. induction s as [|c s IH]; intros p H; [done|].
  rewrite app_cons in H. simpl in *. apply IH. by destruct (exec_here r p _).
Qed.

(** ** Characters every match consumes *)

(** Every match of the expression consumes a character of the class. *)
Fixpoint needs (q : ascii -> bool) (r : regex) : bool :=
  match r with
  | RChar p => forallb (fun c => implb (p c) (q c)) all_chars
  | RSeq r1 r2 => needs q r1 || needs q r2
  | RAlt r1 r2 => needs q r1 && needs q r2
  | RGroup _ r1 => needs q r1
  | REps | RStar _ _ | RWordB | RStart | REnd => false
  end.

Lemma matches_needs q r st st' :
  matches r st st' ->
  exists t, rest st = t +:+ rest st' /\ (needs q r = true -> str_existsb q t = true).
Proof.
  induction 1 as [p c s pv cs Hp|st|r1 r2 st st1 st2 _ (t1 & He1 & H1) _ (t2 & He2 & H2)
    |r1 r2 st st' _ (t & He & H1)|r1 r2 st st' _ (t & He & H1)|g r st
    |g r st st1 st2 _ (t1 & He1 & H1) _ _ (t2 & He2 & H2)|n r st st' _ (t & He & H1)|st|s cs|pv cs].
  - exists (String c ""). split; [done|]. intros H. cbn [str_existsb].
    pose proof (all_chars_forallb _ c H) as Hc. simpl in Hc. rewrite Hp in Hc. simpl in Hc. by rewrite Hc.
  - by exists "".
  - exists (t1 +:+ t2). rewrite He1, He2, app_assoc_str. split; [done|]. simpl. rewrite str_existsb_app.
    intros [H|H]%orb_true_iff; [by rewrite (H1 H)|by rewrite (H2 H), orb_true_r].
  - exists t. split; [done|]. simpl. by intros [H _]%andb_true_iff; auto.
  - exists t. split; [done|]. simpl. by intros [_ H]%andb_true_iff; auto.
  - by exists "".
  - exists (t1 +:+ t2). rewrite He1, He2, app_assoc_str. by split.
  - exists t. split; [done|]. exact H1.
  - by exists "".
  - by exists "".
  - by exists "".
Qed.

Lemma test_needs q r s : needs q r = true -> str_existsb q s = false -> test r s = false.
Proof.
  intros Hr Hs. destruct (test r s) eqn:E; [|done]. apply test_spec in E as (a & b & st' & -> & Hm).
  destruct (matches_needs q _ _ _ Hm) as (t & Ht & Hn). simpl in Ht. subst b.
  rewrite !str_existsb_app, (Hn Hr) in Hs. by rewrite orb_true_r in Hs.
Qed.

(** ** Words of literals *)

Lemma lang_seq_inv r1 r2 s : lang (RSeq r1 r2) s -> exists a b, s = a +:+ b /\ lang r1 a /\ lang r2 b.
Proof. intros H. invert H. eauto. Qed.

Lemma lang_char_inv p s : lang (RChar p) s -> exists c, s = String c "" /\ p c = true.
Proof. intros H. invert H. eauto. Qed.

Lemma lang_lit s t : lang (rlit s) t -> t = s.
Proof.
  revert t. induction s as [|c s IH]; intros t H; simpl in H; [by invert H|].
  apply lang_seq_inv in H as (a & b & -> & Ha & Hb).
  apply lang_char_inv in Ha as (d & -> & Hd). apply Ascii.eqb_eq in Hd as <-.
  by rewrite (IH b Hb).
Qed.

Lemma lang_star_forallb g p s : lang (RStar g (RChar p)) s -> str_forallb p s = true.
Proof.
  remember (RStar g (RChar p)) as r eqn:Hr. induction 1; try discriminate; [done|].
  injection Hr as -> ->. apply lang_char_inv in H as (c & -> & Hc).
  rewrite str_forallb_app. simpl. by rewrite Hc, IHlang2.
Qed.

Lemma lang_star_chars g p s : str_forallb p s = true -> lang (RStar g (RChar p)) s.
Proof.
  induction s as [|c s IH]; simpl; [constructor|]. intros H. bool_hyps.
  apply (L_star_cons g _ (String c "") s); eauto with js.
Qed.

Lemma lang_plus_inv p s : lang (rplus (RChar p)) s -> exists c t, s = String c t /\ p c = true /\ str_forallb p t = true.
Proof.
  intros H. apply lang_seq_inv in H as (a & b & -> & Ha & Hb).
  apply lang_char_inv in Ha as (c & -> & Hc). apply lang_star_forallb in Hb. by exists c, b.
Qed.

Lemma lang_plus_chars p c t : p c = true -> str_forallb p t = true -> lang (rplus (RChar p)) (String c t).
Proof. intros Hc Ht. apply (L_seq _ _ (String c "") t); [by constructor|by apply lang_star_chars]. Qed.

Lemma lang_opt_iff r s : lang (ropt r) s <-> s = "" \/ lang r s.
Proof.
  split; [intros H; invert H; [auto|]; left; by match goal with H : lang REps _ |- _ => invert H end|].
  intros [-> | H]; [apply L_alt_r; constructor|by apply L_alt_l].
Qed.

Lemma lang_group_iff n r s : lang (RGroup n r) s <-> lang r s.
Proof. split; [intros H; by invert H|by constructor]. Qed.

Lemma lang_seq_iff r1 r2 s : lang (RSeq r1 r2) s <-> exists a b, s = a +:+ b /\ lang r1 a /\ lang r2 b.
Proof. split; [apply lang_seq_inv|]. intros (a & b & -> & Ha & Hb). by constructor. Qed.

Lemma lang_char_iff p s : lang (RChar p) s <-> exists c, s = String c "" /\ p c = true.
Proof. split; [apply lang_char_inv|]. intros (c & -> & Hc). by constructor. Qed.

Lemma lang_plus_iff p s :
  lang (rplus (RChar p)) s <-> exists c t, s = String c t /\ p c = true /\ str_forallb p t = true.
Proof. split; [apply lang_plus_inv|]. intros (c & t & -> & Hc & Ht). by apply lang_plus_chars. Qed.

Lemma lang_plus_nonempty p s : lang (rplus (RChar p)) s <-> s <> "" /\ str_forallb p s = true.
Proof.
  rewrite lang_plus_iff. split.
  - intros (c & t & -> & Hc & Ht). simpl. by rewrite Hc.
  - destruct s as [|c s]; intros [Hne H]; [done|]. simpl in H. bool_hyps. eauto.
Qed.

Lemma lang_star_iff g p s : lang (RStar g (RChar p)) s <-> str_forallb p s = true.
Proof. split; [apply lang_star_forallb|apply lang_star_chars]. Qed.

Lemma lang_rchar_iff c s : lang (rchar c) s <-> s = String c "".
Proof.
  unfold rchar. rewrite lang_char_iff. split.
  - intros (d & -> & Hd). by apply Ascii.eqb_eq in Hd as ->.
  - intros ->. exists c. by rewrite Ascii.eqb_refl.
Qed.

Lemma lang_lit_iff s t : lang (rlit s) t <-> t = s.
Proof.
  split; [apply lang_lit|]. intros ->. induction s as [|c s IH]; simpl; [constructor|].
  apply (L_seq _ _ (String c "") s); [by apply lang_rchar_iff|done].
Qed.

(** [r{0,n}] of a class: at most [n] of its characters. *)
Lemma lang_upto_iff n p s :
  lang (rupto n (RChar p)) s <-> (String.length s <= n)%nat /\ str_forallb p s = true.
Proof.
  revert s. induction n as [|n IH]; intros s; cbn [rupto].
  - split; [intros H; by invert H|]. destruct s; simpl; intros [Hl _]; [constructor|lia].
  - rewrite lang_opt_iff, lang_seq_iff. split.
    + intros [-> | (a & b & -> & Ha & Hb)]; [simpl; split; [lia|done]|].
      apply lang_char_iff in Ha as (c & -> & Hc). apply IH in Hb as [Hl Hb].
      rewrite app_cons, app_nil_l_str. simpl. rewrite Hc. split; [lia|done].
    + destruct s as [|c s]; intros [Hl H]; [by left|right]. simpl in H, Hl. bool_hyps.
      exists (String c ""), s. split; [done|]. rewrite lang_char_iff, IH.
      split; [eauto|split; [lia|done]].
Qed.

(** The iterations of a star. *)
Lemma lang_star_words g r s :
  lang (RStar g r) s <-> exists ws, Forall (lang r) ws /\ s = join "" ws.
Proof.
  split.
  - remember (RStar g r) as r0 eqn:Hr. induction 1; try discriminate; injection Hr as -> ->.
    + exists []. by split; [constructor|].
    + destruct IHlang2 as (ws & Hws & ->); [done|]. exists (s :: ws). split; [by constructor|].
      destruct ws; [apply app_nil_r_str|done].
  - intros (ws & Hws & ->). induction Hws as [|w ws Hw _ IH]; [constructor|].
    replace (join "" (w :: ws)) with (w +:+ join "" ws) by (destruct ws; [apply app_nil_r_str|done]).
    by constructor.
Qed.
