(* ===== verification/JsValue.v ===== *)
(** * JavaScript values

    [jsval] is what the source calls [unknown]: the values its data passes through at run
    time.  Objects are lists of own properties in insertion order with distinct keys, and a
    [Map] is the same list of entries.  Numbers are exact: an integer, a non-integer decimal
    [m / 10^k] in lowest terms, NaN or an infinity; the rounding of very long literals to
    double precision and the sign of zero are not modelled.  A [Date] is its time value in
    milliseconds, [None] for an invalid one. *)

From S2P Require Import Prelude JsString.

Inductive jsnum :=
  | NInt (z : Z)
  | NDec (m : Z) (k : positive)
  | NNaN
  | NInf (neg : bool).

#[export] Instance jsnum_eq_dec : EqDecision jsnum.
Proof. solve_decision. Defined.

Unset Elimination Schemes.
Inductive jsval :=
  | JUndef
  | JNull
  | JBool (b : bool)
  | JNum (n : jsnum)
  | JStr (s : string)
  | JDate (t : option Z)
  | JArr (l : list jsval)
  | JObj (o : list (string * jsval)).
Set Elimination Schemes.

Abbreviation obj := (list (string * jsval)).

(** Induction with the hypothesis on every element and every property value. *)
Section jsval_ind.
Variable P : jsval -> Prop.
Hypothesis HUndef : P JUndef.
Hypothesis HNull : P JNull.
Hypothesis HBool : forall b, P (JBool b).
Hypothesis HNum : forall n, P (JNum n).
Hypothesis HStr : forall s, P (JStr s).
Hypothesis HDate : forall t, P (JDate t).
Hypothesis HArr : forall l, Forall P l -> P (JArr l).
Hypothesis HObj : forall o, Forall (fun kv => P (snd kv)) o -> P (JObj o).

Fixpoint jsval_ind (v : jsval) : P v :=
  match v with
  | JUndef => HUndef
  | JNull => HNull
  | JBool b => HBool b
  | JNum n => HNum n
  | JStr s => HStr s
  | JDate t => HDate t
  | JArr l =>
      HArr l ((fix all (l : list jsval) : Forall P l :=
        match l with
        | [] => List.Forall_nil _
        | x :: l' => @List.Forall_cons _ P x l' (jsval_ind x) (all l')
        end) l)
  | JObj o =>
      HObj o ((fix all (o : obj) : Forall (fun kv => P (snd kv)) o :=
        match o with
        | [] => List.Forall_nil _
        | (k, x) :: o' => @List.Forall_cons _ (fun kv => P (snd kv)) (k, x) o' (jsval_ind x) (all o')
        end) o)
  end.
End jsval_ind.

(** ** Numbers *)

(** Digits at the front of a string, and the rest. *)
Fixpoint span_digits (s : string) : string * string :=
  match s with
  | String c s' =>
      if is_digit c then let '(d, r) := span_digits s' in (String c d, r) else ("", s)
  | EmptyString => ("", "")
  end.

(** [m / 10^k] in lowest terms. *)
Fixpoint mk_dec (fuel : nat) (m : Z) (k : nat) : jsnum :=
  match fuel, k with
  | S f, S k' => if m mod 10 =? 0 then mk_dec f (m / 10) k' else NDec m (Pos.of_nat k)
  | _, _ => NInt m
  end.
Definition mk_num (m : Z) (e : Z) : jsnum :=
  if 0 <=? e then NInt (m * 10 ^ e) else mk_dec (S (Z.to_nat (- e))) m (Z.to_nat (- e)).

(** The exponent part of a decimal literal: [None] when malformed. *)
Definition parse_exponent (s : string) : option (Z * string) :=
  match s with
  | String c s' =>
      if Ascii.eqb c "e" || Ascii.eqb c "E" then
        let '(neg, s'') :=
          match s' with
          | String "-" t => (true, t)
          | String "+" t => (false, t)
          | _ => (false, s')
          end in
        let '(d, r) := span_digits s'' in
        if decide (d = "") then None
        else let v := Z.of_N (digits_val 0 d) in Some (if neg then - v else v, r)
      else Some (0, s)
  | EmptyString => Some (0, s)
  end.

(** The digits after an optional point. *)
Definition parse_fraction (s : string) : string * string :=
  match eat "." s with
  | Some s' => span_digits s'
  | None => ("", s)
  end.

Definition signed (neg : bool) (z : Z) : Z := if neg then - z else z.

(** StrUnsignedDecimalLiteral: at least one digit before or after the point. *)
Definition parse_decimal (neg : bool) (s : string) : jsnum :=
  if decide (s = "Infinity") then NInf neg else
  let '(ip, s1) := span_digits s in
  let '(fp, s2) := parse_fraction s1 in
  if decide (ip = "" /\ fp = "") then NNaN else
  match parse_exponent s2 with
  | Some (e, "") =>
      mk_num (signed neg (Z.of_N (digits_val 0 (ip +:+ fp)))) (e - Z.of_nat (String.length fp))
  | _ => NNaN
  end.

Definition hex_val (c : ascii) : option N :=
  if is_digit c then Some (code c - 48)%N
  else if in_range 97 102 c then Some (code c - 87)%N
  else if in_range 65 70 c then Some (code c - 55)%N
  else None.

Fixpoint parse_radix (base : N) (acc : N) (s : string) : option N :=
  match s with
  | EmptyString => Some acc
  | String c s' =>
      match hex_val c with
      | Some d => if (d <? base)%N then parse_radix base (base * acc + d) s' else None
      | None => None
      end
  end.

Definition radix_literal (base : N) (s : string) : jsnum :=
  match s with
  | EmptyString => NNaN
  | _ => match parse_radix base 0 s with Some n => NInt (Z.of_N n) | None => NNaN end
  end.

(** [Number(s)] for a string [s]. *)
Definition toNumber (s : string) : jsnum :=
  let t := trim s in
  if decide (t = "") then NInt 0 else
  match t with
  | String "0" (String x u) =>
      if Ascii.eqb x "x" || Ascii.eqb x "X" then radix_literal 16 u
      else if Ascii.eqb x "o" || Ascii.eqb x "O" then radix_literal 8 u
      else if Ascii.eqb x "b" || Ascii.eqb x "B" then radix_literal 2 u
      else parse_decimal false t
  | String "+" u => parse_decimal false u
  | String "-" u => parse_decimal true u
  | _ => parse_decimal false t
  end.

Definition is_nan (n : jsnum) : bool := match n with NNaN => true | _ => false end.

(** ** Objects and maps *)

Fixpoint obj_get {A} (k : string) (o : list (string * A)) : option A :=
  match o with
  | [] => None
  | (k', v) :: o' => if decide (k = k') then Some v else obj_get k o'
  end.

(** Assignment keeps the place of an existing key and appends a new one. *)
Fixpoint obj_set {A} (k : string) (v : A) (o : list (string * A)) : list (string * A) :=
  match o with
  | [] => [(k, v)]
  | (k', v') :: o' => if decide (k = k') then (k, v) :: o' else (k', v') :: obj_set k v o'
  end.

Definition obj_remove {A} (k : string) (o : list (string * A)) : list (string * A) :=
  List.filter (fun kv => negb (bool_decide (k = fst kv))) o.

(** [{ ...o1, ...o2 }] *)
Definition obj_spread {A} (o1 o2 : list (string * A)) : list (string * A) :=
  fold_left (fun acc kv => obj_set (fst kv) (snd kv) acc) o2 o1.

(** [new Map(entries)], [Object.fromEntries(entries)]. *)
Definition obj_of_entries {A} (l : list (string * A)) : list (string * A) := obj_spread [] l.

(** [o.k] on a value that is not nullish: a missing property is [undefined]. *)
Definition jget (k : string) (v : jsval) : jsval :=
  match v with
  | JObj o => match obj_get k o with Some x => x | None => JUndef end
  | _ => JUndef
  end.

(** The own enumerable properties a spread copies. *)
Definition spread_props (v : jsval) : obj :=
  match v with
  | JObj o => o
  | JArr l => imap (fun i x => (show_nat i, x)) l
  | JStr s => imap (fun i c => (show_nat i, JStr (String c ""))) (chars s)
  | _ => []
  end.

Definition truthy (v : jsval) : bool :=
  match v with
  | JUndef | JNull => false
  | JBool b => b
  | JNum (NInt z) => negb (z =? 0)
  | JNum NNaN => false
  | JNum _ => true
  | JStr s => negb (bool_decide (s = ""))
  | JDate _ | JArr _ | JObj _ => true
  end.

Definition nullish (v : jsval) : bool :=
  match v with JUndef | JNull => true | _ => false end.

(** [a || b] and [a ?? b]. *)
Definition js_or (a b : jsval) : jsval := if truthy a then a else b.
Definition js_nullish (a b : jsval) : jsval := if nullish a then b else a.

Definition is_string (v : jsval) : bool := match v with JStr _ => true | _ => false end.
Definition str_of (v : jsval) : string := match v with JStr s => s | _ => "" end.

(** [v === s] for a string [s]. *)
Definition js_is_str (v : jsval) (s : string) : bool :=
  match v with JStr t => bool_decide (t = s) | _ => false end.

(** An optional property of a typed record. *)
Definition opt_str (o : option string) : jsval :=
  match o with Some s => JStr s | None => JUndef end.

(** ** Well-formed values: distinct keys at every level, numbers in lowest terms *)
Definition num_wf (n : jsnum) : Prop :=
  match n with NDec m k => m mod 10 <> 0 | _ => True end.

Fixpoint val_wf (v : jsval) : Prop :=
  match v with
  | JNum n => num_wf n
  | JArr l => (fix all l := match l with [] => True | x :: l' => val_wf x /\ all l' end) l
  | JObj o =>
      NoDup (List.map fst o) /\
      (fix all o := match o with [] => True | (_, x) :: o' => val_wf x /\ all o' end) o
  | _ => True
  end.

Lemma val_wf_arr l : val_wf (JArr l) <-> Forall val_wf l.
Proof. simpl. induction l as [|x l IH]; [done|]. by rewrite Forall_cons, IH. Qed.

Lemma val_wf_obj o :
  val_wf (JObj o) <-> NoDup (List.map fst o) /\ Forall (fun kv => val_wf (snd kv)) o.
Proof.
  simpl. f_equiv. induction o as [|[k x] o IH]; [done|]. by rewrite Forall_cons, IH.
Qed.

(** ** Lemmas: objects *)
Section obj_lemmas.
Context {A : Type}.
Implicit Types o : list (string * A).

Lemma obj_get_set_eq k v o : obj_get k (obj_set k v o) = Some v.
Proof.
  induction o as [|[k' v'] o IH]; simpl; [by rewrite decide_True|].
  destruct (decide (k = k')); simpl; [by rewrite decide_True|]. by rewrite decide_False.
Qed.

Lemma obj_get_set_ne k k' v o : k <> k' -> obj_get k (obj_set k' v o) = obj_get k o.
Proof.
  intros Hne. induction o as [|[k2 v2] o IH]; simpl; [by rewrite decide_False|].
  destruct (decide (k' = k2)) as [<-|]; simpl; [by rewrite !decide_False|].
  by destruct (decide (k = k2)).
Qed.

Lemma obj_get_remove_eq k o : obj_get k (obj_remove k o) = None.
Proof.
  unfold obj_remove. induction o as [|[k' v'] o IH]; simpl; [done|].
  destruct (bool_decide_reflect (k = k')); simpl; [done|]. by rewrite decide_False.
Qed.

Lemma obj_get_remove_ne k k' o : k <> k' -> obj_get k (obj_remove k' o) = obj_get k o.
Proof.
  intros Hne. unfold obj_remove. induction o as [|[k2 v2] o IH]; simpl; [done|].
  destruct (bool_decide_reflect (k' = k2)) as [<-|]; simpl; [by rewrite decide_False|].
  by destruct (decide (k = k2)).
Qed.

Lemma filter_keys_NoDup (f : string * A -> bool) o :
  NoDup (List.map fst o) -> NoDup (List.map fst (List.filter f o)).
Proof.
  induction o as [|[k v] o IH]; simpl; [done|]. rewrite NoDup_cons. intros [Hn Hnd].
  destruct (f (k, v)); simpl; [|auto]. apply NoDup_cons. split; [|auto]. rewrite !list_elem_of_In in *.
  intros Hin. apply Hn, List.in_map_iff. apply List.in_map_iff in Hin as ([k' v'] & <- & Hin).
  apply List.filter_In in Hin as [Hin _]. by exists (k', v').
Qed.

Lemma obj_set_keys k v o :
  List.map fst (obj_set k v o) =
  if decide (k ∈ List.map fst o) then List.map fst o else List.map fst o ++ [k].
Proof.
  induction o as [|[k' v'] o IH]; [by rewrite decide_False by set_solver|]. simpl.
  destruct (decide (k = k')) as [<-|Hne]; simpl.
  - by rewrite decide_True by set_solver.
  - rewrite IH. destruct (decide (k ∈ List.map fst o)).
    + by rewrite decide_True by set_solver.
    + by rewrite decide_False by set_solver.
Qed.

Lemma obj_set_NoDup k v o : NoDup (List.map fst o) -> NoDup (List.map fst (obj_set k v o)).
Proof.
  intros H. rewrite obj_set_keys. destruct (decide _) as [|Hn]; [done|].
  apply NoDup_app. split_and!; [done| |apply NoDup_singleton]. set_solver.
Qed.

Lemma obj_spread_NoDup o1 o2 : NoDup (List.map fst o1) -> NoDup (List.map fst (obj_spread o1 o2)).
Proof.
  unfold obj_spread. revert o1. induction o2 as [|[k v] o2 IH]; intros o1 H; simpl; [done|].
  by apply IH, obj_set_NoDup.
Qed.

Lemma obj_set_fresh k v o : k ∉ List.map fst o -> obj_set k v o = o ++ [(k, v)].
Proof.
  induction o as [|[k' v'] o IH]; simpl; [done|]. intros Hn.
  rewrite decide_False by set_solver. by rewrite IH by set_solver.
Qed.

(** Entries with distinct keys are kept as they are. *)
Lemma obj_spread_fresh o1 o2 :
  NoDup (List.map fst (o1 ++ o2)) -> obj_spread o1 o2 = o1 ++ o2.
Proof.
  unfold obj_spread. revert o1. induction o2 as [|[k v] o2 IH]; intros o1 H; simpl.
  - by rewrite app_nil_r.
  - rewrite List.map_app in H. simpl in H.
    apply NoDup_app in H as (H1 & H2 & H3). apply NoDup_cons in H3 as [Hk H3].
    rewrite obj_set_fresh by (intros Hin; apply (H2 k Hin); set_solver).
    rewrite IH.
    + by rewrite <- app_assoc.
    + rewrite <- app_assoc. simpl. rewrite List.map_app. simpl.
      apply NoDup_app. split_and!; [done|done|]. by apply NoDup_cons.
Qed.

Lemma obj_of_entries_id o : NoDup (List.map fst o) -> obj_of_entries o = o.
Proof. intros H. by apply obj_spread_fresh. Qed.

Lemma obj_get_spread k o1 o2 :
  NoDup (List.map fst o2) ->
  obj_get k (obj_spread o1 o2) = match obj_get k o2 with Some v => Some v | None => obj_get k o1 end.
Proof.
  unfold obj_spread. revert o1. induction o2 as [|[k2 v2] o2 IH]; intros o1 H; simpl; [done|].
  simpl in H. apply NoDup_cons in H as [Hk H]. rewrite IH by done.
  destruct (decide (k = k2)) as [->|Hne]; [|by rewrite obj_get_set_ne].
  assert (Hn : obj_get k2 o2 = None).
  { clear -Hk. induction o2 as [|[k v] o IH]; simpl in *; [done|].
    rewrite decide_False by set_solver. apply IH. set_solver. }
  by rewrite Hn, obj_get_set_eq.
Qed.

Lemma obj_get_In k o v : obj_get k o = Some v -> (k, v) ∈ o.
Proof.
  induction o as [|[k' v'] o IH]; simpl; [done|].
  destruct (decide (k = k')) as [<-|]; [intros [= <-]|]; set_solver.
Qed.

Lemma obj_get_None k o : obj_get k o = None <-> k ∉ List.map fst o.
Proof.
  induction o as [|[k' v'] o IH]; simpl; [set_solver|].
  destruct (decide (k = k')) as [<-|]; [set_solver|]. rewrite IH. set_solver.
Qed.

Lemma obj_get_NoDup k v o : NoDup (List.map fst o) -> (k, v) ∈ o -> obj_get k o = Some v.
Proof.
  intros Hnd Hin. destruct (obj_get k o) as [w|] eqn:E.
  - f_equal. apply obj_get_In in E. clear -Hnd Hin E.
    induction o as [|[k' v'] o IH]; [by invert Hin|]. simpl in Hnd. apply NoDup_cons in Hnd as [Hn Hnd].
    assert (Hfst : forall x, (k', x) ∉ o).
    { intros x Hx. apply Hn, list_elem_of_In, List.in_map_iff. exists (k', x).
      split; [done|]. by apply list_elem_of_In. }
    assert ((k, v) = (k', v') \/ (k, v) ∈ o) as H1 by set_solver.
    assert ((k, w) = (k', v') \/ (k, w) ∈ o) as H2 by set_solver.
    destruct H1 as [[= -> ->]|H1], H2 as [H2|H2]; [by injection H2|by apply Hfst in H2| |auto].
    injection H2 as -> ->. by apply Hfst in H1.
  - apply obj_get_None in E. destruct E. apply list_elem_of_In, List.in_map_iff. exists (k, v).
    split; [done|]. by apply list_elem_of_In.
Qed.
End obj_lemmas.

#[export] Hint Rewrite @obj_get_set_eq @obj_get_remove_eq : js_rw.
#[export] Hint Resolve obj_set_NoDup obj_spread_NoDup : js.
