(* ===== verification/Dates.v ===== *)
(** * Dates: [toISOString] and [new Date(string)]

    A time value is a number of milliseconds since 1970-01-01T00:00:00Z.  The calendar
    arithmetic is the proleptic Gregorian one ECMAScript prescribes.  [parse_date] reads the
    strings [toISOString] writes; any other string is the host's to interpret, so its
    reading is the parameter [host_parse]. *)

From S2P Require Import Prelude JsString JsValue.

Definition MS_PER_DAY : Z := 86400000.
Definition MAX_TIME : Z := 8640000000000000.
Definition time_valid (t : Z) : bool := (- MAX_TIME <=? t) && (t <=? MAX_TIME).

(** What the host's time zone and parser decide: the time value of a string that
    [toISOString] does not write, and the text of [String(date)]. *)
Class HostDate := {
  host_parse : string -> option Z;
  host_show : Z -> string
}.

(** A host that reads no other string. *)
Definition no_host : HostDate := {| host_parse _ := None; host_show _ := "a date" |}.

(** Year, month and day of a day number, counting years from March so that the leap day
    is the last of its year. *)
Definition civil_from_days (z : Z) : Z * Z * Z :=
  let z := z + 719468 in
  let era := z / 146097 in
  let doe := z mod 146097 in
  let yoe := (doe - doe / 1460 + doe / 36524 - doe / 146096) / 365 in
  let doy := doe - (365 * yoe + yoe / 4 - yoe / 100) in
  let mp := (5 * doy + 2) / 153 in
  let d := doy - (153 * mp + 2) / 5 + 1 in
  let m := if mp <? 10 then mp + 3 else mp - 9 in
  (yoe + era * 400 + (if m <=? 2 then 1 else 0), m, d).

Definition days_from_civil (y m d : Z) : Z :=
  let y := if m <=? 2 then y - 1 else y in
  let era := y / 400 in
  let yoe := y mod 400 in
  let doy := (153 * (if 2 <? m then m - 3 else m + 9) + 2) / 5 + d - 1 in
  let doe := yoe * 365 + yoe / 4 - yoe / 100 + doy in
  era * 146097 + doe - 719468.

(** [n] decimal digits of a non-negative integer. *)
Fixpoint pad (n : nat) (z : Z) : string :=
  match n with
  | O => ""
  | S n' => pad n' (z / 10) +:+ String (digit_char (Z.to_N (z mod 10))) ""
  end.

Definition iso_year (y : Z) : string :=
  if (0 <=? y) && (y <=? 9999) then pad 4 y
  else if y <? 0 then String "-" (pad 6 (- y)) else String "+" (pad 6 y).

(** [toISOString] of a valid time value. *)
Definition iso_string (t : Z) : string :=
  let '(y, m, d) := civil_from_days (t / MS_PER_DAY) in
  let ms := t mod MS_PER_DAY in
  iso_year y +:+ "-" +:+ pad 2 m +:+ "-" +:+ pad 2 d +:+ "T" +:+
  pad 2 (ms / 3600000) +:+ ":" +:+ pad 2 (ms / 60000 mod 60) +:+ ":" +:+
  pad 2 (ms / 1000 mod 60) +:+ "." +:+ pad 3 (ms mod 1000) +:+ "Z".

(** [d.toISOString()]: a RangeError for an invalid date. *)
Definition toISOString (t : option Z) : outcome string :=
  match t with
  | Some t => Return (iso_string t)
  | None => Throw (JsError ERange "Invalid time value")
  end.

(** Fields of a string at fixed offsets. *)
Definition field (s : string) (off n : nat) : Z :=
  Z.of_N (digits_val 0 (str_take n (str_drop off s))).

Definition iso_fields (y : Z) (s : string) : Z :=
  days_from_civil y (field s 1 2) (field s 4 2) * MS_PER_DAY +
  field s 7 2 * 3600000 + field s 10 2 * 60000 + field s 13 2 * 1000 + field s 16 3.

Definition iso_value (s : string) : Z :=
  match s with
  | String "-" s' => iso_fields (- field s' 0 6) (str_drop 6 s')
  | String "+" s' => iso_fields (field s' 0 6) (str_drop 6 s')
  | _ => iso_fields (field s 0 4) (str_drop 4 s)
  end.

(** [new Date(s)]: the time value, [None] when the result is an invalid date. *)
Definition parse_date `{HostDate} (s : string) : option Z :=
  let t := iso_value s in
  if time_valid t && bool_decide (iso_string t = s) then Some t else host_parse s.

(** ** The two directions are inverse *)

Lemma civil_roundtrip z :
  let '(y, m, d) := civil_from_days z in
  days_from_civil y m d = z /\ 1 <= m <= 12 /\ 1 <= d <= 31.
Proof.
  unfold civil_from_days, days_from_civil.
  set (z' := z + 719468). set (era := z' / 146097). set (doe := z' mod 146097).
  assert (Hdoe : 0 <= doe < 146097) by (apply Z.mod_pos_bound; lia).
  assert (Hz : z' = 146097 * era + doe) by (apply Z.div_mod; lia).
  set (yoe := (doe - doe / 1460 + doe / 36524 - doe / 146096) / 365).
  assert (Hyoe : 0 <= yoe < 400 /\
    0 <= doe - (365 * yoe + yoe / 4 - yoe / 100) <= 365) by (subst yoe; lia).
  set (doy := doe - (365 * yoe + yoe / 4 - yoe / 100)) in *.
  set (mp := (5 * doy + 2) / 153).
  assert (Hmp : 0 <= mp <= 11) by (subst mp; lia).
  assert (Hd : 1 <= doy - (153 * mp + 2) / 5 + 1 <= 31) by (subst mp; lia).
  assert (Hy : forall y, y = yoe + era * 400 -> y / 400 = era /\ y mod 400 = yoe) by lia.
  destruct (Z.ltb_spec mp 10) as [Hm|Hm].
  - destruct (Z.leb_spec (mp + 3) 2); [lia|]. destruct (Z.ltb_spec 2 (mp + 3)); [|lia].
    rewrite Z.add_0_r. destruct (Hy _ eq_refl) as [-> ->].
    replace (mp + 3 - 3) with mp by lia. lia.
  - destruct (Z.leb_spec (mp - 9) 2); [|lia]. destruct (Z.ltb_spec 2 (mp - 9)); [lia|].
    replace (yoe + era * 400 + 1 - 1) with (yoe + era * 400) by lia.
    destruct (Hy _ eq_refl) as [-> ->]. replace (mp - 9 + 9) with mp by lia. lia.
Qed.

Definition dig (z : Z) : ascii := digit_char (Z.to_N (z mod 10)).

Lemma dig_val z : Z.of_N (digit_val (dig z)) = z mod 10.
Proof. unfold dig. rewrite digit_char_val by lia. lia. Qed.

Lemma dig_digit z : is_digit (dig z) = true.
Proof. apply digit_char_digit. lia. Qed.

Lemma pad_2 z : pad 2 z = String (dig (z / 10)) (String (dig z) "").
Proof. done. Qed.
Lemma pad_3 z : pad 3 z = String (dig (z / 10 / 10)) (String (dig (z / 10)) (String (dig z) "")).
Proof. done. Qed.
Lemma pad_4 z : pad 4 z = String (dig (z / 10 / 10 / 10)) (pad 3 z).
Proof. done. Qed.
Lemma pad_6 z :
  pad 6 z = String (dig (z / 10 / 10 / 10 / 10 / 10)) (String (dig (z / 10 / 10 / 10 / 10)) (pad 4 z)).
Proof. done. Qed.

(** Turn the value of a run of [dig] characters into arithmetic on [Z]. *)
Ltac to_digits := repeat rewrite ?N2Z.inj_add, ?N2Z.inj_mul, ?dig_val; cbn [Z.of_N].

(** The part of the string after the year. *)
Definition iso_tail (m d ms : Z) : string :=
  "-" +:+ pad 2 m +:+ "-" +:+ pad 2 d +:+ "T" +:+
  pad 2 (ms / 3600000) +:+ ":" +:+ pad 2 (ms / 60000 mod 60) +:+ ":" +:+
  pad 2 (ms / 1000 mod 60) +:+ "." +:+ pad 3 (ms mod 1000) +:+ "Z".

Lemma two_digits z : 0 <= z < 100 -> 10 * (10 * 0 + z / 10 mod 10) + z mod 10 = z.
Proof. lia. Qed.
Lemma last_digit z a : 0 <= z -> a = z / 10 -> 10 * a + z mod 10 = z.
Proof. lia. Qed.

Lemma iso_fields_tail y m d ms :
  0 <= ms < MS_PER_DAY -> 1 <= m <= 12 -> 1 <= d <= 31 ->
  iso_fields y (iso_tail m d ms) = days_from_civil y m d * MS_PER_DAY + ms.
Proof.
  unfold MS_PER_DAY. intros Hms Hm Hd. unfold iso_fields, iso_tail, MS_PER_DAY.
  rewrite !pad_2, pad_3. str_norm. unfold field. cbn [str_drop str_take digits_val].
  to_digits.
  rewrite !two_digits by lia. lia.
Qed.

Lemma iso_value_digit c s :
  is_digit c = true ->
  iso_value (String c s) = iso_fields (field (String c s) 0 4) (str_drop 4 (String c s)).
Proof. intros H. destruct c as [[] [] [] [] [] [] [] []]; try discriminate H; reflexivity. Qed.

Lemma iso_value_year y u :
  -999999 <= y <= 999999 -> iso_value (iso_year y +:+ u) = iso_fields y u.
Proof.
  intros Hy. unfold iso_year.
  destruct (Z.leb_spec 0 y); destruct (Z.leb_spec y 9999); cbn [andb];
    try (destruct (Z.ltb_spec y 0); try lia).
  - rewrite pad_4, pad_3. str_norm. rewrite iso_value_digit by apply dig_digit.
    f_equal. unfold field. cbn [str_drop str_take digits_val].
    to_digits. repeat (apply last_digit; [lia|]). lia.
  - rewrite pad_6, pad_4, pad_3. str_norm. unfold iso_value.
    f_equal. unfold field. cbn [str_drop str_take digits_val].
    to_digits. repeat (apply last_digit; [lia|]). lia.
  - rewrite pad_6, pad_4, pad_3. str_norm. unfold iso_value.
    f_equal. unfold field. cbn [str_drop str_take digits_val].
    to_digits. repeat (apply last_digit; [lia|]). lia.
Qed.

Lemma iso_string_tail t :
  iso_string t =
  let '(y, m, d) := civil_from_days (t / MS_PER_DAY) in
  iso_year y +:+ iso_tail m d (t mod MS_PER_DAY).
Proof. unfold iso_string, iso_tail. by destruct (civil_from_days _) as [[y m] d]. Qed.

Lemma civil_year_bound z :
  - 100000000 <= z <= 100000000 ->
  let '(y, _, _) := civil_from_days z in -999999 <= y <= 999999.
Proof.
  intros Hz. pose proof (civil_roundtrip z) as H. destruct (civil_from_days z) as [[y m] d].
  destruct H as (H & Hm & Hd). unfold days_from_civil in H.
  destruct (m <=? 2); destruct (2 <? m); lia.
Qed.

Lemma iso_value_string t : time_valid t = true -> iso_value (iso_string t) = t.
Proof.
  unfold time_valid, MAX_TIME. intros Ht. apply andb_true_iff in Ht as [H1 H2].
  apply Z.leb_le in H1, H2. rewrite iso_string_tail.
  pose proof (civil_roundtrip (t / MS_PER_DAY)) as Hc.
  pose proof (civil_year_bound (t / MS_PER_DAY)) as Hb.
  destruct (civil_from_days _) as [[y m] d]. destruct Hc as (Hz & Hm & Hd).
  unfold MS_PER_DAY in *. rewrite iso_value_year by (apply Hb; lia).
  rewrite iso_fields_tail by (unfold MS_PER_DAY; lia). unfold MS_PER_DAY. rewrite Hz. lia.
Qed.

(** Reading back the string of a valid date gives the date. *)
Lemma parse_iso_string `{HostDate} t :
  time_valid t = true -> parse_date (iso_string t) = Some t.
Proof.
  intros Ht. unfold parse_date. rewrite iso_value_string, Ht by done.
  by rewrite bool_decide_true.
Qed.

Lemma iso_string_nonempty t : iso_string t <> "".
Proof.
  unfold iso_string. destruct (civil_from_days _) as [[y m] d]. unfold iso_year.
  destruct (_ && _); [|by destruct (y <? 0)]. intros H. apply (f_equal String.length) in H.
  rewrite !length_app_str in H. simpl in H. lia.
Qed.
