(* ===== verification/Json.v ===== *)
(** * JSON.stringify and JSON.parse

    [json_norm] is the part of [JSON.stringify] that decides what a value turns into
    ([undefined] properties vanish, dates become ISO strings, NaN becomes [null]); [print]
    writes the text.  [json_parse] reads a text; a [\uXXXX] escape of a code unit above
    U+00FF is outside the strings of the model and refused. *)

From S2P Require Import Prelude JsString JsValue Dates.

(** ** What is written *)

Definition norm_num (n : jsnum) : jsval :=
  match n with NNaN | NInf _ => JNull | _ => JNum n end.

Fixpoint json_norm (v : jsval) : option jsval :=
  match v with
  | JUndef => None
  | JNum n => Some (norm_num n)
  | JDate (Some t) => Some (JStr (iso_string t))
  | JDate None => Some JNull
  | JArr l => Some (JArr (List.map (fun x => default JNull (json_norm x)) l))
  | JObj o =>
      Some (JObj ((fix go (o : obj) : obj :=
        match o with
        | [] => []
        | (k, x) :: o' =>
            match json_norm x with Some y => (k, y) :: go o' | None => go o' end
        end) o))
  | _ => Some v
  end.

Definition hex_digit (n : N) : ascii := char (if (n <? 10)%N then 48 + n else 87 + n)%N.

Definition escape_char (c : ascii) : string :=
  if Ascii.eqb c DQUOTE then String BACKSLASH dq
  else if Ascii.eqb c BACKSLASH then String BACKSLASH (String BACKSLASH "")
  else if (code c =? 8)%N then String BACKSLASH "b"
  else if Ascii.eqb c TAB then String BACKSLASH "t"
  else if Ascii.eqb c LF then String BACKSLASH "n"
  else if (code c =? 12)%N then String BACKSLASH "f"
  else if Ascii.eqb c CR then String BACKSLASH "r"
  else if (code c <? 32)%N then
    String BACKSLASH "u00" +:+ String (hex_digit (code c / 16)) (String (hex_digit (code c mod 16)) "")
  else String c "".

Fixpoint escape (s : string) : string :=
  match s with EmptyString => "" | String c s' => escape_char c +:+ escape s' end.

Definition quote (s : string) : string := dq +:+ escape s +:+ dq.

Definition padN (k : nat) (n : N) : string := pad k (Z.of_N n).

Definition print_num (n : jsnum) : string :=
  match n with
  | NInt z => show_Z z
  | NDec m k =>
      let p := (10 ^ N.pos k)%N in
      (if m <? 0 then "-" else "") +:+ show_N (Z.abs_N m / p) +:+ "." +:+
      padN (Pos.to_nat k) (Z.abs_N m mod p)
  | _ => "null"
  end.

Fixpoint print (v : jsval) : string :=
  match v with
  | JUndef | JNull | JDate _ => "null"
  | JBool b => if b then "true" else "false"
  | JNum n => print_num n
  | JStr s => quote s
  | JArr l => "[" +:+ join "," (List.map print l) +:+ "]"
  | JObj o =>
      "{" +:+ join "," ((fix go (o : obj) : list string :=
        match o with [] => [] | (k, x) :: o' => (quote k +:+ ":" +:+ print x) :: go o' end) o)
      +:+ "}"
  end.

(** [JSON.stringify(v)]: [None] is its [undefined] result. *)
Definition json_stringify (v : jsval) : option string := print <$> json_norm v.

(** ** What is read *)

Definition is_json_ws (c : ascii) : bool :=
  Ascii.eqb c " " || Ascii.eqb c TAB || Ascii.eqb c LF || Ascii.eqb c CR.

Fixpoint skip_ws (s : string) : string :=
  match s with
  | String c s' => if is_json_ws c then skip_ws s' else s
  | EmptyString => ""
  end.

Definition unescape (c : ascii) : option ascii :=
  if Ascii.eqb c DQUOTE || Ascii.eqb c BACKSLASH || Ascii.eqb c "/" then Some c
  else if Ascii.eqb c "b" then Some (char 8)
  else if Ascii.eqb c "t" then Some TAB
  else if Ascii.eqb c "n" then Some LF
  else if Ascii.eqb c "f" then Some (char 12)
  else if Ascii.eqb c "r" then Some CR
  else None.

(** The text of a string literal up to its closing quote, and what follows; [acc] holds
    the characters read so far, reversed. *)
Fixpoint parse_chars (s acc : string) : option (string * string) :=
  match s with
  | EmptyString => None
  | String c s1 =>
      if Ascii.eqb c DQUOTE then Some (str_rev acc, s1)
      else if Ascii.eqb c BACKSLASH then
        match s1 with
        | String "u" (String a (String b (String d (String e s2)))) =>
            match parse_radix 16 0 (String a (String b (String d (String e "")))) with
            | Some n => if (n <? 256)%N then parse_chars s2 (String (char n) acc) else None
            | None => None
            end
        | String x s2 =>
            match unescape x with Some y => parse_chars s2 (String y acc) | None => None end
        | EmptyString => None
        end
      else if (code c <? 32)%N then None
      else parse_chars s1 (String c acc)
  end.

(** A number: no leading zeros, digits after a point, an exponent with digits. *)
Definition bad_int (ip : string) : bool :=
  match ip with
  | EmptyString => true
  | String c t => Ascii.eqb c "0" && negb (bool_decide (t = ""))
  end.

Definition parse_unsigned (neg : bool) (s : string) : option (jsnum * string) :=
  let '(ip, s1) := span_digits s in
  let '(fp, s2) := parse_fraction s1 in
  if bad_int ip || (bool_decide (is_Some (eat "." s1)) && bool_decide (fp = "")) then None
  else
    '(e, s3) ← parse_exponent s2;
    Some (mk_num (signed neg (Z.of_N (digits_val 0 (ip +:+ fp))))
            (e - Z.of_nat (String.length fp)), s3).

Definition parse_number (s : string) : option (jsnum * string) :=
  match eat "-" s with
  | Some t => parse_unsigned true t
  | None => parse_unsigned false s
  end.

(** The rest of [s] after the prefix [p]. *)
Fixpoint strip_prefix (p s : string) : option string :=
  match p, s with
  | EmptyString, _ => Some s
  | String a p', String b s' => if Ascii.eqb a b then strip_prefix p' s' else None
  | _, _ => None
  end.

Definition parse_literal (s : string) : option (jsval * string) :=
  match strip_prefix "true" s, strip_prefix "false" s, strip_prefix "null" s with
  | Some u, _, _ => Some (JBool true, u)
  | _, Some u, _ => Some (JBool false, u)
  | _, _, Some u => Some (JNull, u)
  | _, _, _ => None
  end.

(** One property of an object, [pv] reading its value. *)
Definition parse_member (pv : string -> option (jsval * string)) (s : string)
    : option (string * jsval * string) :=
  t ← eat DQUOTE (skip_ws s);
  '(k, u) ← parse_chars t "";
  u1 ← eat ":" (skip_ws u);
  '(x, w) ← pv u1;
  Some (k, x, w).

(** Recursive descent; [fuel] bounds the nesting and the number of elements, and the
    length of the text is always enough. *)
Fixpoint parse_value (fuel : nat) (s : string) : option (jsval * string) :=
  match fuel with
  | O => None
  | S f =>
      match skip_ws s with
      | EmptyString => None
      | String c t =>
          if Ascii.eqb c DQUOTE then
            '(x, u) ← parse_chars t ""; Some (JStr x, u)
          else if Ascii.eqb c "[" then
            match eat "]" (skip_ws t) with
            | Some u => Some (JArr [], u)
            | None => '(l, u) ← parse_elems f t; Some (JArr l, u)
            end
          else if Ascii.eqb c "{" then
            match eat "}" (skip_ws t) with
            | Some u => Some (JObj [], u)
            | None => '(o, u) ← parse_members f t; Some (JObj (obj_of_entries o), u)
            end
          else if is_digit c || Ascii.eqb c "-" then
            '(n, u) ← parse_number (String c t); Some (JNum n, u)
          else parse_literal (String c t)
      end
  end
with parse_elems (fuel : nat) (s : string) : option (list jsval * string) :=
  match fuel with
  | O => None
  | S f =>
      '(x, u) ← parse_value f s;
      match eat "," (skip_ws u) with
      | Some u' => '(l, w) ← parse_elems f u'; Some (x :: l, w)
      | None => w ← eat "]" (skip_ws u); Some ([x], w)
      end
  end
with parse_members (fuel : nat) (s : string) : option (obj * string) :=
  match fuel with
  | O => None
  | S f =>
      '(k, x, u) ← parse_member (parse_value f) s;
      match eat "," (skip_ws u) with
      | Some u' => '(o, w) ← parse_members f u'; Some ((k, x) :: o, w)
      | None => w ← eat "}" (skip_ws u); Some ([(k, x)], w)
      end
  end.

Definition syntax_error : jserror := JsError ESyntax "JSON.parse: unexpected input".

(** [JSON.parse(s)]: the whole text is one value. *)
Definition json_parse (s : string) : outcome jsval :=
  match parse_value (S (String.length s)) s with
  | Some (v, u) => match skip_ws u with EmptyString => Return v | _ => Throw syntax_error end
  | None => Throw syntax_error
  end.

(** ** Values JSON can express *)

Fixpoint is_json (v : jsval) : Prop :=
  match v with
  | JUndef | JDate _ | JNum NNaN | JNum (NInf _) => False
  | JArr l => (fix all l := match l with [] => True | x :: l' => is_json x /\ all l' end) l
  | JObj o => (fix all o := match o with [] => True | (_, x) :: o' => is_json x /\ all o' end) o
  | _ => True
  end.

Lemma is_json_arr l : is_json (JArr l) <-> Forall is_json l.
Proof. simpl. induction l as [|x l IH]; [done|]. by rewrite Forall_cons, IH. Qed.

Lemma is_json_obj o : is_json (JObj o) <-> Forall (fun kv => is_json (snd kv)) o.
Proof. simpl. induction o as [|[k x] o IH]; [done|]. by rewrite Forall_cons, IH. Qed.

(** The properties an object keeps. *)
Fixpoint norm_props (o : obj) : obj :=
  match o with
  | [] => []
  | (k, x) :: o' => match json_norm x with Some y => (k, y) :: norm_props o' | None => norm_props o' end
  end.

Lemma json_norm_obj o : json_norm (JObj o) = Some (JObj (norm_props o)).
Proof. simpl. do 2 f_equal. Qed.

Fixpoint print_props (o : obj) : list string :=
  match o with [] => [] | (k, x) :: o' => (quote k +:+ ":" +:+ print x) :: print_props o' end.

Lemma print_obj o : print (JObj o) = "{" +:+ join "," (print_props o) +:+ "}".
Proof. done. Qed.

Lemma norm_props_keys o k : k ∈ List.map fst (norm_props o) -> k ∈ List.map fst o.
Proof.
  induction o as [|[k' x] o IH]; simpl; [done|].
  destruct (json_norm x); simpl; [|set_solver]. rewrite !elem_of_cons. tauto.
Qed.

(** What [JSON.stringify] writes is JSON, with distinct keys where the value had them. *)
(** A JSON value is written as it is. *)
Lemma json_norm_id v : is_json v -> json_norm v = Some v.
Proof.
  induction v as [| |b|n|s|t|l IH|o IH] using jsval_ind; intros Hj; try done.
  - by destruct n.
  - rewrite is_json_arr in Hj. cbn [json_norm]. do 2 f_equal. apply map_all_id.
    eapply Forall_impl_strong; [|exact Hj]. intros x Hin Hx.
    by rewrite (proj1 (List.Forall_forall _ _) IH x Hin Hx).
  - rewrite is_json_obj in Hj. rewrite json_norm_obj. do 2 f_equal.
    induction IH as [|[k x] o Hx _ IHo]; [done|]. apply Forall_cons in Hj as [Hkx Hj]. simpl in *.
    by rewrite (Hx Hkx), (IHo Hj).
Qed.

Lemma json_norm_ok v w : json_norm v = Some w -> is_json w /\ (val_wf v -> val_wf w).
Proof.
  revert w. induction v as [| |b|n|s|t|l IH|o IH] using jsval_ind; intros w Hw.
  - done.
  - by injection Hw as <-.
  - by injection Hw as <-.
  - injection Hw as <-. by destruct n.
  - by injection Hw as <-.
  - destruct t; by injection Hw as <-.
  - injection Hw as <-. rewrite is_json_arr, !val_wf_arr.
    rewrite !Forall_map_iff. split; [|intros Hwf; revert Hwf; apply Forall_impl_strong].
    + eapply List.Forall_impl; [|exact IH]. intros x Hx. simpl in Hx.
      destruct (json_norm x) as [y|]; simpl; [by apply Hx | done].
    + intros x Hin Hwf. pose proof (proj1 (List.Forall_forall _ _) IH x Hin) as Hx.
      simpl in Hx. destruct (json_norm x) as [y|]; simpl; [by apply Hx | done].
  - rewrite json_norm_obj in Hw. injection Hw as <-. rewrite is_json_obj, !val_wf_obj.
    induction IH as [|[k x] o Hx _ IHo]; [done|]. simpl in *.
    destruct (json_norm x) as [y|] eqn:Hy; simpl.
    + destruct (Hx y eq_refl) as [Hy1 Hy2]. rewrite !NoDup_cons, !Forall_cons. simpl.
      split; [tauto|]. intros [[Hk Hnd] [Hwf Hall]]. split; split; try tauto.
      intros Hin. by apply Hk, norm_props_keys.
    + rewrite !NoDup_cons, !Forall_cons. tauto.
Qed.

(** ** Reading back what was written *)

Lemma parse_chars_escape_char c u acc :
  parse_chars (escape_char c +:+ u) acc = parse_chars u (String c acc).
Proof. destruct c as [[] [] [] [] [] [] [] []]; reflexivity. Qed.

Lemma parse_chars_escape s u acc :
  parse_chars (escape s +:+ dq +:+ u) acc = Some (str_rev acc +:+ s, u).
Proof.
  revert acc. induction s as [|c s IH]; intros acc; cbn [escape].
  - by rewrite app_nil_r_str.
  - rewrite app_assoc_str, parse_chars_escape_char, IH, str_rev_cons, app_assoc_str. done.
Qed.

Lemma parse_chars_quote s u : parse_chars (escape s +:+ dq +:+ u) "" = Some (s, u).
Proof. apply parse_chars_escape. Qed.

(** What may follow a number without becoming part of it. *)
Definition num_stop (s : string) : bool :=
  match s with
  | EmptyString => true
  | String c _ =>
      negb (is_digit c || Ascii.eqb c "." || Ascii.eqb c "e" || Ascii.eqb c "E")
  end.

Lemma span_digits_app d u :
  str_forallb is_digit d = true ->
  match u with EmptyString => True | String c _ => is_digit c = false end ->
  span_digits (d +:+ u) = (d, u).
Proof.
  intros Hd Hu. induction d as [|c d IH]; simpl in Hd.
  - rewrite app_nil_l_str. destruct u as [|c u]; [done|]. simpl. by rewrite Hu.
  - bool_hyps. rewrite app_cons. simpl. by rewrite H, IH.
Qed.

Lemma num_stop_exponent u : num_stop u = true -> parse_exponent u = Some (0, u).
Proof.
  destruct u as [|c u]; [done|]. unfold num_stop. intros H. apply negb_true_iff in H. bool_hyps.
  unfold parse_exponent. by rewrite H1, H0.
Qed.

Lemma num_stop_fraction u : num_stop u = true -> parse_fraction u = ("", u) /\ eat "." u = None.
Proof.
  destruct u as [|c u]; [done|]. unfold num_stop. intros H. apply negb_true_iff in H. bool_hyps.
  unfold parse_fraction, eat. rewrite Ascii.eqb_sym. rewrite H2. done.
Qed.

Lemma num_stop_nodigit u :
  num_stop u = true -> match u with EmptyString => True | String c _ => is_digit c = false end.
Proof. destruct u as [|c u]; [done|]. unfold num_stop. intros H. apply negb_true_iff in H. by bool_hyps. Qed.

Lemma digits_val_app a s t : digits_val a (s +:+ t) = digits_val (digits_val a s) t.
Proof. revert a. induction s as [|c s IH]; intros a; [done|]. rewrite app_cons. simpl. apply IH. Qed.

(** No decimal starts with a useless zero. *)
Lemma show_N_go_head fuel n acc :
  (0 < n)%N -> (n < 2 ^ N.of_nat fuel)%N ->
  exists c t, show_N_go fuel n acc = String c t /\ Ascii.eqb c "0" = false.
Proof.
  revert n acc. induction fuel as [|f IH]; intros n acc H0 Hn; cbn [show_N_go].
  - simpl in Hn. lia.
  - destruct (N.ltb_spec n 10) as [Hlt|Hge].
    + exists (digit_char n), acc. split; [done|]. apply Ascii.eqb_neq. intros Heq.
      apply (f_equal digit_val) in Heq. rewrite digit_char_val in Heq by done.
      change (digit_val "0") with 0%N in Heq. lia.
    + apply IH; [apply N.div_str_pos; lia|]. rewrite Nat2N.inj_succ, N.pow_succ_r' in Hn.
      apply N.Div0.div_lt_upper_bound. lia.
Qed.

Lemma bad_int_show n : bad_int (show_N n) = false.
Proof.
  destruct (N.eq_dec n 0%N) as [->|Hn]; [done|].
  destruct (show_N_go_head (S (N.size_nat n)) n "") as (c & t & Hc & H0);
    [lia|apply N_size_bound|].
  unfold show_N. rewrite Hc. simpl. by rewrite H0.
Qed.

Lemma show_N_head n : exists c t, show_N n = String c t /\ is_digit c = true.
Proof.
  destruct (show_N_nonempty n) as (c & t & H). exists c, t. split; [done|].
  pose proof (show_N_digits n) as Hd. rewrite H in Hd. simpl in Hd. by bool_hyps.
Qed.

Lemma eat_minus_digits n u : eat "-" (show_N n +:+ u) = None.
Proof.
  destruct (show_N_head n) as (c & t & -> & Hd). rewrite app_cons. unfold eat.
  destruct (Ascii.eqb_spec "-" c) as [<-|]; done.
Qed.

Lemma parse_unsigned_int neg n u :
  num_stop u = true ->
  parse_unsigned neg (show_N n +:+ u) = Some (NInt (signed neg (Z.of_N n)), u).
Proof.
  intros Hu. unfold parse_unsigned.
  rewrite span_digits_app; [|apply show_N_digits|by apply num_stop_nodigit].
  destruct (num_stop_fraction u Hu) as [-> ->]. rewrite bad_int_show. simpl.
  rewrite num_stop_exponent by done. simpl. rewrite app_nil_r_str, show_N_val.
  unfold mk_num. simpl. by rewrite Z.mul_1_r.
Qed.

Lemma padN_length k n : String.length (padN k n) = k.
Proof.
  unfold padN. generalize (Z.of_N n). induction k as [|k IH]; intros z; simpl; [done|].
  rewrite length_app_str, IH. simpl. lia.
Qed.

Lemma padN_digits k n : str_forallb is_digit (padN k n) = true.
Proof.
  unfold padN. generalize (Z.of_N n). induction k as [|k IH]; intros z; simpl; [done|].
  rewrite str_forallb_app, IH. simpl. by rewrite digit_char_digit by lia.
Qed.

Lemma padN_val a k n :
  Z.of_N (digits_val a (padN k n)) = Z.of_N a * 10 ^ Z.of_nat k + Z.of_N n mod 10 ^ Z.of_nat k.
Proof.
  unfold padN. generalize (N2Z.is_nonneg n). generalize (Z.of_N n) as z. clear n.
  induction k as [|k IH]; intros z Hz.
  - simpl. rewrite Z.mod_1_r. lia.
  - cbn [pad]. rewrite digits_val_app. cbn [digits_val].
    rewrite digit_char_val by lia. rewrite N2Z.inj_add, N2Z.inj_mul, IH by lia.
    rewrite Nat2Z.inj_succ, Z.pow_succ_r by lia. rewrite Z2N.id by lia.
    rewrite Z.rem_mul_r by lia. lia.
Qed.

Lemma parse_unsigned_dec neg n k u :
  num_stop u = true -> (signed neg (Z.of_N n)) mod 10 <> 0 ->
  parse_unsigned neg (show_N (n / 10 ^ N.pos k) +:+ "." +:+ padN (Pos.to_nat k) (n mod 10 ^ N.pos k) +:+ u)
  = Some (NDec (signed neg (Z.of_N n)) k, u).
Proof.
  intros Hu Hm. unfold parse_unsigned. str_norm.
  rewrite span_digits_app; [|apply show_N_digits|reflexivity].
  unfold parse_fraction. cbn [eat].
  rewrite Ascii.eqb_refl, span_digits_app; [|apply padN_digits|by apply num_stop_nodigit].
  rewrite bad_int_show, (bool_decide_false (padN _ _ = "")), andb_false_r.
  2:{ intros Hp. apply (f_equal String.length) in Hp. rewrite padN_length in Hp. simpl in Hp. lia. }
  simpl. rewrite num_stop_exponent by done. simpl. rewrite padN_length, digits_val_app, show_N_val.
  rewrite padN_val, positive_nat_Z.
  replace (Z.of_N (n / 10 ^ N.pos k) * 10 ^ Z.pos k + Z.of_N (n mod 10 ^ N.pos k) mod 10 ^ Z.pos k)
    with (Z.of_N n).
  2:{ rewrite N2Z.inj_div, N2Z.inj_mod, N2Z.inj_pow. cbn [Z.of_N]. rewrite Zmod_mod.
      pose proof (Z.div_mod (Z.of_N n) (10 ^ Z.pos k)). lia. }
  unfold mk_num. destruct (Z.leb_spec 0 (0 - Z.pos k)); [lia|].
  replace (- (0 - Z.pos k)) with (Z.pos k) by lia. rewrite Z2Nat.inj_pos.
  destruct (Pos2Nat.is_succ k) as (j & Hj). rewrite Hj. cbn [mk_dec].
  destruct (Z.eqb_spec (signed neg (Z.of_N n) mod 10) 0); [done|].
  by rewrite <- Hj, Pos2Nat.id.
Qed.

Lemma signed_abs z : signed (z <? 0) (Z.of_N (Z.abs_N z)) = z.
Proof. unfold signed. destruct (Z.ltb_spec z 0); lia. Qed.

Lemma parse_number_print n u :
  num_wf n -> is_json (JNum n) -> num_stop u = true ->
  parse_number (print_num n +:+ u) = Some (n, u).
Proof.
  intros Hwf Hj Hu. destruct n as [z|m k| |]; [| |done|done].
  - simpl. unfold show_Z, parse_number. destruct (Z.ltb_spec z 0).
    + str_norm. cbn [eat]. rewrite Ascii.eqb_refl, (parse_unsigned_int true) by done.
      simpl. do 3 f_equal. lia.
    + rewrite eat_minus_digits, (parse_unsigned_int false) by done. simpl. do 3 f_equal. lia.
  - simpl in *. unfold parse_number. rewrite <- (signed_abs m) in Hwf.
    destruct (Z.ltb_spec m 0) as [Hm|Hm]; rewrite !app_assoc_str.
    + change ("-" +:+ ?t) with (String "-" t). cbn [eat]. rewrite Ascii.eqb_refl.
      rewrite (parse_unsigned_dec true) by done. simpl. do 4 f_equal. lia.
    + rewrite app_nil_l_str, eat_minus_digits. rewrite (parse_unsigned_dec false) by done. simpl. do 3 f_equal. lia.
Qed.

Definition value_head (c : ascii) : bool :=
  Ascii.eqb c DQUOTE || Ascii.eqb c "[" || Ascii.eqb c "{" || is_digit c || Ascii.eqb c "-" ||
  Ascii.eqb c "t" || Ascii.eqb c "f" || Ascii.eqb c "n".

Lemma print_num_head n : is_json (JNum n) -> exists c t,
  print_num n = String c t /\ (is_digit c || Ascii.eqb c "-") = true.
Proof.
  intros Hj. assert (Hpos : forall i t, exists c t', show_N i +:+ t = String c t' /\ (is_digit c || Ascii.eqb c "-") = true).
  { intros i t. destruct (show_N_head i) as (c & t' & -> & Hd). exists c, (t' +:+ t). by rewrite Hd. }
  destruct n as [z|m k| |]; simpl in *; [| |done|done].
  - unfold show_Z. destruct (z <? 0); [by eauto|].
    rewrite <- (app_nil_r_str (show_N _)). apply Hpos.
  - destruct (m <? 0); str_norm; [by eauto|]. apply Hpos.
Qed.

Lemma print_head v : is_json v -> exists c t, print v = String c t /\ value_head c = true.
Proof.
  intros Hj. destruct v as [| |b|n|s|t|l|o]; try done; try (by eexists _, _).
  - destruct b; by eexists _, _.
  - destruct (print_num_head n Hj) as (c & t & Hp & Hd). exists c, t. split; [exact Hp|].
    unfold value_head. apply orb_true_iff in Hd as [Hd|Hd]; rewrite Hd; by rewrite ?orb_true_r.
Qed.

(** A character that can start a value starts nothing else. *)
Lemma value_head_facts c :
  value_head c = true ->
  is_json_ws c = false /\ Ascii.eqb "]" c = false /\ Ascii.eqb "}" c = false.
Proof. destruct c as [[] [] [] [] [] [] [] []]; vm_compute; intros H; try discriminate H; auto. Qed.

Lemma skip_ws_print v u : is_json v -> skip_ws (print v +:+ u) = print v +:+ u.
Proof.
  intros Hj. destruct (print_head v Hj) as (c & t & -> & Hc). rewrite app_cons. simpl.
  destruct (value_head_facts c Hc) as (-> & _). done.
Qed.

Lemma eat_print c v u :
  is_json v -> c = "]"%char \/ c = "}"%char -> eat c (print v +:+ u) = None.
Proof.
  intros Hj Hd. destruct (print_head v Hj) as (d & t & -> & Hc). rewrite app_cons. simpl.
  destruct (value_head_facts d Hc) as (_ & H1 & H2). by destruct Hd as [-> | ->]; rewrite ?H1, ?H2.
Qed.

(** The statement proved by induction on the value. *)
Definition parses (v : jsval) : Prop :=
  is_json v -> val_wf v -> forall fuel u,
  (String.length (print v) < fuel)%nat -> num_stop u = true ->
  parse_value fuel (print v +:+ u) = Some (v, u).

Lemma parse_elems_print l x u fuel :
  Forall parses (x :: l) -> Forall is_json (x :: l) -> Forall val_wf (x :: l) ->
  (S (String.length (join "," (List.map print (x :: l)))) < fuel)%nat ->
  parse_elems fuel (join "," (List.map print (x :: l)) +:+ "]" +:+ u) = Some (x :: l, u).
Proof.
  revert x fuel. induction l as [|y l IH]; intros x fuel HP HJ HW Hf;
    destruct fuel as [|f]; [lia| |lia|];
    apply Forall_cons in HP as [HPx HP], HJ as [HJx HJ], HW as [HWx HW].
  - simpl in Hf |- *. rewrite HPx by (done || lia). simpl. done.
  - cbn [List.map join] in *. rewrite !length_app_str in Hf. simpl in Hf.
    cbn [parse_elems]. rewrite !app_assoc_str. rewrite HPx by (done || simpl; lia).
    cbn [mbind option_bind]. str_norm. cbn [skip_ws is_json_ws].
    change (is_json_ws ",") with false. cbn [eat]. rewrite Ascii.eqb_refl.
    change (print y :: List.map print l) with (List.map print (y :: l)).
    rewrite IH; [done|done|done|done|]. simpl. simpl in Hf. lia.
Qed.

Lemma eat_head c u : eat c (String c u) = Some u.
Proof. simpl. by rewrite Ascii.eqb_refl. Qed.

Lemma skip_ws_id c u : is_json_ws c = false -> skip_ws (String c u) = String c u.
Proof. intros H. simpl. by rewrite H. Qed.

(** One property, up to what follows its value. *)
Lemma parse_member_print k x w fuel :
  parses x -> is_json x -> val_wf x ->
  (String.length (print x) < fuel)%nat -> num_stop w = true ->
  parse_member (parse_value fuel) ((quote k +:+ ":" +:+ print x) +:+ w) = Some (k, x, w).
Proof.
  intros HP HJ HW Hf Hw. unfold parse_member, quote. rewrite !app_assoc_str.
  change (dq +:+ ?t) with (String DQUOTE t) at 1.
  rewrite skip_ws_id by done. rewrite eat_head. cbn [mbind option_bind].
  rewrite parse_chars_quote. cbn [mbind option_bind]. str_norm.
  rewrite skip_ws_id by done. rewrite eat_head. cbn [mbind option_bind].
  by rewrite HP.
Qed.

Lemma join_cons2 sep x y l : join sep (x :: y :: l) = x +:+ sep +:+ join sep (y :: l).
Proof. done. Qed.

Lemma parse_members_print o k x u fuel :
  Forall (fun kv => parses (snd kv)) ((k, x) :: o) ->
  Forall (fun kv => is_json (snd kv)) ((k, x) :: o) ->
  Forall (fun kv => val_wf (snd kv)) ((k, x) :: o) ->
  (S (String.length (join "," (print_props ((k, x) :: o)))) < fuel)%nat ->
  parse_members fuel (join "," (print_props ((k, x) :: o)) +:+ "}" +:+ u) = Some ((k, x) :: o, u).
Proof.
  revert k x fuel. induction o as [|[k' y] o IH]; intros k x fuel HP HJ HW Hf;
    (destruct fuel as [|f]; [lia|]);
    apply Forall_cons in HP as [HPx HP], HJ as [HJx HJ], HW as [HWx HW]; simpl in HPx, HJx, HWx.
  - cbn [print_props join] in *. rewrite !length_app_str in Hf. simpl in Hf.
    cbn [parse_members]. rewrite parse_member_print by (done || lia). done.
  - cbn [print_props] in Hf |- *. rewrite join_cons2 in Hf |- *.
    rewrite !length_app_str in Hf. cbn [String.length] in Hf. rewrite (app_assoc_str (_ +:+ _)).
    cbn [parse_members]. rewrite parse_member_print by (done || lia). cbn [mbind option_bind].
    rewrite !app_assoc_str. change ("," +:+ ?t) with (String "," t) at 1.
    rewrite skip_ws_id by done. rewrite eat_head.
    change ((quote k' +:+ ":" +:+ print y) :: print_props o) with (print_props ((k', y) :: o)) in Hf |- *.
    by rewrite IH by (done || lia).
Qed.

Lemma strip_prefix_app p u : strip_prefix p (p +:+ u) = Some u.
Proof. induction p as [|c p IH]; [done|]. rewrite app_cons. simpl. by rewrite Ascii.eqb_refl. Qed.

Lemma value_head_quote s u f : parse_value (S f) (quote s +:+ u) = Some (JStr s, u).
Proof.
  unfold quote, dq at 1. rewrite !app_assoc_str. str_norm. cbn [parse_value].
  rewrite skip_ws_id by done. rewrite Ascii.eqb_refl, parse_chars_quote. done.
Qed.

Lemma parse_value_print v : parses v.
Proof.
  induction v as [| |b|n|s|t|l IH|o IH] using jsval_ind; intros HJ HW fuel u Hf Hu; try done;
    (destruct fuel as [|f]; [lia|]).
  - reflexivity.
  - destruct b; reflexivity.
  - destruct (print_num_head n HJ) as (c & t & Hp & Hc).
    assert (Hn := parse_number_print n u HW HJ Hu). cbn [print]. rewrite Hp, app_cons in *.
    cbn [parse_value]. destruct (value_head_facts c) as (Hws & _ & _).
    { unfold value_head. apply orb_true_iff in Hc as [-> | ->]; by rewrite ?orb_true_r. }
    rewrite skip_ws_id, Hc by done.
    assert (Hne : Ascii.eqb c DQUOTE = false /\ Ascii.eqb c "[" = false /\ Ascii.eqb c "{" = false).
    { clear -Hc. destruct c as [[] [] [] [] [] [] [] []]; vm_compute in Hc |- *; try discriminate Hc; auto. }
    destruct Hne as (-> & -> & ->). by rewrite Hn.
  - apply value_head_quote.
  - apply is_json_arr in HJ. apply val_wf_arr in HW. cbn [print] in *.
    rewrite !length_app_str in Hf. simpl in Hf. rewrite !app_assoc_str. str_norm.
    cbn [parse_value]. rewrite skip_ws_id by done.
    change (Ascii.eqb "[" DQUOTE) with false. change (Ascii.eqb "[" "[") with true. cbn iota.
    destruct l as [|x l]; [done|]. change (String "]" u) with ("]" +:+ u).
    assert (Hx : is_json x) by by inversion HJ.
    assert (He : exists w, join "," (List.map print (x :: l)) +:+ "]" +:+ u = print x +:+ w).
    { destruct l; cbn [List.map join]; rewrite ?app_assoc_str; eauto. }
    destruct He as (w & He). rewrite He, skip_ws_print, eat_print by auto. rewrite <- He.
    by rewrite parse_elems_print by (done || lia).
  - apply is_json_obj in HJ. apply val_wf_obj in HW as [Hnd HW]. rewrite print_obj in *.
    rewrite !length_app_str in Hf. simpl in Hf. rewrite !app_assoc_str. str_norm.
    cbn [parse_value]. rewrite skip_ws_id by done.
    change (Ascii.eqb "{" DQUOTE) with false. change (Ascii.eqb "{" "[") with false.
    change (Ascii.eqb "{" "{") with true. cbn iota.
    destruct o as [|[k x] o]; [done|]. change (String "}" u) with ("}" +:+ u).
    assert (He : exists w, join "," (print_props ((k, x) :: o)) +:+ "}" +:+ u = String DQUOTE w).
    { destruct o as [|[k' y] o]; cbn [print_props join]; unfold quote, dq; rewrite ?app_assoc_str; by eexists. }
    destruct He as (w & He). rewrite He, skip_ws_id by done.
    change (eat "}" (String DQUOTE w)) with (@None string). cbn iota. rewrite <- He.
    rewrite parse_members_print by (done || lia). cbn [mbind option_bind].
    by rewrite obj_of_entries_id.
Qed.

(** Parsing what [JSON.stringify] wrote gives back the normalised value. *)
Theorem json_roundtrip v w :
  val_wf v -> json_norm v = Some w ->
  json_stringify v = Some (print w) /\ json_parse (print w) = Return w.
Proof.
  intros Hwf Hn. destruct (json_norm_ok v w Hn) as [Hj Hw]. unfold json_stringify. rewrite Hn.
  split; [done|]. unfold json_parse. rewrite <- (app_nil_r_str (print w)) at 2.
  by rewrite parse_value_print by (done || auto || lia).
Qed.

(** ** String conversion ([`${v}`]) *)
Fixpoint js_show `{HostDate} (v : jsval) : string :=
  match v with
  | JUndef => "undefined"
  | JNull => "null"
  | JBool b => if b then "true" else "false"
  | JNum NNaN => "NaN"
  | JNum (NInf neg) => if neg then "-Infinity" else "Infinity"
  | JNum n => print_num n
  | JStr s => s
  | JDate (Some t) => host_show t
  | JDate None => "Invalid Date"
  | JArr l => join "," (List.map (fun x => if nullish x then "" else js_show x) l)
  | JObj _ => "[object Object]"
  end.
