(* ===== verification/Secrets.v ===== *)
(** * Redaction and sanitising (packages/core/src/security/secrets.ts)

    Patterns are the regular-expression literals of the source; [redactPotentialSecrets]
    applies them in its order, with the replacer's arguments as [String.prototype.replace]
    passes them: a pattern without groups hands the replacer the offset of the match where
    the source expects a key. *)

From S2P Require Import Prelude JsString Regex JsValue Dates Json.

(** ** Patterns *)

Definition dash_us : regex := ropt (RChar (fun c => Ascii.eqb c "-" || Ascii.eqb c "_")).
Definition word2_i (a b : string) : regex := rseqs [rlit_i a; dash_us; rlit_i b].

(** [/(access[-_]?token|...|bearer)/iu] *)
Definition SENSITIVE_KEY_PATTERN : regex :=
  RGroup 1 (ralts
    [word2_i "access" "token"; word2_i "refresh" "token"; word2_i "api" "key";
     rlit_i "authorization"; rlit_i "cookie"; rlit_i "token"; rlit_i "secret";
     rlit_i "password"; rlit_i "passphrase"; RSeq (rlit_i "private") (ropt (rlit_i "key"));
     rlit_i "auth"; rlit_i "credential"; rlit_i "jwt"; rlit_i "session"; rlit_i "bearer"]).

Definition NON_SECRET_PATH_KEYS : list string :=
  ["ssl_certificate_key"; "certificateKey"; "certificate_key"].

Definition rspaces : regex := rstar (RChar is_space).
Definition rspaces1 : regex := rplus (RChar is_space).
Definition rassign : regex := RChar (fun c => Ascii.eqb c ":" || Ascii.eqb c "=").
Definition rquoted (q : ascii) : regex :=
  rseqs [rchar q; rstar (RChar (fun c => negb (Ascii.eqb c q))); rchar q].

(** [[^\s,;]+] *)
Definition rvalue_word : regex :=
  rplus (RChar (fun c => negb (is_space c || Ascii.eqb c "," || Ascii.eqb c ";"))).

Definition authorization_pattern : regex :=
  rseqs [RWordB; RGroup 1 (rlit_i "authorization"); rspaces; rassign; rspaces;
         ropt (RGroup 2 (RSeq (rlit_i "bearer") rspaces1));
         RGroup 3 (ralts [rquoted DQUOTE; rquoted SQUOTE; rvalue_word])].

Definition cookie_pattern : regex :=
  rseqs [RWordB; RGroup 1 (RAlt (rlit_i "cookie") (rlit_i "set-cookie")); rspaces; rassign; rspaces;
         RGroup 2 (ralts [rquoted DQUOTE; rquoted SQUOTE; rplus (RChar not_line_end)])].

Definition keyed_pattern : regex :=
  rseqs [RWordB;
         RGroup 1 (ralts
           [word2_i "access" "token"; word2_i "refresh" "token"; word2_i "api" "key";
            rlit_i "token"; rlit_i "secret"; rlit_i "password"; rlit_i "passphrase";
            RSeq (rlit_i "private") (ropt (rlit_i "key")); rlit_i "auth"; rlit_i "credential";
            rlit_i "jwt"; rlit_i "session"]);
         RWordB; rspaces; rassign; rspaces;
         RGroup 2 (ralts [rquoted DQUOTE; rquoted SQUOTE; rvalue_word])].

(** [[a-z0-9._~+/=-]] under the [i] flag *)
Definition token_char (c : ascii) : bool :=
  is_alnum c || Ascii.eqb c "." || Ascii.eqb c "_" || Ascii.eqb c "~" || Ascii.eqb c "+" ||
  Ascii.eqb c "/" || Ascii.eqb c "=" || Ascii.eqb c "-".

Definition bearer_pattern : regex :=
  rseqs [RWordB; rlit_i "bearer"; rspaces1; rplus (RChar token_char)].

Definition upper_or_space : regex :=
  rstar (RChar (fun c => is_upper c || Ascii.eqb c " ")).

Definition pem_pattern : regex :=
  rseqs [rlit "-----BEGIN "; upper_or_space; rlit "PRIVATE KEY-----"; rlazy (RChar any_char);
         rlit "-----END "; upper_or_space; rlit "PRIVATE KEY-----"].

(** Each pattern with whether it has a capture group. *)
Definition SECRET_VALUE_PATTERNS : list (regex * bool) :=
  [(authorization_pattern, true); (cookie_pattern, true); (keyed_pattern, true);
   (bearer_pattern, false); (pem_pattern, false)].

Definition URL_WITH_CREDENTIALS_PATTERN : regex :=
  rseqs [RWordB;
    RGroup 1 (rseqs [RChar is_alpha;
      rstar (RChar (fun c => is_alnum c || Ascii.eqb c "+" || Ascii.eqb c "." || Ascii.eqb c "-"));
      rlit "://"]);
    RGroup 2 (RSeq (rplus (RChar (fun c =>
        negb (Ascii.eqb c "/" || Ascii.eqb c "?" || Ascii.eqb c "#" || is_space c || Ascii.eqb c "@"))))
      (rlit "@"))].

(** ** Operations *)

Definition isSensitiveFieldName (key : string) : bool :=
  test SENSITIVE_KEY_PATTERN key && negb (bool_decide (key ∈ NON_SECRET_PATH_KEYS)).

(** The replacer's second argument, printed: the first capture, or the offset when the
    pattern has no group ([None] when it is falsy: offset 0 or an empty capture). *)
Definition replacer_key (has_group : bool) (cs : list (nat * string)) (off : nat) : option string :=
  if has_group then
    match capture 1 cs with Some k => if decide (k = "") then None else Some k | None => None end
  else if (off =? 0)%nat then None else Some (show_nat off).

Definition redact_match (has_group : bool) (cs : list (nat * string)) (off : nat) : string :=
  match replacer_key has_group cs off with
  | None => "[redacted]"
  | Some k => k +:+ "=[redacted]"
  end.

Definition redact_url (s : string) : string :=
  replace_all URL_WITH_CREDENTIALS_PATTERN
    (fun cs _ => default "" (capture 1 cs) +:+ "[redacted]@") s.

Definition redact_step (next : string) (p : regex * bool) : string :=
  replace_all (fst p) (redact_match (snd p)) next.

Definition redactPotentialSecrets (value : string) : string :=
  fold_left redact_step SECRET_VALUE_PATTERNS (redact_url value).

Definition containsSecretLikeValue (value : string) : bool :=
  negb (bool_decide (redactPotentialSecrets value = value)).

Definition SENSITIVE_DIRECTIVE_WORDS : list string :=
  ["authorization"; "cookie"; "proxy_set_header auth"; "password"; "token"; "secret";
   "credential"; "jwt"; "session"; "bearer"].

Definition containsSensitiveDirective (value : string) : bool :=
  let normalized := toLowerCase value in
  existsb (fun w => includes w normalized) SENSITIVE_DIRECTIVE_WORDS.

Fixpoint sanitizeForJson (value : jsval) : jsval :=
  match value with
  | JArr l => JArr (List.map sanitizeForJson l)
  | JDate _ => value
  | JStr s => JStr (redactPotentialSecrets s)
  | JObj o =>
      JObj (obj_of_entries ((fix go (o : obj) : obj :=
        match o with
        | [] => []
        | (key, item) :: o' =>
            if negb (isSensitiveFieldName key) then (key, sanitizeForJson item) :: go o' else go o'
        end) o))
  | _ => value
  end.

(** [JSON.stringify(sanitizeForJson(value))]; [None] when the value is [undefined]. *)
Definition stringifyWithoutSecrets (value : jsval) : option string :=
  json_stringify (sanitizeForJson value).

Fixpoint hasSensitiveFieldName (value : jsval) : bool :=
  match value with
  | JArr l => existsb hasSensitiveFieldName l
  | JObj o =>
      (fix some (o : obj) : bool :=
        match o with
        | [] => false
        | (key, item) :: o' => (isSensitiveFieldName key || hasSensitiveFieldName item) || some o'
        end) o
  | _ => false
  end.

Definition containsSensitiveFieldName (serialized : string) : outcome bool :=
  match json_parse serialized with
  | Return v => Return (hasSensitiveFieldName v)
  | Throw e => Throw e
  end.

(** ** Field names *)

Fixpoint sanitize_props (o : obj) : obj :=
  match o with
  | [] => []
  | (key, item) :: o' =>
      if negb (isSensitiveFieldName key) then (key, sanitizeForJson item) :: sanitize_props o'
      else sanitize_props o'
  end.

Lemma sanitize_obj o : sanitizeForJson (JObj o) = JObj (obj_of_entries (sanitize_props o)).
Proof. done. Qed.

Fixpoint some_sensitive (o : obj) : bool :=
  match o with
  | [] => false
  | (key, item) :: o' => (isSensitiveFieldName key || hasSensitiveFieldName item) || some_sensitive o'
  end.

Lemma has_sensitive_obj o : hasSensitiveFieldName (JObj o) = some_sensitive o.
Proof. done. Qed.

Lemma some_sensitive_Forall o :
  some_sensitive o = false <->
  Forall (fun kv => isSensitiveFieldName (fst kv) = false /\ hasSensitiveFieldName (snd kv) = false) o.
Proof.
  induction o as [|[k x] o IH]; simpl; [done|].
  rewrite !orb_false_iff, Forall_cons, IH. done.
Qed.

Lemma obj_set_Forall {A} (P : string * A -> Prop) k v (o : list (string * A)) :
  P (k, v) -> Forall P o -> Forall P (obj_set k v o).
Proof.
  intros Hkv. induction 1 as [|[k' v'] o Hx Ho IH]; simpl; [by apply Forall_singleton|].
  destruct (decide (k = k')); apply Forall_cons; auto.
Qed.

Lemma obj_of_entries_Forall {A} (P : string * A -> Prop) (o : list (string * A)) :
  Forall P o -> Forall P (obj_of_entries o).
Proof.
  unfold obj_of_entries, obj_spread. generalize (@nil (string * A)) (Forall_nil_2 P).
  induction o as [|[k v] o IH]; intros acc Hacc H; simpl; [done|].
  apply Forall_cons in H as [Hx H]. apply IH; [|done]. by apply obj_set_Forall.
Qed.

Lemma sanitize_props_keys o : exists f, List.map fst (sanitize_props o) = List.filter f (List.map fst o).
Proof.
  exists (fun k => negb (isSensitiveFieldName k)).
  induction o as [|[k x] o IH]; simpl; [done|].
  destruct (negb (isSensitiveFieldName k)); simpl; by rewrite IH.
Qed.

Lemma NoDup_filter_keys (f : string -> bool) l : NoDup l -> NoDup (List.filter f l).
Proof. rewrite !NoDup_ListNoDup. apply List.NoDup_filter. Qed.

Lemma sanitize_props_NoDup o : NoDup (List.map fst o) -> NoDup (List.map fst (sanitize_props o)).
Proof. destruct (sanitize_props_keys o) as [f ->]. apply NoDup_filter_keys. Qed.

Lemma sanitize_field_names v : hasSensitiveFieldName (sanitizeForJson v) = false.
Proof.
  induction v as [| |b|n|s|t|l IH|o IH] using jsval_ind; try done.
  - simpl. by rewrite existsb_false_Forall, Forall_map_iff.
  - rewrite sanitize_obj, has_sensitive_obj, some_sensitive_Forall. apply obj_of_entries_Forall.
    induction IH as [|[k x] o Hx _ IHo]; simpl; [done|].
    destruct (isSensitiveFieldName k) eqn:Hk; simpl; [done|]. by apply Forall_cons.
Qed.

(** Whatever the value, no object of the sanitised value, at any depth, has a field
    whose name is sensitive. *)
Theorem sanitize_no_sensitive_field v : hasSensitiveFieldName (sanitizeForJson v) = false.
Proof. apply sanitize_field_names. Qed.

Lemma norm_props_sensitive o :
  Forall (fun kv => hasSensitiveFieldName (snd kv) = false ->
    forall w, json_norm (snd kv) = Some w -> hasSensitiveFieldName w = false) o ->
  some_sensitive o = false -> some_sensitive (norm_props o) = false.
Proof.
  induction 1 as [|[k x] o Hx _ IH]; simpl; [done|]. intros H. bool_hyps.
  destruct (json_norm x) as [y|] eqn:Hy; simpl in *; [|auto].
  rewrite H, (Hx H1 y Hy), IH by done. done.
Qed.

(** Serialising keeps the absence of sensitive names. *)
Lemma json_norm_no_sensitive v w :
  hasSensitiveFieldName v = false -> json_norm v = Some w -> hasSensitiveFieldName w = false.
Proof.
  revert w. induction v as [| |b|n|s|t|l IH|o IH] using jsval_ind; intros w Hv Hw.
  - done.
  - by injection Hw as <-.
  - by injection Hw as <-.
  - injection Hw as <-. by destruct n.
  - by injection Hw as <-.
  - destruct t; by injection Hw as <-.
  - injection Hw as <-. simpl in *. rewrite existsb_false_Forall in *. rewrite Forall_map_iff.
    eapply Forall_impl_strong; [|exact Hv]. intros x Hin Hx. simpl in Hx.
    pose proof (proj1 (List.Forall_forall _ _) IH x Hin) as IHx. simpl in IHx.
    destruct (json_norm x); simpl; [by apply IHx|done].
  - rewrite json_norm_obj in Hw. injection Hw as <-. rewrite has_sensitive_obj in *.
    apply norm_props_sensitive; [|done]. eapply List.Forall_impl; [|exact IH]. simpl. auto.
Qed.

Lemma sanitize_wf v : val_wf v -> val_wf (sanitizeForJson v).
Proof.
  induction v as [| |b|n|s|t|l IH|o IH] using jsval_ind; intros Hwf; try done.
  - cbn [sanitizeForJson]. rewrite val_wf_arr in *. rewrite Forall_map_iff.
    eapply Forall_impl_strong; [|exact Hwf]. intros x Hin. by apply (proj1 (List.Forall_forall _ _) IH).
  - rewrite sanitize_obj. rewrite val_wf_obj in *. destruct Hwf as [Hnd Hwf].
    split; [apply obj_spread_NoDup; by constructor|]. apply obj_of_entries_Forall.
    clear Hnd. induction IH as [|[k x] o Hx _ IHo]; simpl; [done|].
    apply Forall_cons in Hwf as [Hw Hwf]. destruct (negb (isSensitiveFieldName k)); [|auto].
    apply Forall_cons. auto.
Qed.

Lemma stringified_no_sensitive v s :
  val_wf v -> stringifyWithoutSecrets v = Some s -> containsSensitiveFieldName s = Return false.
Proof.
  unfold stringifyWithoutSecrets, json_stringify, containsSensitiveFieldName. intros Hwf Hs.
  destruct (json_norm (sanitizeForJson v)) as [w|] eqn:Hn; [|done]. injection Hs as <-.
  destruct (json_roundtrip _ w (sanitize_wf v Hwf) Hn) as [_ ->].
  f_equal. eapply json_norm_no_sensitive; [apply sanitize_field_names|done].
Qed.

(** C23.  What [stringifyWithoutSecrets] writes parses back, and the parsed value has no
    field with a sensitive name: the persisted text never holds one. *)
Theorem stringify_no_sensitive_field v s :
  val_wf v -> stringifyWithoutSecrets v = Some s -> containsSensitiveFieldName s = Return false.
Proof. apply stringified_no_sensitive. Qed.

(** ** Bearer tokens do not survive redaction *)

(** A bearer token at this position: the word [bearer], white space, a token character. *)
Definition bearer_here (p : option ascii) (s : string) : Prop :=
  word_opt p = false /\
  exists w ws c u, s = w +:+ ws +:+ String c u /\ lang (rlit_i "bearer") w /\
    (exists d ws', ws = String d ws' /\ str_forallb is_space ws = true) /\ token_char c = true.

Lemma lang_bearer_word w :
  lang (rlit_i "bearer") w ->
  str_forallb is_alpha w = true /\ exists c w', w = String c w' /\ (c = "b"%char \/ c = "B"%char).
Proof.
  intros H. split; [eapply lang_within; [|exact H]; reflexivity|].
  apply lang_seq_inv in H as (a & b & -> & Ha & _). apply lang_char_inv in Ha as (c & -> & Hc).
  exists c, b. split; [done|].
  destruct c as [[] [] [] [] [] [] [] []]; vm_compute in Hc; try discriminate Hc; auto.
Qed.

Lemma word_boundary_bearer p w u :
  lang (rlit_i "bearer") w ->
  at_word_boundary (Pos p (w +:+ u) []) = negb (word_opt p).
Proof.
  intros H. apply lang_bearer_word in H as (_ & c & w' & -> & Hc).
  unfold at_word_boundary. rewrite app_cons. simpl.
  destruct Hc as [-> | ->]; by destruct (word_opt p).
Qed.

Lemma bearer_exec p s : exec_here bearer_pattern p s = None <-> ~ bearer_here p s.
Proof.
  rewrite exec_here_none. split.
  - intros H (Hp & w & ws & c & u & -> & Hw & (d & ws' & -> & Hws) & Hc).
    assert (Hl : lang (RSeq (rlit_i "bearer") (RSeq rspaces1 (rplus (RChar token_char))))
                   (w +:+ String d ws' +:+ String c "")).
    { constructor; [done|]. simpl in Hws. bool_hyps.
      constructor; apply lang_plus_chars; done. }
    destruct (lang_matches _ _ Hl p u []) as (cs & Hm).
    rewrite !app_assoc_str in Hm. eapply H. eapply M_seq; [|exact Hm].
    apply M_wordb. rewrite word_boundary_bearer by done. by rewrite Hp.
  - intros H st' Hm. apply H. inversion Hm as [| |r1 r2 st st1 st2 Hb Hr| | | | | | | |]; subst.
    inversion Hb as [| | | | | | | |st Hwb| |]; subst.
    apply matches_lang in Hr as (t & Ht & _ & Hl); [|done]. simpl in Ht. subst s.
    apply lang_seq_inv in Hl as (w & t1 & -> & Hw & Hl).
    apply lang_seq_inv in Hl as (ws & t2 & -> & Hws & Hl).
    apply lang_plus_inv in Hws as (d & ws' & -> & Hd & Hws).
    apply lang_plus_inv in Hl as (c & t3 & -> & Hc & _).
    rewrite !app_assoc_str in Hwb |- *. rewrite word_boundary_bearer in Hwb by done.
    split; [by apply negb_true_iff|]. exists w, (String d ws'), c, (t3 +:+ rest st').
    split_and!; try done. exists d, ws'. simpl. by rewrite Hd, Hws.
Qed.

(** Where a string starts with a character no bearer token starts with, there is none. *)
Lemma bearer_here_head p s :
  bearer_here p s -> exists c s', s = String c s' /\ (c = "b"%char \/ c = "B"%char).
Proof.
  intros (_ & w & ws & c & u & -> & Hw & _). apply lang_bearer_word in Hw as (_ & d & w' & -> & Hd).
  by exists d, (w' +:+ ws +:+ String c u).
Qed.

(** Two ways to cut the same string. *)
Lemma app_eq_split a b g o :
  a +:+ b = g +:+ o ->
  (exists x, g = a +:+ x /\ b = x +:+ o) \/ (exists c x, a = g +:+ String c x /\ o = String c x +:+ b).
Proof.
  revert g. induction a as [|c a IH]; intros g H.
  - left. by exists g.
  - destruct g as [|d g]; [right; by exists c, a|].
    rewrite !app_cons in H. injection H as -> H.
    destruct (IH g H) as [(x & -> & ->)|(e & x & -> & ->)]; [left|right]; eauto.
Qed.

(** What a replacer writes: digits, possibly an [=], then a bracket. *)
Definition mark_char (c : ascii) : bool := is_digit c || Ascii.eqb c "=".
Definition is_mark (o : string) : Prop :=
  exists D u, o = D +:+ String "[" u /\ str_forallb mark_char D = true.

(** The output follows the input up to the next replacement, which starts where the input
    has a token character. *)
Definition agree (s out : string) : Prop :=
  exists g m o, s = g +:+ m /\ out = g +:+ o /\
    ((m = "" /\ o = "") \/ ((exists c m', m = String c m' /\ token_char c = true) /\ is_mark o)).

Lemma mark_head o : is_mark o -> exists c o', o = String c o' /\ is_alpha c = false /\ is_space c = false.
Proof.
  intros (D & u & -> & HD). destruct D as [|c D]; [by exists "["%char, u|].
  exists c, (D +:+ String "[" u). simpl in HD. bool_hyps. split; [done|].
  clear -H. destruct c as [[] [] [] [] [] [] [] []]; vm_compute in H |- *; try discriminate H; auto.
Qed.

Lemma bearer_agree p s out : agree s out -> bearer_here p out -> bearer_here p s.
Proof.
  intros (g & m & o & -> & -> & Hmo) (Hp & w & ws & c & u & Heq & Hw & Hws & Hc).
  split; [done|]. rewrite <- app_assoc_str in Heq. symmetry in Heq.
  destruct (app_eq_split _ _ _ _ Heq) as [(x & -> & Hx)|(d & x & Hd & Ho)].
  - destruct x as [|e x].
    + rewrite app_nil_l_str in Hx.
      destruct Hmo as [[-> ->]|[(e & m' & -> & He) _]]; [done|].
      exists w, ws, e, m'. rewrite app_nil_r_str, app_assoc_str. auto.
    + rewrite app_cons in Hx. injection Hx as -> ->.
      exists w, ws, e, (x +:+ m). rewrite !app_assoc_str. auto.
  - exfalso. assert (Hall : str_forallb (fun c => is_alpha c || is_space c) (w +:+ ws) = true).
    { apply lang_bearer_word in Hw as [Hw _]. destruct Hws as (? & ? & -> & Hws).
      rewrite str_forallb_app. apply andb_true_iff. split.
      - eapply str_forallb_impl; [|exact Hw]. by intros ? ->.
      - eapply str_forallb_impl; [|exact Hws]. intros ? ->. by rewrite orb_true_r. }
    rewrite Hd, str_forallb_app in Hall. simpl in Hall.
    apply andb_true_iff in Hall as [_ Hall]. apply andb_true_iff in Hall as [Hall _].
    destruct Hmo as [[_ ->]|[_ Hm]]; [done|].
    apply mark_head in Hm as (e & o' & -> & He1 & He2). injection Ho as -> _.
    by rewrite He1, He2 in Hall.
Qed.

(** Replacing every match of [r], when matches are non-empty, start with a token character
    and end where no bearer token can begin; [ok] is what holds of the positions visited. *)
Section bearer_free.
Context (r : regex) (f : list (nat * string) -> nat -> string).
Context (ok : option ascii -> string -> Prop).
Hypothesis ok_next : forall p c s, ok p (String c s) -> ok (Some c) s.
Hypothesis ok_free : forall p s, ok p s -> exec_here r p s = None -> ~ bearer_here p s.
Hypothesis match_shape : forall p s st', exec_here r p s = Some st' ->
  exists c t, s = String c t +:+ rest st' /\ prev st' = last_opt p (String c t) /\
    token_char c = true /\
    (word_opt (prev st') = false \/ forall d u, rest st' = String d u -> token_char d = false).
Hypothesis out_shape : forall cs off,
  exists D, f cs off = D +:+ "[redacted]" /\ str_forallb mark_char D = true.

Lemma ok_drop t : forall p s, ok p (t +:+ s) -> ok (last_opt p t) s.
Proof. induction t as [|c t IH]; intros p s H; [done|]. apply IH. by eapply ok_next. Qed.

Lemma replace_agree fuel off p s :
  (String.length s < fuel)%nat -> agree s (replace_from fuel r f off p s).
Proof.
  revert off p s. induction fuel as [|fuel IH]; intros off p s Hf; [lia|].
  destruct (exec_here r p s) as [st'|] eqn:He.
  - destruct (match_shape _ _ _ He) as (c & t & Hs & _ & Hc & _).
    rewrite (replace_from_match _ _ _ _ _ _ st') by
      (done || (rewrite Hs, length_app_str; unfold remaining; simpl; lia)).
    destruct (out_shape (caps st') off) as (D & -> & HD).
    exists "", s. eexists. rewrite !app_nil_l_str. split_and!; [done|done|]. right. split.
    + exists c, (t +:+ rest st'). by rewrite Hs.
    + rewrite app_assoc_str. exists D. eexists. split; [|done]. by rewrite app_cons.
  - destruct s as [|c s].
    + cbn [replace_from]. rewrite He. exists "", "", "". auto.
    + rewrite replace_from_skip by done. simpl in Hf.
      destruct (IH (S off) (Some c) s ltac:(lia)) as (g & m & o & -> & Ho & Hmo).
      exists (String c g), m, o. rewrite Ho. done.
Qed.

Lemma no_bearer_in_mark p F u :
  str_forallb (fun c => negb (Ascii.eqb c "b" || Ascii.eqb c "B")) F = true ->
  test_from bearer_pattern p (F +:+ u) = test_from bearer_pattern (last_opt p F) u.
Proof.
  revert p. induction F as [|c F IH]; intros p H; [done|]. simpl in H. bool_hyps.
  rewrite app_cons. cbn [test_from].
  assert (Hn : exec_here bearer_pattern p (String c (F +:+ u)) = None).
  { apply bearer_exec. intros Hb. apply bearer_here_head in Hb as (d & s' & [= <- _] & Hd).
    destruct Hd as [-> | ->]; discriminate. }
  rewrite Hn. by apply IH.
Qed.

Lemma mark_no_b D :
  str_forallb mark_char D = true ->
  str_forallb (fun c => negb (Ascii.eqb c "b" || Ascii.eqb c "B")) (D +:+ "[redacted]") = true.
Proof.
  intros H. rewrite str_forallb_app. apply andb_true_iff. split; [|done].
  eapply str_forallb_impl; [|exact H]. intros c Hc.
  destruct c as [[] [] [] [] [] [] [] []]; vm_compute in Hc |- *; try discriminate Hc; auto.
Qed.

Lemma replace_bearer_free fuel off p p' s :
  (String.length s < fuel)%nat -> ok p s ->
  word_opt p = word_opt p' \/ (forall d u, s = String d u -> token_char d = false) ->
  test_from bearer_pattern p' (replace_from fuel r f off p s) = false.
Proof.
  revert off p p' s. induction fuel as [|fuel IH]; intros off p p' s Hf Hok Hp; [lia|].
  destruct (exec_here r p s) as [st'|] eqn:He.
  - destruct (match_shape _ _ _ He) as (c & t & Hs & Hprev & Hc & Hend).
    assert (Hlen : (remaining st' < String.length s)%nat)
      by (rewrite Hs, length_app_str; unfold remaining; simpl; lia).
    rewrite (replace_from_match _ _ _ _ _ _ st') by done.
    destruct (out_shape (caps st') off) as (D & -> & HD).
    rewrite no_bearer_in_mark by by apply mark_no_b. rewrite last_opt_app.
    apply IH; [unfold remaining in Hlen; lia| |].
    + rewrite Hprev. apply ok_drop. by rewrite <- Hs.
    + destruct Hend as [Hw|Hd]; [left; by rewrite Hw|by right].
  - destruct s as [|c s].
    { cbn [replace_from]. rewrite He.
      assert (Hn : exec_here bearer_pattern p' "" = None)
        by (apply bearer_exec; intros Hb; by apply bearer_here_head in Hb as (? & ? & ? & _)).
      change (match exec_here bearer_pattern p' "" with Some _ => true | None => false end = false).
      by rewrite Hn. }
    assert (Hag := replace_agree (S fuel) off p (String c s) Hf).
    rewrite replace_from_skip in Hag |- * by done. cbn [test_from].
    assert (Hn : exec_here bearer_pattern p' (String c (replace_from fuel r f (S off) (Some c) s)) = None).
    { apply bearer_exec. intros Hb. eapply bearer_agree in Hb; [|exact Hag].
      destruct Hp as [Hp|Hp].
      - apply (ok_free p (String c s)); [done|done|]. destruct Hb as [Hw Hb].
        split; [by rewrite Hp|exact Hb].
      - apply bearer_here_head in Hb as (d & u & [= <- <-] & Hd).
        specialize (Hp c s eq_refl). by destruct Hd as [-> | ->]. }
    rewrite Hn. apply IH; [simpl in Hf; lia|by eapply ok_next|by left].
Qed.
End bearer_free.

(** The text of a redaction mark. *)
Lemma redact_match_shape cs off :
  exists D, redact_match false cs off = D +:+ "[redacted]" /\ str_forallb mark_char D = true.
Proof.
  unfold redact_match, replacer_key. destruct (off =? 0)%nat; [by exists ""|].
  exists (show_nat off +:+ "="). rewrite app_assoc_str. split; [done|].
  rewrite str_forallb_app. apply andb_true_iff. split; [|done].
  eapply str_forallb_impl; [|apply show_N_digits]. unfold mark_char. by intros c ->.
Qed.

Lemma token_char_alpha c : is_alpha c = true -> token_char c = true.
Proof. unfold token_char, is_alnum. by intros ->. Qed.

(** A greedy class stops only where the class stops: the matcher's first answer is the
    longest run. *)
Lemma star_loop_greedy_end p n st st' :
  (remaining st < n)%nat ->
  star_loop (A := pos) true (bt (RChar p)) n st Some = Some st' ->
  forall d u, rest st' = String d u -> p d = false.
Proof.
  revert st. induction n as [|n IH]; intros st Hn H d u Hd; [lia|]. simpl in H.
  destruct (rest st) as [|c s] eqn:Hr.
  - injection H as <-. congruence.
  - destruct (p c) eqn:Hp; [|injection H as <-; congruence].
    unfold remaining in H, Hn. simpl in H. rewrite Hr in H, Hn. simpl in H, Hn.
    destruct (Nat.ltb_spec (String.length s) (S (String.length s))); [|lia].
    destruct (star_loop true _ n (Pos (Some c) s (caps st)) Some) as [st1|] eqn:Hs.
    + injection H as <-. eapply IH; [|exact Hs|exact Hd]. unfold remaining. simpl. lia.
    + exfalso. clear -Hs. destruct n; simpl in Hs; [done|].
      destruct s as [|e s]; [done|]. destruct (p e); [|done].
      unfold remaining in Hs. simpl in Hs. destruct (_ <? _)%nat; [|done].
      by destruct (star_loop _ _ _ _ _).
Qed.

(** The stage that replaces bearer tokens. *)
Lemma bearer_match_shape p s st' :
  exec_here bearer_pattern p s = Some st' ->
  exists c t, s = String c t +:+ rest st' /\ prev st' = last_opt p (String c t) /\
    token_char c = true /\
    (word_opt (prev st') = false \/ forall d u, rest st' = String d u -> token_char d = false).
Proof.
  intros He. pose proof (exec_here_some _ _ _ _ He) as Hm.
  inversion Hm as [| |r1 r2 st st1 st2 Hb Hr| | | | | | | |]; subst.
  inversion Hb as [| | | | | | | |st Hwb| |]; subst.
  apply matches_lang in Hr as (t & Ht & Hp & Hl); [|done]. simpl in Ht, Hp.
  apply lang_seq_inv in Hl as (w & t1 & -> & Hw & _).
  apply lang_bearer_word in Hw as [Hw (c & w' & -> & Hc)].
  rewrite app_cons in Ht, Hp. exists c, (w' +:+ t1). split_and!; [done|done| |right].
  - by destruct Hc as [-> | ->].
  - unfold exec_here, bearer_pattern in He. cbn [rseqs bt rplus] in He.
    destruct (at_word_boundary _); [|done].
    apply bt_spec in He as (st1 & _ & He). apply bt_spec in He as (st2 & _ & He).
    destruct (rest st2) as [|d s2]; [done|]. destruct (token_char d); [|done].
    eapply star_loop_greedy_end; [|exact He]. unfold remaining. simpl. lia.
Qed.

Lemma bearer_stage s : test bearer_pattern (redact_step s (bearer_pattern, false)) = false.
Proof.
  unfold redact_step, test, replace_all. cbn [fst snd].
  apply (replace_bearer_free bearer_pattern (redact_match false) (fun _ _ => True)); try done.
  - intros p s' _. apply bearer_exec.
  - apply bearer_match_shape.
  - apply redact_match_shape.
  - lia.
  - by left.
Qed.

(** The stage that replaces private keys. *)
Lemma lang_lit_self l : lang (rlit l) l.
Proof. induction l as [|c l IH]; simpl; [constructor|]. apply (L_seq _ _ (String c "") l); [constructor; apply Ascii.eqb_refl|done]. Qed.

Lemma pem_match_shape p s st' :
  exec_here pem_pattern p s = Some st' ->
  exists c t, s = String c t +:+ rest st' /\ prev st' = last_opt p (String c t) /\
    token_char c = true /\
    (word_opt (prev st') = false \/ forall d u, rest st' = String d u -> token_char d = false).
Proof.
  intros He. apply exec_here_some in He. apply matches_lang in He as (t & Ht & Hp & Hl); [|done].
  simpl in Ht, Hp. unfold pem_pattern in Hl. cbn [rseqs] in Hl.
  apply lang_seq_inv in Hl as (a1 & l1 & -> & Ha & Hl). apply lang_lit in Ha as ->.
  do 5 (apply lang_seq_inv in Hl as (? & ? & -> & _ & Hl)). apply lang_lit in Hl as ->.
  eexists "-"%char, _. split_and!; [exact Ht|exact Hp|done|left].
  rewrite Hp, !last_opt_app. done.
Qed.

Lemma pem_stage s :
  test bearer_pattern s = false -> test bearer_pattern (redact_step s (pem_pattern, false)) = false.
Proof.
  intros H. unfold redact_step, test, replace_all. cbn [fst snd].
  apply (replace_bearer_free pem_pattern (redact_match false)
           (fun p s => test_from bearer_pattern p s = false)); try done.
  - intros p c s' Hs. apply (test_from_drop _ p (String c "") s' Hs).
  - intros p s' Hs _. apply bearer_exec. destruct s'; simpl in Hs; by destruct (exec_here _ _ _).
  - apply pem_match_shape.
  - apply redact_match_shape.
  - lia.
  - by left.
Qed.

Lemma redacted_no_bearer s : test bearer_pattern (redactPotentialSecrets s) = false.
Proof.
  unfold redactPotentialSecrets, SECRET_VALUE_PATTERNS. cbn [fold_left].
  apply pem_stage, bearer_stage.
Qed.

(** C3.  No redacted text contains a bearer token: the word [bearer] in any case at a word
    boundary, white space, and a token.  Neither the marks the redaction writes nor the
    private-key stage after it can create one. *)
Theorem redact_no_bearer s : test bearer_pattern (redactPotentialSecrets s) = false.
Proof. apply redacted_no_bearer. Qed.

(** No text of the value, at any depth, holds a bearer token. *)
Fixpoint bearer_free (v : jsval) : bool :=
  match v with
  | JStr s => negb (test bearer_pattern s)
  | JArr l => forallb bearer_free l
  | JObj o => (fix all (o : obj) : bool := match o with [] => true | (_, x) :: o' => bearer_free x && all o' end) o
  | _ => true
  end.

Lemma bearer_free_obj o : bearer_free (JObj o) = true <-> Forall (fun kv => bearer_free (snd kv) = true) o.
Proof.
  simpl. induction o as [|[k x] o IH]; [done|]. rewrite Forall_cons, andb_true_iff, IH. done.
Qed.

Lemma sanitize_bearer_free v : bearer_free (sanitizeForJson v) = true.
Proof.
  induction v as [| |b|n|s|t|l IH|o IH] using jsval_ind; try done.
  - cbn [sanitizeForJson bearer_free]. by rewrite redacted_no_bearer.
  - cbn [sanitizeForJson bearer_free]. by rewrite forallb_Forall, Forall_map_iff.
  - rewrite sanitize_obj. apply bearer_free_obj, obj_of_entries_Forall.
    induction IH as [|[k x] o Hx _ IHo]; simpl; [done|].
    destruct (isSensitiveFieldName k); simpl; [done|]. by apply Forall_cons.
Qed.

(** ** Text that is left alone *)

(** None of the six patterns matches anywhere. *)
Definition no_secret_pattern (s : string) : bool :=
  negb (test URL_WITH_CREDENTIALS_PATTERN s) &&
  forallb (fun p => negb (test (fst p) s)) SECRET_VALUE_PATTERNS.

Lemma redact_clean s : no_secret_pattern s = true -> redactPotentialSecrets s = s.
Proof.
  unfold no_secret_pattern, redactPotentialSecrets, redact_url. intros H. bool_hyps.
  rewrite replace_all_id by done.
  apply forallb_Forall in H0. induction H0 as [|p l Hp _ IH]; simpl; [done|].
  unfold redact_step. bool_hyps. by rewrite replace_all_id.
Qed.

(** A value whose strings hold no secret and whose fields have no sensitive name. *)
Fixpoint clean (v : jsval) : bool :=
  match v with
  | JStr s => no_secret_pattern s
  | JArr l => forallb clean l
  | JObj o =>
      (fix all (o : obj) : bool :=
        match o with
        | [] => true
        | (key, item) :: o' => negb (isSensitiveFieldName key) && clean item && all o'
        end) o
  | _ => true
  end.

Fixpoint clean_props (o : obj) : bool :=
  match o with
  | [] => true
  | (key, item) :: o' => negb (isSensitiveFieldName key) && clean item && clean_props o'
  end.

Lemma clean_obj o : clean (JObj o) = clean_props o.
Proof. done. Qed.

Lemma sanitize_clean_id v : val_wf v -> clean v = true -> sanitizeForJson v = v.
Proof.
  induction v as [| |b|n|s|t|l IH|o IH] using jsval_ind; intros Hwf Hc; try done.
  - simpl in *. f_equal. by apply redact_clean.
  - cbn [sanitizeForJson clean] in *. rewrite val_wf_arr in Hwf. rewrite forallb_Forall in Hc. f_equal.
    apply map_all_id. eapply Forall_impl_strong; [|exact Hc]. intros x Hin Hx.
    pose proof (proj1 (List.Forall_forall _ _) IH x Hin). pose proof (proj1 (List.Forall_forall _ _) Hwf x Hin). auto.
  - rewrite sanitize_obj. rewrite clean_obj in Hc. rewrite val_wf_obj in Hwf. destruct Hwf as [Hnd Hwf].
    assert (Hs : sanitize_props o = o).
    { clear Hnd. induction IH as [|[k x] o Hx _ IHo]; simpl in *; [done|].
      apply Forall_cons in Hwf as [Hw Hwf].
      apply andb_true_iff in Hc as [Hc Hco]. apply andb_true_iff in Hc as [-> Hc].
      by rewrite (Hx Hw Hc), (IHo Hwf Hco). }
    rewrite Hs. f_equal. by apply obj_of_entries_id.
Qed.

(** Sanitising changes nothing in a value without secrets: redaction has no effect on
    what matches none of its patterns, and no field is lost or reordered. *)
Theorem sanitize_clean v : val_wf v -> clean v = true -> sanitizeForJson v = v.
Proof. apply sanitize_clean_id. Qed.

(** ** Text the patterns cannot match *)

Lemma clean_props_Forall o :
  clean_props o = true <->
  Forall (fun kv => isSensitiveFieldName (fst kv) = false /\ clean (snd kv) = true) o.
Proof.
  induction o as [|[k x] o IH]; simpl; [done|].
  rewrite Forall_cons, !andb_true_iff, negb_true_iff, IH. done.
Qed.

(** The characters of an ISO date: every pattern needs one outside them. *)
Definition iso_char (c : ascii) : bool :=
  is_digit c || Ascii.eqb c "-" || Ascii.eqb c "+" || Ascii.eqb c ":" || Ascii.eqb c "." ||
  Ascii.eqb c "T" || Ascii.eqb c "Z".

Lemma iso_no_secret s : str_forallb iso_char s = true -> no_secret_pattern s = true.
Proof.
  intros Hs. unfold no_secret_pattern. apply andb_true_iff. split.
  - apply negb_true_iff. apply (test_needs (fun c => negb (iso_char c))); [vm_compute; reflexivity|].
    rewrite str_existsb_forallb. apply negb_false_iff. eapply str_forallb_impl; [|exact Hs]. by intros c ->.
  - apply forallb_Forall. unfold SECRET_VALUE_PATTERNS.
    repeat (apply List.Forall_cons; [apply negb_true_iff, (test_needs (fun c => negb (iso_char c)));
      [vm_compute; reflexivity|rewrite str_existsb_forallb; apply negb_false_iff;
       eapply str_forallb_impl; [|exact Hs]; by intros c ->]|]). constructor.
Qed.

(** ** The theorems at work *)

Definition sample_settings : jsval :=
  JObj [("password", JStr "hunter2"); ("note", JStr "use bearer abc"); ("n", JNum (NInt 3))].

Lemma stringify_no_sensitive_field_witness :
  exists s, stringifyWithoutSecrets sample_settings = Some s /\ containsSensitiveFieldName s = Return false.
Proof.
  eexists. split; [vm_compute; reflexivity|].
  apply (stringify_no_sensitive_field sample_settings).
  - repeat split. refine (proj1 (bool_decide_spec (NoDup _)) _). vm_compute. exact I.
  - vm_compute. reflexivity.
Defined.

Lemma sanitize_clean_witness :
  sanitizeForJson (JObj [("id", JStr "r1"); ("tags", JArr [JStr "edge"])]) =
  JObj [("id", JStr "r1"); ("tags", JArr [JStr "edge"])].
Proof.
  apply sanitize_clean; [|vm_compute; reflexivity].
  repeat split. refine (proj1 (bool_decide_spec (NoDup _)) _). vm_compute. exact I.
Defined.

(** The replacer of a pattern without groups takes the offset for a key. *)
Example bearer_offset_mark : redactPotentialSecrets "use bearer abc" = "use 4=[redacted]".
Proof. vm_compute. reflexivity. Qed.
