(* ===== verification/Zod.v ===== *)
(** * The schema library as the code relies on it

    The schemas of packages/core/src/entities/types.ts are built with zod, which is not part
    of the repository.  [schema] is the syntax the source writes them in, one constructor
    per combinator it uses, carrying the source's own regular expressions, predicates and
    refinements.  What parsing a schema does is the library's: the operation of class [Zod],
    a parameter, with the laws of class [ZodLaws], one documented fact per combinator.
    [accept] reads a schema as those laws say ([parse_accept]), and [zod_model] is a concrete
    parser that satisfies them. *)

From S2P Require Import Prelude JsString Regex JsValue.

(** An issue, as far as the code looks at it. *)
Record issue := Issue { issue_path : list string; issue_message : string }.

Unset Elimination Schemes.
Inductive schema :=
  | ZString (checks : list regex)                          (* z.string().regex(r)... *)
  | ZNumber (checks : list (jsnum -> bool))                (* z.number().int().min(a)... *)
  | ZBoolean
  | ZDate
  | ZNull
  | ZLiteral (s : string)
  | ZEnum (values : list string)
  | ZRefine (s : schema) (p : jsval -> bool)               (* s.refine(p) *)
  | ZSuperRefine (s : schema) (f : jsval -> jsval * list issue)
  | ZOptional (s : schema)
  | ZPreprocess (f : jsval -> jsval) (s : schema)
  | ZUnion (s1 s2 : schema)                                (* s1.or(s2) *)
  | ZArray (s : schema)
  | ZRecord (s : schema)                                   (* z.record(z.string(), s) *)
  | ZObject (fields : list (string * schema)).
Set Elimination Schemes.

(** Induction with the hypothesis on every field. *)
Section schema_ind.
Variable P : schema -> Prop.
Hypothesis HString : forall cs, P (ZString cs).
Hypothesis HNumber : forall cs, P (ZNumber cs).
Hypothesis HBoolean : P ZBoolean.
Hypothesis HDate : P ZDate.
Hypothesis HNull : P ZNull.
Hypothesis HLiteral : forall s, P (ZLiteral s).
Hypothesis HEnum : forall vs, P (ZEnum vs).
Hypothesis HRefine : forall s p, P s -> P (ZRefine s p).
Hypothesis HSuper : forall s f, P s -> P (ZSuperRefine s f).
Hypothesis HOptional : forall s, P s -> P (ZOptional s).
Hypothesis HPreprocess : forall f s, P s -> P (ZPreprocess f s).
Hypothesis HUnion : forall s1 s2, P s1 -> P s2 -> P (ZUnion s1 s2).
Hypothesis HArray : forall s, P s -> P (ZArray s).
Hypothesis HRecord : forall s, P s -> P (ZRecord s).
Hypothesis HObject : forall fs, Forall (fun f => P (snd f)) fs -> P (ZObject fs).

Fixpoint schema_ind (s : schema) : P s :=
  match s with
  | ZString cs => HString cs
  | ZNumber cs => HNumber cs
  | ZBoolean => HBoolean
  | ZDate => HDate
  | ZNull => HNull
  | ZLiteral x => HLiteral x
  | ZEnum vs => HEnum vs
  | ZRefine s p => HRefine s p (schema_ind s)
  | ZSuperRefine s f => HSuper s f (schema_ind s)
  | ZOptional s => HOptional s (schema_ind s)
  | ZPreprocess f s => HPreprocess f s (schema_ind s)
  | ZUnion s1 s2 => HUnion s1 s2 (schema_ind s1) (schema_ind s2)
  | ZArray s => HArray s (schema_ind s)
  | ZRecord s => HRecord s (schema_ind s)
  | ZObject fs =>
      HObject fs ((fix all (fs : list (string * schema)) : Forall (fun f => P (snd f)) fs :=
        match fs with
        | [] => List.Forall_nil _
        | (k, s) :: fs' =>
            @List.Forall_cons _ (fun f => P (snd f)) (k, s) fs' (schema_ind s) (all fs')
        end) fs)
  end.
End schema_ind.

(** ** The interface *)

Class Zod := safeParse : schema -> jsval -> list issue + jsval.

(** [schema.parse(v)]: the output, or a thrown ZodError. *)
Definition parse `{Zod} (s : schema) (v : jsval) : outcome jsval :=
  match safeParse s v with
  | inr w => Return w
  | inl _ => Throw (JsError EZod "ZodError")
  end.

(** [schema.safeParse(v).success] *)
Definition success `{Zod} (s : schema) (v : jsval) : bool :=
  match safeParse s v with inr _ => true | inl _ => false end.

(** What [z.object] reads properties from: any non-null object that is not an array. *)
Definition object_props (v : jsval) : option obj :=
  match v with JObj o => Some o | JDate _ => Some [] | _ => None end.

Definition is_finite (n : jsnum) : bool := match n with NInt _ | NDec _ _ => true | _ => false end.

(** A field of the output: present when the parsed value is not [undefined] or the key was
    present in the input. *)
Definition out_field (o : obj) (k : string) (w : jsval) : obj :=
  match w, obj_get k o with JUndef, None => [] | _, _ => [(k, w)] end.

(** The fields of a shape, parsed in the order of the shape; other keys are dropped. *)
Inductive fields_parsed (R : schema -> jsval -> jsval -> Prop) (o : obj) :
    list (string * schema) -> obj -> Prop :=
  | FP_nil : fields_parsed R o [] []
  | FP_cons k s w fs o' :
      R s (jget k (JObj o)) w -> fields_parsed R o fs o' ->
      fields_parsed R o ((k, s) :: fs) (out_field o k w ++ o').

Class ZodLaws `{Zod} : Prop := {
  z_string cs v w : safeParse (ZString cs) v = inr w <->
    w = v /\ exists s, v = JStr s /\ Forall (fun r => test r s = true) cs;
  z_number cs v w : safeParse (ZNumber cs) v = inr w <->
    w = v /\ exists n, v = JNum n /\ is_finite n = true /\ Forall (fun p => p n = true) cs;
  z_boolean v w : safeParse ZBoolean v = inr w <-> w = v /\ exists b, v = JBool b;
  z_date v w : safeParse ZDate v = inr w <-> w = v /\ exists t, v = JDate (Some t);
  z_null v w : safeParse ZNull v = inr w <-> w = v /\ v = JNull;
  z_literal s v w : safeParse (ZLiteral s) v = inr w <-> w = v /\ v = JStr s;
  z_enum vs v w : safeParse (ZEnum vs) v = inr w <-> w = v /\ exists s, v = JStr s /\ s ∈ vs;
  z_refine s p v w : safeParse (ZRefine s p) v = inr w <-> safeParse s v = inr w /\ p w = true;
  z_superRefine s f v w : safeParse (ZSuperRefine s f) v = inr w <->
    exists u, safeParse s v = inr u /\ f u = (w, []);
  z_optional s v w : safeParse (ZOptional s) v = inr w <->
    (v = JUndef /\ w = JUndef) \/ (v <> JUndef /\ safeParse s v = inr w);
  z_preprocess f s v w : safeParse (ZPreprocess f s) v = inr w <-> safeParse s (f v) = inr w;
  z_union s1 s2 v w : safeParse (ZUnion s1 s2) v = inr w <->
    safeParse s1 v = inr w \/ (success s1 v = false /\ safeParse s2 v = inr w);
  z_array s v w : safeParse (ZArray s) v = inr w <->
    exists l l', v = JArr l /\ w = JArr l' /\ Forall2 (fun x y => safeParse s x = inr y) l l';
  z_record s v w : safeParse (ZRecord s) v = inr w <->
    exists o o', v = JObj o /\ w = JObj o' /\
      Forall2 (fun x y => fst x = fst y /\ safeParse s (snd x) = inr (snd y)) o o';
  z_object fs v w : safeParse (ZObject fs) v = inr w <->
    exists o o', object_props v = Some o /\ w = JObj o' /\
      fields_parsed (fun s x y => safeParse s x = inr y) o fs o';
  (** A failure has issues; those of a refinement are reported when its schema accepts. *)
  z_issues s v l : safeParse s v = inl l -> l <> [];
  z_custom_issues s f v u w l : safeParse s v = inr u -> f u = (w, l) -> l <> [] ->
    safeParse (ZSuperRefine s f) v = inl l
}.

(** ** Reading a schema as the laws say *)

Fixpoint accept (s : schema) (v : jsval) : option jsval :=
  match s with
  | ZString cs =>
      match v with JStr x => if forallb (fun r => test r x) cs then Some v else None | _ => None end
  | ZNumber cs =>
      match v with
      | JNum n => if is_finite n && forallb (fun p => p n) cs then Some v else None
      | _ => None
      end
  | ZBoolean => match v with JBool _ => Some v | _ => None end
  | ZDate => match v with JDate (Some _) => Some v | _ => None end
  | ZNull => match v with JNull => Some v | _ => None end
  | ZLiteral x => match v with JStr y => if decide (y = x) then Some v else None | _ => None end
  | ZEnum vs => match v with JStr y => if decide (y ∈ vs) then Some v else None | _ => None end
  | ZRefine s p =>
      match accept s v with Some w => if p w then Some w else None | None => None end
  | ZSuperRefine s f =>
      match accept s v with
      | Some u => match f u with (w, []) => Some w | _ => None end
      | None => None
      end
  | ZOptional s => match v with JUndef => Some JUndef | _ => accept s v end
  | ZPreprocess f s => accept s (f v)
  | ZUnion s1 s2 => match accept s1 v with Some w => Some w | None => accept s2 v end
  | ZArray s =>
      match v with
      | JArr l =>
          JArr <$> ((fix go (l : list jsval) : option (list jsval) :=
            match l with
            | [] => Some []
            | x :: l' => y ← accept s x; ys ← go l'; Some (y :: ys)
            end) l)
      | _ => None
      end
  | ZRecord s =>
      match v with
      | JObj o =>
          JObj <$> ((fix go (o : obj) : option obj :=
            match o with
            | [] => Some []
            | (k, x) :: o' => y ← accept s x; ys ← go o'; Some ((k, y) :: ys)
            end) o)
      | _ => None
      end
  | ZObject fs =>
      match object_props v with
      | Some o =>
          JObj <$> ((fix go (fs : list (string * schema)) : option obj :=
            match fs with
            | [] => Some []
            | (k, s) :: fs' => w ← accept s (jget k (JObj o)); o' ← go fs'; Some (out_field o k w ++ o')
            end) fs)
      | None => None
      end
  end.

Fixpoint accept_list (s : schema) (l : list jsval) : option (list jsval) :=
  match l with
  | [] => Some []
  | x :: l' => y ← accept s x; ys ← accept_list s l'; Some (y :: ys)
  end.

Fixpoint accept_props (s : schema) (o : obj) : option obj :=
  match o with
  | [] => Some []
  | (k, x) :: o' => y ← accept s x; ys ← accept_props s o'; Some ((k, y) :: ys)
  end.

Fixpoint accept_fields (o : obj) (fs : list (string * schema)) : option obj :=
  match fs with
  | [] => Some []
  | (k, s) :: fs' =>
      w ← accept s (jget k (JObj o)); o' ← accept_fields o fs'; Some (out_field o k w ++ o')
  end.

Lemma accept_array s l : accept (ZArray s) (JArr l) = JArr <$> accept_list s l.
Proof.
  simpl. f_equal. induction l as [|x l IH]; [done|]. cbn [accept_list]. by rewrite <- IH.
Qed.
Lemma accept_record s o : accept (ZRecord s) (JObj o) = JObj <$> accept_props s o.
Proof.
  simpl. f_equal. induction o as [|[k x] o IH]; [done|]. cbn [accept_props]. by rewrite <- IH.
Qed.
Lemma accept_object fs v :
  accept (ZObject fs) v =
  match object_props v with Some o => JObj <$> accept_fields o fs | None => None end.
Proof.
  simpl. destruct (object_props v) as [o|]; [|done]. f_equal.
  induction fs as [|[k s] fs IH]; [done|]. cbn [accept_fields]. by rewrite <- IH.
Qed.

Lemma accept_superRefine s f v w :
  accept (ZSuperRefine s f) v = Some w <-> exists u, accept s v = Some u /\ f u = (w, []).
Proof.
  simpl. split.
  - destruct (accept s v) as [u|]; [|done]. destruct (f u) as [u' [|]] eqn:Hf; [|done].
    intros [= <-]. eauto.
  - intros (u & -> & ->). done.
Qed.

Lemma accept_union s1 s2 v :
  accept (ZUnion s1 s2) v = match accept s1 v with Some w => Some w | None => accept s2 v end.
Proof. done. Qed.

Lemma accept_preprocess f s v : accept (ZPreprocess f s) v = accept s (f v).
Proof. done. Qed.

Lemma accept_number cs v w :
  accept (ZNumber cs) v = Some w <->
  w = v /\ exists n, v = JNum n /\ is_finite n = true /\ forallb (fun p => p n) cs = true.
Proof.
  simpl. split.
  - destruct v; try done. destruct (is_finite n) eqn:Hf; [|done]. simpl.
    destruct (forallb _ cs) eqn:Hc; [|done]. intros [= <-]. eauto.
  - intros (-> & n & -> & -> & ->). done.
Qed.

Lemma accept_list_spec s l l' :
  accept_list s l = Some l' <-> Forall2 (fun x y => accept s x = Some y) l l'.
Proof.
  revert l'. induction l as [|x l IH]; intros l'; cbn [accept_list].
  - split; [by intros [= <-]|]. intros H. by invert H.
  - split.
    + intros H. destruct (accept s x) as [y|] eqn:Hx; [|done]. simpl in H.
      destruct (accept_list s l) as [ys|]; [|done]. injection H as <-.
      constructor; [done|]. by apply IH.
    + intros H. inversion H as [|? y ? ys Hy Hys]; subst. rewrite Hy. simpl.
      apply IH in Hys as ->. done.
Qed.

Lemma accept_props_spec s o o' :
  accept_props s o = Some o' <->
  Forall2 (fun x y => fst x = fst y /\ accept s (snd x) = Some (snd y)) o o'.
Proof.
  revert o'. induction o as [|[k x] o IH]; intros o'; cbn [accept_props].
  - split; [by intros [= <-]|]. intros H. by invert H.
  - split.
    + intros H. destruct (accept s x) as [y|] eqn:Hx; [|done]. simpl in H.
      destruct (accept_props s o) as [ys|]; [|done]. injection H as <-.
      constructor; [done|]. by apply IH.
    + intros H. inversion H as [|? [k' y] ? ys [Hk Hy] Hys]; subst. simpl in *. subst k'.
      rewrite Hy. simpl. apply IH in Hys as ->. done.
Qed.

Lemma accept_fields_spec o fs o' :
  accept_fields o fs = Some o' <-> fields_parsed (fun s x y => accept s x = Some y) o fs o'.
Proof.
  revert o'. induction fs as [|[k s] fs IH]; intros o'; cbn [accept_fields].
  - split; [intros [= <-]; constructor|]. intros H. by invert H.
  - split.
    + intros H. destruct (accept s _) as [w|] eqn:Hw; [|done]. simpl in H.
      destruct (accept_fields o fs) as [ys|]; [|done]. injection H as <-.
      constructor; [done|]. by apply IH.
    + intros H. inversion H as [|? ? w ? ys Hw Hys]; subst. rewrite Hw. simpl.
      apply IH in Hys as ->. done.
Qed.

(** ** What each combinator accepts

    The same statements as the laws, of [accept]. *)

Lemma accept_string cs v w :
  accept (ZString cs) v = Some w <-> w = v /\ exists s, v = JStr s /\ Forall (fun r => test r s = true) cs.
Proof.
  setoid_rewrite <- forallb_Forall. simpl. split.
  - destruct v as [| | | |s| | |]; try done. destruct (forallb _ cs) eqn:E; [|done]. intros [= <-]. eauto.
  - intros (-> & s & -> & Hc). by rewrite Hc.
Qed.

Lemma accept_number_all cs v w :
  accept (ZNumber cs) v = Some w <->
  w = v /\ exists n, v = JNum n /\ is_finite n = true /\ Forall (fun p => p n = true) cs.
Proof. setoid_rewrite <- forallb_Forall. apply accept_number. Qed.

Lemma accept_boolean v w : accept ZBoolean v = Some w <-> w = v /\ exists b, v = JBool b.
Proof. split; [destruct v; try done; intros [= <-]; eauto|by intros (-> & b & ->)]. Qed.

Lemma accept_date v w : accept ZDate v = Some w <-> w = v /\ exists t, v = JDate (Some t).
Proof. split; [destruct v as [| | | | |[t|]| |]; try done; intros [= <-]; eauto|by intros (-> & b & ->)]. Qed.

Lemma accept_null v w : accept ZNull v = Some w <-> w = v /\ v = JNull.
Proof. split; [destruct v; try done; intros [= <-]; eauto|by intros (-> & ->)]. Qed.

Lemma accept_literal s v w : accept (ZLiteral s) v = Some w <-> w = v /\ v = JStr s.
Proof.
  simpl. split; [|intros (-> & ->); by rewrite decide_True].
  destruct v as [| | | |y| | |]; try done. destruct (decide (y = s)) as [->|]; [|done]. by intros [= <-].
Qed.

Lemma accept_enum vs v w : accept (ZEnum vs) v = Some w <-> w = v /\ exists s, v = JStr s /\ s ∈ vs.
Proof.
  simpl. split; [|intros (-> & y & -> & Hy); by rewrite decide_True].
  destruct v as [| | | |y| | |]; try done. destruct (decide (y ∈ vs)); [|done]. intros [= <-]. eauto.
Qed.

Lemma accept_refine s p v w : accept (ZRefine s p) v = Some w <-> accept s v = Some w /\ p w = true.
Proof.
  simpl. split; [|by intros [-> ->]]. destruct (accept s v) as [u|]; [|done].
  destruct (p u) eqn:Hp; [|done]. by intros [= <-].
Qed.

Lemma accept_optional s v w :
  accept (ZOptional s) v = Some w <-> (v = JUndef /\ w = JUndef) \/ (v <> JUndef /\ accept s v = Some w).
Proof. simpl. destruct v; intuition congruence. Qed.

Lemma accept_union_iff s1 s2 v w :
  accept (ZUnion s1 s2) v = Some w <-> accept s1 v = Some w \/ (accept s1 v = None /\ accept s2 v = Some w).
Proof. rewrite accept_union. destruct (accept s1 v); intuition congruence. Qed.

Lemma accept_array_iff s v w :
  accept (ZArray s) v = Some w <->
  exists l l', v = JArr l /\ w = JArr l' /\ Forall2 (fun x y => accept s x = Some y) l l'.
Proof.
  setoid_rewrite <- accept_list_spec. split.
  - destruct v; try done. rewrite accept_array. destruct (accept_list s l) as [l'|] eqn:E; [|done].
    intros [= <-]. by exists l, l'.
  - intros (l & l' & -> & -> & E). by rewrite accept_array, E.
Qed.

Lemma accept_record_iff s v w :
  accept (ZRecord s) v = Some w <->
  exists o o', v = JObj o /\ w = JObj o' /\
    Forall2 (fun x y => fst x = fst y /\ accept s (snd x) = Some (snd y)) o o'.
Proof.
  setoid_rewrite <- accept_props_spec. split.
  - destruct v; try done. rewrite accept_record. destruct (accept_props s o) as [o'|] eqn:E; [|done].
    intros [= <-]. by exists o, o'.
  - intros (o & o' & -> & -> & E). by rewrite accept_record, E.
Qed.

Lemma accept_object_iff fs v w :
  accept (ZObject fs) v = Some w <->
  exists o o', object_props v = Some o /\ w = JObj o' /\
    fields_parsed (fun s x y => accept s x = Some y) o fs o'.
Proof.
  setoid_rewrite <- accept_fields_spec. rewrite accept_object. split.
  - destruct (object_props v) as [o|]; [|done]. destruct (accept_fields o fs) as [o'|] eqn:E; [|done].
    intros [= <-]. by exists o, o'.
  - intros (o & o' & -> & -> & E). by rewrite E.
Qed.

(** Two readings of a schema that agree on the parts agree on lists and shapes of them. *)
Lemma Forall2_iff {A B} (R S : A -> B -> Prop) (l : list A) k :
  (forall x y, R x y <-> S x y) -> Forall2 R l k <-> Forall2 S l k.
Proof. intros H. split; intros Hk; (eapply Forall2_impl; [exact Hk|]); intros x y; apply H. Qed.

Lemma fields_parsed_iff (R S : schema -> jsval -> jsval -> Prop) o fs o' :
  Forall (fun f => forall x y, R (snd f) x y <-> S (snd f) x y) fs ->
  fields_parsed R o fs o' <-> fields_parsed S o fs o'.
Proof.
  intros H. revert o'. induction H as [|[k s] fs Hs _ IH]; intros o'; split; intros Hp; inversion Hp; subst;
    constructor; try (by apply Hs); by apply IH.
Qed.

(** Two statements with the same existential parts that agree on the last one. *)
Tactic Notation "same_parts" uconstr(lem) :=
  let a := fresh in let b := fresh in let H := fresh in
  split; intros (a & b & ? & ? & H); exists a, b; (split_and!; [done|done|]); revert H; apply lem.

Section laws.
Context `{ZL : ZodLaws}.

Lemma success_accept s v :
  (forall v w, safeParse s v = inr w <-> accept s v = Some w) -> success s v = false <-> accept s v = None.
Proof.
  intros IH. unfold success. destruct (safeParse s v) as [l|w] eqn:E; [|by apply IH in E as ->].
  destruct (accept s v) as [w|] eqn:Ha; [|done]. apply IH in Ha. congruence.
Qed.

(** The laws determine which values are accepted, and with which output. *)
Theorem parse_accept s v w : safeParse s v = inr w <-> accept s v = Some w.
Proof.
  revert v w.
  induction s as [cs|cs| | | |x|vs|s p IH|s f IH|s IH|f s IH|s1 s2 IH1 IH2|s IH|s IH|fs IH]
    using schema_ind; intros v w.
  - by rewrite z_string, accept_string.
  - by rewrite z_number, accept_number_all.
  - by rewrite z_boolean, accept_boolean.
  - by rewrite z_date, accept_date.
  - by rewrite z_null, accept_null.
  - by rewrite z_literal, accept_literal.
  - by rewrite z_enum, accept_enum.
  - by rewrite z_refine, IH, accept_refine.
  - rewrite z_superRefine, accept_superRefine. by setoid_rewrite IH.
  - by rewrite z_optional, IH, accept_optional.
  - by rewrite z_preprocess, IH.
  - rewrite z_union, accept_union_iff, IH1, IH2. by rewrite (success_accept s1 v IH1).
  - rewrite z_array, accept_array_iff. same_parts Forall2_iff; intros x y; by rewrite IH.
  - rewrite z_record, accept_record_iff. same_parts Forall2_iff; intros x y; by rewrite IH.
  - rewrite z_object, accept_object_iff. same_parts fields_parsed_iff;
      (eapply List.Forall_impl; [|exact IH]); intros f Hf x y; specialize (Hf x y); tauto.
Qed.

Lemma parse_spec s v :
  parse s v = match accept s v with Some w => Return w | None => Throw (JsError EZod "ZodError") end.
Proof.
  unfold parse. destruct (safeParse s v) as [l|w] eqn:E; [|by apply parse_accept in E as ->].
  destruct (accept s v) as [w|] eqn:Ha; [|done]. apply parse_accept in Ha. congruence.
Qed.

Lemma success_spec s v : success s v = bool_decide (is_Some (accept s v)).
Proof.
  unfold success. destruct (safeParse s v) as [l|w] eqn:E.
  - destruct (accept s v) as [w|] eqn:Ha; [|done]. apply parse_accept in Ha. congruence.
  - apply parse_accept in E as ->. done.
Qed.
End laws.

(** ** A concrete parser with these laws *)

Definition zod_issues (s : schema) (v : jsval) : list issue :=
  match s with
  | ZSuperRefine s' f =>
      match accept s' v with
      | Some u => match f u with (_, i :: l) => i :: l | _ => [Issue [] "Invalid input"] end
      | None => [Issue [] "Invalid input"]
      end
  | _ => [Issue [] "Invalid input"]
  end.

Definition zod_model : Zod := fun s v =>
  match accept s v with Some w => inr w | None => inl (zod_issues s v) end.

Lemma zod_model_inr s v w : @safeParse zod_model s v = inr w <-> accept s v = Some w.
Proof. unfold safeParse, zod_model. destruct (accept s v); intuition congruence. Qed.

Lemma zod_issues_nonempty s v : zod_issues s v <> [].
Proof. destruct s; try done. simpl. destruct (accept s v) as [u|]; [|done]. by destruct (f u) as [? []]. Qed.

Lemma zod_model_laws : @ZodLaws zod_model.
Proof.
  constructor; intros; rewrite ?zod_model_inr.
  - apply accept_string.
  - apply accept_number_all.
  - apply accept_boolean.
  - apply accept_date.
  - apply accept_null.
  - apply accept_literal.
  - apply accept_enum.
  - apply accept_refine.
  - rewrite accept_superRefine. by setoid_rewrite zod_model_inr.
  - apply accept_optional.
  - done.
  - rewrite accept_union_iff. by rewrite (success_accept s1 v (zod_model_inr s1)).
  - rewrite accept_array_iff. same_parts Forall2_iff; intros x y; by rewrite zod_model_inr.
  - rewrite accept_record_iff. same_parts Forall2_iff; intros x y; by rewrite zod_model_inr.
  - rewrite accept_object_iff. same_parts fields_parsed_iff;
      apply List.Forall_forall; intros f _ x y; by rewrite zod_model_inr.
  - unfold safeParse, zod_model in H. destruct (accept s v); [done|]. injection H as <-.
    apply zod_issues_nonempty.
  - apply zod_model_inr in H. unfold safeParse, zod_model. simpl. rewrite H, H0.
    by destruct l.
Qed.

(** ** Fields of an accepted object *)

Lemma jget_out_fields_ne k o' o k' w : k <> k' -> obj_get k (out_field o k' w ++ o') = obj_get k o'.
Proof.
  intros Hne. unfold out_field. destruct w, (obj_get k' o); simpl; try done;
    by rewrite decide_False.
Qed.

Lemma accept_fields_keys o fs o' :
  accept_fields o fs = Some o' -> forall k, k ∉ List.map fst fs -> obj_get k o' = None.
Proof.
  intros H. apply accept_fields_spec in H. induction H as [|k s w fs o' _ _ IH]; intros k' Hk; [done|].
  simpl in Hk. rewrite jget_out_fields_ne by set_solver. apply IH. set_solver.
Qed.

(** What a named field of the output holds: the parse of that field of the input. *)
Lemma accept_fields_get o fs o' k s :
  accept_fields o fs = Some o' -> NoDup (List.map fst fs) -> obj_get k fs = Some s ->
  accept s (jget k (JObj o)) = Some (jget k (JObj o')).
Proof.
  revert o'. induction fs as [|[k' s'] fs IH]; intros o' H Hnd Hk; [done|]. simpl in Hnd.
  apply NoDup_cons in Hnd as [Hn Hnd]. cbn [accept_fields] in H.
  destruct (accept s' _) as [w|] eqn:Hw; [|done]. simpl in H.
  destruct (accept_fields o fs) as [o1|] eqn:Ho; [|done]. injection H as <-.
  simpl in Hk. destruct (decide (k = k')) as [<-|Hne].
  - injection Hk as ->. rewrite Hw. f_equal.
    pose proof (accept_fields_keys _ _ _ Ho k Hn) as Hout. unfold jget, out_field.
    destruct (obj_get k o) as [x|] eqn:Hx; destruct w; simpl; rewrite ?decide_True by done; try done.
    by rewrite Hout.
  - rewrite (IH o1 eq_refl Hnd Hk). f_equal. unfold jget. by rewrite jget_out_fields_ne.
Qed.

Lemma accept_fields_sub o fs o' k : accept_fields o fs = Some o' -> k ∈ List.map fst o' -> k ∈ List.map fst fs.
Proof.
  intros H. apply accept_fields_spec in H. induction H as [|k' s w fs o' _ _ IH]; [done|].
  unfold out_field. destruct w, (obj_get k' o); simpl; set_solver.
Qed.

Lemma accept_fields_NoDup o fs o' :
  accept_fields o fs = Some o' -> NoDup (List.map fst fs) -> NoDup (List.map fst o').
Proof.
  revert o'. induction fs as [|[k s] fs IH]; intros o' H Hnd; [by injection H as <-|].
  cbn [accept_fields] in H. destruct (accept s _) as [w|]; [|done]. simpl in H.
  destruct (accept_fields o fs) as [o1|] eqn:Ho; [|done]. injection H as <-.
  simpl in Hnd. apply NoDup_cons in Hnd as [Hn Hnd].
  assert (Hk : k ∉ List.map fst o1) by (intros Hin; by eapply accept_fields_sub in Hin).
  specialize (IH _ eq_refl Hnd). unfold out_field.
  destruct w, (obj_get k o); simpl; try done; by apply NoDup_cons.
Qed.

(** ** Parsing twice *)

(** An accepted value parses to itself. *)
Definition idem (s : schema) : Prop := forall v w, accept s v = Some w -> accept s w = Some w.

Lemma idem_base s :
  (forall v w, accept s v = Some w -> w = v) -> idem s.
Proof. intros H v w Hv. pose proof (H _ _ Hv) as ->. done. Qed.

(** Schemas whose output is their input. *)
Fixpoint keeps (s : schema) : bool :=
  match s with
  | ZString _ | ZNumber _ | ZBoolean | ZDate | ZNull | ZLiteral _ | ZEnum _ => true
  | ZRefine s _ | ZOptional s | ZArray s => keeps s
  | ZUnion s1 s2 => keeps s1 && keeps s2
  | _ => false
  end.

Lemma keeps_output s v w : keeps s = true -> accept s v = Some w -> w = v.
Proof.
  revert v w.
  induction s as [cs|cs| | | |x|vs|s p IH|s f IH|s IH|f s IH|s1 s2 IH1 IH2|s IH|s IH|fs IH]
    using schema_ind; intros v w Hk H; simpl in Hk; try done; simpl in H.
  - destruct v; try done. destruct (forallb _ cs); [|done]. by injection H.
  - destruct v; try done. destruct (is_finite n && _); [|done]. by injection H.
  - destruct v; try done. by injection H.
  - destruct v as [| | | | |[t|]| |]; try done. by injection H.
  - destruct v; try done. by injection H.
  - destruct v; try done. destruct (decide _); [|done]. by injection H.
  - destruct v; try done. destruct (decide _); [|done]. by injection H.
  - destruct (accept s v) as [u|] eqn:E; [|done]. destruct (p u); [|done]. injection H as <-. auto.
  - destruct v; auto. by injection H.
  - bool_hyps. destruct (accept s1 v) as [u|] eqn:E; [injection H as <-|]; auto.
  - destruct v; try done. change (accept (ZArray s) (JArr l) = Some w) in H. rewrite accept_array in H.
    destruct (accept_list s l) as [l'|] eqn:E; [|done]. injection H as <-. f_equal.
    apply accept_list_spec in E. induction E; f_equal; auto.
Qed.

Lemma keeps_idem s : keeps s = true -> idem s.
Proof. intros H. apply idem_base. intros v w. by apply keeps_output. Qed.

Lemma idem_array s : idem s -> idem (ZArray s).
Proof.
  intros Hs v w H. destruct v; try done. rewrite accept_array in H.
  destruct (accept_list s l) as [l'|] eqn:E; [|done]. injection H as <-. rewrite accept_array.
  assert (E' : accept_list s l' = Some l') by
    (apply accept_list_spec; apply accept_list_spec in E; induction E; constructor; eauto).
  by rewrite E'.
Qed.

Lemma idem_optional s : idem s -> idem (ZOptional s).
Proof. intros Hs v w H. simpl in *. destruct v, w; simplify_eq; eauto. Qed.

Lemma idem_preprocess f s :
  idem s -> (forall v w, accept s (f v) = Some w -> f w = w) -> idem (ZPreprocess f s).
Proof. intros Hs Hf v w H. simpl in *. rewrite (Hf _ _ H). eauto. Qed.

(** Objects: each field by its schema, whatever the order of the keys around it. *)
Lemma accept_fields_self o fs o' :
  (forall k s, obj_get k fs = Some s -> accept s (jget k (JObj o)) = Some (jget k (JObj o))) ->
  NoDup (List.map fst fs) ->
  List.map fst o = List.filter (fun k => bool_decide (is_Some (obj_get k o))) (List.map fst fs) ->
  NoDup (List.map fst o) -> o' = o -> accept_fields o fs = Some o'.
Proof.
  intros Hs Hnd Hkeys Hnd' ->. revert Hkeys.
  assert (Hgen : forall o2, (forall k x, (k, x) ∈ o2 -> obj_get k o = Some x) ->
     List.map fst o2 = List.filter (fun k => bool_decide (is_Some (obj_get k o))) (List.map fst fs) ->
     accept_fields o fs = Some o2).
  { clear Hnd'. induction fs as [|[k s] fs IH]; intros o2 Hg Hk; [by destruct o2|].
    simpl in Hnd. apply NoDup_cons in Hnd as [Hn Hnd]. cbn [accept_fields].
    rewrite (Hs k s) by (simpl; by rewrite decide_True). simpl.
    assert (Hs' : forall k' s', obj_get k' fs = Some s' -> accept s' (jget k' (JObj o)) = Some (jget k' (JObj o))).
    { intros k' s' Hk'. apply Hs. simpl. rewrite decide_False; [done|]. intros ->.
      apply Hn. apply obj_get_In in Hk'. apply list_elem_of_In, List.in_map_iff. exists (k, s').
      split; [done|]. by apply list_elem_of_In. }
    unfold out_field. destruct (obj_get k o) as [x|] eqn:Hx; simpl in Hk; rewrite Hx in Hk.
    - rewrite bool_decide_true in Hk by eauto. destruct o2 as [|[k2 x2] o2]; [done|]. simpl in Hk.
      injection Hk as -> Hk. assert (x2 = x) as -> by (assert (obj_get k o = Some x2) by (apply Hg; set_solver); congruence).
      rewrite (IH Hs' Hnd o2) by (try done; intros; apply Hg; set_solver). simpl. by destruct x.
    - rewrite bool_decide_false in Hk by (intros [? ?]; done).
      by rewrite (IH Hs' Hnd o2). }
  apply Hgen. intros k x Hin. clear -Hin Hnd'. induction o as [|[k' x'] o IH]; [by invert Hin|].
  simpl in *. apply NoDup_cons in Hnd' as [Hn Hnd].
  assert ((k, x) = (k', x') \/ (k, x) ∈ o) as [[= -> ->]|Hin'] by set_solver; [by rewrite decide_True|].
  rewrite decide_False; [auto|]. intros ->. apply Hn.
  apply list_elem_of_In, List.in_map_iff. exists (k', x). split; [done|]. by apply list_elem_of_In.
Qed.

Lemma accept_fields_total o fs :
  (forall k s, (k, s) ∈ fs -> is_Some (accept s (jget k (JObj o)))) -> exists o', accept_fields o fs = Some o'.
Proof.
  induction fs as [|[k s] fs IH]; intros H; [by exists []|]. cbn [accept_fields].
  destruct (H k s) as [w ->]; [set_solver|]. destruct IH as [o' ->]; [|eauto].
  intros k' s' Hin. apply H. set_solver.
Qed.

Lemma accept_fields_all o fs o' k s :
  accept_fields o fs = Some o' -> (k, s) ∈ fs -> is_Some (accept s (jget k (JObj o))).
Proof.
  intros H. apply accept_fields_spec in H. induction H as [|k' s' w fs o' Hw _ IH]; intros Hin; [by invert Hin|].
  assert ((k, s) = (k', s') \/ (k, s) ∈ fs) as [[= -> ->]|Hin'] by set_solver; eauto.
Qed.

(** The keys of the output, in the order of the shape. *)
Lemma accept_fields_key_order o fs o' :
  accept_fields o fs = Some o' -> NoDup (List.map fst fs) ->
  List.map fst o' = List.filter (fun k => bool_decide (is_Some (obj_get k o'))) (List.map fst fs).
Proof.
  revert o'. induction fs as [|[k s] fs IH]; intros o' H Hnd; [by injection H as <-|].
  cbn [accept_fields] in H. destruct (accept s _) as [w|]; [|done]. simpl in H.
  destruct (accept_fields o fs) as [o1|] eqn:Ho; [|done]. injection H as <-.
  simpl in Hnd. apply NoDup_cons in Hnd as [Hn Hnd]. specialize (IH _ eq_refl Hnd).
  assert (Hs : List.filter (fun k' => bool_decide (is_Some (obj_get k' ((k, w) :: o1)))) (List.map fst fs) =
      List.filter (fun k' => bool_decide (is_Some (obj_get k' o1))) (List.map fst fs)).
  { apply List.filter_ext_in. intros k' Hin. simpl. rewrite decide_False; [done|].
    intros ->. by apply Hn, list_elem_of_In. }
  unfold out_field. pose proof (accept_fields_keys _ _ _ Ho k Hn) as Hno.
  assert (Hcons : List.map fst ((k, w) :: o1) = List.filter
     (fun k' => bool_decide (is_Some (obj_get k' ((k, w) :: o1)))) (List.map fst ((k, s) :: fs))).
  { cbn [List.map List.filter fst]. rewrite bool_decide_true by (simpl; rewrite decide_True; eauto).
    f_equal. by rewrite Hs, <- IH. }
  destruct w, (obj_get k o); try exact Hcons. cbn [app List.map List.filter fst].
  rewrite Hno, bool_decide_false by (intros [? ?]; done). exact IH.
Qed.

Lemma idem_object fs :
  NoDup (List.map fst fs) -> Forall (fun f => idem (snd f)) fs -> idem (ZObject fs).
Proof.
  intros Hnd Hi v w H. rewrite accept_object in H. destruct (object_props v) as [o|]; [|done].
  destruct (accept_fields o fs) as [o'|] eqn:Ho; [|done]. injection H as <-.
  rewrite accept_object. cbn [object_props].
  rewrite (accept_fields_self o' fs o'); try done.
  - intros k s Hk. eapply (proj1 (List.Forall_forall _ _) Hi (k, s)).
    + apply list_elem_of_In. by apply obj_get_In.
    + by eapply accept_fields_get.
  - by eapply accept_fields_key_order.
  - by eapply accept_fields_NoDup.
Qed.

(** A refinement that leaves its output a value it accepts unchanged. *)
Lemma idem_superRefine s f :
  idem s ->
  (forall v u w, accept s v = Some u -> f u = (w, []) -> accept s w = Some w /\ f w = (w, [])) ->
  idem (ZSuperRefine s f).
Proof.
  intros Hs Hf v w H. simpl in *. destruct (accept s v) as [u|] eqn:Hu; [|done].
  destruct (f u) as [u' [|]] eqn:Hfu; [|done]. injection H as <-.
  destruct (Hf _ _ _ Hu Hfu) as [-> ->]. done.
Qed.
