(* ===== verification/Schemas.v ===== *)
(** * Entities: the schemas of packages/core/src/entities/types.ts

    Each schema is written as the source writes it, with its regular-expression literals
    and its [superRefine] bodies; [validators.ts] is the last section of definitions.  The
    theorems give each validator an explicit description of the values it accepts, and say
    what holds of a parsed route. *)

From S2P Require Import Prelude JsString Regex JsValue Dates Secrets Zod.

(** ** Branded primitives *)

Definition alnum_dash (c : ascii) : bool := is_alnum c || Ascii.eqb c "-".
Definition path_char (c : ascii) : bool :=
  is_alnum c || Ascii.eqb c "_" || Ascii.eqb c "." || Ascii.eqb c "-".

(** [[a-zA-Z0-9]([a-zA-Z0-9-]{0,61}[a-zA-Z0-9])?] *)
Definition label_regex : regex :=
  RSeq (RChar is_alnum) (ropt (RGroup 2 (RSeq (rupto 61 (RChar alnum_dash)) (RChar is_alnum)))).
Definition domain_body : regex :=
  RSeq (rplus (RGroup 1 (RSeq label_regex (rchar "."))))
       (RSeq (RChar is_alpha) (rplus (RChar is_alpha))).
Definition DomainSchema : schema := ZString [ranchored domain_body].

(** The preprocessor of [PortSchema]. *)
Definition port_preprocess (val : jsval) : jsval :=
  match val with
  | JStr s =>
      if decide (trim s = "") then val
      else let num := toNumber s in if is_nan num then val else JNum num
  | _ => val
  end.
Definition num_int (n : jsnum) : bool := match n with NInt _ => true | _ => false end.
Definition num_min (lo : Z) (n : jsnum) : bool :=
  match n with
  | NInt z => lo <=? z
  | NDec m k => lo * 10 ^ Z.pos k <=? m
  | NNaN => false
  | NInf neg => negb neg
  end.
Definition num_max (hi : Z) (n : jsnum) : bool :=
  match n with
  | NInt z => z <=? hi
  | NDec m k => m <=? hi * 10 ^ Z.pos k
  | NNaN => false
  | NInf neg => neg
  end.
Definition PortSchema : schema :=
  ZPreprocess port_preprocess (ZNumber [num_int; num_min 1; num_max 65535]).

(** A slash, then slash-separated runs of [a-zA-Z0-9_.-]. *)
Definition unix_body : regex :=
  RSeq (rchar "/")
    (ropt (RGroup 1 (RSeq (rplus (RChar path_char))
                          (rstar (RGroup 2 (RSeq (rchar "/") (rplus (RChar path_char)))))))).
Definition UnixPathSchema : schema := ZUnion (ZString [ranchored unix_body]) (ZLiteral "").

(** A slash, then any run of [a-zA-Z0-9_./-]. *)
Definition url_char (c : ascii) : bool := path_char c || Ascii.eqb c "/".
Definition url_body : regex := RSeq (rchar "/") (rstar (RChar url_char)).
Definition URLPathSchema : schema := ZString [ranchored url_body].

(** ** Units *)

Definition is_any_of (cs : string) (c : ascii) : bool := str_existsb (fun d => eq_fold d c) cs.
Definition SizeUnitSchema : schema :=
  ZString [ranchored (RSeq (rplus (RChar is_digit)) (RChar (is_any_of "kmg")))].
Definition TimeUnitSchema : schema :=
  ZString [ranchored (RSeq (rplus (RChar is_digit)) (RChar (is_any_of "smhd")))].

(** ** Configurations *)

Definition host_char (c : ascii) : bool := is_alnum c || Ascii.eqb c "." || Ascii.eqb c "-".

(** An optional scheme, a host, an optional port, and an optional path to the end of the line. *)
Definition proxy_body : regex :=
  rseqs [ropt (RGroup 1 (rseqs [rlit "http"; ropt (rchar "s"); rlit "://"]));
         RGroup 2 (rplus (RChar host_char));
         ropt (RGroup 3 (RSeq (rchar ":") (rplus (RChar is_digit))));
         ropt (RGroup 4 (RSeq (rchar "/") (rstar (RChar not_line_end))))].
Definition ProxyTargetSchema : schema :=
  ZOptional (ZRefine (ZString [ranchored proxy_body])
                     (fun value => negb (containsSecretLikeValue (str_of value)))).

(** Assignment to a property of an object. *)
Definition jset (k : string) (x : jsval) (v : jsval) : jsval :=
  match v with JObj o => JObj (obj_set k x o) | _ => v end.

Definition issue_when (b : bool) (path : string) (message : string) : list issue :=
  if b then [Issue [path] message] else [].

Definition LocationConfig_refine (loc : jsval) : jsval * list issue :=
  (loc,
   issue_when (truthy (jget "proxy_pass" loc) && truthy (jget "try_files" loc)) "try_files"
     "proxy_pass и try_files не должны использоваться вместе" ++
   issue_when (truthy (jget "extra_directives" loc) &&
               containsSensitiveDirective (str_of (jget "extra_directives" loc)))
     "extra_directives" "Location directives must not contain credentials or sensitive headers").

Definition LocationConfig_shape : list (string * schema) :=
  [("path", URLPathSchema); ("proxy_pass", ProxyTargetSchema);
   ("try_files", ZOptional (ZString [])); ("index", ZOptional (ZString []));
   ("extra_directives", ZOptional (ZString []))].
Definition LocationConfigSchema : schema :=
  ZSuperRefine (ZObject LocationConfig_shape) LocationConfig_refine.

(** The four steps of the refinement, the two assignments in their places. *)
Definition AdvancedConfig_refine (adv : jsval) : jsval * list issue :=
  let i1 := issue_when (truthy (jget "gzip" adv) &&
      (negb (truthy (jget "gzip_types" adv)) || bool_decide (trim (str_of (jget "gzip_types" adv)) = "")))
      "gzip_types" "Необходимо указать gzip_types при включённом gzip" in
  let adv := if negb (truthy (jget "gzip" adv)) && truthy (jget "gzip_types" adv)
             then jset "gzip_types" JUndef adv else adv in
  let i2 := issue_when (truthy (jget "caching" adv) && negb (truthy (jget "cache_valid" adv)))
      "cache_valid" "Необходимо указать cache_valid при включённом caching" in
  let adv := if negb (truthy (jget "caching" adv)) && truthy (jget "cache_valid" adv)
             then jset "cache_valid" JUndef adv else adv in
  (adv, i1 ++ i2).

Definition AdvancedConfig_shape : list (string * schema) :=
  [("client_max_body_size", SizeUnitSchema); ("keepalive_timeout", TimeUnitSchema);
   ("gzip", ZBoolean); ("gzip_types", ZOptional (ZString [])); ("caching", ZBoolean);
   ("cache_valid", ZOptional TimeUnitSchema)].
Definition AdvancedConfigSchema : schema :=
  ZSuperRefine (ZObject AdvancedConfig_shape) AdvancedConfig_refine.

(** ** Route *)

(** [paths.filter((p, i) => paths.indexOf(p) !== i)] *)
Fixpoint index_of (p : string) (l : list string) : nat :=
  match l with [] => 0 | x :: l' => if decide (x = p) then 0 else S (index_of p l') end%nat.
Definition duplicates (paths : list string) : list string :=
  snd <$> List.filter (fun ip => negb (index_of (snd ip) paths =? fst ip)%nat)
                      (imap (fun i p => (i, p)) paths).

Definition jlist (v : jsval) : list jsval := match v with JArr l => l | _ => [] end.
Definition js_is_num (v : jsval) (n : Z) : bool :=
  match v with JNum (NInt z) => z =? n | _ => false end.

Definition Route_refine (route : jsval) : jsval * list issue :=
  let ssl := truthy (jget "ssl" route) in
  let proxy := truthy (jget "proxy_pass" route) in
  let i1 := issue_when (ssl && (negb (truthy (jget "ssl_certificate" route)) ||
                                negb (truthy (jget "ssl_certificate_key" route))))
    "ssl_certificate" "SSL включён, но отсутствуют ssl_certificate и/или ssl_certificate_key" in
  let route := if ssl then route
               else jset "ssl_certificate_key" JUndef (jset "ssl_certificate" JUndef route) in
  let i2 := issue_when (proxy && negb (length (jlist (jget "locations" route)) =? 0)%nat)
    "proxy_pass" "proxy_pass на уровне server и location-блоки не должны использоваться одновременно" in
  let i3 := issue_when (negb proxy && bool_decide (trim (str_of (jget "root" route)) = ""))
    "root" "Поле root обязательно, если не указан proxy_pass" in
  let i4 := issue_when (js_is_num (jget "port" route) 443 && negb ssl)
    "ssl" "Порт 443 требует включённый SSL" in
  let i5 := issue_when (js_is_num (jget "port" route) 80 && ssl)
    "ssl" "Порт 80 не может использовать SSL" in
  let dups := duplicates (List.map (fun l => str_of (jget "path" l)) (jlist (jget "locations" route))) in
  let i6 := issue_when (negb (length dups =? 0)%nat) "locations"
    ("Найдено несколько location с одинаковым путём: " +:+ join ", " dups) in
  (route, i1 ++ i2 ++ i3 ++ i4 ++ i5 ++ i6).

Section route_schema.
Context `{HostDate}.

(** [typeof val === "string" ? new Date(val) : val] *)
Definition date_preprocess (val : jsval) : jsval :=
  match val with JStr s => JDate (parse_date s) | _ => val end.

Definition metadata_shape : list (string * schema) :=
  [("createdAt", ZPreprocess date_preprocess ZDate); ("updatedAt", ZPreprocess date_preprocess ZDate);
   ("createdBy", ZString []); ("tags", ZArray (ZString []))].

Definition Route_shape : list (string * schema) :=
  [("id", ZString []); ("domain", DomainSchema); ("port", PortSchema); ("root", UnixPathSchema);
   ("enabled", ZBoolean); ("ssl", ZBoolean); ("ssl_certificate", ZOptional UnixPathSchema);
   ("ssl_certificate_key", ZOptional UnixPathSchema); ("proxy_pass", ProxyTargetSchema);
   ("locations", ZArray LocationConfigSchema); ("advanced", ZOptional AdvancedConfigSchema);
   ("metadata", ZOptional (ZObject metadata_shape))].
Definition RouteSchema : schema := ZSuperRefine (ZObject Route_shape) Route_refine.
End route_schema.

(** ** Logs and server *)

Definition LogLevelSchema : schema := ZEnum ["info"; "warning"; "error"; "debug"].
Definition LogSourceSchema : schema := ZEnum ["nginx"; "system"; "user"].
Definition LogEntrySchema : schema :=
  ZObject [("id", ZString []); ("timestamp", ZDate); ("level", LogLevelSchema);
    ("message", ZString []); ("source", LogSourceSchema); ("ip", ZOptional (ZString []));
    ("routeId", ZOptional (ZString []));
    ("context", ZOptional (ZRecord
       (ZUnion (ZString []) (ZUnion (ZNumber []) (ZUnion ZBoolean ZNull)))))].
Definition LogFiltersSchema : schema :=
  ZObject [("level", ZOptional (ZUnion LogLevelSchema (ZLiteral "all"))); ("search", ZString []);
    ("source", ZOptional LogSourceSchema); ("routeId", ZOptional (ZString []));
    ("dateRange", ZOptional (ZObject [("start", ZDate); ("end", ZDate)]))].
Definition ServerStatusSchema : schema := ZEnum ["running"; "stopped"; "restarting"].
Definition ServerStateSchema : schema :=
  ZObject [("status", ServerStatusSchema);
    ("stats", ZObject [("requests", ZNumber []); ("traffic", ZString []);
       ("activeConnections", ZNumber []); ("uptime", ZNumber []); ("cpuUsage", ZNumber []);
       ("memoryUsage", ZNumber [])]);
    ("version", ZString []); ("lastUpdated", ZDate)].

(** ** packages/core/src/utils/validators.ts *)
Section validators.
Context `{Zod} `{HostDate}.

Definition makeValidator (s : schema) (value : jsval) : bool := success s value.

Definition validateDomain := makeValidator DomainSchema.
Definition validatePort := makeValidator PortSchema.
Definition validateUnixPath := makeValidator UnixPathSchema.
Definition validateURLPath := makeValidator URLPathSchema.
Definition validateLocation := makeValidator LocationConfigSchema.
Definition validateSizeUnit := makeValidator SizeUnitSchema.
Definition validateTimeUnit := makeValidator TimeUnitSchema.
Definition validateAdvancedConfig := makeValidator AdvancedConfigSchema.
Definition validateLogLevel := makeValidator LogLevelSchema.
Definition validateLogSource := makeValidator LogSourceSchema.
Definition validateLogEntry := makeValidator LogEntrySchema.
Definition validateLogFilters := makeValidator LogFiltersSchema.
Definition validateServerStatus := makeValidator ServerStatusSchema.
Definition validateServerState := makeValidator ServerStateSchema.
Definition validateRoute := makeValidator RouteSchema.
End validators.

(** * What the validators accept *)

(** A label of a host name: at most 63 letters, digits and hyphens, no hyphen at an end. *)
Definition label_ok (l : string) : Prop :=
  (1 <= String.length l <= 63)%nat /\ str_forallb alnum_dash l = true /\
  (forall c t, l = String c t -> is_alnum c = true) /\
  (forall t c, l = t +:+ String c "" -> is_alnum c = true).

(** At least two labels separated by dots, the last one of two letters or more. *)
Definition is_domain (s : string) : Prop :=
  exists labels tld, s = join "." (labels ++ [tld]) /\ labels <> [] /\ Forall label_ok labels /\
    str_forallb is_alpha tld = true /\ (2 <= String.length tld)%nat.

Lemma alnum_alnum_dash c : is_alnum c = true -> alnum_dash c = true.
Proof. unfold alnum_dash. by intros ->. Qed.

Lemma snoc_inj a c b d : a +:+ String c "" = b +:+ String d "" -> a = b /\ c = d.
Proof.
  intros H. apply (f_equal str_rev) in H. rewrite !str_rev_app_distr in H.
  change (String c (str_rev a) = String d (str_rev b)) in H. injection H as -> H. split; [|done].
  by rewrite <- (str_rev_involutive a), H, str_rev_involutive.
Qed.

Lemma lang_label l : lang label_regex l <-> label_ok l.
Proof.
  unfold label_regex, label_ok. rewrite lang_seq_iff. split.
  - intros (a & b & -> & Ha & Hb). apply lang_char_iff in Ha as (c & -> & Hc).
    rewrite lang_opt_iff, lang_group_iff, lang_seq_iff in Hb.
    destruct Hb as [-> | (m & e & -> & Hm & He)].
    + split_and!; [simpl; lia..| | |]; simpl.
      * by rewrite alnum_alnum_dash.
      * by intros c' t [= <- _].
      * intros [|? [|? ?]] c'; [by intros [= <-]|done|done].
    + apply lang_upto_iff in Hm as [Hl Hm]. apply lang_char_iff in He as (d & -> & Hd).
      rewrite app_cons, app_nil_l_str. split_and!.
      * simpl. lia.
      * simpl. rewrite length_app_str. simpl. lia.
      * simpl. rewrite str_forallb_app, Hm. simpl. by rewrite !alnum_alnum_dash.
      * by intros c' t [= <- _].
      * intros t c' Ht. rewrite <- app_cons in Ht. apply snoc_inj in Ht as [_ <-]. done.
  - intros (Hl & Hall & Hfirst & Hlast). destruct l as [|c t]; [simpl in Hl; lia|].
    exists (String c ""), t. split; [done|]. rewrite lang_char_iff, lang_opt_iff, lang_group_iff, lang_seq_iff.
    split; [eauto|]. destruct (str_snoc_view t) as [-> | (m & d & ->)]; [by left|right].
    exists m, (String d ""). split; [done|]. rewrite lang_upto_iff, lang_char_iff.
    simpl in Hl, Hall. rewrite length_app_str in Hl. rewrite str_forallb_app in Hall. simpl in Hl. bool_hyps.
    split_and!; [lia|done|]. exists d. split; [done|]. apply (Hlast (String c m)). done.
Qed.

Lemma lang_domain s : lang domain_body s <-> is_domain s.
Proof.
  unfold domain_body, is_domain, rplus. rewrite lang_seq_iff. split.
  - intros (a & b & -> & Ha & Hb). apply lang_seq_inv in Ha as (w & ws & -> & Hw & Hws).
    apply lang_star_words in Hws as (l & Hl & ->).
    assert (Hd : forall w, lang (RGroup 1 (RSeq label_regex (rchar "."))) w ->
                 exists x, w = x +:+ "." /\ label_ok x).
    { clear. intros w H. apply lang_group_iff, lang_seq_inv in H as (x & y & -> & Hx & Hy).
      apply lang_rchar_iff in Hy as ->. exists x. split; [done|]. by apply lang_label. }
    assert (Hls : forall l, Forall (lang (RGroup 1 (RSeq label_regex (rchar ".")))) l ->
       forall tld, exists ls, join "" l +:+ tld = join "." (ls ++ [tld]) /\ Forall label_ok ls /\ length ls = length l).
    { clear -Hd. induction 1 as [|w l Hw _ IH]; intros tld; [exists []; by split_and!; [|constructor|]|].
      destruct (Hd _ Hw) as (x & -> & Hx). destruct (IH tld) as (ls & He & Hls & Hn).
      exists (x :: ls). cbn [app]. rewrite (join_cons "." x) by apply snoc_nonempty.
      rewrite <- He, join_empty_cons, !app_assoc_str. split_and!; [done|by constructor|simpl; by rewrite Hn]. }
    destruct (Hls (w :: l) (List.Forall_cons _ _ _ Hw Hl) b) as (ls & He & Hok & Hn).
    rewrite join_empty_cons in He. exists ls, b. rewrite <- He.
    apply lang_seq_inv in Hb as (c & t & -> & Hc & Ht). apply lang_char_iff in Hc as (d & -> & Hc).
    apply lang_plus_iff in Ht as (e & u & -> & He' & Hu).
    split_and!; [done|by destruct ls|done| |].
    + simpl. by rewrite Hc, He', Hu.
    + simpl. lia.
  - intros (labels & tld & -> & Hne & Hok & Ht & Hn).
    assert (Hj : join "." (labels ++ [tld]) = join "" (List.map (fun l => l +:+ ".") labels) +:+ tld).
    { clear. induction labels as [|l ls IH]; [done|]. cbn [app List.map]. rewrite (join_cons ".") by apply snoc_nonempty.
      by rewrite IH, join_empty_cons, !app_assoc_str. }
    exists (join "" (List.map (fun l => l +:+ ".") labels)), tld. split; [done|]. split.
    + destruct Hok as [|l ls Hl Hls]; [done|]. cbn [List.map]. rewrite join_empty_cons.
      assert (Hg : forall x, label_ok x -> lang (RGroup 1 (RSeq label_regex (rchar "."))) (x +:+ ".")).
      { intros x Hx. apply lang_group_iff. constructor; [by apply lang_label|by apply lang_rchar_iff]. }
      constructor; [by apply Hg|]. apply lang_star_words. eexists; split; [|done].
      apply Forall_map_iff. eapply List.Forall_impl; [|exact Hls]. exact Hg.
    + destruct tld as [|c [|d u]]; simpl in Hn; [lia..|]. simpl in Ht. bool_hyps.
      apply (L_seq _ _ (String c "") (String d u)); [by constructor|].
      apply lang_plus_iff. eauto.
Qed.

(** A path of the file system: the root or slash-separated non-empty segments. *)
Definition is_unix_path (s : string) : Prop :=
  exists segs, s = "/" +:+ join "/" segs /\
    Forall (fun x => x <> "" /\ str_forallb path_char x = true) segs.

Lemma lang_unix s : lang unix_body s <-> is_unix_path s.
Proof.
  unfold unix_body, is_unix_path. rewrite lang_seq_iff. split.
  - intros (a & b & -> & Ha & Hb). apply lang_rchar_iff in Ha as ->.
    rewrite lang_opt_iff, lang_group_iff in Hb. destruct Hb as [-> | Hb]; [by exists []|].
    apply lang_seq_inv in Hb as (w & t & -> & Hw & Ht). apply lang_plus_nonempty in Hw.
    apply lang_star_words in Ht as (ws & Hws & ->).
    assert (Hsegs : forall x, exists segs, x +:+ join "" ws = join "/" (x :: segs) /\
        Forall (fun x => x <> "" /\ str_forallb path_char x = true) segs).
    { clear -Hws. induction Hws as [|w ws Hw _ IH]; intros x.
      - exists []. split; [apply app_nil_r_str|constructor].
      - apply lang_group_iff, lang_seq_inv in Hw as (y & z & -> & Hy & Hz).
        apply lang_rchar_iff in Hy as ->. apply lang_plus_nonempty in Hz.
        destruct (IH z) as (segs & He & Hs). exists (z :: segs).
        rewrite join_empty_cons, app_assoc_str, He, (join_cons "/" x) by done.
        split; [done|by constructor]. }
    destruct (Hsegs w) as (segs & -> & Hs). exists (w :: segs). split; [done|by constructor].
  - intros (segs & -> & Hs). exists "/", (join "/" segs). split; [done|].
    split; [by apply lang_rchar_iff|]. rewrite lang_opt_iff, lang_group_iff.
    destruct Hs as [|x segs Hx Hs]; [by left|right].
    assert (Hj : join "/" (x :: segs) = x +:+ join "" (List.map (fun y => "/" +:+ y) segs)).
    { clear. revert x. induction segs as [|y segs IH]; intros x; [symmetry; apply app_nil_r_str|].
      cbn [List.map]. by rewrite join_cons, IH, join_empty_cons, app_assoc_str. }
    rewrite Hj. constructor; [by apply lang_plus_nonempty|]. apply lang_star_words. eexists; split; [|done].
    apply Forall_map_iff. eapply List.Forall_impl; [|exact Hs]. intros y Hy.
    apply lang_group_iff. constructor; [by apply lang_rchar_iff|by apply lang_plus_nonempty].
Qed.

Section accepted.
Context `{ZL : ZodLaws} `{HostDate}.

Lemma validate_accept s v : makeValidator s v = true <-> exists w, accept s v = Some w.
Proof. unfold makeValidator. rewrite success_spec, bool_decide_eq_true. done. Qed.

Lemma accept_anchored r v w :
  assertion_free r = true ->
  accept (ZString [ranchored r]) v = Some w <-> w = v /\ exists s, v = JStr s /\ lang r s.
Proof.
  intros Hr. simpl. split.
  - destruct v as [| | | |s| | |]; try done. destruct (test _ s) eqn:E; [|done]. simpl. intros [= <-].
    apply test_anchored in E; eauto.
  - intros (-> & s & -> & Hs). apply test_anchored in Hs; [|done]. by rewrite Hs.
Qed.

(** C2.  [validateDomain] accepts exactly the strings that are host names of at least two
    labels: every label but the last has 1 to 63 letters, digits and inner hyphens, and the
    last has at least two letters. *)
Theorem validateDomain_spec v : validateDomain v = true <-> exists s, v = JStr s /\ is_domain s.
Proof.
  unfold validateDomain. rewrite validate_accept. unfold DomainSchema. split.
  - intros [w Hw]. apply accept_anchored in Hw as (_ & s & -> & Hs); [|done].
    exists s. split; [done|]. by apply lang_domain.
  - intros (s & -> & Hs). exists (JStr s). apply accept_anchored; [done|]. split; [done|].
    exists s. split; [done|]. by apply lang_domain.
Qed.

(** [validateUnixPath] accepts exactly the empty string and the absolute paths made of
    non-empty segments of letters, digits, underscore, dot and hyphen. *)
Theorem validateUnixPath_spec v :
  validateUnixPath v = true <-> v = JStr "" \/ exists s, v = JStr s /\ is_unix_path s.
Proof.
  unfold validateUnixPath. rewrite validate_accept. unfold UnixPathSchema.
  change (accept (ZUnion ?a ?b) v) with
    (match accept a v with Some w => Some w | None => accept b v end).
  split.
  - intros [w Hw]. destruct (accept (ZString _) v) as [u|] eqn:E.
    + apply accept_anchored in E as (_ & s & -> & Hs); [|done]. right. exists s.
      split; [done|]. by apply lang_unix.
    + simpl in Hw. destruct v as [| | | |y| | |]; try done. destruct (decide (y = "")) as [->|]; [by left|done].
  - intros [-> | (s & -> & Hs)]; [by exists (JStr "")|]. exists (JStr s).
    replace (accept (ZString [ranchored unix_body]) (JStr s)) with (Some (JStr s)); [done|].
    symmetry. apply accept_anchored; [done|]. split; [done|]. exists s. split; [done|]. by apply lang_unix.
Qed.

Lemma parse_accept_iff s v w : parse s v = Return w <-> accept s v = Some w.
Proof. rewrite parse_spec. destruct (accept s v); intuition congruence. Qed.

(** What the number schema of [PortSchema] accepts, unchanged. *)
Lemma accept_port_number u w :
  accept (ZNumber [num_int; num_min 1; num_max 65535]) u = Some w <->
  w = u /\ exists z, u = JNum (NInt z) /\ 1 <= z <= 65535.
Proof.
  simpl. split.
  - destruct u as [| | |x| | | |]; try done. destruct (is_finite x && _) eqn:E; [|done].
    intros [= <-]. split; [done|]. bool_hyps. destruct x as [z| | |]; try done.
    exists z. simpl in *. split; [done|lia].
  - intros (-> & z & -> & Hz). simpl. destruct (Z.leb_spec 1 z), (Z.leb_spec z 65535); try lia. done.
Qed.

(** C6.  A value is accepted as a port exactly when it is an integer from 1 to 65535 or a
    non-blank string that JavaScript's [Number] reads as one, and the result is then that
    integer: nothing else has a result, no fraction, NaN or infinity, no blank string, and no
    value that is neither a number nor a string. *)
Theorem validatePort_spec v w :
  parse PortSchema v = Return w <->
  exists n, w = JNum (NInt n) /\ 1 <= n <= 65535 /\
    (v = JNum (NInt n) \/ exists s, v = JStr s /\ trim s <> "" /\ toNumber s = NInt n).
Proof.
  rewrite parse_accept_iff. unfold PortSchema. rewrite accept_preprocess, accept_port_number. split.
  - intros (Hw & n & Hn & Hr). rewrite Hn in Hw. subst w. exists n. split_and!; [done|lia..|].
    destruct v as [| | | |s| | |]; simpl in Hn; try done; [by left|right].
    destruct (decide (trim s = "")); [done|]. exists s. split_and!; [done|done|].
    destruct (is_nan (toNumber s)); [done|]. by injection Hn.
  - intros (n & -> & Hr & Hv).
    assert (Hp : port_preprocess v = JNum (NInt n)).
    { destruct Hv as [-> | (s & -> & Hs & Hn)]; [done|]. cbn [port_preprocess]. by rewrite decide_False, Hn. }
    rewrite Hp. split; [done|]. by exists n.
Qed.
End accepted.

(** * The rules of a route *)

Lemma index_of_nth l i p : l !! i = Some p -> (index_of p l <= i)%nat.
Proof.
  revert i. induction l as [|x l IH]; intros i H; [done|]. simpl.
  destruct (decide (x = p)); [lia|]. destruct i as [|i]; simpl in H; [congruence|].
  apply IH in H. lia.
Qed.

Lemma index_of_lookup l p : p ∈ l -> l !! index_of p l = Some p.
Proof.
  induction l as [|x l IH]; intros H; [by invert H|]. simpl.
  destruct (decide (x = p)) as [->|]; [done|]. simpl. apply IH. set_solver.
Qed.

Lemma NoDup_index_of l : NoDup l <-> forall i p, l !! i = Some p -> index_of p l = i.
Proof.
  rewrite NoDup_alt. split.
  - intros H i p Hi. apply (H _ _ p); [|done]. apply index_of_lookup. by eapply list_elem_of_lookup_2.
  - intros H i j p Hi Hj. rewrite <- (H i p Hi). by apply H.
Qed.

Lemma duplicates_nil l : duplicates l = [] <-> NoDup l.
Proof.
  rewrite NoDup_index_of. unfold duplicates.
  set (P := fun ip : nat * string => negb (index_of ip.2 l =? ip.1)%nat).
  transitivity (List.filter P (imap (fun i p => (i, p)) l) = []).
  { by destruct (List.filter _ _). }
  split.
  - intros H i p Hi. destruct (decide (index_of p l = i)) as [|Hne]; [done|exfalso].
    assert (Hin : List.In (i, p) (List.filter P (imap (fun i p => (i, p)) l))).
    { apply List.filter_In. split.
      - apply list_elem_of_In, (list_elem_of_lookup_2 _ i). rewrite list_lookup_imap, Hi. done.
      - unfold P. simpl. apply negb_true_iff. by apply Nat.eqb_neq. }
    by rewrite H in Hin.
  - intros H. destruct (List.filter P _) as [|[i p] r] eqn:E; [done|exfalso].
    assert (Hin : List.In (i, p) (List.filter P (imap (fun i p => (i, p)) l))) by (rewrite E; by left).
    apply List.filter_In in Hin as [Hin HP]. apply list_elem_of_In, list_elem_of_lookup in Hin as [j Hj].
    rewrite list_lookup_imap in Hj. destruct (l !! j) as [q|] eqn:Hq; [|done].
    simpl in Hj. injection Hj as <- <-. apply H in Hq. unfold P in HP. simpl in HP.
    by rewrite Hq, Nat.eqb_refl in HP.
Qed.

Definition location_paths (route : jsval) : list string :=
  List.map (fun l => str_of (jget "path" l)) (jlist (jget "locations" route)).

(** The dependencies between the fields of a route. *)
Record route_rules (r : jsval) : Prop := {
  rule_certificates : truthy (jget "ssl" r) = true ->
    truthy (jget "ssl_certificate" r) = true /\ truthy (jget "ssl_certificate_key" r) = true;
  rule_proxy_locations : truthy (jget "proxy_pass" r) = true -> jlist (jget "locations" r) = [];
  rule_root : truthy (jget "proxy_pass" r) = false -> trim (str_of (jget "root" r)) <> "";
  rule_443 : jget "port" r = JNum (NInt 443) -> truthy (jget "ssl" r) = true;
  rule_80 : jget "port" r = JNum (NInt 80) -> truthy (jget "ssl" r) = false;
  rule_paths : NoDup (location_paths r)
}.

(** What the refinement does to a route that passes. *)
Definition clear_ssl (r : jsval) : jsval :=
  if truthy (jget "ssl" r) then r
  else jset "ssl_certificate_key" JUndef (jset "ssl_certificate" JUndef r).

Lemma jget_jset_ne k k' x v : k <> k' -> jget k (jset k' x v) = jget k v.
Proof. intros H. destruct v; try done. simpl. by rewrite obj_get_set_ne. Qed.

Lemma jget_clear_ssl k r :
  k <> "ssl_certificate" -> k <> "ssl_certificate_key" -> jget k (clear_ssl r) = jget k r.
Proof. intros H1 H2. unfold clear_ssl. destruct (truthy _); [done|]. by rewrite !jget_jset_ne. Qed.

Lemma issue_when_nil b p m : issue_when b p m = [] <-> b = false.
Proof. by destruct b. Qed.

Lemma js_is_num_spec v n : js_is_num v n = true <-> v = JNum (NInt n).
Proof.
  destruct v as [| | |[z| | |]| | | |]; simpl; try (split; [done|by intros [=]]).
  rewrite Z.eqb_eq. split; [by intros ->|by intros [=]].
Qed.

Lemma Route_refine_spec r w :
  Route_refine r = (w, []) <-> route_rules r /\ w = clear_ssl r.
Proof.
  unfold Route_refine. fold (clear_ssl r).
  set (i := (_ ++ _)%list). assert (Hi : i = [] <-> route_rules r).
  { unfold i. rewrite !app_nil, !issue_when_nil. fold (clear_ssl r).
    rewrite !jget_clear_ssl by done. fold (location_paths r).
    rewrite !andb_false_iff, !orb_false_iff, !negb_false_iff, !Nat.eqb_eq, !bool_decide_eq_false, !length_zero_iff_nil.
    rewrite duplicates_nil. split.
    - intros (H1 & H2 & H3 & H4 & H5 & H6). constructor; try done.
      + intros Hs. destruct H1 as [H1|H1]; [congruence|done].
      + intros Hp. destruct H2 as [H2|H2]; [congruence|done].
      + intros Hp. destruct H3 as [H3|H3]; [congruence|done].
      + intros Hp. apply js_is_num_spec in Hp. destruct H4 as [H4|H4]; [congruence|done].
      + intros Hp. apply js_is_num_spec in Hp. destruct H5 as [H5|H5]; [congruence|done].
    - intros [R1 R2 R3 R4 R5 R6]. split_and!; try done.
      + destruct (truthy (jget "ssl" r)); [right|left]; auto.
      + destruct (truthy (jget "proxy_pass" r)); [right|left]; auto.
      + destruct (truthy (jget "proxy_pass" r)); [left|right]; auto.
      + destruct (js_is_num (jget "port" r) 443) eqn:E; [right|left]; [|done]. by apply R4, js_is_num_spec.
      + destruct (js_is_num (jget "port" r) 80) eqn:E; [right|left]; [|done]. by apply R5, js_is_num_spec. }
  rewrite <- Hi. split; [intros [= <- Hl]; done|intros [-> ->]; done].
Qed.

(** * Parsing a route *)

Lemma idem_port : idem PortSchema.
Proof.
  apply idem_preprocess; [by apply keeps_idem|]. intros v w H.
  apply keeps_output in H as Hw; [|done]. rewrite <- Hw in H. clear Hw v.
  destruct w as [| | | |s| | |]; try done.
Qed.

Lemma idem_location : idem LocationConfigSchema.
Proof.
  assert (Hobj : idem (ZObject LocationConfig_shape)).
  { apply idem_object; [nodup_literals|]. repeat constructor; simpl; by apply keeps_idem. }
  apply idem_superRefine; [done|]. intros v u w Hu Hf. unfold LocationConfig_refine in *.
  injection Hf as -> Hi. rewrite Hi. split; [by eapply Hobj|done].
Qed.

(** Replacing optional fields by [undefined]. *)
Lemma accept_fields_undef fs o o' k :
  NoDup (List.map fst fs) -> accept_fields o fs = Some o -> obj_get k fs = Some (ZOptional o') ->
  is_Some (obj_get k o) -> accept_fields (obj_set k JUndef o) fs = Some (obj_set k JUndef o).
Proof.
  intros Hnd Ho Hk Hin.
  assert (Hin' : k ∈ List.map fst o).
  { destruct Hin as [x Hx]. apply obj_get_In in Hx. apply list_elem_of_In, List.in_map_iff.
    exists (k, x). split; [done|]. by apply list_elem_of_In. }
  apply accept_fields_self; try done.
  - intros k' s Hs. destruct (decide (k' = k)) as [->|Hne].
    + assert (s = ZOptional o') as -> by congruence. simpl. by rewrite obj_get_set_eq.
    + pose proof (accept_fields_get _ _ _ _ _ Ho Hnd Hs) as Ha. simpl in *.
      by rewrite obj_get_set_ne.
  - rewrite obj_set_keys, decide_True by done.
    rewrite (accept_fields_key_order _ _ _ Ho Hnd) at 1. apply List.filter_ext_in. intros k' _.
    destruct (decide (k' = k)) as [->|Hne]; [|by rewrite obj_get_set_ne].
    rewrite obj_get_set_eq, !bool_decide_true by eauto. done.
  - rewrite obj_set_keys, decide_True by done. by eapply accept_fields_NoDup.
Qed.

Lemma truthy_get k o : truthy (jget k (JObj o)) = true -> is_Some (obj_get k o).
Proof. simpl. destruct (obj_get k o); [by eexists|done]. Qed.

Lemma accept_object_self fs v :
  accept (ZObject fs) v = Some v -> exists o, v = JObj o /\ accept_fields o fs = Some o.
Proof.
  rewrite accept_object. destruct (object_props v) as [o|] eqn:Ho; [|done].
  destruct (accept_fields o fs) as [o'|] eqn:E; [|done]. intros [= <-]. injection Ho as <-. eauto.
Qed.

(** [if (!v.g && v.t) v.t = undefined] *)
Definition clear_unset (g t : string) (v : jsval) : jsval :=
  if negb (truthy (jget g v)) && truthy (jget t v) then jset t JUndef v else v.

Lemma jget_clear_unset_ne g t k v : k <> t -> jget k (clear_unset g t v) = jget k v.
Proof. intros H. unfold clear_unset. destruct (_ && _); [|done]. by apply jget_jset_ne. Qed.

Lemma jget_clear_unset_set g t v : truthy (jget g v) = true -> clear_unset g t v = v.
Proof. intros H. unfold clear_unset. by rewrite H. Qed.

Lemma truthy_clear_unset g t v :
  truthy (jget t (clear_unset g t v)) = true -> truthy (jget g v) = true.
Proof.
  unfold clear_unset. destruct (truthy (jget g v)); [done|]. simpl.
  destruct (truthy (jget t v)) eqn:E; [|congruence]. destruct v; try done. simpl. by rewrite obj_get_set_eq.
Qed.

Lemma clear_unset_settled g t v :
  (truthy (jget t v) = true -> truthy (jget g v) = true) -> clear_unset g t v = v.
Proof.
  intros H. unfold clear_unset. destruct (truthy (jget t v)); [by rewrite H|]. by rewrite andb_false_r.
Qed.

Lemma clear_unset_accepted fs g t s v :
  NoDup (List.map fst fs) -> obj_get t fs = Some (ZOptional s) ->
  accept (ZObject fs) v = Some v -> accept (ZObject fs) (clear_unset g t v) = Some (clear_unset g t v).
Proof.
  intros Hnd Ht Hv. unfold clear_unset. destruct (_ && _) eqn:E; [|done].
  apply andb_true_iff in E as [_ E]. apply accept_object_self in Hv as (o & -> & Ho).
  rewrite accept_object. cbn [jset object_props].
  erewrite accept_fields_undef; [done..|]. by apply truthy_get.
Qed.

(** The dependencies between the fields of an advanced configuration. *)
Definition advanced_rules (adv : jsval) : Prop :=
  (truthy (jget "gzip" adv) = true ->
     truthy (jget "gzip_types" adv) = true /\ trim (str_of (jget "gzip_types" adv)) <> "") /\
  (truthy (jget "caching" adv) = true -> truthy (jget "cache_valid" adv) = true).

Definition clear_advanced (adv : jsval) : jsval :=
  clear_unset "caching" "cache_valid" (clear_unset "gzip" "gzip_types" adv).

Lemma AdvancedConfig_refine_spec u w :
  AdvancedConfig_refine u = (w, []) <-> advanced_rules u /\ w = clear_advanced u.
Proof.
  unfold AdvancedConfig_refine. fold (clear_unset "gzip" "gzip_types" u).
  fold (clear_unset "caching" "cache_valid" (clear_unset "gzip" "gzip_types" u)).
  fold (clear_advanced u). set (i := (_ ++ _)%list). assert (Hi : i = [] <-> advanced_rules u).
  { unfold i, advanced_rules. rewrite app_nil, !issue_when_nil, !jget_clear_unset_ne by done.
    rewrite !andb_false_iff, orb_false_iff, !negb_false_iff, bool_decide_eq_false.
    destruct (truthy (jget "gzip" u)), (truthy (jget "caching" u)); naive_solver. }
  rewrite <- Hi. split; [intros [= <- Hl]; done|intros [-> ->]; done].
Qed.

Lemma idem_advanced_shape : idem (ZObject AdvancedConfig_shape).
Proof. apply idem_object; [nodup_literals|]. repeat constructor; simpl; by apply keeps_idem. Qed.

Lemma idem_advanced : idem AdvancedConfigSchema.
Proof.
  apply idem_superRefine; [apply idem_advanced_shape|]. intros v u w Hu Hf.
  apply idem_advanced_shape in Hu. apply AdvancedConfig_refine_spec in Hf as [[H1 H2] ->].
  split; [do 2 (eapply clear_unset_accepted; [nodup_literals|done|]); done|].
  apply AdvancedConfig_refine_spec. unfold clear_advanced, advanced_rules. split; [split|].
  - rewrite !(jget_clear_unset_ne "caching"), (jget_clear_unset_ne "gzip") by done. intros Hg.
    rewrite jget_clear_unset_set by done. auto.
  - rewrite !jget_clear_unset_ne by done. intros Hc.
    rewrite jget_clear_unset_set by (by rewrite jget_clear_unset_ne). rewrite jget_clear_unset_ne by done. auto.
  - rewrite (clear_unset_settled "gzip" _ (clear_unset "caching" _ _)); [symmetry; apply clear_unset_settled|].
    + intros Ht. apply truthy_clear_unset in Ht. by rewrite jget_clear_unset_ne.
    + rewrite !(jget_clear_unset_ne "caching"), (jget_clear_unset_ne "gzip" "gzip_types" "gzip") by done.
      apply truthy_clear_unset.
Qed.

(** ** Reading the same properties *)

(** Two values that no property access tells apart: key order and absent against
    [undefined] do not matter. *)
Definition same_props (v w : jsval) : Prop := forall k, jget k v = jget k w.

#[export] Instance same_props_equiv : Equivalence same_props.
Proof.
  split; [by intros v k|by intros v w H k; rewrite H|by intros u v w H1 H2 k; rewrite H1, H2].
Qed.

#[export] Instance jget_proper k : Proper (same_props ==> eq) (jget k).
Proof. intros v w H. apply H. Qed.

#[export] Instance route_rules_proper : Proper (same_props ==> iff) route_rules.
Proof.
  assert (Hdir : forall v w, same_props v w -> route_rules v -> route_rules w).
  { intros v w H [R1 R2 R3 R4 R5 R6]. unfold location_paths in R6. setoid_rewrite H in R1.
    setoid_rewrite H in R2. setoid_rewrite H in R3. setoid_rewrite H in R4. setoid_rewrite H in R5.
    rewrite H in R6. by constructor. }
  intros v w H. split; apply Hdir; [done|by symmetry].
Qed.

Lemma clear_ssl_same v :
  (truthy (jget "ssl" v) = false -> jget "ssl_certificate" v = JUndef /\ jget "ssl_certificate_key" v = JUndef) ->
  same_props (clear_ssl v) v.
Proof.
  intros H k. unfold clear_ssl. destruct (truthy (jget "ssl" v)); [done|]. destruct (H eq_refl) as [H1 H2].
  destruct (decide (k = "ssl_certificate_key")) as [->|Hk].
  - rewrite H2. destruct v; try done. simpl. by rewrite obj_get_set_eq.
  - rewrite jget_jset_ne by done. destruct (decide (k = "ssl_certificate")) as [->|Hc].
    + rewrite H1. destruct v; try done. simpl. by rewrite obj_get_set_eq.
    + by rewrite jget_jset_ne.
Qed.

Lemma clear_ssl_off u :
  truthy (jget "ssl" u) = false ->
  jget "ssl_certificate" (clear_ssl u) = JUndef /\ jget "ssl_certificate_key" (clear_ssl u) = JUndef.
Proof.
  intros H. unfold clear_ssl. rewrite H. split; [rewrite jget_jset_ne by done|];
    destruct u; try done; simpl; by rewrite obj_get_set_eq.
Qed.

Section parsed_route.
Context `{ZL : ZodLaws} `{HostDate}.

(** C1.  [RouteSchema.parse] succeeds exactly on the objects whose fields have their types
    and that satisfy the six rules between fields: certificates when SSL is on, no
    [proxy_pass] beside location blocks, a [root] without [proxy_pass], SSL on port 443, no
    SSL on port 80, distinct location paths.  The result has the certificates cleared when
    SSL is off. *)
Theorem parse_RouteSchema v w :
  parse RouteSchema v = Return w <->
  exists u, parse (ZObject Route_shape) v = Return u /\ route_rules u /\ w = clear_ssl u.
Proof.
  rewrite parse_accept_iff. setoid_rewrite parse_accept_iff. unfold RouteSchema.
  rewrite accept_superRefine. setoid_rewrite Route_refine_spec. done.
Qed.

Lemma route_shape_NoDup : NoDup (List.map fst Route_shape).
Proof. nodup_literals. Qed.

Lemma idem_route_shape k s : obj_get k Route_shape = Some s -> idem s.
Proof.
  intros Hk. apply obj_get_In in Hk. apply list_elem_of_In in Hk.
  assert (Hd : idem (ZPreprocess date_preprocess ZDate)).
  { apply idem_preprocess; [by apply keeps_idem|]. intros v w Hv.
    apply keeps_output in Hv as Hw; [|done]. rewrite <- Hw in Hv. by destruct w. }
  assert (Hall : Forall (fun f => idem (snd f)) Route_shape).
  { unfold Route_shape. repeat (apply List.Forall_cons; simpl); try (by apply keeps_idem).
    - apply idem_port.
    - apply idem_array, idem_location.
    - apply idem_optional, idem_advanced.
    - apply idem_optional, idem_object; [nodup_literals|]. unfold metadata_shape.
      repeat (apply List.Forall_cons; simpl); try (by apply keeps_idem); try (by apply Hd); apply List.Forall_nil.
    - apply List.Forall_nil. }
  by apply (proj1 (List.Forall_forall _ _) Hall (k, s)).
Qed.

(** A field of the shape, read from the parsed route, parses to itself. *)
Lemma parsed_field v u k s :
  accept (ZObject Route_shape) v = Some u -> obj_get k Route_shape = Some s ->
  accept s (jget k u) = Some (jget k u).
Proof.
  intros Hu Hk. rewrite accept_object in Hu. destruct (object_props v) as [o|]; [|done].
  destruct (accept_fields o Route_shape) as [o'|] eqn:Ho; [|done]. injection Hu as <-.
  pose proof (accept_fields_get _ _ _ _ _ Ho route_shape_NoDup Hk) as Hg.
  by apply (idem_route_shape k s Hk) in Hg.
Qed.

Lemma parsed_other v u k :
  accept (ZObject Route_shape) v = Some u -> k ∉ List.map fst Route_shape -> jget k u = JUndef.
Proof.
  intros Hu Hk. rewrite accept_object in Hu. destruct (object_props v) as [o|]; [|done].
  destruct (accept_fields o Route_shape) as [o'|] eqn:Ho; [|done]. injection Hu as <-.
  simpl. by rewrite (accept_fields_keys _ _ _ Ho).
Qed.

(** Clearing the certificates keeps every field acceptable as it is. *)
Lemma cleared_field v u k s :
  accept (ZObject Route_shape) v = Some u -> obj_get k Route_shape = Some s ->
  accept s (jget k (clear_ssl u)) = Some (jget k (clear_ssl u)).
Proof.
  intros Hu Hk. destruct (truthy (jget "ssl" u)) eqn:Hs.
  { unfold clear_ssl. rewrite Hs. by eapply parsed_field. }
  destruct (clear_ssl_off u Hs) as [H1 H2].
  destruct (decide (k = "ssl_certificate")) as [->|Hc]; [rewrite H1; by injection Hk as <-|].
  destruct (decide (k = "ssl_certificate_key")) as [->|Hc']; [rewrite H2; by injection Hk as <-|].
  rewrite jget_clear_ssl by done. by eapply parsed_field.
Qed.

Lemma rules_clear_ssl u : route_rules u -> route_rules (clear_ssl u).
Proof.
  intros [R1 R2 R3 R4 R5 R6].
  constructor; unfold location_paths; rewrite ?jget_clear_ssl by done; try done.
  intros Hs. specialize (R1 Hs). unfold clear_ssl. by rewrite Hs.
Qed.

(** C8.  Parsing is stable: a parsed route parses again, and the second result reads the
    same on every property, so the form, the page and the use case may each parse the
    route they are given. *)
Theorem parse_RouteSchema_twice v w :
  parse RouteSchema v = Return w ->
  exists w', parse RouteSchema w = Return w' /\ same_props w' w.
Proof.
  intros Hp. rewrite parse_accept_iff in Hp. unfold RouteSchema in Hp.
  apply accept_superRefine in Hp as (u & Hu & Hr). apply Route_refine_spec in Hr as [Hrules ->].
  assert (Hobj : exists o, clear_ssl u = JObj o).
  { pose proof Hu as Hu'. rewrite accept_object in Hu'. destruct (object_props v); [|done].
    destruct (accept_fields _ _); [|done]. injection Hu' as <-. unfold clear_ssl.
    destruct (truthy _); simpl; eauto. }
  destruct Hobj as [o Ho].
  destruct (accept_fields_total o Route_shape) as [o2 Ho2].
  { intros k s Hin. apply obj_get_NoDup in Hin as Hk; [|apply route_shape_NoDup].
    rewrite <- Ho. rewrite (cleared_field v u k s Hu Hk). eauto. }
  assert (Hsame : same_props (JObj o2) (clear_ssl u)).
  { intros k. destruct (obj_get k Route_shape) as [s|] eqn:Hk.
    - pose proof (accept_fields_get _ _ _ _ _ Ho2 route_shape_NoDup Hk) as Hg.
      rewrite <- Ho in Hg. rewrite (cleared_field v u k s Hu Hk) in Hg. by injection Hg.
    - apply obj_get_None in Hk as Hn. unfold jget at 1. rewrite (accept_fields_keys _ _ _ Ho2) by done. symmetry.
      rewrite jget_clear_ssl by (intros ->; discriminate Hk). by eapply parsed_other. }
  exists (clear_ssl (JObj o2)). split.
  - rewrite parse_accept_iff. unfold RouteSchema. rewrite accept_superRefine. exists (JObj o2).
    rewrite Ho, accept_object. cbn [object_props]. rewrite Ho2. split; [done|].
    apply Route_refine_spec. split; [|done]. rewrite Hsame. by apply rules_clear_ssl.
  - rewrite clear_ssl_same; [done|]. rewrite !(Hsame _).
    intros Hs. rewrite jget_clear_ssl in Hs by done. by apply clear_ssl_off.
Qed.
End parsed_route.

(** * The theorems at work, on the concrete parser *)

#[local] Existing Instances zod_model zod_model_laws.

Lemma validateDomain_spec_witness : validateDomain (JStr "api.example.com") = true.
Proof.
  apply validateDomain_spec. exists "api.example.com". split; [reflexivity|].
  apply lang_domain, test_anchored; [reflexivity|]. vm_compute. reflexivity.
Defined.

Lemma validateUnixPath_spec_witness : validateUnixPath (JStr "/var/www") = true.
Proof.
  apply validateUnixPath_spec. right. exists "/var/www". split; [reflexivity|].
  apply lang_unix, test_anchored; [reflexivity|]. vm_compute. reflexivity.
Defined.

Lemma validatePort_spec_witness : parse PortSchema (JStr " 8080 ") = Return (JNum (NInt 8080)).
Proof.
  apply validatePort_spec. exists 8080. split; [reflexivity|]. split; [lia|]. right. exists " 8080 ". split; [reflexivity|].
  split; [vm_compute; discriminate|vm_compute; reflexivity].
Defined.

#[local] Existing Instance no_host.

Definition sample_route : jsval :=
  JObj [("id", JStr "r1"); ("domain", JStr "example.com"); ("port", JStr "8080"); ("root", JStr "");
        ("enabled", JBool true); ("ssl", JBool false); ("ssl_certificate", JStr "/etc/cert.pem");
        ("proxy_pass", JStr "http://127.0.0.1:3000"); ("locations", JArr [])].

Definition sample_parsed : jsval :=
  JObj [("id", JStr "r1"); ("domain", JStr "example.com"); ("port", JNum (NInt 8080)); ("root", JStr "");
        ("enabled", JBool true); ("ssl", JBool false); ("ssl_certificate", JUndef);
        ("proxy_pass", JStr "http://127.0.0.1:3000"); ("locations", JArr []);
        ("ssl_certificate_key", JUndef)].

Lemma parse_RouteSchema_witness :
  exists u, parse (ZObject Route_shape) sample_route = Return u /\ route_rules u /\
    sample_parsed = clear_ssl u.
Proof. apply parse_RouteSchema. vm_compute. reflexivity. Defined.

Lemma parse_RouteSchema_twice_witness :
  exists w', parse RouteSchema sample_parsed = Return w' /\ same_props w' sample_parsed.
Proof. apply (parse_RouteSchema_twice sample_route). vm_compute. reflexivity. Defined.
