(* ===== verification/ConfigGenerator.v ===== *)
(** * The configuration preview (packages/core/src/services/ConfigGenerator.ts)

    The generator writes a list of lines, joins them and collapses runs of newlines with the
    source's regular expression.  The theorems say what every preview looks like, and that
    the header of a parsed route holds its fields unchanged and nothing else. *)

From S2P Require Import Prelude JsString Regex JsValue Dates Json Secrets Zod Schemas.

Section generator.
Context `{HostDate}.

(** [lines.filter(Boolean).map(line => "    ".repeat(level) + line).join("\n")] *)
Definition indent (lines : list string) (level : nat) : string :=
  join nl (List.map (fun line => str_repeat "    " level +:+ line)
                    (List.filter (fun line => negb (bool_decide (line = ""))) lines)).

Definition push_if (b : bool) (lines : list string) : list string := if b then lines else [].

(** [`name ${value};`] *)
Definition directive (name : string) (value : jsval) : string := name +:+ " " +:+ js_show value +:+ ";".

Definition renderLocationBlock (loc : jsval) : string :=
  let locLines :=
    push_if (truthy (jget "proxy_pass" loc)) [directive "proxy_pass" (jget "proxy_pass" loc)] ++
    push_if (truthy (jget "try_files" loc)) [directive "try_files" (jget "try_files" loc)] ++
    push_if (truthy (jget "index" loc)) [directive "index" (jget "index" loc)] ++
    push_if (truthy (jget "extra_directives" loc)) [trim (str_of (jget "extra_directives" loc))] in
  join nl ["    location " +:+ js_show (jget "path" loc) +:+ " {"; indent locLines 2; "    }"].

Definition baseDirectives (route : jsval) : list string :=
  ["listen " +:+ js_show (jget "port" route) +:+ (if truthy (jget "ssl" route) then " ssl" else "") +:+ ";";
   directive "server_name" (jget "domain" route);
   directive "root" (jget "root" route)].

Definition ssl_lines (route : jsval) : list string :=
  push_if (truthy (jget "ssl" route) && truthy (jget "ssl_certificate" route) &&
           truthy (jget "ssl_certificate_key" route))
    [""; indent [directive "ssl_certificate" (jget "ssl_certificate" route);
                 directive "ssl_certificate_key" (jget "ssl_certificate_key" route)] 1].

Definition advanced_lines (route : jsval) : list string :=
  let adv := jget "advanced" route in
  push_if (truthy adv)
    (let advLines :=
       [directive "client_max_body_size" (jget "client_max_body_size" adv);
        directive "keepalive_timeout" (jget "keepalive_timeout" adv)] ++
       push_if (truthy (jget "gzip" adv)) ["gzip on;"; directive "gzip_types" (jget "gzip_types" adv)] ++
       push_if (truthy (jget "caching" adv)) [directive "proxy_cache_valid" (jget "cache_valid" adv)] in
     push_if (0 <? Z.of_nat (length advLines)) [""; indent advLines 1]).

Definition location_lines (route : jsval) : list string :=
  let locations := jlist (jget "locations" route) in
  push_if (0 <? Z.of_nat (length locations))
    ("" :: concat (List.map (fun loc => [renderLocationBlock loc; ""]) locations)).

Definition preview_lines (route : jsval) : list string :=
  ["server {"; indent (baseDirectives route) 1] ++
  ssl_lines route ++ advanced_lines route ++ location_lines route ++ ["}"].

(** [/\n{3,}/g] *)
Definition newline_run : regex := RSeq (rexact 3 (rchar LF)) (rstar (rchar LF)).

Definition collapse_newlines (s : string) : string := replace_all newline_run (fun _ _ => nl +:+ nl) s.

Definition generateConfigPreview (route : jsval) : string :=
  trimEnd (collapse_newlines (join nl (preview_lines route))) +:+ nl.

End generator.

(** ** Collapsing newlines: a reference definition *)

(** Drop every newline that follows two others; [k] newlines have just been written. *)
Fixpoint squeeze (k : nat) (s : string) : string :=
  match s with
  | EmptyString => ""
  | String c s' =>
      if Ascii.eqb c LF then
        if (k <? 2)%nat then String c (squeeze (S k) s') else squeeze k s'
      else String c (squeeze 0 s')
  end.

(** Newlines at the front. *)
Fixpoint lead (s : string) : nat :=
  match s with String c s' => if Ascii.eqb c LF then S (lead s') else O | EmptyString => O end.

Lemma squeeze_lead0 k s : lead s = O -> squeeze k s = squeeze 0 s.
Proof. destruct s as [|c s]; [done|]. simpl. by destruct (Ascii.eqb c LF). Qed.

Lemma squeeze_newlines k t s :
  str_forallb (Ascii.eqb LF) t = true -> (k <= 2)%nat -> lead s = O ->
  squeeze k (t +:+ s) = str_repeat nl (min (String.length t) (2 - k)) +:+ squeeze 0 s.
Proof.
  revert k. induction t as [|c t IH]; intros k Ht Hk Hs; [by apply squeeze_lead0|].
  cbn [str_forallb] in Ht. apply andb_true_iff in Ht as [Hc Ht]. apply Ascii.eqb_eq in Hc as <-.
  rewrite app_cons. cbn [squeeze]. rewrite Ascii.eqb_refl. simpl String.length.
  destruct (Nat.ltb_spec k 2) as [Hlt|Hge].
  - rewrite IH by (done || lia). replace (2 - k)%nat with (S (2 - S k)) by lia. done.
  - assert (k = 2%nat) as -> by lia. rewrite IH by (done || lia). by rewrite !Nat.min_0_r.
Qed.

Lemma lead_newlines t s : str_forallb (Ascii.eqb LF) t = true -> (String.length t <= lead (t +:+ s))%nat.
Proof.
  induction t as [|c t IH]; [simpl; lia|]. cbn [str_forallb]. intros H. apply andb_true_iff in H as [Hc Ht].
  apply Ascii.eqb_eq in Hc as <-. rewrite app_cons. cbn [lead String.length]. change (Ascii.eqb LF LF) with true. cbn iota.
  specialize (IH Ht). lia.
Qed.

Lemma lead_split s : exists t u, s = t +:+ u /\ str_forallb (Ascii.eqb LF) t = true /\ String.length t = lead s.
Proof.
  induction s as [|c s IH]; [by exists "", ""|]. cbn [lead]. destruct (Ascii.eqb_spec c LF) as [->|Hc].
  - destruct IH as (t & u & -> & Ht & Hl). exists (String LF t), u. cbn [str_forallb String.length]. by rewrite Ht, Hl.
  - by exists "", (String c s).
Qed.

Lemma lang_newline_run t :
  lang newline_run t <-> str_forallb (Ascii.eqb LF) t = true /\ (3 <= String.length t)%nat.
Proof.
  unfold newline_run, rchar, rstar. cbn [rexact]. rewrite lang_seq_iff. split.
  - intros (a & b & -> & Ha & Hb). apply lang_star_iff in Hb.
    do 3 (apply lang_seq_inv in Ha as (? & ? & -> & (? & -> & ?)%lang_char_iff & Ha)).
    invert Ha. str_norm. cbn [str_forallb String.length]. split; [|lia].
    by repeat (apply andb_true_iff; split).
  - intros [Ht Hl]. destruct t as [|c1 [|c2 [|c3 t]]]; simpl in Hl; try lia.
    cbn [str_forallb] in Ht. bool_hyps. exists (String c1 (String c2 (String c3 ""))), t.
    split; [done|]. rewrite lang_star_iff. split; [|done].
    apply (L_seq _ _ (String c1 "")); [by constructor|].
    apply (L_seq _ _ (String c2 "")); [by constructor|].
    apply (L_seq _ _ (String c3 "")); by constructor.
Qed.

Lemma newline_run_some p s st' :
  exec_here newline_run p s = Some st' ->
  exists t, s = t +:+ rest st' /\ str_forallb (Ascii.eqb LF) t = true /\ (3 <= String.length t)%nat /\
    lead (rest st') = O.
Proof.
  intros He. pose proof (exec_here_some _ _ _ _ He) as Hm.
  apply matches_lang in Hm as (t & Ht & _ & Hl); [|done]. simpl in Ht.
  apply lang_newline_run in Hl as [Ht1 Ht2]. exists t. split_and!; try done.
  unfold exec_here, newline_run in He. cbn [bt] in He. apply bt_spec in He as (st1 & _ & He).
  destruct (rest st') as [|d u] eqn:Hr; [done|]. cbn [lead].
  rewrite Ascii.eqb_sym. erewrite (star_loop_greedy_end (Ascii.eqb LF)); [done| |exact He|exact Hr]. lia.
Qed.

Lemma newline_run_none p s : exec_here newline_run p s = None -> (lead s < 3)%nat.
Proof.
  intros He. destruct (lead_split s) as (t & u & -> & Ht & Hl).
  destruct (decide (3 <= String.length t)%nat) as [H3|]; [|lia]. exfalso.
  destruct (lang_matches newline_run t) with (pv := p) (u := u) (cs := @nil (nat * string)) as (cs & Hm).
  - by apply lang_newline_run.
  - revert Hm. by apply exec_here_none.
Qed.

Lemma replace_squeeze fuel off p k s :
  (String.length s < fuel)%nat -> k = O \/ (k + lead s <= 2)%nat ->
  replace_from fuel newline_run (fun _ _ => nl +:+ nl) off p s = squeeze k s.
Proof.
  revert off p k s. induction fuel as [|fuel IH]; intros off p k s Hf Hk; [lia|].
  destruct (exec_here newline_run p s) as [st'|] eqn:He.
  - destruct (newline_run_some _ _ _ He) as (t & Hs & Ht & Hl & Hr).
    assert (String.length s = String.length t + remaining st')%nat as Hlen
      by (unfold remaining; rewrite Hs at 1; apply length_app_str).
    rewrite (replace_from_match _ _ _ _ _ _ st') by (done || lia).
    assert (k = O) as ->.
    { destruct Hk as [|Hk]; [done|]. pose proof (lead_newlines t (rest st') Ht) as Hld. rewrite <- Hs in Hld. lia. }
    rewrite (IH _ _ 0%nat) by (unfold remaining in Hlen; auto with lia). rewrite Hs.
    rewrite squeeze_newlines by (done || lia). rewrite Nat.min_r by lia. done.
  - pose proof (newline_run_none _ _ He) as Hn. destruct s as [|c s].
    + cbn [replace_from]. by rewrite He.
    + rewrite replace_from_skip by done. cbn [squeeze lead] in *. simpl in Hf.
      destruct (Ascii.eqb c LF) eqn:Hc.
      * destruct (Nat.ltb_spec k 2); [|lia]. f_equal. apply IH; lia.
      * f_equal. apply IH; [lia|by left].
Qed.

Lemma collapse_squeeze s : collapse_newlines s = squeeze 0 s.
Proof. apply replace_squeeze; [lia|by left]. Qed.

(** ** Runs of newlines in a text *)

(** No newline follows two others, [k] of them just before the text; and how many end it. *)
Fixpoint no_triple (k : nat) (s : string) : bool :=
  match s with
  | EmptyString => true
  | String c s' => if Ascii.eqb c LF then (k <? 2)%nat && no_triple (S k) s' else no_triple 0 s'
  end.
Fixpoint trailing (k : nat) (s : string) : nat :=
  match s with
  | EmptyString => k
  | String c s' => if Ascii.eqb c LF then trailing (S k) s' else trailing 0 s'
  end.

Lemma no_triple_app k s t : no_triple k (s +:+ t) = no_triple k s && no_triple (trailing k s) t.
Proof.
  revert k. induction s as [|c s IH]; intros k; [done|]. rewrite app_cons. cbn [no_triple trailing].
  destruct (Ascii.eqb c LF); rewrite IH; [by rewrite andb_assoc|done].
Qed.

Lemma no_triple_mono k k' s : (k <= k')%nat -> no_triple k' s = true -> no_triple k s = true.
Proof.
  revert k k'. induction s as [|c s IH]; intros k k' Hk; cbn [no_triple]; [done|].
  destruct (Ascii.eqb c LF); [|done]. intros H. bool_hyps. apply Nat.ltb_lt in H.
  apply andb_true_iff. split; [apply Nat.ltb_lt; lia|]. eapply IH; [|done]. lia.
Qed.

Lemma no_triple_includes s : no_triple 0 s = true -> includes (nl +:+ nl +:+ nl) s = false.
Proof.
  intros H. destruct (includes _ s) eqn:E; [|done]. apply includes_spec in E as (a & b & ->).
  rewrite no_triple_app in H. apply andb_true_iff in H as [_ H].
  eapply (no_triple_mono 0) in H; [|lia]. done.
Qed.

Lemma squeeze_no_triple k s : no_triple k (squeeze k s) = true.
Proof.
  revert k. induction s as [|c s IH]; intros k; [done|]. cbn [squeeze].
  destruct (Ascii.eqb c LF) eqn:Hc.
  - destruct (Nat.ltb_spec k 2) as [Hk|]; [|done]. cbn [no_triple]. rewrite Hc, IH.
    destruct (Nat.ltb_spec k 2); [done|lia].
  - cbn [no_triple]. rewrite Hc. apply IH.
Qed.

Lemma squeeze_app k s t :
  no_triple k s = true -> squeeze k (s +:+ t) = s +:+ squeeze (trailing k s) t.
Proof.
  revert k. induction s as [|c s IH]; intros k H; [done|]. rewrite !app_cons.
  cbn [no_triple squeeze trailing] in *. destruct (Ascii.eqb c LF).
  - apply andb_true_iff in H as [-> H]. by rewrite IH.
  - by rewrite IH.
Qed.

Lemma squeeze_snoc k s c :
  Ascii.eqb c LF = false -> squeeze k (s +:+ String c "") = squeeze k s +:+ String c "".
Proof.
  intros Hc. revert k. induction s as [|d s IH]; intros k.
  - rewrite !app_nil_l_str. cbn [squeeze]. by rewrite Hc.
  - rewrite app_cons. cbn [squeeze]. destruct (Ascii.eqb d LF).
    + destruct (k <? 2)%nat; [|apply IH]. by rewrite app_cons, IH.
    + by rewrite app_cons, IH.
Qed.

(** ** Every preview *)
Section previews.
Context `{HostDate}.

Lemma preview_lines_snoc route : exists ls, preview_lines route = "server {" :: ls ++ ["}"] /\ ls <> [].
Proof.
  exists (indent (baseDirectives route) 1 :: ssl_lines route ++ advanced_lines route ++ location_lines route).
  split; [|done]. unfold preview_lines. cbn [app]. by rewrite <- !app_assoc.
Qed.

Lemma preview_closed route : exists t, join nl (preview_lines route) = t +:+ nl +:+ "}".
Proof.
  destruct (preview_lines_snoc route) as (ls & -> & _). exists (join nl ("server {" :: ls)).
  change ("server {" :: ls ++ ["}"]) with (("server {" :: ls) ++ ["}"]). by rewrite join_app.
Qed.

(** The final [trimEnd] has nothing to trim: the text ends with the closing brace. *)
Lemma preview_squeeze route :
  generateConfigPreview route = squeeze 0 (join nl (preview_lines route)) +:+ nl.
Proof.
  unfold generateConfigPreview. rewrite collapse_squeeze. f_equal.
  destruct (preview_closed route) as (t & ->).
  rewrite <- app_assoc_str, (squeeze_snoc 0 (t +:+ nl) "}") by done. by apply trimEnd_keep.
Qed.

(** Every preview, of any value, starts by opening the server block, ends with its
    closing brace and one newline, and never has two blank lines in a row. *)
Theorem preview_layout route :
  startsWith ("server {" +:+ nl) (generateConfigPreview route) = true /\
  endsWith ("}" +:+ nl) (generateConfigPreview route) = true /\
  includes (nl +:+ nl +:+ nl) (generateConfigPreview route) = false.
Proof.
  rewrite preview_squeeze. destruct (preview_closed route) as (t & Ht). split_and!.
  - destruct (preview_lines_snoc route) as (ls & -> & Hls). rewrite join_cons by by destruct ls.
    rewrite (squeeze_app 0 "server {"), !app_assoc_str by done. cbn [trailing squeeze].
    apply startsWith_spec. eexists. rewrite app_assoc_str. reflexivity.
  - rewrite Ht, <- app_assoc_str, (squeeze_snoc 0 (t +:+ nl) "}") by done.
    apply endsWith_spec. eexists. by rewrite app_assoc_str.
  - apply no_triple_includes. rewrite no_triple_app, squeeze_no_triple. cbn [andb].
    rewrite Ht, <- app_assoc_str, (squeeze_snoc 0 (t +:+ nl) "}") by done.
    assert (Htr : forall k s, trailing k (s +:+ "}") = 0%nat).
    { clear. intros k s. revert k. induction s as [|c s IH]; intros k; [done|]. rewrite app_cons.
      cbn [trailing]. by destruct (Ascii.eqb c LF). }
    by rewrite Htr.
Qed.
End previews.

(** ** The header of a parsed route *)

Definition not_newline (c : ascii) : bool := negb (Ascii.eqb c LF).

Lemma squeeze_line k c s t :
  str_forallb not_newline (String c s) = true ->
  squeeze k (String c s +:+ nl +:+ t) = String c s +:+ nl +:+ squeeze 1 t.
Proof.
  revert k c. induction s as [|d s IH]; intros k c Hs; cbn [str_forallb] in Hs;
    apply andb_true_iff in Hs as [Hc Hs]; unfold not_newline in Hc; apply negb_true_iff in Hc;
    rewrite !app_cons; cbn [squeeze]; rewrite Hc; f_equal.
  by apply IH.
Qed.

Lemma show_Z_chars z (p : ascii -> bool) :
  (forall c, is_digit c = true -> p c = true) -> p "-"%char = true -> str_forallb p (show_Z z) = true.
Proof.
  intros Hd Hm. unfold show_Z. pose proof (show_N_digits (Z.abs_N z)) as Hs.
  eapply str_forallb_impl in Hs; [|exact Hd]. destruct (z <? 0); [|done]. cbn [str_forallb]. by rewrite Hm.
Qed.

Lemma digit_not_newline c : is_digit c = true -> not_newline c = true.
Proof. destruct c as [[] [] [] [] [] [] [] []]; vm_compute; congruence. Qed.

Lemma url_char_not_newline c : url_char c = true -> not_newline c = true.
Proof. destruct c as [[] [] [] [] [] [] [] []]; vm_compute; congruence. Qed.

Lemma domain_url_chars d : is_domain d -> str_forallb url_char d = true.
Proof. intros H. apply lang_domain in H. eapply lang_within; [|exact H]. vm_compute. reflexivity. Qed.

Lemma unix_path_url_chars s : is_unix_path s -> str_forallb url_char s = true.
Proof. intros H. apply lang_unix in H. eapply lang_within; [|exact H]. vm_compute. reflexivity. Qed.

Lemma indent_lines ls : Forall (fun l => l <> "") ls -> indent ls 1 = join nl (List.map (fun l => "    " +:+ l) ls).
Proof.
  intros H. unfold indent. rewrite filter_all; [done|]. eapply List.Forall_impl; [|exact H].
  intros l Hl. by rewrite bool_decide_false.
Qed.

(** The header and three indented lines are copied as they are. *)
Lemma squeeze_header a b c ls :
  str_forallb not_newline a = true -> str_forallb not_newline b = true ->
  str_forallb not_newline c = true -> ls <> [] ->
  squeeze 0 (join nl ("server {" :: join nl ["    " +:+ a; "    " +:+ b; "    " +:+ c] :: ls)) =
  "server {" +:+ nl +:+ ("    " +:+ a) +:+ nl +:+ ("    " +:+ b) +:+ nl +:+ ("    " +:+ c) +:+ nl +:+
  squeeze 1 (join nl ls).
Proof.
  intros Ha Hb Hc Hls. rewrite (join_cons nl "server {") by done. rewrite (join_cons nl (join nl _)) by done.
  rewrite squeeze_line by done. cbn [join]. rewrite !(app_assoc_str ("    " +:+ _)), !(app_assoc_str nl).
  rewrite !(app_assoc_str ("    " +:+ _)), !(app_assoc_str nl).
  assert (Hl : forall k x t, str_forallb not_newline x = true ->
     squeeze k (("    " +:+ x) +:+ nl +:+ t) = ("    " +:+ x) +:+ nl +:+ squeeze 1 t).
  { intros k x t Hx. apply (squeeze_line k " "%char ("   " +:+ x)). exact Hx. }
  by rewrite !Hl by done.
Qed.

(** The three lines of the header. *)
Definition header_text (port : Z) (ssl : bool) (domain root : string) : string :=
  "server {" +:+ nl +:+
  ("    listen " +:+ show_Z port +:+ (if ssl then " ssl" else "") +:+ ";") +:+ nl +:+
  ("    server_name " +:+ domain +:+ ";") +:+ nl +:+
  ("    root " +:+ root +:+ ";") +:+ nl.

Section header.
Context `{ZL : ZodLaws} `{HostDate}.

Lemma parsed_port w v : accept PortSchema v = Some w -> exists n, w = JNum (NInt n) /\ 1 <= n <= 65535.
Proof.
  unfold PortSchema. rewrite accept_preprocess, accept_number. intros (-> & n & -> & _ & Hn).
  destruct n as [z| | |]; try done. exists z. cbn in Hn. split; [done|lia].
Qed.

Lemma parsed_domain w v : accept DomainSchema v = Some w -> exists d, w = JStr d /\ is_domain d.
Proof.
  intros Hd. apply accept_anchored in Hd as (-> & d & -> & Hd); [|done].
  exists d. split; [done|]. by apply lang_domain.
Qed.

Lemma parsed_unix w v :
  accept UnixPathSchema v = Some w -> exists s, w = JStr s /\ (s = "" \/ is_unix_path s).
Proof.
  unfold UnixPathSchema. rewrite accept_union. intros Hu.
  destruct (accept (ZString [ranchored unix_body]) v) as [u|] eqn:E.
  - injection Hu as <-. apply accept_anchored in E as (-> & s & -> & Hs); [|done].
    exists s. split; [done|right]. by apply lang_unix.
  - cbn [accept] in Hu. destruct v as [| | | |y| | |]; try done. destruct (decide (y = "")) as [->|]; [|done].
    injection Hu as <-. exists "". auto.
Qed.

(** C5.  The preview of a parsed route opens with its port, its domain and its root, each on
    its own line and character for character as validated: a port from 1 to 65535, a domain
    and a root made of letters, digits, slash, underscore, dot and hyphen only, so none of
    the three can end a directive, open a block or start a line. *)
Theorem preview_header v w :
  parse RouteSchema v = Return w ->
  exists port domain root rest,
    jget "port" w = JNum (NInt port) /\ jget "domain" w = JStr domain /\ jget "root" w = JStr root /\
    generateConfigPreview w = header_text port (truthy (jget "ssl" w)) domain root +:+ rest /\
    1 <= port <= 65535 /\ str_forallb url_char domain = true /\ str_forallb url_char root = true.
Proof.
  intros Hp. rewrite parse_accept_iff in Hp. unfold RouteSchema in Hp.
  apply accept_superRefine in Hp as (u & Hu & Hr). apply Route_refine_spec in Hr as [_ ->].
  destruct (parsed_port _ _ (parsed_field v u "port" _ Hu eq_refl)) as (port & Hport & Hrange).
  destruct (parsed_domain _ _ (parsed_field v u "domain" _ Hu eq_refl)) as (domain & Hdom & Hd).
  destruct (parsed_unix _ _ (parsed_field v u "root" _ Hu eq_refl)) as (root & Hroot & Hr).
  rewrite <- (jget_clear_ssl "port" u) in Hport by done. rewrite <- (jget_clear_ssl "domain" u) in Hdom by done.
  rewrite <- (jget_clear_ssl "root" u) in Hroot by done. generalize dependent (clear_ssl u).
  intros w Hport Hdom Hroot. apply domain_url_chars in Hd.
  assert (Hrc : str_forallb url_char root = true) by (destruct Hr as [-> | Hr]; [done|by apply unix_path_url_chars]).
  assert (Hls : exists l ls, ssl_lines w ++ advanced_lines w ++ location_lines w ++ ["}"] = l :: ls).
  { destruct (ssl_lines w), (advanced_lines w), (location_lines w); simpl; eauto. }
  destruct Hls as (l & ls & Hls).
  exists port, domain, root. eexists. split_and!; [done..| |lia|lia|done|done].
  rewrite preview_squeeze. unfold preview_lines. rewrite Hls.
  unfold baseDirectives, directive. rewrite Hport, Hdom, Hroot. cbn [js_show print_num].
  assert (Hssl : str_forallb not_newline (if truthy (jget "ssl" w) then " ssl" else "") = true)
    by by destruct (truthy _).
  pose proof (show_Z_chars port not_newline digit_not_newline eq_refl) as Hshow.
  apply (str_forallb_impl _ not_newline) in Hd; [|apply url_char_not_newline].
  apply (str_forallb_impl _ not_newline) in Hrc; [|apply url_char_not_newline].
  rewrite indent_lines by by repeat constructor. cbn [List.map app].
  rewrite squeeze_header; [|by rewrite ?str_forallb_app, ?Hshow, ?Hssl, ?Hd, ?Hrc..|done].
  unfold header_text. rewrite !app_assoc_str. reflexivity.
Qed.
End header.

(** ** The generator at work *)

#[local] Existing Instances zod_model zod_model_laws no_host.

Lemma preview_header_witness :
  exists port domain root rest,
    jget "port" sample_parsed = JNum (NInt port) /\ jget "domain" sample_parsed = JStr domain /\
    jget "root" sample_parsed = JStr root /\
    generateConfigPreview sample_parsed =
      header_text port (truthy (jget "ssl" sample_parsed)) domain root +:+ rest /\
    1 <= port <= 65535 /\ str_forallb url_char domain = true /\ str_forallb url_char root = true.
Proof. apply (preview_header sample_route). vm_compute. reflexivity. Defined.

(** The blank line after the last location stays before the closing brace. *)
Example blank_line_before_brace :
  endsWith (nl +:+ nl +:+ "}" +:+ nl)
    (generateConfigPreview (JObj [("locations", JArr [JObj [("path", JStr "/")]])])) = true.
Proof. vm_compute. reflexivity. Qed.
