(* ===== verification/Repositories.v ===== *)
(** * Route repositories

    The interface of packages/core/src/repositories/RouteRepository.ts as a class of
    operations on a state, with the laws its clients rely on; then its implementations:
    [LocalStorage] (packages/core/src/repositories/LocalStorageRouteRepository.ts),
    [BrowserStorage] (packages/infra/src/repositories/BrowserLocalStorageRouteRepository.ts)
    and [RemoteBridge] (packages/infra/src/repositories/RemoteBridgeRouteRepository.ts).

    A [Map<string, Route>] is its list of entries.  An awaited call is a state
    transformer; a rejected promise is a thrown error. *)

From S2P Require Import Prelude JsString Regex JsValue Dates Json Secrets.

(** The key a repository files a route under ([route.id], a string in every route). *)
Definition route_id (route : jsval) : string := str_of (jget "id" route).

(** ** The interface *)
Class RouteRepository (S : Type) := {
  repo_save : jsval -> eff S unit;
  repo_findById : string -> eff S (option jsval);
  repo_findAll : eff S (list jsval);
  repo_delete : string -> eff S unit;
  repo_saveAll : obj -> eff S unit;
  repo_loadAll : eff S obj
}.

(** What a repository promises: its content is a map ([repo_view]) that reads leave alone, a
    save of a route it can hold ([repo_holds]) files the route in the form the repository
    keeps it ([repo_kept]), a delete removes it, and a failed write changes nothing. *)
Class RouteRepositoryLaws (S : Type) `{RouteRepository S} := {
  repo_ok : S -> Prop;
  repo_view : S -> obj;
  repo_holds : jsval -> Prop;
  repo_kept : jsval -> jsval;
  repo_find s id : repo_ok s -> repo_findById id s = (Return (obj_get id (repo_view s)), s);
  repo_save_ok s r s' :
    repo_ok s -> repo_holds r -> repo_save r s = (Return tt, s') ->
    repo_ok s' /\ repo_view s' = obj_set (route_id r) (repo_kept r) (repo_view s);
  repo_save_fails s r e s' :
    repo_ok s -> repo_save r s = (Throw e, s') -> s' = s;
  repo_delete_ok s id s' :
    repo_ok s -> repo_delete id s = (Return tt, s') ->
    repo_ok s' /\ repo_view s' = obj_remove id (repo_view s)
}.

(** ** Browser storage *)

Abbreviation storage := (gmap string string).

(** [localStorage]: [rejects] is the browser's refusal to store a value (quota). *)
Class LocalStorageApi := rejects : storage -> string -> string -> bool.

Definition getItem (key : string) : eff storage (option string) := fun s => (Return (s !! key), s).
Definition setItem `{LocalStorageApi} (key value : string) : eff storage unit := fun s =>
  if rejects s key value then (Throw (JsError (EDom "QuotaExceededError") "QuotaExceededError"), s)
  else (Return tt, <[key := value]> s).

Definition type_error : jserror := JsError EType "TypeError".

(** A property access: a nullish base throws. *)
Definition prop (k : string) (v : jsval) : outcome jsval :=
  if nullish v then Throw type_error else Return (jget k v).

Fixpoint mapM_out {A B} (f : A -> outcome B) (l : list A) : outcome (list B) :=
  match l with
  | [] => Return []
  | x :: l' => y ← f x; ys ← mapM_out f l'; Return (y :: ys)
  end.

(** The text [JSON.stringify] gives for an array: never [undefined]. *)
Definition stringify_array (l : list jsval) : string :=
  default "" (stringifyWithoutSecrets (JArr l)).

Definition nonempty (s : string) : bool := negb (bool_decide (s = "")).

(** ** packages/core/src/repositories/LocalStorageRouteRepository.ts *)
Module LocalStorage.
Section repository.
Context `{LocalStorageApi}.

Definition key : string := "nginx_routes".

(** [new Map(entries)]: every element must be an object; its properties 0 and 1 are read.  The
    code writes strings for keys; a key of another type is read as the empty one. *)
Definition map_entry (v : jsval) : outcome (string * jsval) :=
  match v with
  | JArr l => Return (str_of (default JUndef (l !! 0%nat)), default JUndef (l !! 1%nat))
  | JObj _ => Return (str_of (jget "0" v), jget "1" v)
  | JDate _ => Return ("", JUndef)
  | _ => Throw type_error
  end.
Definition new_Map (entries : jsval) : outcome obj :=
  match entries with
  | JArr l => obj_of_entries <$> mapM_out map_entry l
  | JNull | JUndef | JStr "" => Return []
  | _ => Throw type_error
  end.

Definition loadAll : eff storage obj :=
  raw ← getItem key;
  match raw with
  | Some text =>
      if nonempty text then
        try_catch (entries ← lift_outcome (json_parse text); lift_outcome (new_Map entries))
                  (fun _ => mret [])
      else mret []
  | None => mret []
  end.

Definition entry_value (e : string * jsval) : jsval := JArr [JStr (fst e); snd e].

Definition saveAll (routes : obj) : eff storage unit :=
  setItem key (stringify_array (List.map entry_value routes)).

Definition save (route : jsval) : eff storage unit :=
  all ← loadAll;
  let all := obj_set (route_id route) route all in
  saveAll (obj_of_entries all).

Definition findById (id : string) : eff storage (option jsval) :=
  all ← loadAll;
  mret (match obj_get id all with Some r => if truthy r then Some r else None | None => None end).

Definition findAll : eff storage (list jsval) :=
  all ← loadAll; mret (List.map snd all).

Definition delete (id : string) : eff storage unit :=
  all ← loadAll;
  let all := obj_remove id all in
  saveAll (obj_of_entries all).

Definition repository : RouteRepository storage := {|
  repo_save := save; repo_findById := findById; repo_findAll := findAll;
  repo_delete := delete; repo_saveAll := saveAll; repo_loadAll := loadAll |}.
End repository.
End LocalStorage.

(** ** packages/infra/src/repositories/BrowserLocalStorageRouteRepository.ts *)
Module BrowserStorage.
Section repository.
Context `{LocalStorageApi} `{HostDate}.
(** The key of the constructor, and the clock while an operation runs. *)
Context (key : string) (now : Z).

(** [new Date(v)] *)
Definition time_clip (z : Z) : option Z := if time_valid z then Some z else None.
Definition new_Date (v : jsval) : option Z :=
  match v with
  | JStr s => parse_date s
  | JNum (NInt z) => time_clip z
  | JNum (NDec m k) => time_clip (Z.quot m (10 ^ Z.pos k))
  | JNum _ | JUndef => None
  | JNull => Some 0
  | JBool b => Some (if b then 1 else 0)
  | JDate t => t
  | JArr _ | JObj _ => parse_date (js_show v)
  end.

(** [v?.toISOString()] *)
Definition opt_toISOString (v : jsval) : outcome jsval :=
  match v with
  | JUndef | JNull => Return JUndef
  | JDate t => JStr <$> toISOString t
  | _ => Throw type_error
  end.

(** [{ ...v, k1: x1, ... }] *)
Definition spread_with (v : jsval) (props : obj) : jsval := JObj (obj_spread (obj_spread [] (spread_props v)) props).

Definition toPersistedRoute (route : jsval) : outcome jsval :=
  metadata ← prop "metadata" route;
  if truthy metadata then
    created ← opt_toISOString (jget "createdAt" metadata);
    updated ← opt_toISOString (jget "updatedAt" metadata);
    Return (spread_with route
      [("metadata", spread_with metadata [("createdAt", created); ("updatedAt", updated)])])
  else Return (spread_with route [("metadata", JUndef)]).

Definition revive (v : jsval) : jsval := JDate (if truthy v then new_Date v else Some now).

Definition fromPersistedRoute (route : jsval) : outcome jsval :=
  metadata ← prop "metadata" route;
  if truthy metadata then
    Return (spread_with route
      [("metadata", spread_with metadata
          [("createdAt", revive (jget "createdAt" metadata));
           ("updatedAt", revive (jget "updatedAt" metadata))])])
  else Return (spread_with route [("metadata", JUndef)]).

Definition findAll : eff storage (list jsval) :=
  raw ← getItem key;
  match raw with
  | Some text =>
      if nonempty text then
        try_catch
          (routes ← lift_outcome (json_parse text);
           match routes with
           | JArr l => lift_outcome (mapM_out fromPersistedRoute l)
           | _ => throw type_error
           end)
          (fun _ => mret [])
      else mret []
  | None => mret []
  end.

Definition write (routes : list jsval) : eff storage unit :=
  persisted ← lift_outcome (mapM_out toPersistedRoute routes);
  setItem key (stringify_array persisted).

Definition by_id (routes : list jsval) : obj := obj_of_entries (List.map (fun r => (route_id r, r)) routes).

Definition save (route : jsval) : eff storage unit :=
  all ← findAll;
  let map := obj_set (route_id route) route (by_id all) in
  write (List.map snd map).

Definition findById (id : string) : eff storage (option jsval) :=
  routes ← findAll; mret (js_find (fun r => js_is_str (jget "id" r) id) routes).

Definition delete (id : string) : eff storage unit :=
  routes ← findAll;
  write (List.filter (fun r => negb (js_is_str (jget "id" r) id)) routes).

Definition saveAll (routes : obj) : eff storage unit := write (List.map snd routes).

Definition loadAll : eff storage obj := routes ← findAll; mret (by_id routes).

Definition repository : RouteRepository storage := {|
  repo_save := save; repo_findById := findById; repo_findAll := findAll;
  repo_delete := delete; repo_saveAll := saveAll; repo_loadAll := loadAll |}.
End repository.
End BrowserStorage.

(** ** packages/infra/src/repositories/RemoteBridgeRouteRepository.ts *)
Module RemoteBridge.

(** [RemoteBridgeResult] and the bridge itself, an object the host may put on [window]. *)
Record result := Result { ok : bool; data : jsval; error : option string }.
Class RemoteBridgeApi (S : Type) := execute_bridge : string -> jsval -> eff S result.

Section repository.
Context {S : Type} `{RemoteBridgeApi S}.

Definition execute (command : string) (payload : jsval) : eff S jsval :=
  result ← execute_bridge command payload;
  if negb (ok result) then
    throw (JsError EError (default ("Remote command " +:+ command +:+ " failed") (error result)))
  else match data result with
  | JUndef => throw (JsError EError ("Remote command " +:+ command +:+ " returned empty response"))
  | d => mret d
  end.

Definition save (route : jsval) : eff S unit :=
  _ ← execute "routes:save" (JObj [("draft", route)]); mret tt.

(** [response.routes.map(...)] *)
Definition response_routes (response : jsval) : outcome (list jsval) :=
  routes ← prop "routes" response;
  match routes with JArr l => Return l | _ => Throw type_error end.

Definition toMap (routes : list jsval) : outcome obj :=
  obj_of_entries <$> mapM_out (fun r => if nullish r then Throw type_error else Return (route_id r, r)) routes.

Definition loadAll : eff S obj :=
  response ← execute "routes:list" (JObj [("includeDisabled", JBool true)]);
  lift_outcome (routes ← response_routes response; toMap routes).

Definition findById (id : string) : eff S (option jsval) :=
  routes ← loadAll;
  mret (match obj_get id routes with Some r => if nullish r then None else Some r | None => None end).

Definition findAll : eff S (list jsval) := routes ← loadAll; mret (List.map snd routes).

Definition delete (id : string) : eff S unit :=
  throw (JsError EError ("Delete is not supported over transitional transport for route " +:+ dq +:+ id +:+ dq)).

(** [Promise.all]: every save is started, in order; the first failure is the outcome. *)
Fixpoint save_each (routes : list jsval) : eff S unit := fun s =>
  match routes with
  | [] => (Return tt, s)
  | r :: rest =>
      let (o, s1) := save r s in
      let (o', s2) := save_each rest s1 in
      (match o with Throw e => Throw e | Return _ => o' end, s2)
  end.
Definition saveAll (routes : obj) : eff S unit := save_each (List.map snd routes).

Definition repository : RouteRepository S := {|
  repo_save := save; repo_findById := findById; repo_findAll := findAll;
  repo_delete := delete; repo_saveAll := saveAll; repo_loadAll := loadAll |}.
End repository.

(** [resolveRemoteBridge]: the [window] object, when there is one, and the type of its
    [remoteBridge.execute]. *)
Inductive window_bridge := NoWindow | NoBridge | BadBridge | HasBridge.
Definition resolveRemoteBridge (w : window_bridge) : bool :=
  match w with HasBridge => true | NoWindow | NoBridge | BadBridge => false end.
Definition isAvailable (w : window_bridge) : bool := resolveRemoteBridge w.
Definition create (w : window_bridge) : outcome unit :=
  if resolveRemoteBridge w then Return tt else Throw (JsError EError "remoteBridge is unavailable").
End RemoteBridge.

(** ** packages/infra/src/repositories/createRouteRepository.ts *)
Inductive repository_choice := UseRemoteBridge | UseBrowserStorage (key : string).
Definition ROUTES_STORAGE_KEY : string := "nginx_routes".
Definition createRouteRepository (w : RemoteBridge.window_bridge) (fallbackStorageKey : option string)
    : outcome repository_choice :=
  if RemoteBridge.isAvailable w then
    _ ← RemoteBridge.create w; Return UseRemoteBridge
  else Return (UseBrowserStorage (default ROUTES_STORAGE_KEY fallbackStorageKey)).

(** ** The browser repository keeps its promise *)
Section browser_laws.
Context `{LocalStorageApi} `{HostDate}.
Context (key : string) (now : Z).

Abbreviation findAll := (BrowserStorage.findAll key now).
Abbreviation toPersisted := BrowserStorage.toPersistedRoute.
Abbreviation fromPersisted := (BrowserStorage.fromPersistedRoute now).

(** The routes a read returns. *)
Definition stored (s : storage) : list jsval :=
  match findAll s with (Return l, _) => l | (Throw _, _) => [] end.

Lemma findAll_stored s : findAll s = (Return (stored s), s).
Proof.
  unfold stored. assert (Hr : exists l, findAll s = (Return l, s)); [|by destruct Hr as [l ->]].
  unfold BrowserStorage.findAll, getItem. run_eff. destruct (s !! key) as [text|]; [|by eexists].
  destruct (nonempty text); [|by eexists]. unfold try_catch, lift_outcome.
  destruct (json_parse text) as [[]|]; try by eexists. destruct (mapM_out _ _); by eexists.
Qed.

(** [r] is stored as [x]: what writing it and reading it back gives. *)
Definition rewrites (r x : jsval) : Prop :=
  exists p q, toPersisted r = Return p /\ json_norm (sanitizeForJson p) = Some q /\ fromPersisted q = Return x.

Definition kept (r : jsval) : jsval :=
  match toPersisted r with
  | Return p =>
      match json_norm (sanitizeForJson p) with
      | Some q => match fromPersisted q with Return x => x | Throw _ => r end
      | None => r
      end
  | Throw _ => r
  end.

Lemma rewrites_kept r x : rewrites r x -> kept r = x.
Proof. intros (p & q & Hp & Hq & Hx). unfold kept. by rewrite Hp, Hq, Hx. Qed.

(** A route that is already in the form the repository stores. *)
Definition settled (x : jsval) : Prop :=
  val_wf x /\ is_string (jget "id" x) = true /\ rewrites x x.

Definition holds (r : jsval) : Prop :=
  val_wf r /\ is_string (jget "id" r) = true /\
  exists x, rewrites r x /\ settled x /\ route_id x = route_id r.

Definition browser_ok (s : storage) : Prop :=
  Forall settled (stored s) /\ NoDup (List.map route_id (stored s)).

Definition entries (l : list jsval) : obj := List.map (fun r => (route_id r, r)) l.
Definition browser_view (s : storage) : obj := entries (stored s).

Lemma mapM_out_Forall2 {A B} (f : A -> outcome B) l l' :
  mapM_out f l = Return l' <-> Forall2 (fun x y => f x = Return y) l l'.
Proof.
  revert l'. induction l as [|x l IH]; intros l'; cbn [mapM_out].
  - split; [by intros [= <-]|]. intros Hl. by invert Hl.
  - unfold mbind, outcome_bind. split.
    + destruct (f x) as [y|] eqn:Hx; [|done]. destruct (mapM_out f l) as [ys|]; [|done].
      intros [= <-]. constructor; [done|]. by apply IH.
    + intros Hl. inversion Hl as [|? y ? ys Hy Hys]; subst. rewrite Hy. by apply IH in Hys as ->.
Qed.

Lemma obj_spread_Forall {A} (P : string * A -> Prop) o1 o2 : Forall P o1 -> Forall P o2 -> Forall P (obj_spread o1 o2).
Proof.
  unfold obj_spread. intros H1 H2. revert o1 H1. induction H2 as [|[k v] o Hv _ IH]; intros o1 H1; simpl; [done|].
  apply IH. by apply obj_set_Forall.
Qed.

Lemma spread_props_wf v : val_wf v -> Forall (fun kv => val_wf (snd kv)) (spread_props v).
Proof.
  destruct v as [| | | |s| |l|o]; intros Hv; simpl; try constructor.
  - apply List.Forall_forall. intros [k x] Hin. apply list_elem_of_In, elem_of_lookup_imap in Hin.
    by destruct Hin as (i & c & [= -> ->] & _).
  - apply List.Forall_forall. intros [k x] Hin. apply list_elem_of_In, elem_of_lookup_imap in Hin.
    destruct Hin as (i & c & [= -> ->] & Hc). apply val_wf_arr in Hv.
    apply (proj1 (List.Forall_forall _ _) Hv), list_elem_of_In. by eapply list_elem_of_lookup_2.
  - by apply val_wf_obj in Hv as [_ Hv].
Qed.

Lemma spread_with_wf v props :
  val_wf v -> Forall (fun kv => val_wf (snd kv)) props -> val_wf (BrowserStorage.spread_with v props).
Proof.
  intros Hv Hp. unfold BrowserStorage.spread_with. rewrite val_wf_obj. split.
  - apply obj_spread_NoDup, obj_spread_NoDup. constructor.
  - apply obj_spread_Forall; [|done]. apply obj_spread_Forall; [constructor|]. by apply spread_props_wf.
Qed.

Lemma jget_wf k v : val_wf v -> val_wf (jget k v).
Proof.
  destruct v; try done. rewrite val_wf_obj. intros [_ Hall]. simpl. destruct (obj_get k o) as [x|] eqn:E; [|done].
  apply obj_get_In, list_elem_of_In in E. by apply (proj1 (List.Forall_forall _ _) Hall (k, x)).
Qed.

Lemma opt_toISOString_wf v w : BrowserStorage.opt_toISOString v = Return w -> val_wf w.
Proof. destruct v as [| | | | |[t|]| |]; simpl; intros; simplify_eq; done. Qed.

Lemma toPersisted_wf r p : val_wf r -> toPersisted r = Return p -> val_wf p.
Proof.
  unfold BrowserStorage.toPersistedRoute, prop, mbind, outcome_bind. intros Hr.
  destruct (nullish r); [done|]. destruct (truthy (jget "metadata" r)).
  - destruct (BrowserStorage.opt_toISOString (jget "createdAt" _)) as [c|] eqn:Hc; [|done].
    destruct (BrowserStorage.opt_toISOString (jget "updatedAt" _)) as [u|] eqn:Hu; [|done].
    intros [= <-]. apply opt_toISOString_wf in Hc, Hu. apply spread_with_wf; [done|].
    apply List.Forall_cons; [|apply List.Forall_nil]. cbn [snd].
    apply spread_with_wf; [by apply jget_wf|]. by repeat (apply List.Forall_cons || apply List.Forall_nil).
  - intros [= <-]. apply spread_with_wf; [done|]. by repeat constructor.
Qed.

Lemma print_arr_nonempty l : nonempty (print (JArr l)) = true.
Proof. done. Qed.

(** A write that succeeds: the routes are read back, each as it is stored. *)
Lemma write_stored rs xs s s' :
  Forall val_wf rs -> Forall2 rewrites rs xs ->
  BrowserStorage.write key rs s = (Return tt, s') -> stored s' = xs.
Proof.
  intros Hwf Hrw. unfold BrowserStorage.write. run_eff.
  assert (Hps : exists ps qs, mapM_out toPersisted rs = Return ps /\
      List.map (fun x => default JNull (json_norm x)) (List.map sanitizeForJson ps) = qs /\
      mapM_out fromPersisted qs = Return xs /\ Forall val_wf ps).
  { clear -Hwf Hrw. induction Hrw as [|r x rs xs (p & q & Hp & Hq & Hx) _ IH]; [by exists [], []|].
    apply Forall_cons in Hwf as [Hr Hwf]. destruct (IH Hwf) as (ps & qs & Hps & Hqs & Hxs & Hpw).
    exists (p :: ps), (q :: qs). cbn [mapM_out List.map]. unfold mbind, outcome_bind.
    rewrite Hp, Hps, Hx, Hxs, Hq, Hqs. split_and!; try done. constructor; [|done].
    by eapply toPersisted_wf. }
  destruct Hps as (ps & qs & -> & Hqs & Hxs & Hpw).
  unfold setItem. destruct (rejects _ _ _); [done|]. intros [= <-].
  assert (Hnorm : json_norm (sanitizeForJson (JArr ps)) = Some (JArr qs)).
  { cbn [sanitizeForJson json_norm]. by rewrite Hqs. }
  destruct (json_roundtrip (sanitizeForJson (JArr ps)) (JArr qs)) as [Hst Hparse]; [|done|].
  { apply sanitize_wf. by apply val_wf_arr. }
  unfold stored, BrowserStorage.findAll, getItem. run_eff. rewrite lookup_insert_eq.
  unfold stringify_array, stringifyWithoutSecrets. rewrite Hst.
  change (default "" (Some (print (JArr qs)))) with (print (JArr qs)). rewrite print_arr_nonempty. unfold try_catch, lift_outcome. rewrite Hparse. by rewrite Hxs.
Qed.

Lemma write_fails rs s e s' : BrowserStorage.write key rs s = (Throw e, s') -> s' = s.
Proof.
  unfold BrowserStorage.write. run_eff. destruct (mapM_out _ rs); [|by intros [= _ <-]].
  unfold setItem. destruct (rejects _ _ _); [by intros [= _ <-]|done].
Qed.

Lemma entries_keys l : List.map fst (entries l) = List.map route_id l.
Proof. unfold entries. by rewrite List.map_map. Qed.

Lemma settled_view s x : browser_ok s -> x ∈ stored s -> obj_get (route_id x) (browser_view s) = Some x.
Proof.
  intros [_ Hnd] Hin. unfold browser_view. apply obj_get_NoDup; [by rewrite entries_keys|].
  apply list_elem_of_In, List.in_map_iff. exists x. split; [done|]. by apply list_elem_of_In.
Qed.

Lemma is_str_id x id : is_string (jget "id" x) = true -> js_is_str (jget "id" x) id = bool_decide (route_id x = id).
Proof. unfold route_id. by destruct (jget "id" x). Qed.

Lemma find_entries l id :
  Forall settled l -> js_find (fun r => js_is_str (jget "id" r) id) l = obj_get id (entries l).
Proof.
  induction 1 as [|x l (_ & Hid & _) _ IH]; [done|]. simpl. rewrite is_str_id by done.
  case_bool_decide as Hx; [by rewrite decide_True|]. by rewrite decide_False.
Qed.

Lemma filter_entries l id :
  Forall settled l ->
  entries (List.filter (fun r => negb (js_is_str (jget "id" r) id)) l) = obj_remove id (entries l).
Proof.
  induction 1 as [|x l (_ & Hid & _) _ IH]; [done|]. simpl. rewrite is_str_id by done. unfold obj_remove in *.
  simpl. destruct (bool_decide_reflect (route_id x = id)) as [->|Hne]; simpl.
  - by rewrite bool_decide_true.
  - rewrite bool_decide_false by done. simpl. by rewrite <- IH.
Qed.

(** Replacing the entry of a route, on the list of routes. *)
Lemma set_entries r x l :
  Forall settled l -> rewrites r x -> route_id x = route_id r ->
  Forall2 rewrites (List.map snd (obj_set (route_id r) r (entries l)))
    (List.map snd (obj_set (route_id r) x (entries l))) /\
  entries (List.map snd (obj_set (route_id r) x (entries l))) = obj_set (route_id r) x (entries l).
Proof.
  intros Hl Hr Hid.
  assert (Hself : forall l, Forall settled l -> Forall2 rewrites (List.map snd (entries l)) (List.map snd (entries l)) /\
                    entries (List.map snd (entries l)) = entries l).
  { clear. induction 1 as [|y l (_ & _ & Hy) _ [IH1 IH2]]; [by split; [constructor|]|].
    simpl. split; [by constructor|]. by rewrite IH2. }
  induction Hl as [|y l Hy Hl [IH1 IH2]]; simpl.
  - split; [by repeat constructor|]. by rewrite Hid.
  - destruct (Hself l Hl) as [H1 H2]. destruct (decide (route_id r = route_id y)) as [He|Hne]; simpl.
    + split; [by constructor|]. by rewrite Hid, H2.
    + split; [constructor; [by destruct Hy as (_ & _ & Hy)|done]|]. by rewrite IH2.
Qed.

Lemma set_entries_Forall (P : jsval -> Prop) r l :
  P r -> Forall P l -> Forall P (List.map snd (obj_set (route_id r) r (entries l))).
Proof.
  intros Hr Hl. apply Forall_map_iff, obj_set_Forall; [done|]. unfold entries. by rewrite Forall_map_iff.
Qed.

Lemma browser_save s r s' :
  browser_ok s -> holds r -> BrowserStorage.save key now r s = (Return tt, s') ->
  browser_ok s' /\ browser_view s' = obj_set (route_id r) (kept r) (browser_view s).
Proof.
  intros [Hset Hnd] (Hwf & Hid & x & Hx & Hsx & Hxid). unfold BrowserStorage.save. run_eff.
  rewrite findAll_stored. unfold BrowserStorage.by_id. fold (entries (stored s)).
  rewrite obj_of_entries_id by by rewrite entries_keys. intros Hw.
  destruct (set_entries r x (stored s) Hset Hx Hxid) as [Hrw Hent].
  eapply write_stored in Hw; [| |exact Hrw].
  - unfold browser_ok, browser_view. rewrite Hw, Hent, (rewrites_kept r x Hx). split; [|done]. split.
    + rewrite <- Hxid. by apply set_entries_Forall.
    + rewrite <- entries_keys, Hent. apply obj_set_NoDup. by rewrite entries_keys.
  - apply set_entries_Forall; [done|]. eapply List.Forall_impl; [|exact Hset]. by intros y (Hy & _).
Qed.

Lemma settled_rewrites l : Forall settled l -> Forall2 rewrites l l.
Proof. induction 1 as [|y l (_ & _ & Hy) _ IH]; by constructor. Qed.

Lemma browser_delete s id s' :
  browser_ok s -> BrowserStorage.delete key now id s = (Return tt, s') ->
  browser_ok s' /\ browser_view s' = obj_remove id (browser_view s).
Proof.
  intros [Hset Hnd]. unfold BrowserStorage.delete. run_eff. rewrite findAll_stored. intros Hw.
  assert (Hf : Forall settled (List.filter (fun r => negb (js_is_str (jget "id" r) id)) (stored s))).
  { apply List.Forall_forall. intros y Hy. apply List.filter_In in Hy as [Hy _].
    by apply (proj1 (List.Forall_forall _ _) Hset). }
  eapply write_stored in Hw; [| |by apply settled_rewrites].
  - unfold browser_ok, browser_view. rewrite Hw, filter_entries by done. split; [|done]. split; [done|].
    rewrite <- entries_keys, filter_entries by done. unfold obj_remove.
    apply filter_keys_NoDup. by rewrite entries_keys.
  - eapply List.Forall_impl; [|exact Hf]. by intros y (Hy & _).
Qed.

(** The browser repository implements the interface: whatever the browser refuses to store
    and whatever the host reads as a date. *)
#[export] Instance browser_laws_instance : @RouteRepositoryLaws storage (BrowserStorage.repository key now).
Proof.
  refine {| repo_ok := browser_ok; repo_view := browser_view; repo_holds := holds; repo_kept := kept |}.
  - intros s id [Hset _]. cbn. unfold BrowserStorage.findById. run_eff.
    rewrite findAll_stored. by rewrite find_entries.
  - apply browser_save.
  - intros s r e s' _. cbn. unfold BrowserStorage.save. run_eff. rewrite findAll_stored. apply write_fails.
  - apply browser_delete.
Defined.
End browser_laws.

(** ** Routes that come back as they were saved *)

Lemma pad_digits n z : str_forallb is_digit (pad n z) = true.
Proof.
  revert z. induction n as [|n IH]; intros z; [done|]. cbn [pad]. rewrite str_forallb_app, IH.
  cbn [str_forallb andb]. fold (dig z). by rewrite dig_digit.
Qed.

Lemma pad_iso n z : str_forallb iso_char (pad n z) = true.
Proof. eapply str_forallb_impl; [|apply pad_digits]. unfold iso_char. by intros c ->. Qed.

Lemma iso_string_chars t : str_forallb iso_char (iso_string t) = true.
Proof.
  unfold iso_string. destruct (civil_from_days _) as [[y m] d]. unfold iso_year.
  rewrite !str_forallb_app, !pad_iso. cbn [andb]. rewrite !andb_true_r.
  destruct (_ && _); [by rewrite pad_iso|]. destruct (y <? 0); cbn [str_forallb]; by rewrite pad_iso.
Qed.

Lemma obj_set_same {A} k (v : A) o : obj_get k o = Some v -> obj_set k v o = o.
Proof.
  induction o as [|[k' v'] o IH]; simpl; [done|]. destruct (decide (k = k')) as [<-|]; [by intros [= ->]|].
  intros Hk. by rewrite IH.
Qed.

Lemma obj_set_twice {A} k (v w : A) o : obj_set k v (obj_set k w o) = obj_set k v o.
Proof.
  induction o as [|[k' v'] o IH]; simpl; [by rewrite decide_True|].
  destruct (decide (k = k')) as [<-|]; simpl; [by rewrite decide_True|]. by rewrite decide_False, IH.
Qed.

Lemma obj_set_comm {A} k k' (v v' w w' : A) o :
  k <> k' -> obj_get k o = Some w -> obj_get k' o = Some w' ->
  obj_set k v (obj_set k' v' o) = obj_set k' v' (obj_set k v o).
Proof.
  intros Hne. induction o as [|[k2 x] o IH]; simpl; [done|].
  destruct (decide (k = k2)) as [->|Hk]; destruct (decide (k' = k2)) as [->|Hk']; simpl; try done.
  - intros _ _. by rewrite ?decide_True, ?decide_False by done.
  - intros _ _. by rewrite decide_False, decide_True by done.
  - intros H1 H2. rewrite ?decide_False by done. by rewrite IH.
Qed.

(** Replacing one value keeps what holds of the others. *)
Lemma obj_set_Forall_ne {A} (P : string * A -> Prop) k v (o : list (string * A)) :
  P (k, v) -> NoDup (List.map fst o) -> (forall k' x, (k', x) ∈ o -> k' <> k -> P (k', x)) ->
  Forall P (obj_set k v o).
Proof.
  intros Hkv. induction o as [|[k' x] o IH]; intros Hnd H; simpl; [by constructor|].
  simpl in Hnd. apply NoDup_cons in Hnd as [Hn Hnd]. destruct (decide (k = k')) as [<-|Hne].
  - constructor; [done|]. apply List.Forall_forall. intros [k2 y] Hin. apply H; [apply list_elem_of_In; by right|].
    intros ->. apply Hn, list_elem_of_In, List.in_map_iff. by exists (k, y).
  - constructor; [apply H; [set_solver|done]|]. apply IH; [done|]. intros k2 y Hin. apply H. set_solver.
Qed.

(** A saved route in its usual form: typed, without secrets, every field but the two dates
    of its metadata a JSON value. *)
Record storable (r : jsval) (o m : obj) (created updated : Z) : Prop := {
  st_route : r = JObj o;
  st_wf : val_wf r;
  st_clean : clean r = true;
  st_id : is_string (jget "id" r) = true;
  st_metadata : obj_get "metadata" o = Some (JObj m);
  st_created : obj_get "createdAt" m = Some (JDate (Some created));
  st_updated : obj_get "updatedAt" m = Some (JDate (Some updated));
  st_created_valid : time_valid created = true;
  st_updated_valid : time_valid updated = true;
  st_fields : forall k x, (k, x) ∈ o -> k <> "metadata" -> is_json x;
  st_meta_fields : forall k x, (k, x) ∈ m -> k <> "createdAt" -> k <> "updatedAt" -> is_json x
}.

Section storable_routes.
Context `{HostDate}.
Context (now : Z) (r : jsval) (o m : obj) (created updated : Z).
Context (Hst : storable r o m created updated).

(** The persisted form. *)
Definition persisted_meta : obj :=
  obj_set "updatedAt" (JStr (iso_string updated)) (obj_set "createdAt" (JStr (iso_string created)) m).
Definition persisted : jsval := JObj (obj_set "metadata" (JObj persisted_meta) o).

Lemma storable_metadata : jget "metadata" r = JObj m.
Proof. destruct Hst. subst r. simpl. by rewrite st_metadata0. Qed.

Lemma storable_meta_wf : val_wf (JObj m).
Proof. rewrite <- storable_metadata. apply jget_wf, Hst. Qed.

Lemma storable_meta_clean : clean (JObj m) = true.
Proof.
  pose proof (st_clean _ _ _ _ _ Hst) as Hc. rewrite (st_route _ _ _ _ _ Hst), clean_obj, clean_props_Forall in Hc.
  apply (proj1 (List.Forall_forall _ _) Hc ("metadata", JObj m)).
  apply list_elem_of_In, obj_get_In, Hst.
Qed.

Lemma spread_with_obj o' props : NoDup (List.map fst o') ->
  BrowserStorage.spread_with (JObj o') props = JObj (obj_spread o' props).
Proof. intros Hnd. unfold BrowserStorage.spread_with. cbn [spread_props].
  change (obj_spread [] o') with (obj_of_entries o'). by rewrite obj_of_entries_id. Qed.

Lemma storable_NoDup : NoDup (List.map fst o) /\ NoDup (List.map fst m).
Proof.
  split; [|by pose proof storable_meta_wf as [? _]%val_wf_obj].
  pose proof (st_wf _ _ _ _ _ Hst) as Hw. rewrite (st_route _ _ _ _ _ Hst) in Hw. by apply val_wf_obj in Hw as [? _].
Qed.

Lemma to_persisted : BrowserStorage.toPersistedRoute r = Return persisted.
Proof.
  destruct storable_NoDup as [Ho Hm]. unfold BrowserStorage.toPersistedRoute, prop.
  rewrite storable_metadata, (st_route _ _ _ _ _ Hst). cbn [nullish mbind outcome_bind truthy jget].
  rewrite (st_created _ _ _ _ _ Hst), (st_updated _ _ _ _ _ Hst).
  cbn [BrowserStorage.opt_toISOString toISOString fmap outcome_fmap mbind outcome_bind].
  by rewrite !spread_with_obj.
Qed.

Lemma persisted_meta_NoDup : NoDup (List.map fst persisted_meta).
Proof. unfold persisted_meta. apply obj_set_NoDup, obj_set_NoDup, storable_NoDup. Qed.

Lemma persisted_json : is_json persisted.
Proof.
  destruct storable_NoDup as [Ho Hm]. unfold persisted. rewrite is_json_obj.
  apply obj_set_Forall_ne; [|done|intros k x Hin Hk; cbn [snd]; by eapply st_fields].
  cbn [snd]. unfold persisted_meta. rewrite is_json_obj.
  apply obj_set_Forall_ne; [done|by apply obj_set_NoDup|]. intros k x Hin Hk. cbn [snd].
  destruct (decide (k = "createdAt")) as [->|Hk'].
  - apply obj_get_NoDup in Hin; [|by apply obj_set_NoDup]. rewrite obj_get_set_eq in Hin. by injection Hin as <-.
  - apply obj_get_NoDup in Hin; [|by apply obj_set_NoDup]. rewrite obj_get_set_ne in Hin by done.
    eapply st_meta_fields; [done|by apply obj_get_In|done|done].
Qed.

Lemma persisted_clean : clean persisted = true.
Proof.
  pose proof storable_meta_clean as Hmc. pose proof (st_clean _ _ _ _ _ Hst) as Hc.
  rewrite (st_route _ _ _ _ _ Hst) in Hc. unfold persisted. rewrite clean_obj, clean_props_Forall in *.
  assert (Hiso : forall t, clean (JStr (iso_string t)) = true) by (intros t; apply iso_no_secret, iso_string_chars).
  apply obj_set_Forall; [|done]. split; [vm_compute; reflexivity|]. cbn [snd]. unfold persisted_meta.
  rewrite clean_obj, clean_props_Forall.
  apply obj_set_Forall; [split; [vm_compute; reflexivity|apply Hiso]|].
  apply obj_set_Forall; [split; [vm_compute; reflexivity|apply Hiso]|done].
Qed.

Lemma from_persisted : BrowserStorage.fromPersistedRoute now persisted = Return r.
Proof.
  destruct storable_NoDup as [Ho Hm]. pose proof persisted_meta_NoDup as Hpm.
  unfold BrowserStorage.fromPersistedRoute, persisted, prop. cbn [nullish mbind outcome_bind jget].
  rewrite obj_get_set_eq. cbn [truthy].
  assert (Hne : forall t, truthy (JStr (iso_string t)) = true).
  { intros t. simpl. pose proof (iso_string_nonempty t) as Ht. by rewrite bool_decide_false. }
  assert (Hrev : forall t, time_valid t = true ->
     BrowserStorage.revive now (JStr (iso_string t)) = JDate (Some t)).
  { intros t Ht. unfold BrowserStorage.revive. rewrite Hne. cbn [BrowserStorage.new_Date]. by rewrite parse_iso_string. }
  assert (Hgc : obj_get "createdAt" persisted_meta = Some (JStr (iso_string created))).
  { unfold persisted_meta. rewrite obj_get_set_ne by done. apply obj_get_set_eq. }
  assert (Hgu : obj_get "updatedAt" persisted_meta = Some (JStr (iso_string updated))) by apply obj_get_set_eq.
  cbn [jget]. rewrite Hgc, Hgu, !Hrev by apply Hst. rewrite !spread_with_obj by (done || by apply obj_set_NoDup).
  unfold obj_spread. cbn [fold_left fst snd]. rewrite obj_set_twice. unfold persisted_meta.
  pose proof (st_created _ _ _ _ _ Hst) as Hcr. pose proof (st_updated _ _ _ _ _ Hst) as Hup.
  rewrite (obj_set_comm "createdAt" "updatedAt" _ _ (JStr (iso_string created)) (JDate (Some updated)));
    [|done|apply obj_get_set_eq|by rewrite obj_get_set_ne].
  rewrite obj_set_twice, obj_set_twice, (obj_set_same "createdAt") by done.
  rewrite (obj_set_same "updatedAt") by done.
  rewrite obj_set_same by apply Hst. by rewrite (st_route _ _ _ _ _ Hst).
Qed.

Lemma storable_rewrites : rewrites now r r.
Proof.
  exists persisted, persisted. split; [apply to_persisted|]. split; [|apply from_persisted].
  rewrite sanitize_clean_id; [apply json_norm_id, persisted_json| |apply persisted_clean].
  eapply toPersisted_wf; [apply Hst|apply to_persisted].
Qed.

Lemma storable_holds : holds now r /\ kept now r = r.
Proof.
  pose proof storable_rewrites as Hr. split; [|by apply rewrites_kept].
  split; [apply Hst|]. split; [apply Hst|]. exists r. split_and!; [done| |done]. split_and!; [apply Hst..|done].
Qed.

Lemma storable_settled : settled now r.
Proof. split; [apply Hst|]. split; [apply Hst|]. apply storable_rewrites. Qed.
End storable_routes.

(** ** Saving and finding *)

(** Any repository with the laws: a saved route is found under its key in the form it is
    kept, and no other key is affected. *)
Lemma saved_found {S} `{RouteRepositoryLaws S} s r s' id :
  repo_ok s -> repo_holds r -> repo_save r s = (Return tt, s') ->
  repo_findById id s' =
    (Return (if decide (id = route_id r) then Some (repo_kept r) else obj_get id (repo_view s)), s').
Proof.
  intros Hok Hr Hs. destruct (repo_save_ok _ _ _ Hok Hr Hs) as [Hok' Hv].
  rewrite repo_find, Hv by done. destruct (decide (id = route_id r)) as [->|Hne].
  - by rewrite obj_get_set_eq.
  - by rewrite obj_get_set_ne.
Qed.

Section browser_theorems.
Context `{LocalStorageApi} `{HostDate}.

(** C11.  The browser repository stores a route and gives it back: after a successful save,
    finding the route's id returns exactly the saved route, dates included, and every other
    id finds what it found before.  The hypotheses are that the storage holds routes in the
    form the repository writes and that the route is typed and free of secrets. *)
Theorem browser_save_find key now s r o m created updated s' id :
  browser_ok key now s -> storable r o m created updated ->
  BrowserStorage.save key now r s = (Return tt, s') ->
  browser_ok key now s' /\
  fst (BrowserStorage.findById key now id s') =
    (if decide (id = route_id r) then Return (Some r) else fst (BrowserStorage.findById key now id s)).
Proof.
  intros Hok Hst Hs. destruct (storable_holds now r o m created updated Hst) as [Hh Hk].
  destruct (browser_save key now s r s' Hok Hh Hs) as [Hok' Hv]. split; [done|].
  pose proof (repo_find (RouteRepositoryLaws := browser_laws_instance key now)) as Hfind. cbn in Hfind.
  rewrite !Hfind, Hv, Hk by done. cbn [fst]. destruct (decide (id = route_id r)) as [->|Hne].
  - by rewrite obj_get_set_eq.
  - by rewrite obj_get_set_ne.
Qed.

(** The browser repository never writes a text with a sensitive field name: whatever
    a successful save leaves under its key is JSON without such a field at any depth. *)
Theorem browser_write_no_secret key routes s s' text :
  Forall val_wf routes -> BrowserStorage.write key routes s = (Return tt, s') ->
  s' !! key = Some text -> containsSensitiveFieldName text = Return false.
Proof.
  intros Hwf. unfold BrowserStorage.write. run_eff.
  destruct (mapM_out BrowserStorage.toPersistedRoute routes) as [ps|] eqn:Hps; [|done].
  unfold setItem. destruct (rejects _ _ _); [done|]. intros [= <-]. rewrite lookup_insert_eq. intros [= <-].
  apply mapM_out_Forall2 in Hps.
  assert (Hpw : Forall val_wf ps).
  { clear -Hwf Hps. induction Hps as [|r p rs ps Hp _ IH]; [constructor|].
    apply Forall_cons in Hwf as [Hr Hwf]. constructor; [by eapply toPersisted_wf|auto]. }
  unfold stringify_array. destruct (stringifyWithoutSecrets (JArr ps)) as [text|] eqn:Ht.
  - eapply stringified_no_sensitive; [|exact Ht]. by apply val_wf_arr.
  - exfalso. unfold stringifyWithoutSecrets, json_stringify in Ht. done.
Qed.
End browser_theorems.

(** ** The theorems at work *)

Definition open_storage : LocalStorageApi := fun _ _ _ => false.
#[local] Existing Instance open_storage.
#[local] Existing Instance no_host.

Definition sample_meta : obj :=
  [("createdAt", JDate (Some 1700000000000)); ("updatedAt", JDate (Some 1700000000000));
   ("createdBy", JStr "system"); ("tags", JArr [])].
Definition stored_route : obj :=
  [("id", JStr "r1"); ("domain", JStr "example.com"); ("enabled", JBool true); ("metadata", JObj sample_meta)].
Definition saved_storage : storage := snd (BrowserStorage.save "nginx_routes" 0 (JObj stored_route) ∅).

Lemma browser_save_find_witness :
  browser_ok "nginx_routes" 0 saved_storage /\
  fst (BrowserStorage.findById "nginx_routes" 0 "r1" saved_storage) = Return (Some (JObj stored_route)).
Proof.
  apply (browser_save_find "nginx_routes" 0 ∅ (JObj stored_route) stored_route sample_meta
           1700000000000 1700000000000 saved_storage "r1").
  - split; [|apply NoDup_nil_2]. apply List.Forall_nil.
  - constructor; try reflexivity.
    + repeat split; refine (proj1 (bool_decide_spec (NoDup _)) _); vm_compute; exact I.
    + intros k x Hin Hk. apply list_elem_of_In in Hin. cbn in Hin.
      repeat (destruct Hin as [[= <- <-]|Hin]; [by try exact I|]). destruct Hin.
    + intros k x Hin Hk Hk'. apply list_elem_of_In in Hin. cbn in Hin.
      repeat (destruct Hin as [[= <- <-]|Hin]; [by try exact I|]). destruct Hin.
  - vm_compute. reflexivity.
Defined.

Lemma browser_write_no_secret_witness :
  exists text, saved_storage !! "nginx_routes" = Some text /\ containsSensitiveFieldName text = Return false.
Proof.
  eexists. split; [vm_compute; reflexivity|].
  apply (browser_write_no_secret "nginx_routes" [JObj stored_route] ∅ saved_storage).
  - apply List.Forall_cons; [|apply List.Forall_nil].
    repeat split; refine (proj1 (bool_decide_spec (NoDup _)) _); vm_compute; exact I.
  - vm_compute. reflexivity.
  - vm_compute. reflexivity.
Defined.
