(* ===== verification/UseCases.v ===== *)
(** * Use cases of packages/core/src/useCases and services/IntegrationService.ts

    [createRoute], [updateRoute] and [toggleRouteStatus] run against any repository
    ([RouteRepository]); the theorems about them use the laws of the interface only.  The
    clock and the random suffix are arguments. *)

From S2P Require Import Prelude JsString Regex JsValue Dates Json Secrets Zod Schemas Repositories.

Definition js_error (message : string) : jserror := JsError EError message.

(** ** useCases/routes.ts *)
Section routes.
Context {S : Type} `{RouteRepository S} `{Zod} `{HostDate}.

(** [`route_${Date.now()}_${Math.random().toString(36).substr(2, 9)}`] *)
Definition generated_id (prefix : string) (now : Z) (suffix : string) : string :=
  prefix +:+ "_" +:+ show_Z now +:+ "_" +:+ suffix.

Definition new_route (routeData : obj) (now : Z) (suffix : string) : jsval :=
  JObj (obj_spread (obj_spread [] routeData)
    [("id", JStr (generated_id "route" now suffix));
     ("metadata", JObj [("createdAt", JDate (Some now)); ("updatedAt", JDate (Some now));
                        ("createdBy", JStr "system"); ("tags", JArr [])])]).

Definition createRoute (routeData : obj) (now : Z) (suffix : string) : eff S string :=
  if negb (validateDomain (jget "domain" (JObj routeData))) then throw (js_error "Invalid domain format") else
  if negb (validatePort (jget "port" (JObj routeData))) then throw (js_error "Port must be between 1 and 65535") else
  if negb (validateUnixPath (jget "root" (JObj routeData))) then throw (js_error "Invalid path format") else
  let id := generated_id "route" now suffix in
  let route := new_route routeData now suffix in
  _ ← lift_outcome (parse RouteSchema route);
  _ ← repo_save route;
  mret id.

(** [{ ...existing, ...updates, metadata: ... }] *)
Definition updated_route (existing : jsval) (updates : obj) (now : Z) : jsval :=
  let metadata := jget "metadata" existing in
  JObj (obj_spread (obj_spread (obj_spread [] (spread_props existing)) updates)
    [("metadata",
      if truthy metadata
      then JObj (obj_spread (obj_spread [] (spread_props metadata)) [("updatedAt", JDate (Some now))])
      else JUndef)]).

Definition updateRoute (id : string) (updates : obj) (now : Z) : eff S unit :=
  existing ← repo_findById id;
  match existing with
  | None => throw (js_error "Route not found")
  | Some existing =>
      let updatedRoute := updated_route existing updates now in
      _ ← lift_outcome (parse RouteSchema updatedRoute);
      repo_save updatedRoute
  end.

Definition toggleRouteStatus (id : string) (now : Z) : eff S unit :=
  route ← repo_findById id;
  match route with
  | None => throw (js_error "Route not found")
  | Some route =>
      updateRoute id [("enabled", JBool (negb (truthy (jget "enabled" route))))] now
  end.
End routes.

(** ** useCases/routeForm.ts *)
Section routeForm.
Context `{Zod}.

Definition set_if (b : bool) (k message : string) (errors : list (string * string)) : list (string * string) :=
  if b then obj_set k message errors else errors.

Definition validateForm (formData : jsval) : list (string * string) :=
  let check k (validate : jsval -> bool) := negb (truthy (jget k formData)) || negb (validate (jget k formData)) in
  let errors := set_if (check "domain" validateDomain) "domain" "Invalid domain format" [] in
  let errors := set_if (check "port" validatePort) "port" "Port must be between 1 and 65535" errors in
  set_if (check "root" validateUnixPath) "root" "Invalid path format" errors.

Definition issue_key (i : issue) : string :=
  let key := join "." (issue_path i) in if decide (key = "") then "location" else key.

Definition validateLocation (location : jsval) : list (string * string) :=
  let errors := set_if (negb (truthy (jget "path" location)) || negb (validateURLPath (jget "path" location)))
                  "path" "Invalid URL path format" [] in
  match safeParse LocationConfigSchema location with
  | inr _ => errors
  | inl issues => fold_left (fun errors i => obj_set (issue_key i) (issue_message i) errors) issues errors
  end.

Definition createLocation (locationData : jsval) : jsval :=
  JObj (obj_spread [("path", JStr "/")] (spread_props locationData)).

Definition addLocationToRoute (locations : list jsval) (location : jsval) : list jsval := locations ++ [location].

(** [next[index] = location] for a natural [index]: past the end the array grows, with
    holes that read as [undefined]. *)
Definition updateLocationInRoute (locations : list jsval) (index : nat) (location : jsval) : list jsval :=
  if (index <? length locations)%nat then <[index := location]> locations
  else locations ++ replicate (index - length locations) JUndef ++ [location].

Definition removeLocation (locations : list jsval) (index : nat) : list jsval :=
  List.map snd (List.filter (fun ix : nat * jsval => negb (fst ix =? index)%nat) (imap (fun i x => (i, x)) locations)).
End routeForm.

(** ** useCases/logs.ts *)

(** [d.getTime()]: [None] is NaN; anything but a date throws. *)
Definition getTime (v : jsval) : outcome (option Z) :=
  match v with JDate t => Return t | _ => Throw type_error end.

(** [a < b] on times: false when one is NaN. *)
Definition time_lt (a b : option Z) : bool :=
  match a, b with Some x, Some y => x <? y | _, _ => false end.

(** [a !== b] for two values the filters compare: strings or [undefined]. *)
Definition strict_ne (a b : jsval) : bool :=
  match a, b with
  | JStr s, JStr t => negb (bool_decide (s = t))
  | JUndef, JUndef => false
  | _, _ => true
  end.

Definition filter_one (filters log : jsval) : outcome bool :=
  if truthy (jget "level" filters) && negb (js_is_str (jget "level" filters) "all") &&
     strict_ne (jget "level" log) (jget "level" filters) then Return false
  else if truthy (jget "source" filters) && strict_ne (jget "source" log) (jget "source" filters) then Return false
  else if truthy (jget "routeId" filters) && strict_ne (jget "routeId" log) (jget "routeId" filters) then Return false
  else if truthy (jget "search" filters) &&
     negb (includes (toLowerCase (str_of (jget "search" filters))) (toLowerCase (str_of (jget "message" log))))
  then Return false
  else if truthy (jget "dateRange" filters) then
    logTime ← getTime (jget "timestamp" log);
    startTime ← getTime (jget "start" (jget "dateRange" filters));
    endTime ← getTime (jget "end" (jget "dateRange" filters));
    Return (negb (time_lt logTime startTime || time_lt endTime logTime))
  else Return true.

Fixpoint filterLogs (logs : list jsval) (filters : jsval) : outcome (list jsval) :=
  match logs with
  | [] => Return []
  | log :: rest =>
      keep ← filter_one filters log;
      kept ← filterLogs rest filters;
      Return (if (keep : bool) then log :: kept else kept)
  end.

Definition createLogEntry (logData : jsval) (now : Z) (suffix : string) : jsval :=
  JObj (obj_spread (obj_spread [] (spread_props logData)) [("id", JStr (generated_id "log" now suffix))]).

(** ** useCases/server.ts *)
Inductive server_status := running | stopped | restarting.
#[export] Instance server_status_eq_dec : EqDecision server_status.
Proof. solve_decision. Defined.

Definition toggleStatus (currentStatus : server_status) (newStatus : option server_status) : server_status :=
  match newStatus with
  | Some st => st
  | None => if decide (currentStatus = running) then stopped else running
  end.

Definition updateStats (currentStats newStats : obj) : obj := obj_spread (obj_spread [] currentStats) newStats.

(** ** services/IntegrationService.ts *)
Definition show_status (st : server_status) : string :=
  match st with running => "running" | stopped => "stopped" | restarting => "restarting" end.

Definition handleServerStatusChange (currentStatus previousStatus : server_status) (now : Z) : option jsval :=
  if decide (currentStatus <> previousStatus) then
    Some (JObj [("timestamp", JDate (Some now)); ("level", JStr "info");
                ("message", JStr ("Server " +:+ show_status currentStatus)); ("source", JStr "system")])
  else None.

Definition handleRouteSelectionChange (currentRouteId previousRouteId : option string) (routes : obj) : option jsval :=
  if decide (currentRouteId <> previousRouteId) then
    match currentRouteId with
    | Some id =>
        if nonempty id then
          match obj_get id routes with
          | Some route => if truthy route then Some route else None
          | None => None
          end
        else None
    | None => None
    end
  else None.

(** ** useCases/remoteRoutes.ts *)
Section remoteRoutes.
Context {S R D : Type}.
(** packages/core/src/ports/RouteGateway.ts *)
Class RouteGateway := {
  gw_list : bool -> eff S (list R);
  gw_save : D -> eff S R;
  gw_toggle : string -> bool -> eff S R
}.
Context `{RouteGateway}.
Definition makeLoadRoutes (includeDisabled : option bool) : eff S (list R) := gw_list (default true includeDisabled).
Definition makeSaveRoute (draft : D) : eff S R := gw_save draft.
Definition makeToggleRoute (id : string) (enabled : bool) : eff S R := gw_toggle id enabled.
End remoteRoutes.
Arguments RouteGateway S R D : clear implicits.

(** * Routes: all or nothing *)

Lemma jget_spread k o1 o2 :
  NoDup (List.map fst o2) ->
  jget k (JObj (obj_spread o1 o2)) = match obj_get k o2 with Some v => v | None => jget k (JObj o1) end.
Proof. intros H. simpl. rewrite obj_get_spread by done. by destruct (obj_get k o2). Qed.

Section route_theorems.
Context {S : Type} `{RL : RouteRepositoryLaws S} `{Zod} `{HostDate}.

Lemma route_id_new routeData now suffix :
  route_id (new_route routeData now suffix) = generated_id "route" now suffix.
Proof.
  unfold route_id, new_route. rewrite jget_spread; [done|nodup_literals].
Qed.

(** The checks [createRoute] makes before it uses the repository. *)
Definition creatable (data : obj) (now : Z) (suffix : string) : bool :=
  validateDomain (jget "domain" (JObj data)) && validatePort (jget "port" (JObj data)) &&
  validateUnixPath (jget "root" (JObj data)) && is_return (parse RouteSchema (new_route data now suffix)).

Lemma parse_throws sch v e : parse sch v = Throw e -> instanceof_Error e = true.
Proof. unfold parse. destruct (safeParse sch v); [|done]. by intros [= <-]. Qed.

(** They decide before the repository is used. *)
Lemma createRoute_cases routeData now suffix s :
  if creatable routeData now suffix
  then createRoute routeData now suffix s =
     match repo_save (new_route routeData now suffix) s with
     | (Return _, s') => (Return (generated_id "route" now suffix), s')
     | (Throw e, s') => (Throw e, s')
     end
  else exists e, createRoute routeData now suffix s = (Throw e, s) /\ instanceof_Error e = true.
Proof.
  unfold createRoute, creatable. run_eff.
  destruct (validateDomain _); [|by eexists]. destruct (validatePort _); [|by eexists].
  destruct (validateUnixPath _); [|by eexists]. cbn [negb andb].
  destruct (parse RouteSchema _) as [w|e] eqn:Hp; [|exists e; split; [done|by eapply parse_throws]].
  cbn [is_return]. by destruct (repo_save _ s) as [[[]|] ?].
Qed.

(** A creation that returns has filed the new route. *)
Lemma createRoute_returns routeData now suffix s id s' :
  repo_ok s -> repo_holds (new_route routeData now suffix) ->
  createRoute routeData now suffix s = (Return id, s') ->
  id = generated_id "route" now suffix /\
  is_return (parse RouteSchema (new_route routeData now suffix)) = true /\ repo_ok s' /\
  repo_view s' = obj_set id (repo_kept (new_route routeData now suffix)) (repo_view s).
Proof.
  intros Hok Hh Hc. pose proof (createRoute_cases routeData now suffix s) as Hs.
  destruct (creatable routeData now suffix) eqn:Hcr; [|destruct Hs as (e & He & _); congruence].
  rewrite Hs in Hc. destruct (repo_save _ s) as [[[]|e] s1] eqn:Hsave; [|done]. injection Hc as <- <-.
  destruct (repo_save_ok _ _ _ Hok Hh Hsave) as [Hok' Hv]. rewrite route_id_new in Hv.
  unfold creatable in Hcr. by apply andb_true_iff in Hcr as [_ ->].
Qed.

(** [createRoute], on any repository: when it returns an id, the new route satisfied
    the route schema and is filed under that id, and nothing else changed; when it throws,
    the repository is as it was. *)
Theorem createRoute_all_or_nothing routeData now suffix s :
  repo_ok s -> repo_holds (new_route routeData now suffix) ->
  match createRoute routeData now suffix s with
  | (Return id, s') =>
      id = generated_id "route" now suffix /\
      is_return (parse RouteSchema (new_route routeData now suffix)) = true /\ repo_ok s' /\
      repo_view s' = obj_set id (repo_kept (new_route routeData now suffix)) (repo_view s)
  | (Throw _, s') => s' = s
  end.
Proof.
  intros Hok Hh. destruct (createRoute routeData now suffix s) as [[id|e] s'] eqn:Hc; [by eapply createRoute_returns|].
  pose proof (createRoute_cases routeData now suffix s) as Hs.
  destruct (creatable routeData now suffix); [|destruct Hs as (e' & He & _); congruence].
  rewrite Hs in Hc. destruct (repo_save _ s) as [[[]|e1] s1] eqn:Hsave; [done|]. injection Hc as _ <-.
  by eapply repo_save_fails.
Qed.

Lemma updateRoute_cases id updates now s :
  repo_ok s ->
  match obj_get id (repo_view s) with
  | None => updateRoute id updates now s = (Throw (js_error "Route not found"), s)
  | Some existing =>
      match parse RouteSchema (updated_route existing updates now) with
      | Throw e => updateRoute id updates now s = (Throw e, s)
      | Return _ => updateRoute id updates now s = repo_save (updated_route existing updates now) s
      end
  end.
Proof.
  intros Hok. unfold updateRoute. run_eff. rewrite repo_find by done.
  destruct (obj_get id (repo_view s)) as [existing|]; [|done].
  by destruct (parse RouteSchema (updated_route existing updates now)).
Qed.

(** What an update writes: the given fields, the others as they were, the creation date kept. *)
Lemma updated_route_fields o updates now k :
  NoDup (List.map fst o) -> NoDup (List.map fst updates) -> k <> "metadata" ->
  jget k (updated_route (JObj o) updates now) =
  match obj_get k updates with Some v => v | None => jget k (JObj o) end.
Proof.
  intros Ho Hu Hk. unfold updated_route. rewrite jget_spread by nodup_literals.
  cbn [obj_get]. rewrite decide_False by done. rewrite jget_spread by done.
  destruct (obj_get k updates); [done|]. cbn [spread_props].
  change (obj_spread [] o) with (obj_of_entries o). by rewrite obj_of_entries_id.
Qed.

Lemma updated_route_metadata o updates now m :
  jget "metadata" (JObj o) = JObj m -> NoDup (List.map fst m) ->
  jget "updatedAt" (jget "metadata" (updated_route (JObj o) updates now)) = JDate (Some now) /\
  forall k, k <> "updatedAt" -> jget k (jget "metadata" (updated_route (JObj o) updates now)) = jget k (JObj m).
Proof.
  intros Hm Hnd. unfold updated_route. rewrite Hm. cbn [truthy spread_props].
  rewrite jget_spread by nodup_literals. cbn [obj_get]. rewrite decide_True by done.
  split; [by rewrite jget_spread by nodup_literals|]. intros k Hk. rewrite jget_spread by nodup_literals.
  cbn [obj_get]. rewrite decide_False by done. change (obj_spread [] m) with (obj_of_entries m).
  by rewrite obj_of_entries_id.
Qed.

(** C15.  [updateRoute], on any repository.  A missing id throws "Route not found".  Otherwise
    the stored route is merged with the updates: the updated fields have their new values, every
    other field is as it was, and of the metadata only the date of the update changes.  A
    merged route the schema refuses throws the schema's error.  Neither changes anything.  A
    merged route the schema accepts is handed to the repository and to nothing else: the update
    returns with exactly that route filed under its id, or throws what the repository's save
    throws and changes nothing. *)
Theorem updateRoute_all_or_nothing id updates now s :
  repo_ok s ->
  match obj_get id (repo_view s) with
  | None => updateRoute id updates now s = (Throw (js_error "Route not found"), s)
  | Some existing =>
      let new := updated_route existing updates now in
      (forall e, parse RouteSchema new = Throw e -> updateRoute id updates now s = (Throw e, s)) /\
      (is_return (parse RouteSchema new) = true -> repo_holds new ->
         match updateRoute id updates now s with
         | (Return _, s') => repo_ok s' /\ repo_view s' = obj_set (route_id new) (repo_kept new) (repo_view s)
         | (Throw e, s') => fst (repo_save new s) = Throw e /\ s' = s
         end) /\
      (forall o, existing = JObj o -> NoDup (List.map fst o) -> NoDup (List.map fst updates) ->
         (obj_get "id" updates = None -> jget "id" existing = JStr id -> route_id new = id) /\
         (forall k, k <> "metadata" ->
            jget k new = match obj_get k updates with Some v => v | None => jget k existing end) /\
         (forall m, jget "metadata" existing = JObj m -> NoDup (List.map fst m) ->
            jget "updatedAt" (jget "metadata" new) = JDate (Some now) /\
            forall k, k <> "updatedAt" -> jget k (jget "metadata" new) = jget k (JObj m)))
  end.
Proof.
  intros Hok. pose proof (updateRoute_cases id updates now s Hok) as Hc.
  destruct (obj_get id (repo_view s)) as [existing|]; [|done]. cbv zeta. split_and!.
  - intros e He. by rewrite He in Hc.
  - intros Hp Hh. destruct (parse RouteSchema _); [|done]. rewrite Hc.
    destruct (repo_save _ s) as [[[]|e] s'] eqn:Hs; [by eapply repo_save_ok|]. split; [done|by eapply repo_save_fails].
  - intros o -> Ho Hu. split_and!.
    + intros Hid Hoid. unfold route_id. by rewrite updated_route_fields, Hid, Hoid by done.
    + intros k Hk. by apply updated_route_fields.
    + intros m. apply updated_route_metadata.
Qed.

(** [toggleRouteStatus] inverts the route's [enabled] field and keeps every other field
    but the metadata, or throws and changes nothing. *)
Theorem toggleRouteStatus_flips id o now s :
  repo_ok s -> obj_get id (repo_view s) = Some (JObj o) -> NoDup (List.map fst o) ->
  jget "id" (JObj o) = JStr id ->
  repo_holds (updated_route (JObj o) [("enabled", JBool (negb (truthy (jget "enabled" (JObj o)))))] now) ->
  match toggleRouteStatus id now s with
  | (Return _, s') =>
      repo_ok s' /\ exists new,
        repo_view s' = obj_set id (repo_kept new) (repo_view s) /\
        jget "enabled" new = JBool (negb (truthy (jget "enabled" (JObj o)))) /\
        (forall k, k <> "metadata" -> k <> "enabled" -> jget k new = jget k (JObj o))
  | (Throw _, s') => s' = s
  end.
Proof.
  intros Hok Hget Ho Hid Hh. unfold toggleRouteStatus, mbind, eff_bind at 1.
  rewrite repo_find, Hget by done. set (upd := [("enabled", _)]) in *.
  assert (Hu : NoDup (List.map fst upd)) by nodup_literals.
  pose proof (updateRoute_cases id upd now s Hok) as Hc. rewrite Hget in Hc.
  destruct (parse RouteSchema _) as [w|e]; rewrite Hc; [|done].
  destruct (repo_save _ s) as [[[]|e] s'] eqn:Hs; [|by eapply repo_save_fails].
  destruct (repo_save_ok _ _ _ Hok Hh Hs) as [Hok' Hv]. split; [done|].
  exists (updated_route (JObj o) upd now). split_and!.
  - rewrite Hv. f_equal. unfold route_id. by rewrite updated_route_fields, Hid by done.
  - by rewrite updated_route_fields by done.
  - intros k Hk Hk'. rewrite updated_route_fields by done. simpl. by rewrite decide_False by done.
Qed.
End route_theorems.

(** * The route form *)

Lemma set_if_absent b k m errors :
  obj_get k errors = None -> obj_get k (set_if b k m errors) = None <-> b = false.
Proof. intros H. unfold set_if. destruct b; [|done]. by rewrite obj_get_set_eq. Qed.

Lemma set_if_other b k k' m errors : k <> k' -> obj_get k (set_if b k' m errors) = obj_get k errors.
Proof. intros H. unfold set_if. destruct b; [by rewrite obj_get_set_ne|done]. Qed.

Lemma obj_set_not_nil {A} k (v : A) o : obj_set k v o <> [].
Proof. destruct o as [|[k' v'] o]; simpl; [done|]. by destruct (decide (k = k')). Qed.

Lemma set_if_nil b k m errors : set_if b k m errors = [] <-> b = false /\ errors = [].
Proof.
  unfold set_if. destruct b; [|intuition]. split; [intros Hs; by apply obj_set_not_nil in Hs|by intros [? _]].
Qed.

Lemma fold_issues_not_nil issues errors :
  issues <> [] -> fold_left (fun errors i => obj_set (issue_key i) (issue_message i) errors) issues errors <> [].
Proof.
  intros Hne. destruct issues as [|i issues]; [done|]. clear Hne. simpl.
  assert (Hgen : forall issues errors, errors <> [] ->
    fold_left (fun errors i => obj_set (issue_key i) (issue_message i) errors) issues errors <> []).
  { clear. induction issues as [|i l IH]; intros errors He; simpl; [done|]. apply IH, obj_set_not_nil. }
  apply Hgen, obj_set_not_nil.
Qed.

Section form_theorems.
Context `{ZL : ZodLaws}.

Lemma check_spec (v : jsval) (b : bool) : negb (truthy v) || negb b = false <-> truthy v = true /\ b = true.
Proof. destruct (truthy v), b; simpl; intuition. Qed.

(** [validateForm] reports no error exactly when the domain is a host name, the port
    reads as an integer from 1 to 65535, and the root is an absolute path: the empty root that
    the route schema allows beside a [proxy_pass] is refused by the form. *)
Theorem validateForm_spec formData :
  validateForm formData = [] <->
  (exists d, jget "domain" formData = JStr d /\ is_domain d) /\
  (exists n, 1 <= n <= 65535 /\ parse PortSchema (jget "port" formData) = Return (JNum (NInt n))) /\
  (exists p, jget "root" formData = JStr p /\ is_unix_path p).
Proof.
  unfold validateForm. rewrite !set_if_nil, !check_spec.
  unfold validateDomain, validatePort, validateUnixPath. rewrite !validate_accept. split.
  - intros ([Hr [w Hw]] & [Hp [w' Hw']] & [Hd [w'' Hw'']] & _). split_and!.
    + unfold DomainSchema in Hw''. apply accept_anchored in Hw'' as (_ & d & Hdd & Hl); [|done].
      exists d. split; [done|]. by apply lang_domain.
    + pose proof Hw' as Hport. unfold PortSchema in Hw'. rewrite accept_preprocess, accept_number in Hw'.
      destruct Hw' as (Hw1 & n & Hn & _ & Hb). rewrite Hn in Hw1. subst w'. destruct n as [z| | |]; try done.
      exists z. cbn in Hb. split; [lia|]. by apply parse_accept_iff.
    + unfold UnixPathSchema in Hw. rewrite accept_union in Hw.
      destruct (accept (ZString [ranchored unix_body]) _) as [u|] eqn:E.
      * apply accept_anchored in E as (_ & p & Hpp & Hl); [|done]. exists p. split; [done|]. by apply lang_unix.
      * cbn [accept] in Hw. destruct (jget "root" formData) as [| | | |y| | |]; try done.
        destruct (decide (y = "")) as [->|]; done.
  - intros ((d & Hd & Hdom) & (n & Hn & Hport) & (p & Hp & Hpath)). rewrite Hd, Hp. split_and!; try done.
    + destruct Hpath as (segs & -> & _). done.
    + exists (JStr p). unfold UnixPathSchema. rewrite accept_union.
      replace (accept (ZString [ranchored unix_body]) (JStr p)) with (Some (JStr p)); [done|]. symmetry.
      apply accept_anchored; [done|]. split; [done|]. exists p. split; [done|]. by apply lang_unix.
    + apply parse_accept_iff in Hport. unfold PortSchema in Hport.
      rewrite accept_preprocess, accept_number in Hport. destruct Hport as (Hpre & _).
      destruct (jget "port" formData) as [| | |z|s| | |]; try done.
      * cbn [port_preprocess] in Hpre. injection Hpre as <-. simpl. destruct (Z.eqb_spec n 0); [lia|done].
      * simpl. by destruct (bool_decide_reflect (s = "")) as [->|].
    + exists (JNum (NInt n)). by apply parse_accept_iff.
    + destruct Hdom as (ls & tld & -> & Hls & _). destruct ls as [|l ls]; [done|]. cbn [app].
      rewrite join_cons by apply snoc_nonempty. by destruct l.
    + exists (JStr d). unfold DomainSchema. apply accept_anchored; [done|]. split; [done|].
      exists d. split; [done|]. by apply lang_domain.
Qed.

(** [validateLocation] of the form reports no error exactly for the locations
    [LocationConfigSchema] accepts: the form and the schema never disagree on a location. *)
Theorem validateLocation_agrees location :
  validateLocation location = [] <-> is_return (parse LocationConfigSchema location) = true.
Proof.
  unfold validateLocation, parse. destruct (safeParse LocationConfigSchema location) as [issues|w] eqn:E.
  - split; [|done]. intros Hl. exfalso. revert Hl. apply fold_issues_not_nil. by apply z_issues in E.
  - split; [done|]. intros _. rewrite set_if_nil. split; [|done]. apply check_spec.
    apply parse_accept in E. unfold LocationConfigSchema in E. apply accept_superRefine in E as (u & Hu & _).
    rewrite accept_object in Hu. destruct (object_props location) as [o|] eqn:Ho; [|done].
    destruct (accept_fields o LocationConfig_shape) as [o'|] eqn:Hf; [|done].
    assert (Hin : ("path", URLPathSchema) ∈ LocationConfig_shape) by (apply list_elem_of_In; by left).
    destruct (accept_fields_all _ _ _ _ _ Hf Hin) as [p Hp].
    assert (Hpath : jget "path" location = jget "path" (JObj o)).
    { destruct location; try done; by injection Ho as <-. }
    rewrite Hpath. split.
    + unfold URLPathSchema in Hp. apply accept_anchored in Hp as (_ & x & -> & Hx); [|done].
      apply lang_seq_inv in Hx as (a & b & -> & Ha & _). apply lang_rchar_iff in Ha as ->. done.
    + unfold validateURLPath. apply validate_accept. by exists p.
Qed.
End form_theorems.

(** ** Locations of a route *)

Lemma updateLocation_in_range l i x :
  (i < length l)%nat ->
  length (updateLocationInRoute l i x) = length l /\
  forall j, updateLocationInRoute l i x !! j = if decide (j = i) then Some x else l !! j.
Proof.
  intros Hi. unfold updateLocationInRoute. destruct (Nat.ltb_spec i (length l)); [|lia].
  split; [apply length_insert|]. intros j. destruct (decide (j = i)) as [->|Hne].
  - by rewrite list_lookup_insert_eq.
  - by rewrite list_lookup_insert_ne.
Qed.

Lemma removeLocation_aux (l : list jsval) (n i : nat) :
  List.map snd (List.filter (fun ix : nat * jsval => negb (fst ix =? n + i)%nat) (imap (fun j x => ((n + j)%nat, x)) l)) =
  take i l ++ drop (S i) l.
Proof.
  revert n i. induction l as [|x l IH]; intros n i; [by rewrite take_nil, drop_nil|].
  cbn [imap List.filter fst]. rewrite Nat.add_0_r.
  destruct i as [|i].
  - rewrite Nat.add_0_r, Nat.eqb_refl. cbn [negb take app drop].
    assert (Hall : forall k, (n < k)%nat -> List.filter (fun ix : nat * jsval => negb (fst ix =? n)%nat)
              (imap (fun j x => ((k + j)%nat, x)) l) = imap (fun j x => ((k + j)%nat, x)) l).
    { intros k Hk. apply filter_all. apply List.Forall_forall. intros [j y] Hin.
      apply list_elem_of_In, elem_of_lookup_imap in Hin as (j' & y' & [= -> ->] & _).
      cbn [fst]. apply negb_true_iff, Nat.eqb_neq. lia. }
    rewrite (imap_ext _ (fun j x => ((S n + j)%nat, x))) by (intros; simpl; f_equal; lia).
    rewrite Hall by lia. rewrite ?skipn_O. clear. generalize (S n). induction l as [|y l IH]; intros k; [done|].
    cbn [imap List.map snd]. f_equal.
    rewrite (imap_ext _ (fun j x => ((S k + j)%nat, x))) by (intros; simpl; f_equal; lia). apply IH.
  - destruct (Nat.eqb_spec n (n + S i)); [lia|]. cbn [negb List.map snd take drop app]. f_equal.
    rewrite (imap_ext _ (fun j x => ((S n + j)%nat, x))) by (intros; simpl; f_equal; lia).
    replace (n + S i)%nat with (S n + i)%nat by lia. apply IH.
Qed.

Lemma removeLocation_spec l i : removeLocation l i = take i l ++ drop (S i) l.
Proof. apply (removeLocation_aux l 0 i). Qed.

(** * Filtering logs *)

Definition str_or_undef (v : jsval) : Prop := v = JUndef \/ exists s, v = JStr s.

(** The fields the filter reads, typed as [LogEntry] and [LogFilters] type them. *)
Definition typed_log (log : jsval) : Prop :=
  (exists t, jget "timestamp" log = JDate (Some t)).
Definition typed_filters (f : jsval) : Prop :=
  truthy (jget "dateRange" f) = true ->
  exists a b, jget "start" (jget "dateRange" f) = JDate (Some a) /\ jget "end" (jget "dateRange" f) = JDate (Some b).

Definition field_matches (f log : jsval) (k : string) : bool :=
  negb (truthy (jget k f)) || negb (strict_ne (jget k log) (jget k f)).

Definition time_of (v : jsval) : Z := match v with JDate (Some t) => t | _ => 0 end.

(** A log passes when it passes each filter that is set. *)
Definition log_matches (f log : jsval) : bool :=
  (js_is_str (jget "level" f) "all" || field_matches f log "level") &&
  field_matches f log "source" && field_matches f log "routeId" &&
  (negb (truthy (jget "search" f)) ||
   includes (toLowerCase (str_of (jget "search" f))) (toLowerCase (str_of (jget "message" log)))) &&
  (negb (truthy (jget "dateRange" f)) ||
   ((time_of (jget "start" (jget "dateRange" f)) <=? time_of (jget "timestamp" log)) &&
    (time_of (jget "timestamp" log) <=? time_of (jget "end" (jget "dateRange" f))))).

Lemma filter_one_matches f log :
  typed_filters f -> typed_log log -> filter_one f log = Return (log_matches f log).
Proof.
  intros Hf (t & Ht). unfold filter_one, log_matches, field_matches.
  destruct (js_is_str (jget "level" f) "all"), (truthy (jget "level" f)), (strict_ne (jget "level" log) (jget "level" f)),
    (truthy (jget "source" f)), (strict_ne (jget "source" log) (jget "source" f)),
    (truthy (jget "routeId" f)), (strict_ne (jget "routeId" log) (jget "routeId" f)); simpl; try done;
  destruct (truthy (jget "search" f)); simpl; try done;
  try (destruct (includes _ _); simpl; [|done]);
  (destruct (truthy (jget "dateRange" f)) eqn:Hd; [|done];
   destruct (Hf Hd) as (a & b & Ha & Hb); rewrite Ht, Ha, Hb; cbn;
   f_equal; destruct (Z.ltb_spec t a), (Z.ltb_spec b t), (Z.leb_spec a t), (Z.leb_spec t b); simpl; done || lia).
Qed.

(** [filterLogs] on typed logs never throws and returns, in order, exactly the entries
    that pass every filter that is set: level unless it is [all], source, route, a
    case-insensitive search in the message, and an inclusive date range. *)
Theorem filterLogs_spec logs f :
  typed_filters f -> Forall typed_log logs ->
  filterLogs logs f = Return (List.filter (log_matches f) logs).
Proof.
  intros Hf. induction 1 as [|log logs Hl _ IH]; [done|]. cbn [filterLogs].
  rewrite filter_one_matches by done. rewrite IH. cbn. by destruct (log_matches f log).
Qed.

(** * The theorems at work, on the browser repository *)

#[local] Existing Instances zod_model zod_model_laws no_host open_storage.
#[local] Instance sample_repository : RouteRepository storage := BrowserStorage.repository "nginx_routes" 0.
#[local] Instance sample_laws : RouteRepositoryLaws storage := browser_laws_instance "nginx_routes" 0.

Definition sample_data : obj :=
  [("domain", JStr "example.com"); ("port", JNum (NInt 8080)); ("root", JStr "/srv/www");
   ("enabled", JBool true); ("ssl", JBool false); ("locations", JArr [])].
Definition sample_new : jsval := new_route sample_data 1700000000000 "abc".

Ltac closed_fields :=
  let k := fresh in let x := fresh in let Hin := fresh in
  intros k x Hin; intros; apply list_elem_of_In in Hin; vm_compute in Hin;
  repeat (destruct Hin as [[= <- <-]|Hin]; [try exact I; try congruence|]); try (by destruct Hin).

Lemma sample_storable (en : bool) (upd : Z) :
  time_valid upd = true ->
  storable (JObj [("domain", JStr "example.com"); ("port", JNum (NInt 8080)); ("root", JStr "/srv/www");
                  ("enabled", JBool en); ("ssl", JBool false); ("locations", JArr []);
                  ("id", JStr "route_1700000000000_abc");
                  ("metadata", JObj [("createdAt", JDate (Some 1700000000000)); ("updatedAt", JDate (Some upd));
                        ("createdBy", JStr "system"); ("tags", JArr [])])])
    [("domain", JStr "example.com"); ("port", JNum (NInt 8080)); ("root", JStr "/srv/www");
     ("enabled", JBool en); ("ssl", JBool false); ("locations", JArr []); ("id", JStr "route_1700000000000_abc");
     ("metadata", JObj [("createdAt", JDate (Some 1700000000000)); ("updatedAt", JDate (Some upd));
                        ("createdBy", JStr "system"); ("tags", JArr [])])]
    [("createdAt", JDate (Some 1700000000000)); ("updatedAt", JDate (Some upd));
     ("createdBy", JStr "system"); ("tags", JArr [])] 1700000000000 upd.
Proof.
  intros Hu. constructor; try reflexivity; try done.
  - repeat split; refine (proj1 (bool_decide_spec (NoDup _)) _); vm_compute; exact I.
  - closed_fields.
  - closed_fields.
Qed.

Lemma createRoute_all_or_nothing_witness :
  match createRoute sample_data 1700000000000 "abc" ∅ with
  | (Return id, s') =>
      id = "route_1700000000000_abc" /\ is_return (parse RouteSchema sample_new) = true /\ repo_ok s' /\
      repo_view s' = obj_set id (repo_kept sample_new) (repo_view ∅)
  | (Throw _, s') => s' = ∅
  end.
Proof.
  apply (createRoute_all_or_nothing sample_data 1700000000000 "abc" ∅).
  - split; [apply List.Forall_nil|apply NoDup_nil_2].
  - eapply storable_holds. apply (sample_storable true 1700000000000). reflexivity.
Defined.

Definition sample_storage : storage := snd (createRoute sample_data 1700000000000 "abc" ∅).
Definition sample_obj : obj := match sample_new with JObj o => o | _ => [] end.

Lemma sample_storage_ok : repo_ok sample_storage /\ obj_get "route_1700000000000_abc" (repo_view sample_storage) = Some (JObj sample_obj).
Proof.
  split; [split|vm_compute; reflexivity].
  - replace (stored "nginx_routes" 0 sample_storage) with [sample_new] by (vm_compute; reflexivity).
    apply List.Forall_cons; [|apply List.Forall_nil].
    exact (storable_settled 0 _ _ _ _ _ (sample_storable true 1700000000000 eq_refl)).
  - vm_compute. refine (proj1 (bool_decide_spec (NoDup _)) _). vm_compute. exact I.
Qed.

Definition sample_updated : jsval := updated_route (JObj sample_obj) [("enabled", JBool false)] 1700000001000.

Lemma updateRoute_all_or_nothing_witness :
  match updateRoute "route_1700000000000_abc" [("enabled", JBool false)] 1700000001000 sample_storage with
  | (Return _, s') =>
      repo_ok s' /\ repo_view s' = obj_set (route_id sample_updated) (repo_kept sample_updated) (repo_view sample_storage)
  | (Throw e, s') => fst (repo_save sample_updated sample_storage) = Throw e /\ s' = sample_storage
  end /\
  jget "port" sample_updated = JNum (NInt 8080) /\
  updateRoute "gone" [] 0 sample_storage = (Throw (js_error "Route not found"), sample_storage).
Proof.
  pose proof (updateRoute_all_or_nothing "route_1700000000000_abc" [("enabled", JBool false)] 1700000001000
                sample_storage (proj1 sample_storage_ok)) as H.
  rewrite (proj2 sample_storage_ok) in H. destruct H as (_ & Hsaved & Hfields). split_and!.
  - apply Hsaved; [vm_compute; reflexivity|].
    eapply storable_holds. apply (sample_storable false 1700000001000). reflexivity.
  - destruct (Hfields sample_obj eq_refl) as (_ & Hk & _); [nodup_literals|nodup_literals|].
    apply (Hk "port"). discriminate.
  - pose proof (updateRoute_all_or_nothing "gone" [] 0 sample_storage (proj1 sample_storage_ok)) as H.
    assert (Hgone : obj_get "gone" (repo_view sample_storage) = None) by (vm_compute; reflexivity).
    rewrite Hgone in H. exact H.
Defined.

Lemma toggleRouteStatus_flips_witness :
  match toggleRouteStatus "route_1700000000000_abc" 1700000001000 sample_storage with
  | (Return _, s') =>
      repo_ok s' /\ exists new,
        repo_view s' = obj_set "route_1700000000000_abc" (repo_kept new) (repo_view sample_storage) /\
        jget "enabled" new = JBool false /\
        (forall k, k <> "metadata" -> k <> "enabled" -> jget k new = jget k (JObj sample_obj))
  | (Throw _, s') => s' = sample_storage
  end.
Proof.
  apply (toggleRouteStatus_flips "route_1700000000000_abc" sample_obj).
  - apply sample_storage_ok.
  - apply sample_storage_ok.
  - nodup_literals.
  - reflexivity.
  - eapply storable_holds. apply (sample_storable false 1700000001000). reflexivity.
Defined.

(** Both calls do succeed on that storage. *)
Example sample_toggle_succeeds :
  is_return (fst (toggleRouteStatus "route_1700000000000_abc" 1700000001000 sample_storage)) = true.
Proof. vm_compute. reflexivity. Qed.

Lemma validateForm_spec_witness : validateForm sample_new = [].
Proof.
  apply validateForm_spec. split_and!.
  - exists "example.com". split; [reflexivity|]. apply lang_domain, test_anchored; [reflexivity|]. vm_compute. reflexivity.
  - exists 8080. split; [lia|]. vm_compute. reflexivity.
  - exists "/srv/www". split; [reflexivity|]. apply lang_unix, test_anchored; [reflexivity|]. vm_compute. reflexivity.
Defined.

Lemma validateLocation_agrees_witness :
  validateLocation (JObj [("path", JStr "/api"); ("index", JStr "index.html")]) = [].
Proof. apply validateLocation_agrees. vm_compute. reflexivity. Defined.

Lemma filterLogs_spec_witness :
  let log := JObj [("level", JStr "info"); ("message", JStr "Started"); ("source", JStr "system");
                   ("timestamp", JDate (Some 5))] in
  let f := JObj [("level", JStr "all"); ("search", JStr "START")] in
  filterLogs [log] f = Return (List.filter (log_matches f) [log]).
Proof.
  apply filterLogs_spec.
  - intros Hd. discriminate Hd.
  - apply List.Forall_cons; [|apply List.Forall_nil]. exists 5. reflexivity.
Defined.
