(* ===== verification/Stores.v ===== *)
(** * Client stores (packages/shared/src/store)

    A store is a record and its actions are functions on it; an asynchronous action also
    runs on the state of the repository or of the browser storage.  Each store's actions are
    the constructors of a step relation, and its invariant is proved of every reachable
    state.  [set] of the library merges the fields it is given: the other fields keep their
    values in each action below. *)

From S2P Require Import Prelude JsString Regex JsValue Dates Json Secrets Zod Schemas Repositories UseCases.

(** ** slices/routesSlice.ts *)
Module RoutesStore.
Section store.
Context {S : Type} `{RouteRepository S} `{Zod} `{HostDate}.

Record state := State {
  routes : obj;
  currentRouteId : option string;
  isLoading : bool;
  error : option string
}.
Definition init : state := State [] None false None.

(** The store beside the repository it was created with. *)
Abbreviation world := (state * S)%type.

Definition set (f : state -> state) : eff world unit := fun w => (Return tt, (f (fst w), snd w)).
Definition on_repository {A} (m : eff S A) : eff world A := fun w =>
  let (o, s') := m (snd w) in (o, (fst w, s')).

Definition set_error (e : jserror) (st : state) : state :=
  State (routes st) (currentRouteId st) (isLoading st) (Some (redactPotentialSecrets (err_message e))).

(** [try { m } catch (error) { set({ error: ... }); throw error; }] *)
Definition reporting {A} (m : eff world A) : eff world A :=
  try_catch m (fun e => _ ← set (set_error e); throw e).

Definition sanitizeRoutesMap (rs : obj) : obj :=
  obj_of_entries (List.map (fun e => (fst e, sanitizeForJson (snd e))) rs).

Definition addRoute (routeData : obj) (now : Z) (suffix : string) : eff world string :=
  reporting (on_repository (createRoute routeData now suffix)).

Definition updateRoute (id : string) (updates : obj) (now : Z) : eff world unit :=
  reporting (on_repository (UseCases.updateRoute id updates now)).

Definition deleteRoute (id : string) : eff world unit :=
  reporting (
    _ ← on_repository (repo_delete id);
    set (fun st => State (routes st)
           (if decide (currentRouteId st = Some id) then None else currentRouteId st)
           (isLoading st) (error st))).

Definition toggleRouteStatus (id : string) (now : Z) : eff world unit :=
  reporting (on_repository (UseCases.toggleRouteStatus id now)).

Definition setCurrentRoute (id : option string) : eff world unit :=
  set (fun st => State (routes st) id (isLoading st) (error st)).

Definition loadRoutes : eff world unit :=
  _ ← set (fun st => State (routes st) (currentRouteId st) true None);
  try_catch
    (rs ← on_repository repo_loadAll;
     set (fun st => State (sanitizeRoutesMap rs) (currentRouteId st) false (error st)))
    (fun e => set (fun st => State (routes st) (currentRouteId st) false
                               (Some (redactPotentialSecrets (err_message e))))).

Definition saveRoutes : eff world bool :=
  try_catch
    (w ← get_state; _ ← on_repository (repo_saveAll (routes (fst w))); mret true)
    (fun e => _ ← set (set_error e); mret false).

(** *** repositoryHooks.ts and adapters/RouteRepositoryAdapter.ts

    The adapter reads the routes captured when the hook ran; its updater writes the store
    and saves it. *)
Definition adapter_set (captured : obj) (updater : obj -> obj) : eff world unit :=
  _ ← set (fun st => State (obj_of_entries (updater captured)) (currentRouteId st) (isLoading st) (error st));
  _ ← saveRoutes; mret tt.

Definition createRouteRepositoryAdapter (captured : obj) : RouteRepository world := {|
  repo_findAll := mret (List.map snd captured);
  repo_findById id := mret (match obj_get id captured with
                            | Some r => if nullish r then None else Some r | None => None end);
  repo_save route := adapter_set captured (fun rs => obj_set (route_id route) route (obj_of_entries rs));
  repo_delete id := adapter_set captured (fun rs => obj_remove id (obj_of_entries rs));
  repo_saveAll rs := adapter_set captured (fun _ => obj_of_entries rs);
  repo_loadAll := mret captured
|}.

Definition useRoutesRepository (st : state) : RouteRepository world := createRouteRepositoryAdapter (routes st).

(** *** Steps

    The store's own actions, and the two writes of the hook's adapter.  A write starts from the
    map its hook captured when it rendered, so the renders are steps as well: they record what
    the hooks may still hold.  [saved] lists the routes that use cases gave to the adapter. *)
Record scene := Scene { at_work : world; captures : list obj; saved : list jsval }.

Inductive action (w w' : world) : Prop :=
  | S_add d now sfx o : addRoute d now sfx w = (o, w') -> action w w'
  | S_update id u now o : updateRoute id u now w = (o, w') -> action w w'
  | S_delete id o : deleteRoute id w = (o, w') -> action w w'
  | S_toggle id now o : toggleRouteStatus id now w = (o, w') -> action w w'
  | S_current id o : setCurrentRoute id w = (o, w') -> action w w'
  | S_load o : loadRoutes w = (o, w') -> action w w'
  | S_save o : saveRoutes w = (o, w') -> action w w'.

Inductive step : scene -> scene -> Prop :=
  | S_action w w' cs rs : action w w' -> step (Scene w cs rs) (Scene w' cs rs)
  | S_render w cs rs : step (Scene w cs rs) (Scene w (routes (fst w) :: cs) rs)
  | S_hook_save w w' cs rs captured route o : captured ∈ cs ->
      @repo_save _ (createRouteRepositoryAdapter captured) route w = (o, w') ->
      step (Scene w cs rs) (Scene w' cs (route :: rs))
  | S_hook_delete w w' cs rs captured id o : captured ∈ cs ->
      @repo_delete _ (createRouteRepositoryAdapter captured) id w = (o, w') ->
      step (Scene w cs rs) (Scene w' cs rs)
  | S_hook_saveAll w w' cs rs captured all o :
      @repo_saveAll _ (createRouteRepositoryAdapter captured) all w = (o, w') ->
      step (Scene w cs rs) (Scene w' cs (List.map snd all ++ rs)).

(** An error without a bearer token. *)
Definition error_safe (st : state) : Prop := forall e, error st = Some e -> test bearer_pattern e = false.

(** A route without sensitive fields, or one that a use case gave to the adapter. *)
Definition accounted (rs : list jsval) (kv : string * jsval) : Prop :=
  hasSensitiveFieldName (snd kv) = false \/ snd kv ∈ rs.

(** What the store shows: no bearer token in its error, and no route but sanitised ones and those
    the adapter was given; the same holds of what the hooks captured. *)
Definition safe (c : scene) : Prop :=
  error_safe (fst (at_work c)) /\ Forall (accounted (saved c)) (routes (fst (at_work c))) /\
  Forall (Forall (accounted (saved c))) (captures c).
End store.
Arguments state : clear implicits.
Arguments scene : clear implicits.
End RoutesStore.

(** ** slices/serverSlice.ts *)
Module ServerStore.
Record state := State { status : server_status; stats : obj; version : string; lastUpdated : Z }.
Definition init (now : Z) : state :=
  State stopped
    [("requests", JNum (NInt 0)); ("traffic", JStr "0B"); ("activeConnections", JNum (NInt 0));
     ("uptime", JNum (NInt 0)); ("cpuUsage", JNum (NInt 0)); ("memoryUsage", JNum (NInt 0))] "" now.
Definition toggleStatus (newStatus : option server_status) (st : state) : state :=
  State (UseCases.toggleStatus (status st) newStatus) (stats st) (version st) (lastUpdated st).
Definition updateStats (newStats : obj) (now : Z) (st : state) : state :=
  State (status st) (UseCases.updateStats (stats st) newStats) (version st) now.
Definition updateServerInfo (v : string) (now : Z) (st : state) : state :=
  State (status st) (stats st) v now.
End ServerStore.

(** ** slices/uiSidebarSlice.ts *)
Module SidebarStore.
Record state := State { isSidebarOpen : bool; sidebarWidth : jsnum; isResizing : bool }.
Definition init : state := State true (NInt 300) false.
Definition toggleSidebar (st : state) : state := State (negb (isSidebarOpen st)) (sidebarWidth st) (isResizing st).
(** [Math.max(200, Math.min(500, width))] *)
Definition clamp_width (w : jsnum) : jsnum :=
  match w with
  | NInt z => NInt (Z.max 200 (Z.min 500 z))
  | NDec m k =>
      if 500 * 10 ^ Z.pos k <=? m then NInt 500
      else if m <=? 200 * 10 ^ Z.pos k then NInt 200 else w
  | NNaN => NNaN
  | NInf neg => if neg then NInt 200 else NInt 500
  end.
Definition setSidebarWidth (width : jsnum) (st : state) : state :=
  State (isSidebarOpen st) (clamp_width width) (isResizing st).
Definition startResizing (st : state) : state := State (isSidebarOpen st) (sidebarWidth st) true.
Definition stopResizing (st : state) : state := State (isSidebarOpen st) (sidebarWidth st) false.

Inductive step (st : state) : state -> Prop :=
  | S_toggle : step st (toggleSidebar st)
  | S_width w : step st (setSidebarWidth w st)
  | S_start : step st (startResizing st)
  | S_stop : step st (stopResizing st).
End SidebarStore.

(** ** slices/logsSlice.ts *)
Module LogsStore.
Record state := State { logs : list jsval; filters : obj; isLoading : bool; isLive : bool }.
Definition init : state :=
  State [] [("level", JStr "all"); ("search", JStr ""); ("source", JUndef); ("dateRange", JUndef); ("routeId", JUndef)]
    false false.

(** [/(token|secret|...|session)/iu] *)
Definition SENSITIVE_KEY_PATTERN : regex :=
  RGroup 1 (ralts (List.map rlit_i
    ["token"; "secret"; "password"; "passphrase"; "private"; "auth"; "credential"; "key"; "jwt"; "session"])).

Definition sanitize_context_entry (e : string * jsval) : string * jsval :=
  (fst e,
   if test SENSITIVE_KEY_PATTERN (fst e) then JStr "[redacted]"
   else match snd e with JStr s => JStr (redactPotentialSecrets s) | v => v end).

Definition sanitizeLogContext (context : jsval) : jsval :=
  if truthy context then JObj (obj_of_entries (List.map sanitize_context_entry (spread_props context))) else JUndef.

(** [redactPotentialSecrets(log.message)]: a message that is not a string throws. *)
Definition redact_message (log : jsval) : outcome jsval :=
  message ← prop "message" log;
  match message with JStr s => Return (JStr (redactPotentialSecrets s)) | _ => Throw type_error end.

(** [{ ...log, message: ..., context: ... }] *)
Definition sanitizeLog (log : jsval) : outcome jsval :=
  message ← redact_message log;
  Return (JObj (obj_spread (obj_spread [] (spread_props log))
    [("message", message); ("context", sanitizeLogContext (jget "context" log))])).

Definition addLog (log : jsval) (now : Z) (suffix : string) : eff state unit := fun st =>
  match sanitizeLog log with
  | Return l => (Return tt, State (logs st ++ [createLogEntry l now suffix]) (filters st) (isLoading st) (isLive st))
  | Throw e => (Throw e, st)
  end.
Definition clearLogs (st : state) : state := State [] (filters st) (isLoading st) (isLive st).
Definition setFilter (newFilters : obj) (st : state) : state :=
  State (logs st) (obj_spread (obj_spread [] (filters st)) newFilters) (isLoading st) (isLive st).

(** With nothing saved, the flag raised at the start is not lowered. *)
Definition loadLogs (saved : option string) (st : state) : state :=
  let st := State (logs st) (filters st) true (isLive st) in
  match saved with
  | Some text =>
      if nonempty text then
        match (v ← json_parse text;
               match v with JArr l => mapM_out sanitizeLog l | _ => Throw type_error end) with
        | Return ls => State ls (filters st) false (isLive st)
        | Throw _ => State (logs st) (filters st) false (isLive st)
        end
      else st
  | None => st
  end.
Definition startLive (st : state) : state := State (logs st) (filters st) (isLoading st) true.
Definition stopLive (st : state) : state := State (logs st) (filters st) (isLoading st) false.

Inductive step (st st' : state) : Prop :=
  | S_add log now sfx o : addLog log now sfx st = (o, st') -> step st st'
  | S_clear : st' = clearLogs st -> step st st'
  | S_filter f : st' = setFilter f st -> step st st'
  | S_load saved : st' = loadLogs saved st -> step st st'
  | S_start : st' = startLive st -> step st st'
  | S_stop : st' = stopLive st -> step st st'.

(** A stored entry: a redacted message, and a context whose sensitive keys hold the mark and
    whose other texts are redacted. *)
Definition entry_safe (log : jsval) : Prop :=
  (forall s, jget "message" log = JStr s -> test bearer_pattern s = false) /\
  (forall o k v, jget "context" log = JObj o -> (k, v) ∈ o ->
     (test SENSITIVE_KEY_PATTERN k = true -> v = JStr "[redacted]") /\
     (forall s, v = JStr s -> test bearer_pattern s = false)).
End LogsStore.

(** ** slices/routeFormSlice.ts *)
Module RouteFormStore.
Record state := State {
  isEditing : bool;
  formData : jsval;
  isLocationModalOpen : bool;
  editingLocationIndex : option nat;
  locationFormData : jsval;
  validationErrors : list (string * string)
}.

Definition initialRouteForm : obj :=
  [("domain", JStr ""); ("port", JNum (NInt 80)); ("root", JStr "/var/www/html"); ("enabled", JBool true);
   ("ssl", JBool false); ("locations", JArr []);
   ("advanced", JObj [("client_max_body_size", JStr "1m"); ("keepalive_timeout", JStr "65s");
      ("gzip", JBool true); ("gzip_types", JStr "text/plain text/css application/json");
      ("caching", JBool false); ("cache_valid", JStr "5m")])].
Definition initialLocationForm : obj :=
  [("path", JStr "/"); ("proxy_pass", JUndef); ("try_files", JUndef); ("index", JStr "index.html");
   ("extra_directives", JStr "")].

Definition init : state := State false (JObj initialRouteForm) false None (JObj initialLocationForm) [].

(** [{ ...v, k: x }] *)
Definition with_prop (v : jsval) (k : string) (x : jsval) : jsval :=
  JObj (obj_spread (obj_spread [] (spread_props v)) [(k, x)]).

Definition setField (field : string) (value : jsval) (st : state) : state :=
  State (isEditing st) (sanitizeForJson (with_prop (formData st) field value)) (isLocationModalOpen st)
    (editingLocationIndex st) (locationFormData st) (obj_spread (obj_spread [] (validationErrors st)) [(field, "")]).

Definition setAdvancedField (field : string) (value : jsval) (st : state) : state :=
  State (isEditing st)
    (with_prop (formData st) "advanced" (sanitizeForJson (with_prop (jget "advanced" (formData st)) field value)))
    (isLocationModalOpen st) (editingLocationIndex st) (locationFormData st) (validationErrors st).

Definition setLocationField (field : string) (value : jsval) (st : state) : state :=
  State (isEditing st) (formData st) (isLocationModalOpen st) (editingLocationIndex st)
    (sanitizeForJson (with_prop (locationFormData st) field value)) (validationErrors st).

(** [state.formData.locations?.[index]] *)
Definition location_at (st : state) (index : nat) : jsval :=
  default JUndef (jlist (jget "locations" (formData st)) !! index).

Definition openLocationModal (index : option nat) (st : state) : state :=
  State (isEditing st) (formData st) true index
    (match index with
     | Some i =>
         if truthy (location_at st i)
         then sanitizeForJson (JObj (obj_spread [] (spread_props (location_at st i))))
         else JObj initialLocationForm
     | None => JObj initialLocationForm
     end) (validationErrors st).

Definition closeLocationModal (st : state) : state :=
  State (isEditing st) (formData st) false None (JObj initialLocationForm) (validationErrors st).

(** The index being edited is left as it is. *)
Definition addLocation (st : state) : state :=
  let locations := jlist (jget "locations" (formData st)) in
  let newLocation := createLocation (locationFormData st) in
  State (isEditing st)
    (sanitizeForJson (with_prop (formData st) "locations" (JArr (locations ++ [newLocation]))))
    false (editingLocationIndex st) (JObj initialLocationForm) (validationErrors st).

Definition updateLocation (st : state) : state :=
  let locations := jlist (jget "locations" (formData st)) in
  let locations :=
    match editingLocationIndex st with
    | Some i => if truthy (default JUndef (locations !! i))
                then <[i := createLocation (locationFormData st)]> locations else locations
    | None => locations
    end in
  State (isEditing st) (sanitizeForJson (with_prop (formData st) "locations" (JArr locations)))
    false None (JObj initialLocationForm) (validationErrors st).

(** [locations.splice(index, 1)] *)
Definition deleteLocation (index : nat) (st : state) : state :=
  let locations := jlist (jget "locations" (formData st)) in
  State (isEditing st)
    (sanitizeForJson (with_prop (formData st) "locations" (JArr (take index locations ++ drop (S index) locations))))
    (isLocationModalOpen st) (editingLocationIndex st) (locationFormData st) (validationErrors st).

Definition resetForm (st : state) : state :=
  State false (JObj initialRouteForm) (isLocationModalOpen st) (editingLocationIndex st) (locationFormData st) [].

Definition setFormData (route : jsval) (st : state) : state :=
  State (truthy (jget "id" route)) (sanitizeForJson route) (isLocationModalOpen st) (editingLocationIndex st)
    (locationFormData st) [].

Section validate.
Context `{Zod}.
Definition validateForm (st : state) : bool * state :=
  let errors := UseCases.validateForm (formData st) in
  ((length errors =? 0)%nat,
   State (isEditing st) (formData st) (isLocationModalOpen st) (editingLocationIndex st) (locationFormData st) errors).

Inductive step (st : state) : state -> Prop :=
  | S_field f v : step st (setField f v st)
  | S_advanced f v : step st (setAdvancedField f v st)
  | S_location f v : step st (setLocationField f v st)
  | S_open i : step st (openLocationModal i st)
  | S_close : step st (closeLocationModal st)
  | S_add : step st (addLocation st)
  | S_update : step st (updateLocation st)
  | S_delete i : step st (deleteLocation i st)
  | S_reset : step st (resetForm st)
  | S_set r : step st (setFormData r st)
  | S_validate : step st (snd (validateForm st)).
End validate.

(** Nothing in the form has a sensitive name. *)
Definition safe (st : state) : Prop :=
  hasSensitiveFieldName (formData st) = false /\ hasSensitiveFieldName (locationFormData st) = false.
End RouteFormStore.

(** ** useRouteFormStore.ts *)
Module ModalStore.
Inductive mode := create | edit.
Inductive tab := basic | locations | advanced | preview.
Record state := State {
  modalOpen : bool;
  form_mode : mode;
  activeTab : tab;
  editing_index : option nat;
  editing_value : jsval
}.
Definition init : state := State false create basic None JNull.
Definition openForCreate (st : state) : state := State true create basic (editing_index st) (editing_value st).
Definition openForEdit (st : state) : state := State true edit basic (editing_index st) (editing_value st).
Definition closeModal (st : state) : state := State false (form_mode st) (activeTab st) None JNull.
Definition setActiveTab (t : tab) (st : state) : state :=
  State (modalOpen st) (form_mode st) t (editing_index st) (editing_value st).
Definition startEditLocation (index : option nat) (value : jsval) (st : state) : state :=
  State (modalOpen st) (form_mode st) (activeTab st) index (sanitizeForJson value).

Inductive step (st : state) : state -> Prop :=
  | S_create : step st (openForCreate st)
  | S_edit : step st (openForEdit st)
  | S_close : step st (closeModal st)
  | S_tab t : step st (setActiveTab t st)
  | S_start i v : step st (startEditLocation i v st).
End ModalStore.

(** * The routes store *)

Lemma show_nat_not_sensitive n : isSensitiveFieldName (show_nat n) = false.
Proof.
  unfold isSensitiveFieldName. apply andb_false_iff. left.
  apply (test_needs is_alpha); [vm_compute; reflexivity|]. rewrite str_existsb_forallb. apply negb_false_iff.
  eapply str_forallb_impl; [|apply show_N_digits].
  intros c. destruct c as [[] [] [] [] [] [] [] []]; vm_compute; congruence.
Qed.

Lemma spread_props_safe v :
  hasSensitiveFieldName v = false ->
  Forall (fun kv => isSensitiveFieldName (fst kv) = false /\ hasSensitiveFieldName (snd kv) = false) (spread_props v).
Proof.
  destruct v as [| | | |s| |l|o]; intros Hv; simpl; try constructor.
  - apply List.Forall_forall. intros [k x] Hin. apply list_elem_of_In, elem_of_lookup_imap in Hin.
    destruct Hin as (i & c & [= -> ->] & _). split; [apply show_nat_not_sensitive|done].
  - apply List.Forall_forall. intros [k x] Hin. apply list_elem_of_In, elem_of_lookup_imap in Hin.
    destruct Hin as (i & c & [= -> ->] & Hc). split; [apply show_nat_not_sensitive|].
    simpl in Hv. rewrite existsb_false_Forall in Hv.
    apply (proj1 (List.Forall_forall _ _) Hv), list_elem_of_In. by eapply list_elem_of_lookup_2.
  - by rewrite has_sensitive_obj, some_sensitive_Forall in Hv.
Qed.

Section routes_store.
Context {S : Type} `{RouteRepository S} `{Zod} `{HostDate}.
Import RoutesStore.

(** A store's state is safe, for the routes the adapter was given so far. *)
Abbreviation safe_state rs st := (error_safe st /\ Forall (accounted rs) (routes st)).

Lemma set_error_safe rs e st : safe_state rs st -> safe_state rs (set_error e st).
Proof. intros [_ Hr]. split; [|done]. simpl. intros x [= <-]. apply redacted_no_bearer. Qed.

Lemma sanitizeRoutesMap_safe rs :
  Forall (fun kv : string * jsval => hasSensitiveFieldName (snd kv) = false) (sanitizeRoutesMap rs).
Proof.
  unfold sanitizeRoutesMap. apply obj_of_entries_Forall, Forall_map_iff, List.Forall_forall.
  intros [k r] _. apply sanitize_field_names.
Qed.

Lemma accounted_more rs rs' m : Forall (accounted rs) m -> (forall r, r ∈ rs -> r ∈ rs') -> Forall (accounted rs') m.
Proof. intros Hm Hin. eapply List.Forall_impl; [|exact Hm]. intros kv [Hk|Hk]; [by left|right; auto]. Qed.

(** An action on the repository that reports its failure. *)
Lemma reporting_safe {A} rs (m : eff S A) st s o w' :
  safe_state rs st -> reporting (on_repository m) (st, s) = (o, w') -> safe_state rs (fst w').
Proof.
  intros Hs. unfold reporting, on_repository, try_catch. cbn [fst snd].
  destruct (m s) as [[a|e] s']; [by intros [= _ <-]|]. intros [= _ <-]. by apply set_error_safe.
Qed.

Lemma deleteRoute_safe rs id st s o w' :
  safe_state rs st -> deleteRoute id (st, s) = (o, w') -> safe_state rs (fst w').
Proof.
  intros [He Hr]. unfold deleteRoute, reporting, on_repository, set. run_eff.
  destruct (repo_delete id s) as [[[]|e] s'].
  - intros [= _ <-]. by split.
  - intros [= _ <-]. by apply set_error_safe.
Qed.

Lemma loadRoutes_cases st s :
  loadRoutes (st, s) =
  match repo_loadAll s with
  | (Return rs, s') => (Return tt, (State (sanitizeRoutesMap rs) (currentRouteId st) false None, s'))
  | (Throw e, s') =>
      (Return tt, (State (routes st) (currentRouteId st) false (Some (redactPotentialSecrets (err_message e))), s'))
  end.
Proof.
  unfold loadRoutes, on_repository, set. run_eff.
  by destruct (repo_loadAll s) as [[rs|e] s'].
Qed.

Lemma saveRoutes_cases st s :
  saveRoutes (st, s) =
  match repo_saveAll (routes st) s with
  | (Return _, s') => (Return true, (st, s'))
  | (Throw e, s') => (Return false, (set_error e st, s'))
  end.
Proof.
  unfold saveRoutes, on_repository, set. run_eff.
  by destruct (repo_saveAll (routes st) s) as [[[]|e] s'].
Qed.

Lemma saveRoutes_safe rs st s o w' : safe_state rs st -> saveRoutes (st, s) = (o, w') -> safe_state rs (fst w').
Proof.
  intros Hs E. rewrite saveRoutes_cases in E. destruct (repo_saveAll _ s) as [[[]|e] s']; injection E as _ <-; [done|].
  by apply set_error_safe.
Qed.

Lemma action_safe rs w w' : safe_state rs (fst w) -> action w w' -> safe_state rs (fst w').
Proof.
  destruct w as [st s]. intros Hs Hact.
  inversion Hact as [d now sfx o E|id u now o E|id o E|id now o E|id o E|o E|o E].
  - by eapply reporting_safe.
  - by eapply reporting_safe.
  - by eapply deleteRoute_safe.
  - by eapply reporting_safe.
  - injection E as _ <-. destruct Hs. by split.
  - rewrite loadRoutes_cases in E. destruct (repo_loadAll s) as [[m|e] s']; injection E as _ <-; split; simpl.
    + done.
    + eapply List.Forall_impl; [|apply sanitizeRoutesMap_safe]. intros kv Hkv. by left.
    + intros x [= <-]. apply redacted_no_bearer.
    + apply Hs.
  - by eapply saveRoutes_safe.
Qed.

(** A write of the adapter shows the map its updater makes and saves it. *)
Lemma adapter_set_safe rs captured updater w w' o :
  error_safe (fst w) -> Forall (accounted rs) (updater captured) ->
  adapter_set captured updater w = (o, w') -> safe_state rs (fst w').
Proof.
  destruct w as [st s]. intros He Hm E. unfold adapter_set, set in E. revert E. run_eff.
  set (st1 := State _ _ _ _). intros E.
  assert (Hs : safe_state rs st1) by (split; [exact He|by apply obj_of_entries_Forall]).
  destruct (saveRoutes (st1, s)) as [q w1] eqn:Hq. apply saveRoutes_safe with (rs := rs) in Hq; [|done].
  by destruct q as [b|e]; injection E as _ <-.
Qed.

Lemma obj_remove_Forall (P : string * jsval -> Prop) k (m : obj) : Forall P m -> Forall P (obj_remove k m).
Proof.
  intros Hm. apply List.Forall_forall. intros e He. apply List.filter_In in He as [He _].
  by apply (proj1 (List.Forall_forall _ _) Hm).
Qed.

Lemma step_safe c c' : safe c -> step c c' -> safe c'.
Proof.
  intros (He & Hr & Hc) Hstep. destruct Hstep as [w w' cs rs Ha|w cs rs|w w' cs rs captured route o Hin E|
      w w' cs rs captured id o Hin E|w w' cs rs captured all o E]; unfold safe in *; cbn [at_work captures saved] in *.
  - destruct (action_safe rs w w' (conj He Hr) Ha). by split_and!.
  - split_and!; [done|done|]. by constructor.
  - assert (Hmore : forall m, Forall (accounted rs) m -> Forall (accounted (route :: rs)) m).
    { intros m Hm. eapply accounted_more; [exact Hm|]. intros r Hr'. by apply list_elem_of_further. }
    assert (Hcap : Forall (accounted rs) captured)
      by (apply list_elem_of_In in Hin; by apply (proj1 (List.Forall_forall _ _) Hc)).
    apply adapter_set_safe with (rs := route :: rs) in E as [He' Hr']; [|done|].
    + split_and!; [done|done|]. eapply List.Forall_impl; [|exact Hc]. exact Hmore.
    + apply obj_set_Forall; [right; apply list_elem_of_here|]. by apply obj_of_entries_Forall, Hmore.
  - assert (Hcap : Forall (accounted rs) captured)
      by (apply list_elem_of_In in Hin; by apply (proj1 (List.Forall_forall _ _) Hc)).
    apply adapter_set_safe with (rs := rs) in E as [He' Hr']; [by split_and!|done|].
    by apply obj_remove_Forall, obj_of_entries_Forall.
  - assert (Hmore : forall m, Forall (accounted rs) m -> Forall (accounted (List.map snd all ++ rs)) m).
    { intros m Hm. eapply accounted_more; [exact Hm|]. intros r Hr'. apply elem_of_app. by right. }
    apply adapter_set_safe with (rs := List.map snd all ++ rs) in E as [He' Hr']; [|done|].
    + split_and!; [done|done|]. eapply List.Forall_impl; [|exact Hc]. exact Hmore.
    + apply obj_of_entries_Forall, List.Forall_forall. intros kv Hkv. right. apply elem_of_app. left.
      apply list_elem_of_In. by apply List.in_map.
Qed.

(** C30.  In every state the routes store reaches, by its own actions and by the writes of the
    page's hook, from whatever renders, over any repository and any failures: the error it
    shows holds no bearer token; every route it holds has no field with a sensitive name, or
    is, as it was given, one of the routes a use case saved through the hook; and once the
    store loads, the routes it shows are all without such a field, or it keeps what it showed. *)
Theorem routes_store_safe s c : rtc step (Scene (init, s) [] []) c ->
  (forall e, error (fst (at_work c)) = Some e -> test bearer_pattern e = false) /\
  (forall id r, (id, r) ∈ routes (fst (at_work c)) -> hasSensitiveFieldName r = false \/ r ∈ saved c) /\
  (let st' := fst (snd (loadRoutes (at_work c))) in
   match fst (repo_loadAll (snd (at_work c))) with
   | Return _ => forall id r, (id, r) ∈ routes st' -> hasSensitiveFieldName r = false
   | Throw _ => routes st' = routes (fst (at_work c))
   end).
Proof.
  intros Hr. assert (Hs : safe c).
  { assert (Hi : safe (Scene (init, s) [] [])) by (split_and!; [done|constructor|constructor]).
    revert Hi. induction Hr as [|c1 c2 c3 Hstep _ IH]; [done|]. intros Hi. apply IH. by eapply step_safe. }
  destruct Hs as (He & Hrs & _). split_and!; [exact He| |].
  - intros id r Hin. apply list_elem_of_In in Hin. apply (proj1 (List.Forall_forall _ _) Hrs _ Hin).
  - destruct c as [[st s'] cs rs]. cbn [at_work fst snd]. rewrite loadRoutes_cases.
    destruct (repo_loadAll s') as [[m|e] s2]; cbn [fst snd routes]; [|done]. intros id r Hin.
    apply list_elem_of_In in Hin. apply (proj1 (List.Forall_forall _ _) (sanitizeRoutesMap_safe m) _ Hin).
Qed.

(** [loadRoutes] never rejects and always lowers the loading flag: on success the store
    holds the repository's routes sanitised and no error, on failure it keeps its routes and
    shows the redacted message. *)
Theorem loadRoutes_settles st s :
  exists st' s', loadRoutes (st, s) = (Return tt, (st', s')) /\ isLoading st' = false /\
    currentRouteId st' = currentRouteId st /\
    match fst (repo_loadAll s) with
    | Return rs => routes st' = sanitizeRoutesMap rs /\ error st' = None
    | Throw e => routes st' = routes st /\ error st' = Some (redactPotentialSecrets (err_message e))
    end.
Proof. rewrite loadRoutes_cases. destruct (repo_loadAll s) as [[rs|e] s']; by repeat eexists. Qed.

(** Saving through the hook's adapter never rejects, even when the repository refuses
    the write, and rebuilds the map from the routes captured when the hook ran: what another
    save stored since then is not in the result. *)
Theorem adapter_save_from_snapshot captured route st s :
  exists st' s', @repo_save _ (createRouteRepositoryAdapter captured) route (st, s) = (Return tt, (st', s')) /\
    routes st' = obj_of_entries (obj_set (route_id route) route (obj_of_entries captured)) /\
    match fst (repo_saveAll (routes st') s) with
    | Return _ => error st' = error st
    | Throw e => error st' = Some (redactPotentialSecrets (err_message e))
    end.
Proof.
  unfold createRouteRepositoryAdapter. cbn [repo_save]. unfold adapter_set, set. run_eff. set (rs := obj_of_entries _).
  rewrite saveRoutes_cases. cbn [routes].
  destruct (repo_saveAll rs s) as [[[]|e] s'] eqn:E; unfold mret, eff_ret; eexists _, _; split; try reflexivity;
    split; try reflexivity; cbn [routes set_error]; by rewrite E.
Qed.
End routes_store.

(** * The sidebar *)

Definition width_ok (w : jsnum) : Prop :=
  match w with
  | NInt z => 200 <= z <= 500
  | NDec m k => 200 * 10 ^ Z.pos k <= m <= 500 * 10 ^ Z.pos k
  | NNaN => True
  | NInf _ => False
  end.

Lemma clamp_width_ok w : width_ok (SidebarStore.clamp_width w).
Proof.
  destruct w as [z|m k| |[]]; simpl; try lia.
  destruct (Z.leb_spec (500 * 10 ^ Z.pos k) m); simpl; [lia|].
  destruct (Z.leb_spec m (200 * 10 ^ Z.pos k)); simpl; lia.
Qed.

(** Whatever the user drags, the sidebar's width stays between 200 and 500 (or is NaN,
    when it was set to NaN). *)
Theorem sidebar_width_bounds st : rtc SidebarStore.step SidebarStore.init st -> width_ok (SidebarStore.sidebarWidth st).
Proof.
  intros Hr. assert (Hi : width_ok (SidebarStore.sidebarWidth SidebarStore.init)) by (simpl; lia).
  revert Hi. induction Hr as [|s1 s2 s3 Hstep _ IH]; [done|]. intros Hi. apply IH.
  destruct Hstep; try done. apply clamp_width_ok.
Qed.

(** * The logs store *)
Section logs_store.
Import LogsStore.

Lemma sanitizeLogContext_safe ctx o k v :
  sanitizeLogContext ctx = JObj o -> (k, v) ∈ o ->
  (test SENSITIVE_KEY_PATTERN k = true -> v = JStr "[redacted]") /\
  (forall s, v = JStr s -> test bearer_pattern s = false).
Proof.
  unfold sanitizeLogContext. destruct (truthy ctx); [|done]. intros [= <-] Hin.
  set (P := fun kv : string * jsval =>
    (test SENSITIVE_KEY_PATTERN (fst kv) = true -> snd kv = JStr "[redacted]") /\
    (forall s, snd kv = JStr s -> test bearer_pattern s = false)).
  assert (Hall : Forall P (obj_of_entries (List.map sanitize_context_entry (spread_props ctx)))).
  { apply obj_of_entries_Forall, Forall_map_iff, List.Forall_forall. intros [k' x] _.
    unfold P, sanitize_context_entry. cbn [fst snd].
    destruct (test SENSITIVE_KEY_PATTERN k') eqn:Hk.
    - split; [done|]. intros s [= <-]. vm_compute. reflexivity.
    - split; [done|]. intros s Hs. destruct x; simplify_eq. apply redacted_no_bearer. }
  apply list_elem_of_In in Hin. apply (proj1 (List.Forall_forall _ _) Hall (k, v) Hin).
Qed.

Lemma sanitizeLog_fields log l :
  sanitizeLog log = Return l ->
  (exists m, jget "message" l = JStr (redactPotentialSecrets m)) /\
  jget "context" l = sanitizeLogContext (jget "context" log).
Proof.
  unfold sanitizeLog, redact_message, mbind, outcome_bind, prop.
  destruct (nullish log); [done|]. destruct (jget "message" log) as [| | | |m| | |]; try done.
  intros <-%Return_inj. rewrite (jget_spread "message"), (jget_spread "context") by nodup_literals. split; [exists m|]; reflexivity.
Qed.

Lemma entry_safe_fields m ctx l :
  jget "message" l = JStr (redactPotentialSecrets m) -> jget "context" l = sanitizeLogContext ctx -> entry_safe l.
Proof.
  intros Hm Hc. split.
  - intros s Hs. rewrite Hm in Hs. injection Hs as <-. apply redacted_no_bearer.
  - intros o k v Ho. rewrite Hc in Ho. intros Hin. by eapply sanitizeLogContext_safe.
Qed.

Lemma createLogEntry_get l now sfx k :
  k <> "id" -> l <> JUndef -> (exists o, l = JObj o /\ NoDup (List.map fst o)) ->
  jget k (createLogEntry l now sfx) = jget k l.
Proof.
  intros Hk _ (o & -> & Hnd). unfold createLogEntry. rewrite jget_spread by nodup_literals.
  cbn [obj_get]. rewrite decide_False by done. cbn [spread_props].
  change (obj_spread [] o) with (obj_of_entries o). by rewrite obj_of_entries_id.
Qed.

Lemma sanitizeLog_obj log l : sanitizeLog log = Return l -> exists o, l = JObj o /\ NoDup (List.map fst o).
Proof.
  unfold sanitizeLog, mbind, outcome_bind. destruct (redact_message log); [|done]. intros <-%Return_inj.
  eexists. split; [done|]. apply obj_spread_NoDup, obj_spread_NoDup. constructor.
Qed.

Lemma logs_step_safe st st' : Forall entry_safe (logs st) -> step st st' -> Forall entry_safe (logs st').
Proof.
  intros Hs Hstep. destruct Hstep as [log now sfx o E|E|f E|saved E|E|E]; subst; try done.
  - unfold addLog in E. destruct (sanitizeLog log) as [l|e] eqn:Hl; injection E as _ <-; [|done].
    cbn [logs]. apply Forall_app. split; [done|]. apply List.Forall_cons; [|apply List.Forall_nil].
    destruct (sanitizeLog_fields _ _ Hl) as [[m Hm] Hc]. pose proof (sanitizeLog_obj _ _ Hl) as (o' & -> & Hnd).
    eapply entry_safe_fields; rewrite createLogEntry_get by (done || eauto); eauto.
  - unfold loadLogs. destruct saved as [text|]; [|done]. destruct (nonempty text); [|done].
    destruct (json_parse text ≫= _) as [ls|e] eqn:E; [|done]. cbn [logs].
    unfold mbind, outcome_bind in E. destruct (json_parse text) as [v|]; [|done].
    destruct v; try done. apply mapM_out_Forall2 in E. clear Hs.
    induction E as [|x y xs ys Hy _ IH]; [constructor|]. constructor; [|done].
    destruct (sanitizeLog_fields _ _ Hy) as [[m Hm] Hc]. by eapply entry_safe_fields.
Qed.

(** C33.  Every entry the logs store ever holds, added by a caller or loaded from storage, has
    a message and context texts without a bearer token, and the redaction mark for every
    context key that names a secret. *)
Theorem logs_store_safe st : rtc step init st -> Forall entry_safe (logs st).
Proof.
  intros Hr. assert (Hi : Forall entry_safe (logs init)) by constructor.
  revert Hi. induction Hr as [|s1 s2 s3 Hstep _ IH]; [done|]. intros Hi. apply IH. by eapply logs_step_safe.
Qed.

(** With nothing stored the loading flag stays up. *)
Example loadLogs_nothing_saved : isLoading (loadLogs None init) = true.
Proof. reflexivity. Qed.

(** A loaded entry keeps its timestamp as text, so filtering it by date throws. *)
Example loaded_log_date_filter :
  match logs (loadLogs (Some ("[{" +:+ dq +:+ "timestamp" +:+ dq +:+ ":" +:+ dq +:+ "2024-01-01T00:00:00.000Z" +:+ dq +:+
                              "," +:+ dq +:+ "message" +:+ dq +:+ ":" +:+ dq +:+ dq +:+ "}]")) init) with
  | [l] => filterLogs [l] (JObj [("dateRange", JObj [("start", JDate (Some 0)); ("end", JDate (Some 1))])]) = Throw type_error
  | _ => False
  end.
Proof. vm_compute. reflexivity. Qed.
End logs_store.

(** * The form store *)
Section form_store.
Context `{Zod}.
Import RouteFormStore.

Lemma safe_obj o :
  hasSensitiveFieldName (JObj o) = false <->
  Forall (fun kv => isSensitiveFieldName (fst kv) = false /\ hasSensitiveFieldName (snd kv) = false) o.
Proof. by rewrite has_sensitive_obj, some_sensitive_Forall. Qed.

Lemma with_prop_safe v k x :
  hasSensitiveFieldName v = false -> isSensitiveFieldName k = false -> hasSensitiveFieldName x = false ->
  hasSensitiveFieldName (with_prop v k x) = false.
Proof.
  intros Hv Hk Hx. unfold with_prop. rewrite safe_obj. apply obj_spread_Forall.
  - apply obj_spread_Forall; [constructor|]. by apply spread_props_safe.
  - by apply List.Forall_cons.
Qed.

Lemma form_step_safe st st' : safe st -> step st st' -> safe st'.
Proof.
  intros [H1 H2] Hstep.
  assert (Hloc : hasSensitiveFieldName (JObj initialLocationForm) = false) by (vm_compute; reflexivity).
  destruct Hstep; split; cbn [formData locationFormData setField setAdvancedField setLocationField
      openLocationModal closeLocationModal addLocation updateLocation deleteLocation resetForm setFormData
      validateForm snd]; try done; try apply sanitize_field_names.
  - apply with_prop_safe; [done|vm_compute; reflexivity|apply sanitize_field_names].
  - destruct i as [i|]; [|done]. destruct (truthy _); [apply sanitize_field_names|done].
Qed.

(** In every state the form store reaches, neither the route being edited nor the
    location being edited has a field with a sensitive name at any depth, whatever values the
    fields were set to. *)
Theorem form_store_safe st : rtc step init st -> safe st.
Proof.
  intros Hr. assert (Hi : safe init) by (split; vm_compute; reflexivity).
  revert Hi. induction Hr as [|s1 s2 s3 Hstep _ IH]; [done|]. intros Hi. apply IH. by eapply form_step_safe.
Qed.

(** Adding a location leaves the index being edited behind, and the next update overwrites
    the location at that index. *)
Example add_keeps_editing_index :
  editingLocationIndex (addLocation (openLocationModal (Some 0%nat) init)) = Some 0%nat.
Proof. reflexivity. Qed.
End form_store.

(** * The modal *)

(** In every state the modal store reaches, the location being edited has no field with
    a sensitive name. *)
Theorem modal_store_safe st :
  rtc ModalStore.step ModalStore.init st -> hasSensitiveFieldName (ModalStore.editing_value st) = false.
Proof.
  intros Hr. assert (Hi : hasSensitiveFieldName (ModalStore.editing_value ModalStore.init) = false) by done.
  revert Hi. induction Hr as [|s1 s2 s3 Hstep _ IH]; [done|]. intros Hi. apply IH.
  destruct Hstep; try done. apply sanitize_field_names.
Qed.

(** * The theorems at work *)

#[local] Existing Instances zod_model no_host open_storage.
#[local] Instance sample_store_repository : RouteRepository storage := LocalStorage.repository.

(** A render on the empty store, and a save through its hook of a route with a secret. *)
Definition secret_route : jsval := JObj [("id", JStr "r1"); ("password", JStr "p")].
Definition saved_scene : RoutesStore.scene storage :=
  RoutesStore.Scene (snd (@repo_save _ (RoutesStore.createRouteRepositoryAdapter []) secret_route (RoutesStore.init, (∅ : storage))))
    [[]] [secret_route].

Lemma routes_store_safe_witness :
  RoutesStore.routes (fst (RoutesStore.at_work saved_scene)) = [("r1", secret_route)] /\
  hasSensitiveFieldName secret_route = true /\
  (let st' := fst (snd (RoutesStore.loadRoutes (RoutesStore.at_work saved_scene))) in
   List.map fst (RoutesStore.routes st') = ["r1"] /\
   forall id r, (id, r) ∈ RoutesStore.routes st' -> hasSensitiveFieldName r = false).
Proof.
  split; [reflexivity|]. split; [vm_compute; reflexivity|]. split; [vm_compute; reflexivity|].
  refine (proj2 (proj2 (routes_store_safe (∅ : storage) saved_scene _))).
  eapply rtc_l; [apply RoutesStore.S_render|]. apply rtc_once.
  eapply RoutesStore.S_hook_save; [apply list_elem_of_here|]. apply surjective_pairing.
Defined.

Lemma sidebar_width_bounds_witness :
  width_ok (SidebarStore.sidebarWidth (SidebarStore.setSidebarWidth (NInt 9000) SidebarStore.init)).
Proof. apply sidebar_width_bounds. apply rtc_once. constructor. Defined.

Definition sample_log : jsval :=
  JObj [("message", JStr "sent bearer abc.def"); ("level", JStr "info"); ("source", JStr "user");
        ("timestamp", JDate (Some 1)); ("context", JObj [("apiKey", JStr "k"); ("path", JStr "/x")])].

Lemma logs_store_safe_witness :
  Forall LogsStore.entry_safe (LogsStore.logs (snd (LogsStore.addLog sample_log 5 "abc" LogsStore.init))).
Proof.
  apply logs_store_safe. apply rtc_once. eapply LogsStore.S_add, surjective_pairing.
Defined.

Lemma form_store_safe_witness :
  RouteFormStore.safe (RouteFormStore.setField "password" (JStr "x") RouteFormStore.init).
Proof. apply form_store_safe. apply rtc_once. constructor. Defined.

Lemma modal_store_safe_witness :
  hasSensitiveFieldName (ModalStore.editing_value
    (ModalStore.startEditLocation None (JObj [("token", JStr "x")]) ModalStore.init)) = false.
Proof. apply modal_store_safe. apply rtc_once. constructor. Defined.
