(* ===== verification/ProjectionStores.v ===== *)
(** * The projection of the routes process and its two stores

    The process shows what it does through the four methods of [RoutesProjection]
    (packages/app/src/projections).  Two stores implement them through an adapter:
    [Projection] is apps/web/src/projection/routesStore.ts and [RendererStore] is
    apps/desktop/src/renderer/store/routesStore.ts. *)

From S2P Require Import Prelude JsString Regex JsValue Dates Json Secrets Repositories UseCases.

(** ** The interface *)
Class RoutesProjection (P : Type) := {
  proj_setPending : bool -> P -> P;
  proj_setError : option string -> P -> P;
  proj_replaceRoutes : jsval -> P -> P;
  proj_upsertRoute : jsval -> P -> outcome P
}.

(** ** What both stores do with a route and an error *)

(** [error ? redactPotentialSecrets(error) : null] *)
Definition redacted_error (e : option string) : option string :=
  match e with Some m => if nonempty m then Some (redactPotentialSecrets m) else None | None => None end.

(** [r.id === route.id] *)
Definition same_id (r route : jsval) : outcome bool :=
  a ← prop "id" r; b ← prop "id" route; Return (negb (strict_ne a b)).

Fixpoint some_same_id (rs : list jsval) (route : jsval) : outcome bool :=
  match rs with
  | [] => Return false
  | r :: rest => b ← same_id r route; if (b : bool) then Return true else some_same_id rest route
  end.

Definition upsert (rs : list jsval) (route : jsval) : outcome (list jsval) :=
  found ← some_same_id rs route;
  if (found : bool)
  then mapM_out (fun r => b ← same_id r route; Return (if (b : bool) then sanitizeForJson route else r)) rs
  else Return (rs ++ [sanitizeForJson route]).

(** [upsertRoute] on the routes shown. *)
Definition upserted (route routes : jsval) : outcome jsval :=
  match routes with JArr rs => JArr <$> upsert rs route | _ => Throw type_error end.

(** ** apps/web/src/projection/routesStore.ts *)
Module Projection.
Record state := State { pending : bool; error : option string; routes : jsval }.
Definition init : state := State false None (JArr []).

Definition setPending (b : bool) (st : state) : state := State b (error st) (routes st).
Definition setError (e : option string) (st : state) : state :=
  State (pending st)
    (redacted_error e)
    (routes st).
Definition replaceRoutes (rs : jsval) (st : state) : state := State (pending st) (error st) (sanitizeForJson rs).

Definition upsertRoute (route : jsval) (st : state) : outcome state :=
  match routes st with
  | JArr rs => rs' ← upsert rs route; Return (State (pending st) (error st) (JArr rs'))
  | _ => Throw type_error
  end.

Definition createRoutesProjectionAdapter : RoutesProjection state := {|
  proj_setPending := setPending;
  proj_setError := setError;
  proj_replaceRoutes := replaceRoutes;
  proj_upsertRoute := upsertRoute
|}.
End Projection.

(** ** apps/desktop/src/renderer/store/routesStore.ts *)
Module RendererStore.
Record state := State { pending : bool; error : option string; routes : jsval }.
Definition init : state := State false None (JArr []).

Definition setPending (b : bool) (st : state) : state := State b (error st) (routes st).
Definition setError (e : option string) (st : state) : state :=
  State (pending st)
    (redacted_error e)
    (routes st).
Definition replaceRoutes (rs : jsval) (st : state) : state := State (pending st) (error st) (sanitizeForJson rs).

Definition upsertRoute (route : jsval) (st : state) : outcome state :=
  match routes st with
  | JArr rs => rs' ← upsert rs route; Return (State (pending st) (error st) (JArr rs'))
  | _ => Throw type_error
  end.

Definition createRoutesProjectionAdapter : RoutesProjection state := {|
  proj_setPending := setPending;
  proj_setError := setError;
  proj_replaceRoutes := replaceRoutes;
  proj_upsertRoute := upsertRoute
|}.
End RendererStore.

(** ** What the process relies on

    What is shown, and how each method changes it. *)
Class RoutesProjectionLaws (P : Type) `{RoutesProjection P} := {
  shown_pending : P -> bool;
  shown_error : P -> option string;
  shown_routes : P -> jsval;
  setPending_shows b p :
    shown_pending (proj_setPending b p) = b /\ shown_error (proj_setPending b p) = shown_error p /\
    shown_routes (proj_setPending b p) = shown_routes p;
  setError_shows e p :
    shown_pending (proj_setError e p) = shown_pending p /\ shown_error (proj_setError e p) = redacted_error e /\
    shown_routes (proj_setError e p) = shown_routes p;
  replaceRoutes_shows rs p :
    shown_pending (proj_replaceRoutes rs p) = shown_pending p /\ shown_error (proj_replaceRoutes rs p) = shown_error p /\
    shown_routes (proj_replaceRoutes rs p) = sanitizeForJson rs;
  upsertRoute_shows route p :
    match proj_upsertRoute route p with
    | Return p' => shown_pending p' = shown_pending p /\ shown_error p' = shown_error p /\
        upserted route (shown_routes p) = Return (shown_routes p')
    | Throw e => upserted route (shown_routes p) = Throw e
    end
}.

#[export] Existing Instance Projection.createRoutesProjectionAdapter.
#[export] Existing Instance RendererStore.createRoutesProjectionAdapter.

#[export] Instance web_projection_laws : RoutesProjectionLaws Projection.state.
Proof.
  refine {| shown_pending := Projection.pending; shown_error := Projection.error; shown_routes := Projection.routes |}; [done..|].
  intros route [b e rs]. cbn. unfold Projection.upsertRoute, upserted. cbn [Projection.routes].
  destruct rs; try reflexivity. run_eff. destruct (upsert _ route); [by split_and!|reflexivity].
Defined.

#[export] Instance renderer_store_laws : RoutesProjectionLaws RendererStore.state.
Proof.
  refine {| shown_pending := RendererStore.pending; shown_error := RendererStore.error; shown_routes := RendererStore.routes |}; [done..|].
  intros route [b e rs]. cbn. unfold RendererStore.upsertRoute, upserted. cbn [RendererStore.routes].
  destruct rs; try reflexivity. run_eff. destruct (upsert _ route); [by split_and!|reflexivity].
Defined.

(** An error is shown without bearer tokens. *)
Lemma redacted_error_clean e m : redacted_error e = Some m -> test bearer_pattern m = false.
Proof.
  unfold redacted_error. destruct e as [t|]; [|discriminate]. destruct (nonempty t); [|discriminate].
  intros [= <-]. apply redacted_no_bearer.
Qed.

(** * Distinct ids *)

Definition has_id (id : string) (r : jsval) : Prop := jget "id" r = JStr id.

Lemma prop_id r id : has_id id r -> prop "id" r = Return (JStr id).
Proof. unfold has_id, prop. intros Hr. rewrite Hr. destruct r; (discriminate Hr || reflexivity). Qed.

Lemma same_id_spec r route a b :
  has_id a r -> has_id b route -> same_id r route = Return (bool_decide (a = b)).
Proof.
  intros Ha Hb. unfold same_id. rewrite (prop_id _ _ Ha), (prop_id _ _ Hb). cbn.
  by rewrite negb_involutive.
Qed.


Lemma sanitize_keeps_id r id :
  val_wf r -> has_id id r -> no_secret_pattern id = true -> has_id id (sanitizeForJson r).
Proof.
  unfold has_id. intros Hwf Hr Hid. destruct r as [| | | | | | |o]; try discriminate.
  apply val_wf_obj in Hwf as [Hnd _]. rewrite sanitize_obj, obj_of_entries_id by (by apply sanitize_props_NoDup).
  assert (Hk : isSensitiveFieldName "id" = false) by (vm_compute; reflexivity).
  clear Hnd. revert Hr. cbn [jget]. induction o as [|[k x] o IH]; [discriminate|].
  cbn [sanitize_props obj_get]. destruct (decide ("id" = k)) as [<-|Hne].
  - rewrite Hk. cbn [negb obj_get]. rewrite decide_True by done. intros ->.
    cbn [sanitizeForJson]. by rewrite redact_clean.
  - intros Hr. destruct (negb _); [|by apply IH]. cbn [obj_get]. rewrite decide_False by done. by apply IH.
Qed.

(** The ids of a list of routes, in order. *)
Definition ids_are (rs : list jsval) (ids : list string) : Prop := Forall2 (fun r id => has_id id r) rs ids.

Lemma some_same_id_spec rs ids route a :
  ids_are rs ids -> has_id a route -> some_same_id rs route = Return (bool_decide (a ∈ ids)).
Proof.
  intros Hrs Ha. induction Hrs as [|r b rs ids Hr _ IH]; [done|]. cbn [some_same_id].
  rewrite (same_id_spec _ _ _ _ Hr Ha). unfold mbind, outcome_bind.
  destruct (bool_decide_reflect (b = a)) as [->|Hne].
  - by rewrite bool_decide_true by apply list_elem_of_here.
  - rewrite IH. f_equal. apply bool_decide_ext. rewrite elem_of_cons. naive_solver.
Qed.

Lemma replace_same_ids rs ids route a :
  ids_are rs ids -> has_id a route -> has_id a (sanitizeForJson route) ->
  exists rs', mapM_out (fun r => b ← same_id r route; Return (if (b : bool) then sanitizeForJson route else r)) rs
    = Return rs' /\ ids_are rs' ids /\
    Forall2 (fun r r' => (has_id a r -> r' = sanitizeForJson route) /\ (~ has_id a r -> r' = r)) rs rs'.
Proof.
  intros Hrs Ha Hs. induction Hrs as [|r b rs ids Hr Hrs (rs' & IH & Hids & Hf)].
  { exists []. by split_and!; constructor. }
  cbn [mapM_out]. unfold mbind, outcome_bind. rewrite (same_id_spec _ _ _ _ Hr Ha). unfold mbind, outcome_bind in IH.
  rewrite IH. eexists. split; [reflexivity|].
  destruct (bool_decide_reflect (b = a)) as [->|Hne].
  - by split; constructor.
  - split; constructor; try done. split; [|done]. unfold has_id in *. congruence.
Qed.

(** A list updated at one id: the other routes are the ones it had. *)
Definition updated_at (a : string) (route : jsval) (rs rs' : list jsval) : Prop :=
  forall b r, has_id b r -> r ∈ rs' <-> if decide (b = a) then r = route else r ∈ rs.

Lemma replaced_at rs rs' ids route a : ids_are rs ids -> a ∈ ids -> has_id a route ->
  Forall2 (fun r r' => (has_id a r -> r' = route) /\ (~ has_id a r -> r' = r)) rs rs' ->
  updated_at a route rs rs'.
Proof.
  intros Hrs Hin Ha Hf b r Hb. destruct (decide (b = a)) as [->|Hne].
  - split.
    + intros (i & Hi)%list_elem_of_lookup_1. destruct (Forall2_lookup_r _ _ _ _ _ Hf Hi) as (r0 & Hr0 & Hyes & Hno).
      destruct (Forall2_lookup_l _ _ _ _ _ Hrs Hr0) as (c & Hc & Hr0c).
      destruct (decide (c = a)) as [->|Hca]; [by apply Hyes|].
      assert (Hn : ~ has_id a r0) by (unfold has_id in *; congruence). apply Hno in Hn as ->.
      unfold has_id in *. congruence.
    + intros ->. apply list_elem_of_lookup_1 in Hin as (i & Hi).
      destruct (Forall2_lookup_r _ _ _ _ _ Hrs Hi) as (r0 & Hr0 & Hr0a).
      destruct (Forall2_lookup_l _ _ _ _ _ Hf Hr0) as (r' & Hr' & Hyes & _).
      rewrite Hyes in Hr' by done. by eapply list_elem_of_lookup_2.
  - split; intros (i & Hi)%list_elem_of_lookup_1.
    + destruct (Forall2_lookup_r _ _ _ _ _ Hf Hi) as (r0 & Hr0 & Hyes & Hno).
      destruct (Forall2_lookup_l _ _ _ _ _ Hrs Hr0) as (c & Hc & Hr0c).
      destruct (decide (c = a)) as [->|Hca].
      * apply Hyes in Hr0c as ->. unfold has_id in *. congruence.
      * rewrite Hno by (unfold has_id in *; congruence). by eapply list_elem_of_lookup_2.
    + destruct (Forall2_lookup_l _ _ _ _ _ Hf Hi) as (r' & Hr' & _ & Hno).
      rewrite Hno in Hr' by (unfold has_id in *; congruence). by eapply list_elem_of_lookup_2.
Qed.

Lemma appended_at rs ids route a : ids_are rs ids -> a ∉ ids -> has_id a route -> updated_at a route rs (rs ++ [route]).
Proof.
  intros Hrs Hin Ha b r Hb. rewrite elem_of_app, list_elem_of_singleton. destruct (decide (b = a)) as [->|Hne].
  - split; [|by right]. intros [(i & Hi)%list_elem_of_lookup_1| ->]; [|done]. exfalso. apply Hin.
    destruct (Forall2_lookup_l _ _ _ _ _ Hrs Hi) as (c & Hc & Hrc).
    assert (c = a) as -> by (unfold has_id in *; congruence). by eapply list_elem_of_lookup_2.
  - split; [|by left]. intros [Hr| ->]; [done|]. unfold has_id in *. congruence.
Qed.

(** [upsert] of a route that keeps its id when it is sanitized. *)
Lemma upsert_spec rs ids route a :
  ids_are rs ids -> NoDup ids -> has_id a route -> has_id a (sanitizeForJson route) ->
  exists rs', let ids' := if bool_decide (a ∈ ids) then ids else ids ++ [a] in
    upsert rs route = Return rs' /\ ids_are rs' ids' /\ NoDup ids' /\ updated_at a (sanitizeForJson route) rs rs'.
Proof.
  intros Hrs Hnd Ha Hs. unfold upsert, mbind, outcome_bind. rewrite (some_same_id_spec _ _ _ _ Hrs Ha).
  destruct (bool_decide_reflect (a ∈ ids)) as [Hin|Hin].
  - destruct (replace_same_ids _ _ _ _ Hrs Ha Hs) as (rs' & Hm & Hids & Hf). unfold mbind, outcome_bind in Hm.
    exists rs'. split_and!; try done. by eapply replaced_at.
  - exists (rs ++ [sanitizeForJson route]). split_and!; try done.
    + apply Forall2_app; [done|]. by repeat constructor.
    + apply NoDup_app. split_and!; [done| |apply NoDup_singleton]. intros x Hx ->%list_elem_of_singleton. done.
    + by eapply appended_at.
Qed.

(** The projection keeps one route per id: on a list whose ids are distinct, upserting a
    route with a plain id puts exactly its sanitized form under that id, in place of the
    route that had it or at the end, and leaves every other route as it was. *)
Theorem upsert_distinct p rs ids route a :
  Projection.routes p = JArr rs -> ids_are rs ids -> NoDup ids ->
  val_wf route -> has_id a route -> no_secret_pattern a = true ->
  exists rs' ids',
    Projection.upsertRoute route p = Return (Projection.State (Projection.pending p) (Projection.error p) (JArr rs')) /\
    ids_are rs' ids' /\ NoDup ids' /\
    ids' = (if bool_decide (a ∈ ids) then ids else ids ++ [a]) /\
    (forall b r, has_id b r -> r ∈ rs' <-> if decide (b = a) then r = sanitizeForJson route else r ∈ rs).
Proof.
  intros Hp Hrs Hnd Hwf Ha Hclean.
  destruct (upsert_spec rs ids route a Hrs Hnd Ha (sanitize_keeps_id _ _ Hwf Ha Hclean)) as (rs' & Hu & Hids & Hnd' & Hup).
  exists rs'. eexists. split_and!; [|exact Hids|exact Hnd'|done|exact Hup].
  unfold Projection.upsertRoute. rewrite Hp. unfold mbind, outcome_bind. by rewrite Hu.
Qed.

(** * The theorem at work *)

Definition web_route : jsval :=
  JObj [("id", JStr "r1"); ("host", JStr "a.example"); ("destination", JStr "10.0.0.1"); ("enabled", JBool true)].
Definition web_projection : Projection.state := Projection.State false None (JArr [web_route]).
Definition disabled_route : jsval :=
  JObj [("id", JStr "r1"); ("host", JStr "a.example"); ("destination", JStr "10.0.0.1"); ("enabled", JBool false)].

Lemma upsert_distinct_witness :
  exists rs' ids',
    Projection.upsertRoute disabled_route web_projection = Return (Projection.State false None (JArr rs')) /\
    ids_are rs' ids' /\ NoDup ids' /\
    ids' = (if bool_decide ("r1" ∈ ["r1"]) then ["r1"] else ["r1"] ++ ["r1"]) /\
    (forall b r, has_id b r -> r ∈ rs' <-> if decide (b = "r1") then r = sanitizeForJson disabled_route else r ∈ [web_route]).
Proof.
  apply (upsert_distinct web_projection [web_route] ["r1"] disabled_route "r1").
  - reflexivity.
  - apply Forall2_cons. split; [reflexivity|apply Forall2_nil_2].
  - apply NoDup_singleton.
  - split; [nodup_literals|]. repeat split.
  - reflexivity.
  - vm_compute. reflexivity.
Defined.
