(* ===== verification/RoutesProcess.v ===== *)
(** * The routes process and its executors

    [RoutesProcess] (packages/app) drives a gateway and a projection; the gateway of
    packages/infra sends commands to an executor; three executors answer them: [Mock] and
    [Http] of apps/web/src/adapters and [Local] of apps/desktop/src/renderer/adapters.  The
    projection is any that keeps the laws of [ProjectionStores]. *)

From S2P Require Import Prelude JsString Regex JsValue Dates Json Secrets Repositories UseCases ProjectionStores.

(** ** packages/transport *)

(** [new RemoteExecutionError(message, code)]: an omitted code takes the default. *)
Definition RemoteExecutionError (message : string) (code : option string) : jserror :=
  JsError (ERemote (default "REMOTE_EXECUTION_FAILED" code)) message.

(** An executor answers a command with a payload. *)
Class RemoteExecutor (S : Type) := ex_execute : string -> jsval -> eff S jsval.

(** ** CommandRouteGateway *)
Section gateway.
Context {S : Type} `{RemoteExecutor S}.

(** [const { k } = await ...] *)
Definition response_field (k : string) (m : eff S jsval) : eff S jsval :=
  response ← m; lift_outcome (prop k response).

Definition gateway_list (includeDisabled : option bool) : eff S jsval :=
  response_field "routes"
    (ex_execute "routes:list" (JObj [("includeDisabled", JBool (default true includeDisabled))])).
Definition gateway_save (draft : jsval) : eff S jsval :=
  response_field "route" (ex_execute "routes:save" (JObj [("draft", draft)])).
Definition gateway_toggle (id : string) (enabled : bool) : eff S jsval :=
  response_field "route" (ex_execute "routes:toggle" (JObj [("id", JStr id); ("enabled", JBool enabled)])).
End gateway.

(** ** packages/app/src/processes/RoutesProcess.ts *)
Section process.
Context {P S : Type} `{RoutesProjection P} `{RemoteExecutor S}.

(** The projection and the executor's state. *)
Abbreviation world := (P * S)%type.

Definition on_projection (f : P -> P) : eff world unit :=
  fun w => (Return tt, (f (fst w), snd w)).
Definition on_projection_out (f : P -> outcome P) : eff world unit :=
  fun w => match f (fst w) with Return p => (Return tt, (p, snd w)) | Throw e => (Throw e, w) end.
Definition on_executor {A} (m : eff S A) : eff world A :=
  fun w => let (o, s') := m (snd w) in (o, (fst w, s')).

(** The common shape of the three methods: raise the flag, clear the error, run the body,
    report what it throws and throw it again, lower the flag. *)
Definition process_run (fallback : string) (body : eff world unit) : eff world unit :=
  _ ← on_projection (proj_setPending true);
  _ ← on_projection (proj_setError None);
  try_finally
    (try_catch body
       (fun e =>
          _ ← on_projection (proj_setError (Some (if instanceof_Error e then err_message e else fallback)));
          throw e))
    (fun w => (proj_setPending false (fst w), snd w)).

Definition process_load (includeDisabled : bool) : eff world unit :=
  process_run "Failed to load routes"
    (routes ← on_executor (gateway_list (Some includeDisabled));
     on_projection (proj_replaceRoutes routes)).
Definition process_save (draft : jsval) : eff world unit :=
  process_run "Failed to save route"
    (route ← on_executor (gateway_save draft);
     on_projection_out (proj_upsertRoute route)).
Definition process_toggle (id : string) (enabled : bool) : eff world unit :=
  process_run "Failed to toggle route"
    (route ← on_executor (gateway_toggle id enabled);
     on_projection_out (proj_upsertRoute route)).
End process.

(** ** Executors over a list of routes *)

(** [routes.filter(p)] for a predicate that may throw. *)
Fixpoint filter_out (p : jsval -> outcome bool) (l : list jsval) : outcome (list jsval) :=
  match l with
  | [] => Return []
  | r :: rest => b ← p r; ys ← filter_out p rest; Return (if (b : bool) then r :: ys else ys)
  end.

Definition js_array (v : jsval) : outcome (list jsval) :=
  match v with JArr l => Return l | _ => Throw type_error end.

Definition other_id (id r : jsval) : outcome bool := a ← prop "id" r; Return (strict_ne a id).
Definition is_enabled (r : jsval) : outcome bool := e ← prop "enabled" r; Return (truthy e).

(** [const { includeDisabled = true } = payload] *)
Definition include_disabled (payload : jsval) : outcome bool :=
  v ← prop "includeDisabled" payload;
  Return (match v with JUndef => true | _ => truthy v end).

(** The route a save writes. *)
Definition drafted_route (draft : jsval) (now : Z) (uuid : string) : outcome jsval :=
  draft_id ← prop "id" draft;
  Return (JObj [("id", js_nullish draft_id (JStr uuid)); ("host", jget "host" draft);
                ("destination", jget "destination" draft);
                ("enabled", js_nullish (jget "enabled" draft) (JBool true));
                ("updatedAt", JStr (iso_string now))]).

(** [{ ...current, enabled, updatedAt: ... }] *)
Definition toggled_route (current enabled : jsval) (now : Z) : jsval :=
  JObj (obj_spread (obj_spread [] (spread_props current))
          [("enabled", enabled); ("updatedAt", JStr (iso_string now))]).

(** [routes.find(r => r.id === id)] *)
Fixpoint find_id (id : jsval) (l : list jsval) : outcome (option jsval) :=
  match l with
  | [] => Return None
  | r :: rest => other ← other_id id r; if (other : bool) then find_id id rest else Return (Some r)
  end.

Definition replace_id (id route : jsval) (l : list jsval) : outcome (list jsval) :=
  mapM_out (fun r => other ← other_id id r; Return (if (other : bool) then r else route)) l.

Section commands.
Context `{HostDate}.

Definition not_found (id : jsval) : jserror := js_error ("Route " +:+ js_show id +:+ " not found").
Definition unsupported (command : string) : jserror := js_error ("Unsupported command: " +:+ command).

(** *** apps/web/src/adapters/MockExecutor.ts *)
Definition mock_execute (now : Z) (uuid command : string) (payload : jsval) : eff (list jsval) jsval := fun routes =>
  if decide (command = "routes:list") then
    match (includeDisabled ← include_disabled payload;
           if (includeDisabled : bool) then Return routes else filter_out is_enabled routes) with
    | Return rs => (Return (JObj [("routes", JArr rs)]), routes)
    | Throw e => (Throw e, routes)
    end
  else if decide (command = "routes:save") then
    match (draft ← prop "draft" payload;
           route ← drafted_route draft now uuid;
           rest ← filter_out (other_id (jget "id" route)) routes;
           Return (route, rest ++ [route])) with
    | Return (route, next) => (Return (JObj [("route", route)]), next)
    | Throw e => (Throw e, routes)
    end
  else if decide (command = "routes:toggle") then
    match (id ← prop "id" payload;
           current ← find_id id routes;
           match current with
           | None => Throw (not_found id)
           | Some current =>
               let route := toggled_route current (jget "enabled" payload) now in
               next ← replace_id id route routes;
               Return (route, next)
           end) with
    | Return (route, next) => (Return (JObj [("route", route)]), next)
    | Throw e => (Throw e, routes)
    end
  else (Throw (unsupported command), routes).

(** *** apps/desktop/src/renderer/adapters/LocalRouteExecutor.ts *)
Context `{LocalStorageApi}.

Definition ROUTES_KEY : string := "nginx_desktop_routes".

(** [window] is defined in the renderer and not in a test or a server process. *)
Definition local_loadRoutes (has_window : bool) (s : storage) : jsval :=
  if has_window then
    match s !! ROUTES_KEY with
    | Some raw =>
        if nonempty raw then match json_parse raw with Return v => v | Throw _ => JArr [] end
        else JArr []
    | None => JArr []
    end
  else JArr [].

Definition local_saveRoutes (has_window : bool) (routes : list jsval) : eff storage unit :=
  if has_window then setItem ROUTES_KEY (stringify_array routes) else mret tt.

Definition local_execute (has_window : bool) (now : Z) (uuid command : string) (payload : jsval) :
    eff storage jsval :=
  s ← get_state;
  let routes := local_loadRoutes has_window s in
  if decide (command = "routes:list") then
    rs ← lift_outcome (
      includeDisabled ← include_disabled payload;
      if (includeDisabled : bool) then Return routes
      else JArr <$> (l ← js_array routes; filter_out is_enabled l));
    mret (JObj [("routes", rs)])
  else if decide (command = "routes:save") then
    rn ← lift_outcome (
      draft ← prop "draft" payload;
      route ← drafted_route draft now uuid;
      l ← js_array routes;
      rest ← filter_out (other_id (jget "id" route)) l;
      Return (route, rest ++ [route]));
    _ ← local_saveRoutes has_window (snd rn);
    mret (JObj [("route", fst rn)])
  else if decide (command = "routes:toggle") then
    rn ← lift_outcome (
      id ← prop "id" payload;
      l ← js_array routes;
      current ← find_id id l;
      match current with
      | None => Throw (not_found id)
      | Some current =>
          let route := toggled_route current (jget "enabled" payload) now in
          next ← replace_id id route l;
          Return (route, next)
      end);
    _ ← local_saveRoutes has_window (snd rn);
    mret (JObj [("route", fst rn)])
  else throw (unsupported command).
End commands.

(** ** apps/web/src/adapters/HttpExecutor.ts *)
Record http_response := HttpResponse { http_ok : bool; http_status : Z; http_json : outcome jsval }.

(** [fetch] with the controller's signal: a network failure, or the abort of the signal by
    the caller or by the timeout, is what it throws. *)
Class Fetch (S : Type) := fetch : string -> option string -> eff S http_response.

Section http.
Context {S : Type} `{Fetch S}.

(** The timer and the abort listener an execution holds. *)
Record http_resources := Resources { timer : bool; listener : bool }.

Definition error_field (k : string) (result : jsval) : option jsval :=
  let e := jget "error" result in
  if nullish e then None else let v := jget k e in if nullish v then None else Some v.

Definition is_abort (e : jserror) : bool :=
  match err_class_of e with EDom name => bool_decide (name = "AbortError") | _ => false end.

Definition aborted_error : jserror := RemoteExecutionError "Operation aborted" (Some "ABORTED").

Definition response_data (response : http_response) : outcome jsval :=
  if negb (http_ok response)
  then Throw (RemoteExecutionError ("HTTP " +:+ show_Z (http_status response)) (Some "HTTP_NON_OK"))
  else
    result ← http_json response;
    okv ← prop "ok" result;
    if negb (truthy okv) || negb (truthy (jget "data" result))
    then Throw (RemoteExecutionError
           (match error_field "message" result with Some m => str_of m | None => "Remote API failed" end)
           (str_of <$> error_field "code" result))
    else Return (jget "data" result).

Definition http_execute (baseUrl : string) (signal_aborted : option bool) (timeoutMs : option Z)
    (command : string) (payload : jsval) : eff (http_resources * S) jsval := fun w =>
  match signal_aborted with
  | Some true => (Throw aborted_error, w)
  | _ =>
      let has_signal := bool_decide (is_Some signal_aborted) in
      let has_timer := match timeoutMs with Some t => 0 <? t | None => false end in
      let acquired := (Resources (timer (fst w) || has_timer) (listener (fst w) || has_signal), snd w) in
      try_finally
        (try_catch
          (response ← (fun w => let (o, s') := fetch (baseUrl +:+ "/remote/execute")
                          (json_stringify (JObj [("command", JStr command); ("payload", payload)])) (snd w)
                        in (o, (fst w, s')));
           lift_outcome (response_data response))
          (fun e => if is_abort e then throw aborted_error else throw e))
        (fun w => (Resources (timer (fst w) && negb has_timer) (listener (fst w) && negb has_signal), snd w))
        acquired
  end.
End http.

(** ** composeRoutesProcess: the executor each application puts under the gateway *)
Inductive executor_choice := UseHttp (baseUrl : string) | UseMock | UseLocal.
Inductive transport := http | mock.
Definition web_composeRoutesProcess (t : transport) (apiBaseUrl : option string) : executor_choice :=
  match t with http => UseHttp (default "/api" apiBaseUrl) | mock => UseMock end.
Definition desktop_composeRoutesProcess : executor_choice := UseLocal.
(** apps/web/src/features/routes/useRoutesProcess.ts *)
Definition useRoutesProcess_transport (vite_use_mock : option string) : transport :=
  if decide (vite_use_mock = Some "true") then mock else http.

(** * The process settles *)
Section process_theorems.
Context {P S : Type} `{RoutesProjectionLaws P} `{RemoteExecutor S}.

Abbreviation pworld := (P * S)%type.

(** What is shown for an error: the message of an [Error], the method's own text otherwise. *)
Definition failure_message (fallback : string) (e : jserror) : string :=
  if instanceof_Error e then err_message e else fallback.

(** How a method ends, from the gateway's answer and the routes that [update] makes of it and of
    the routes shown before.  The flag is down and the executor is as the gateway left it.  With
    an answer that can be shown the method returns, shows it and no error.  Otherwise what was
    thrown is thrown again, the routes shown stay, and its message is shown redacted: there is
    an error unless the message is empty, and it has no bearer token. *)
Definition settled_run (fallback : string) (update : jsval -> jsval -> outcome jsval)
    (answer : outcome jsval * S) (p : P) (ended : outcome unit * pworld) : Prop :=
  let (o, w') := ended in
  shown_pending (fst w') = false /\ snd w' = snd answer /\
  match (v ← fst answer; update v (shown_routes p)) with
  | Return routes => o = Return tt /\ shown_error (fst w') = None /\ shown_routes (fst w') = routes
  | Throw e =>
      o = Throw e /\ shown_routes (fst w') = shown_routes p /\
      shown_error (fst w') =
        (if nonempty (failure_message fallback e) then Some (redactPotentialSecrets (failure_message fallback e)) else None) /\
      (forall m, shown_error (fst w') = Some m -> test bearer_pattern m = false)
  end.

(** What the body of a method does from the state the method starts it in. *)
Definition body_shows (update : jsval -> jsval -> outcome jsval) (answer : eff S jsval) (body : eff pworld unit) : Prop :=
  forall p s, let (o, w') := body (p, s) in
    snd w' = snd (answer s) /\ shown_error (fst w') = shown_error p /\
    match (v ← fst (answer s); update v (shown_routes p)) with
    | Return routes => o = Return tt /\ shown_routes (fst w') = routes
    | Throw e => o = Throw e /\ shown_routes (fst w') = shown_routes p
    end.

Lemma process_run_settles fallback update answer body (p : P) s :
  body_shows update answer body -> settled_run fallback update (answer s) p (process_run fallback body (p, s)).
Proof.
  intros Hb. unfold process_run, on_projection. run_eff. cbn [fst snd].
  destruct (setPending_shows true p) as (_ & _ & Hr1).
  destruct (setError_shows None (proj_setPending true p)) as (_ & He1 & Hr2). rewrite Hr1 in Hr2.
  specialize (Hb (proj_setError None (proj_setPending true p)) s). rewrite He1, Hr2 in Hb.
  destruct (body _) as [o [p1 s1]]. cbn [fst snd] in *. destruct Hb as (Hs & He & Hb). unfold settled_run.
  destruct (v ← fst (answer s); update v (shown_routes p)) as [routes|e]; destruct Hb as (-> & Hr); cbn [fst snd].
  - destruct (setPending_shows false p1) as (-> & -> & ->). by rewrite He.
  - unfold settled_run, failure_message. set (m := if instanceof_Error e then err_message e else fallback).
    destruct (setPending_shows false (proj_setError (Some m) p1)) as (-> & -> & ->).
    destruct (setError_shows (Some m) p1) as (_ & -> & ->). split_and!; try done. apply redacted_error_clean.
Qed.

Lemma body_load b :
  body_shows (fun v _ => Return (sanitizeForJson v)) (gateway_list b)
    (routes ← on_executor (gateway_list b); on_projection (proj_replaceRoutes routes)).
Proof.
  intros p s. unfold on_executor, on_projection. run_eff. cbn [fst snd].
  destruct (gateway_list b s) as [[r|e] s1]; cbn; [|done].
  by destruct (replaceRoutes_shows r p) as (_ & -> & ->).
Qed.

Lemma body_upsert (m : eff S jsval) :
  body_shows upserted m (route ← on_executor m; on_projection_out (proj_upsertRoute route)).
Proof.
  intros p s. unfold on_executor, on_projection_out. run_eff. cbn [fst snd].
  destruct (m s) as [[r|e] s1]; cbn; [|done]. pose proof (upsertRoute_shows r p) as Hu.
  destruct (proj_upsertRoute r p) as [p'|e]; cbn; [destruct Hu as (_ & He & ->)|rewrite Hu]; by split_and!.
Qed.

(** C7.  Whatever the executor answers and whichever store shows it, each operation of the routes
    process asks its gateway once and ends with the pending flag down.  When the answer can be
    shown the operation succeeds, shows it, a list sanitised and a route in the place of the
    one with its id or at the end, and leaves no error.  When the gateway or the showing throws,
    the operation throws the same again, keeps the routes shown, and shows the redacted message,
    or the operation's own text for what is no [Error]. *)
Theorem process_settles (p : P) (s : S) :
  (forall b, settled_run "Failed to load routes" (fun v _ => Return (sanitizeForJson v))
     (gateway_list (Some b) s) p (process_load b (p, s))) /\
  (forall draft, settled_run "Failed to save route" upserted (gateway_save draft s) p (process_save draft (p, s))) /\
  (forall id enabled, settled_run "Failed to toggle route" upserted (gateway_toggle id enabled s) p
     (process_toggle id enabled (p, s))).
Proof.
  split_and!; intros; apply process_run_settles; [apply body_load|apply body_upsert|apply body_upsert].
Qed.
End process_theorems.

(** ** Overlapping operations

    A method runs up to its await, and from the answer to its end; between the two other
    methods may run.  [in_flight] counts the methods waiting for an answer. *)
Record overlap := Overlap { in_flight : nat; projection : Projection.state }.

Inductive overlap_step : overlap -> overlap -> Prop :=
  | O_start n p :
      overlap_step (Overlap n p) (Overlap (S n) (Projection.setError None (Projection.setPending true p)))
  | O_loaded n p rs :
      overlap_step (Overlap (S n) p) (Overlap n (Projection.setPending false (Projection.replaceRoutes rs p)))
  | O_upserted n p r p' :
      Projection.upsertRoute r p = Return p' ->
      overlap_step (Overlap (S n) p) (Overlap n (Projection.setPending false p'))
  | O_failed n p m :
      overlap_step (Overlap (S n) p) (Overlap n (Projection.setPending false (Projection.setError (Some m) p))).

(** However load, save and toggle overlap, the pending flag is down once none of them
    waits for an answer; but it may be down while one still waits, since the first to end
    lowers it for all. *)
Theorem overlap_pending :
  (forall st, rtc overlap_step (Overlap 0 Projection.init) st ->
     in_flight st = 0%nat -> Projection.pending (projection st) = false) /\
  (exists st, rtc overlap_step (Overlap 0 Projection.init) st /\
     in_flight st = 1%nat /\ Projection.pending (projection st) = false).
Proof.
  split.
  - intros st Hr. assert (Hi : in_flight (Overlap 0 Projection.init) = 0%nat ->
        Projection.pending (projection (Overlap 0 Projection.init)) = false) by done.
    revert Hi. induction Hr as [|x y z Hstep _ IH]; [done|]. intros Hi. apply IH. intros Hn.
    by destruct Hstep.
  - exists (Overlap 1 (Projection.setPending false (Projection.replaceRoutes (JArr [])
      (Projection.setError None (Projection.setPending true
        (Projection.setError None (Projection.setPending true Projection.init))))))).
    split; [|done].
    eapply rtc_l; [apply O_start|]. eapply rtc_l; [apply O_start|]. apply rtc_once, O_loaded.
Qed.

(** * Lists of routes with ids *)

(** Every route of the list has a text for its id. *)
Definition identified (l : list jsval) : Prop := Forall (fun r => exists id, has_id id r) l.

(** The routes with another id. *)
Definition without (id : string) (l : list jsval) : list jsval := List.filter (fun r => negb (js_is_str (jget "id" r) id)) l.

Lemma filter_other_id id l : identified l -> filter_out (other_id (JStr id)) l = Return (without id l).
Proof.
  induction 1 as [|r l [i Hr] _ IH]; [done|]. cbn [filter_out].
  assert (Ho : other_id (JStr id) r = Return (negb (js_is_str (jget "id" r) id))).
  { unfold other_id. by rewrite (prop_id _ _ Hr), Hr. }
  rewrite Ho, IH. reflexivity.
Qed.

(** * The browser's mock and the desktop's executor agree *)

(** A session: commands with the clock and the random id of each. *)
Abbreviation command_run := (Z * string * string * jsval)%type.

Fixpoint run_commands {S} (execute : Z -> string -> string -> jsval -> eff S jsval)
    (cs : list command_run) (s : S) : list (outcome jsval) * S :=
  match cs with
  | [] => ([], s)
  | (now, uuid, command, payload) :: rest =>
      let (o, s1) := execute now uuid command payload s in
      let (os, s2) := run_commands execute rest s1 in (o :: os, s2)
  end.

Section refinement.
Context `{HostDate} `{LocalStorageApi}.

(** A route as both executors hold it: typed JSON without a secret. *)
Definition route_ok (r : jsval) : Prop :=
  (exists o, r = JObj o) /\ val_wf r /\ is_json r /\ clean r = true.

(** The text the desktop stored reads back as the list the mock holds. *)
Definition simulates (l : list jsval) (s : storage) : Prop :=
  Forall route_ok l /\ local_loadRoutes true s = JArr l.

Definition plain (v : jsval) : Prop := exists s, v = JStr s /\ no_secret_pattern s = true.

Record typed_draft (d : jsval) : Prop := {
  td_id : jget "id" d = JUndef \/ plain (jget "id" d);
  td_host : plain (jget "host" d);
  td_destination : plain (jget "destination" d);
  td_enabled : jget "enabled" d = JUndef \/ exists b, jget "enabled" d = JBool b
}.

(** The payloads the contract of the transport allows. *)
Record typed_command (uuid command : string) (payload : jsval) : Prop := {
  tc_uuid : no_secret_pattern uuid = true;
  tc_save : command = "routes:save" -> typed_draft (jget "draft" payload);
  tc_toggle : command = "routes:toggle" -> exists b, jget "enabled" payload = JBool b
}.

Lemma ok_reloads s l : Forall route_ok l ->
  local_loadRoutes true (<[ROUTES_KEY := stringify_array l]> s) = JArr l.
Proof.
  intros Hl.
  assert (Hwf : val_wf (JArr l)). { apply val_wf_arr. eapply List.Forall_impl; [|exact Hl]. by intros r (_ & ? & _). }
  assert (Hs : sanitizeForJson (JArr l) = JArr l).
  { cbn [sanitizeForJson]. f_equal. apply map_all_id. eapply List.Forall_impl; [|exact Hl].
    intros r (_ & ? & _ & ?). by apply sanitize_clean_id. }
  assert (Hn : json_norm (JArr l) = Some (JArr l)).
  { apply json_norm_id, is_json_arr. eapply List.Forall_impl; [|exact Hl]. by intros r (_ & _ & ? & _). }
  destruct (json_roundtrip _ _ Hwf Hn) as [Hst Hparse].
  unfold local_loadRoutes. rewrite lookup_insert_eq. unfold stringify_array, stringifyWithoutSecrets.
  rewrite Hs, Hst. change (default "" (Some (print (JArr l)))) with (print (JArr l)).
  rewrite print_arr_nonempty. by rewrite Hparse.
Qed.

Lemma plain_iso t : plain (JStr (iso_string t)).
Proof. eexists. split; [reflexivity|]. apply iso_no_secret, iso_string_chars. Qed.

Lemma plain_ok v : plain v -> val_wf v /\ is_json v /\ clean v = true.
Proof. intros (s & -> & Hs). by split_and!. Qed.

Lemma drafted_ok d now uuid r :
  typed_draft d -> no_secret_pattern uuid = true -> drafted_route d now uuid = Return r -> route_ok r.
Proof.
  intros [Hid Hh Hd He] Hu. unfold drafted_route, mbind, outcome_bind.
  assert (Hp : prop "id" d = Return (jget "id" d)).
  { unfold prop. destruct Hh as (h & Hh & _). by destruct d. }
  rewrite Hp. intros <-%Return_inj.
  assert (Hid' : plain (js_nullish (jget "id" d) (JStr uuid))).
  { destruct Hid as [-> | (i & -> & Hi)]; [by exists uuid|by exists i]. }
  assert (He' : exists b, js_nullish (jget "enabled" d) (JBool true) = JBool b).
  { destruct He as [-> | (b & ->)]; by eexists. }
  destruct He' as (b & ->). split; [by eexists|].
  pose proof (plain_ok _ Hid') as (? & ? & ?). pose proof (plain_ok _ Hh) as (? & ? & ?).
  pose proof (plain_ok _ Hd) as (? & ? & ?). pose proof (plain_ok _ (plain_iso now)) as (? & ? & ?).
  split_and!.
  - apply val_wf_obj. split; [nodup_literals|]. by repeat constructor.
  - apply is_json_obj. by repeat constructor.
  - rewrite clean_obj, clean_props_Forall.
    repeat (apply List.Forall_cons; [split; [vm_compute; reflexivity|assumption || reflexivity]|]). constructor.
Qed.

Lemma toggled_ok r b now : route_ok r -> route_ok (toggled_route r (JBool b) now).
Proof.
  intros ((o & ->) & Hwf & Hj & Hc). apply val_wf_obj in Hwf as [Hnd Hwf]. apply is_json_obj in Hj.
  rewrite clean_obj, clean_props_Forall in Hc. pose proof (plain_ok _ (plain_iso now)) as (? & ? & ?).
  unfold toggled_route. split; [by eexists|]. cbn [spread_props]. split_and!.
  - apply val_wf_obj. split; [apply obj_spread_NoDup, obj_spread_NoDup; constructor|].
    repeat (apply obj_spread_Forall); [constructor|done|by repeat constructor].
  - apply is_json_obj. repeat (apply obj_spread_Forall); [constructor|done|by repeat constructor].
  - rewrite clean_obj, clean_props_Forall. repeat (apply obj_spread_Forall); [constructor|done|].
    repeat (apply List.Forall_cons; [split; [vm_compute; reflexivity|assumption || reflexivity]|]). constructor.
Qed.

Lemma filter_out_ok (P : jsval -> Prop) p l l' : Forall P l -> filter_out p l = Return l' -> Forall P l'.
Proof.
  intros Hl. revert l'. induction Hl as [|r l Hr _ IH]; intros l'; cbn [filter_out]; [by intros <-%Return_inj|].
  unfold mbind, outcome_bind in *. destruct (p r) as [b|]; [|discriminate].
  destruct (filter_out p l) as [ys|]; [|discriminate]. intros <-%Return_inj. destruct b; [constructor|]; auto.
Qed.

Lemma find_id_ok (P : jsval -> Prop) id l r : Forall P l -> find_id id l = Return (Some r) -> P r.
Proof.
  induction 1 as [|x l Hx _ IH]; cbn [find_id]; [discriminate|]. unfold mbind, outcome_bind.
  destruct (other_id id x) as [[]|]; [done| |discriminate]. intros E%Return_inj. by injection E as <-.
Qed.

Lemma replace_id_ok (P : jsval -> Prop) id r l l' :
  P r -> Forall P l -> replace_id id r l = Return l' -> Forall P l'.
Proof.
  intros Hr Hl. unfold replace_id. revert l'. induction Hl as [|x l Hx _ IH]; intros l'; cbn [mapM_out].
  - by intros <-%Return_inj.
  - unfold mbind, outcome_bind in *. destruct (other_id id x) as [b|]; [|discriminate].
    destruct (mapM_out _ l) as [ys|]; [|discriminate]. intros <-%Return_inj. constructor; [by destruct b|auto].
Qed.

Lemma executors_step (Hopen : forall s k v, rejects s k v = false) now uuid command payload l s :
  simulates l s -> typed_command uuid command payload ->
  fst (mock_execute now uuid command payload l) = fst (local_execute true now uuid command payload s) /\
  simulates (snd (mock_execute now uuid command payload l)) (snd (local_execute true now uuid command payload s)).
Proof.
  intros Hsim [Hu Hsave Htog]. pose proof Hsim as [Hl Hs]. unfold mock_execute, local_execute.
  assert (Hset : forall next, Forall route_ok next ->
     local_saveRoutes true next s = (Return tt, <[ROUTES_KEY := stringify_array next]> s)).
  { intros next _. unfold local_saveRoutes, setItem. by rewrite Hopen. }
  destruct (decide (command = "routes:list")) as [->|_].
  { unfold outcome_bind, fmap, outcome_fmap. run_eff.
    rewrite Hs. unfold js_array. destruct (include_disabled payload) as [[]|e]; [by split| |by split].
    destruct (filter_out is_enabled l) as [rs|e]; by split. }
  destruct (decide (command = "routes:save")) as [->|_].
  { unfold outcome_bind. run_eff. rewrite Hs. unfold js_array.
    specialize (Hsave eq_refl). destruct (prop "draft" payload) as [d|e] eqn:Hd; [|by split].
    assert (Hdd : d = jget "draft" payload).
    { unfold prop in Hd. destruct (nullish payload); [discriminate|]. by apply Return_inj in Hd. }
    rewrite <- Hdd in Hsave.
    destruct (drafted_route _ _ _) as [route|e] eqn:Hr; [|by split].
    destruct (filter_out _ l) as [rest|e] eqn:Hf; [|by split].
    assert (Hnext : Forall route_ok (rest ++ [route])).
    { apply Forall_app. split; [by eapply filter_out_ok|]. constructor; [by eapply drafted_ok|constructor]. }
    cbn [fst snd]. rewrite Hset by done. split; [done|]. split; [done|]. by apply ok_reloads. }
  destruct (decide (command = "routes:toggle")) as [->|_]; [|by split].
  destruct (Htog eq_refl) as [b Hb].
  unfold outcome_bind. run_eff. rewrite Hs. unfold js_array.
  destruct (prop "id" payload) as [id|e]; [|by split].
  destruct (find_id id l) as [[current|]|e] eqn:Hc; [|by split|by split].
  destruct (replace_id _ _ l) as [next|e] eqn:Hn; [|by split].
  assert (Hnext : Forall route_ok next).
  { eapply replace_id_ok; [|exact Hl|exact Hn]. rewrite Hb. apply toggled_ok. by eapply find_id_ok. }
  cbn [fst snd]. rewrite Hset by done. split; [done|]. split; [done|]. by apply ok_reloads.
Qed.

(** C9.  The desktop's executor refines the mock: over a storage that accepts every write,
    any session of typed commands, started on storage that reads back as the mock's list,
    gets the same answers and the same errors, and ends with storage that reads back as the
    mock's list. *)
Theorem local_refines_mock (Hopen : forall s k v, rejects s k v = false) cs l s :
  simulates l s -> Forall (fun '(now, uuid, command, payload) => typed_command uuid command payload) cs ->
  fst (run_commands (local_execute true) cs s) = fst (run_commands mock_execute cs l) /\
  simulates (snd (run_commands mock_execute cs l)) (snd (run_commands (local_execute true) cs s)).
Proof.
  intros Hs Hcs. revert l s Hs. induction Hcs as [|[[[now uuid] command] payload] cs Hc _ IH]; intros l s Hs; [by split|].
  cbn [run_commands]. destruct (executors_step Hopen now uuid command payload l s Hs Hc) as [Ho Hs'].
  destruct (mock_execute now uuid command payload l) as [o l1].
  destruct (local_execute true now uuid command payload s) as [o' s1]. cbn [fst snd] in Ho, Hs'. subst o'.
  destruct (IH _ _ Hs') as [Hos Hfin].
  destruct (run_commands mock_execute cs l1), (run_commands (local_execute true) cs s1). cbn [fst snd] in *.
  by rewrite Hos.
Qed.
End refinement.

(** * The HTTP executor *)
Section http_theorems.
Context {S : Type} `{Fetch S}.

(** What an execution can end with: data, or an error that is not a raw abort. *)
Definition http_settled (aborted : option bool) (o : outcome jsval) : Prop :=
  match o with
  | Return d => aborted <> Some true /\ truthy d = true
  | Throw e => is_abort e = false /\ (aborted = Some true -> e = aborted_error)
  end.

Lemma response_data_present r d : response_data r = Return d -> truthy d = true.
Proof.
  unfold response_data, mbind, outcome_bind. destruct (negb (http_ok r)); [discriminate|].
  destruct (http_json r) as [result|]; [|discriminate]. destruct (prop "ok" result) as [okv|]; [|discriminate].
  destruct (negb (truthy okv) || negb (truthy (jget "data" result))) eqn:E; [discriminate|].
  intros <-%Return_inj. by bool_hyps.
Qed.

(** Whatever the server answers, an execution of the HTTP executor leaves no timer and
    no abort listener behind, never contacts the server when the signal is already aborted,
    returns only data that is present, and reports an abort as the ABORTED remote error. *)
Theorem http_execute_releases baseUrl aborted timeoutMs command payload s :
  let (o, w') := http_execute baseUrl aborted timeoutMs command payload (Resources false false, s) in
  fst w' = Resources false false /\ http_settled aborted o /\ (aborted = Some true -> snd w' = s).
Proof.
  unfold http_execute. run_eff.
  destruct aborted as [[]|]; [by split_and!| |]; cbn [fst snd timer listener orb];
    (destruct (fetch _ _ s) as [[r|e] s1]; [destruct (response_data r) as [d|e] eqn:Hd|]);
    [split_and!; [|split; [done|by eapply response_data_present]|done]
    |destruct (is_abort e) eqn:He; split_and!; try done
    |destruct (is_abort e) eqn:He; split_and!; try done
    |split_and!; [|split; [done|by eapply response_data_present]|done]
    |destruct (is_abort e) eqn:He; split_and!; try done
    |destruct (is_abort e) eqn:He; split_and!; try done];
    cbn [fst snd timer listener andb]; by rewrite ?andb_negb_r.
Qed.
End http_theorems.

(** * The theorems at work *)

#[local] Existing Instance open_storage.
#[local] Existing Instance no_host.

Definition sample_session : list command_run :=
  [(0, "u1", "routes:save",
     JObj [("draft", JObj [("host", JStr "a.example"); ("destination", JStr "10.0.0.1")])]);
   (1, "u2", "routes:toggle", JObj [("id", JStr "u1"); ("enabled", JBool false)]);
   (2, "u3", "routes:toggle", JObj [("id", JStr "zz"); ("enabled", JBool false)]);
   (3, "u4", "routes:list", JObj [("includeDisabled", JBool false)])].

Lemma local_refines_mock_witness :
  fst (run_commands (local_execute true) sample_session ∅) = fst (run_commands mock_execute sample_session []) /\
  simulates (snd (run_commands mock_execute sample_session []))
            (snd (run_commands (local_execute true) sample_session ∅)).
Proof.
  apply (local_refines_mock (fun _ _ _ => eq_refl) sample_session [] ∅).
  - split; [apply List.Forall_nil|reflexivity].
  - repeat apply List.Forall_cons; [| | | |apply List.Forall_nil].
    + constructor; [vm_compute; reflexivity| |discriminate]. intros _. constructor.
      * by left.
      * eexists. by split; [reflexivity|vm_compute].
      * eexists. by split; [reflexivity|vm_compute].
      * by left.
    + constructor; [vm_compute; reflexivity|discriminate|intros _; by eexists].
    + constructor; [vm_compute; reflexivity|discriminate|intros _; by eexists].
    + constructor; [vm_compute; reflexivity|discriminate|discriminate].
Defined.
