(* ===== verification/RoutesSession.v ===== *)
(** * The routes process as each application composes it

    composeRoutesProcess of apps/web and of apps/desktop/src/renderer put an executor under the
    gateway and a store under the projection; useRoutesProcess (apps/web/src/features/routes)
    calls the process.  A session is a list of calls, each with the clock and the random id of
    its command. *)

From S2P Require Import Prelude JsString Regex JsValue Dates Json Secrets Repositories UseCases ProjectionStores RoutesProcess.

Inductive process_call :=
  | CallLoad (includeDisabled : bool)
  | CallSave (draft : jsval)
  | CallToggle (id : string) (enabled : bool).

(** apps/web/src/features/routes/useRoutesProcess.ts: the effect of the first render and the
    three functions the hook returns. *)
Inductive hook_use := Mounted | Load | Save (draft : jsval) | Toggle (id : string) (enabled : bool).

Definition useRoutesProcess (u : hook_use) : process_call :=
  match u with
  | Mounted => CallLoad true
  | Load => CallLoad true
  | Save draft => CallSave draft
  | Toggle id enabled => CallToggle id enabled
  end.

Section session.
Context {P S : Type} `{RoutesProjection P} (executor : Z -> string -> string -> jsval -> eff S jsval).

Definition run_call (now : Z) (uuid : string) (c : process_call) : eff (P * S) unit :=
  let ex : RemoteExecutor S := executor now uuid in
  match c with
  | CallLoad includeDisabled => process_load includeDisabled
  | CallSave draft => process_save draft
  | CallToggle id enabled => process_toggle id enabled
  end.

Abbreviation call := (Z * string * process_call)%type.

Fixpoint run_session (cs : list call) (w : P * S) : list (outcome unit) * (P * S) :=
  match cs with
  | [] => ([], w)
  | (now, uuid, c) :: rest =>
      let (o, w1) := run_call now uuid c w in let (os, w2) := run_session rest w1 in (o :: os, w2)
  end.
End session.

(** The process of the browser over the executor in memory, and the one of the desktop. *)
Definition web_session `{HostDate} := run_session (P := Projection.state) mock_execute.
Definition desktop_session `{HostDate} `{LocalStorageApi} := run_session (P := RendererStore.state) (local_execute true).

(** ** What a call shows *)

Definition command_of (c : process_call) : string :=
  match c with CallLoad _ => "routes:list" | CallSave _ => "routes:save" | CallToggle _ _ => "routes:toggle" end.
Definition payload_of (c : process_call) : jsval :=
  match c with
  | CallLoad b => JObj [("includeDisabled", JBool b)]
  | CallSave draft => JObj [("draft", draft)]
  | CallToggle id enabled => JObj [("id", JStr id); ("enabled", JBool enabled)]
  end.
Definition field_of (c : process_call) : string := match c with CallLoad _ => "routes" | _ => "route" end.
Definition fallback_of (c : process_call) : string :=
  match c with
  | CallLoad _ => "Failed to load routes"
  | CallSave _ => "Failed to save route"
  | CallToggle _ _ => "Failed to toggle route"
  end.

Definition shown_update (c : process_call) (v routes : jsval) : outcome jsval :=
  match c with CallLoad _ => Return (sanitizeForJson v) | _ => upserted v routes end.

(** The answer of a call, and the error and the routes shown after it, from the executor's. *)
Definition answer (c : process_call) (o : outcome jsval) (routes : jsval) : outcome unit * option string * jsval :=
  match (v ← o; field ← prop (field_of c) v; shown_update c field routes) with
  | Return routes' => (Return tt, None, routes')
  | Throw e => (Throw e, redacted_error (Some (if instanceof_Error e then err_message e else fallback_of c)), routes)
  end.

Section call_spec.
Context {P S : Type} `{RoutesProjectionLaws P} (executor : Z -> string -> string -> jsval -> eff S jsval).

Definition shows (p : P) (error : option string) (routes : jsval) : Prop :=
  shown_pending p = false /\ shown_error p = error /\ shown_routes p = routes.

Lemma run_failed fallback e (p : P) :
  shows (proj_setPending false (proj_setError (Some (if instanceof_Error e then err_message e else fallback)) p))
    (redacted_error (Some (if instanceof_Error e then err_message e else fallback))) (shown_routes p).
Proof.
  unfold shows. destruct (setPending_shows false (proj_setError (Some (if instanceof_Error e then err_message e else fallback)) p)) as (-> & -> & ->).
  by destruct (setError_shows (Some (if instanceof_Error e then err_message e else fallback)) p) as (_ & -> & ->).
Qed.

Lemma run_started (p : P) :
  let p0 := proj_setError None (proj_setPending true p) in shown_error p0 = None /\ shown_routes p0 = shown_routes p.
Proof.
  cbn zeta. destruct (setError_shows None (proj_setPending true p)) as (_ & -> & ->).
  by destruct (setPending_shows true p) as (_ & _ & ->).
Qed.

Lemma load_done field (p : P) :
  shown_error p = None -> shows (proj_setPending false (proj_replaceRoutes field p)) None (sanitizeForJson field).
Proof.
  intros He. unfold shows. destruct (setPending_shows false (proj_replaceRoutes field p)) as (-> & -> & ->).
  by destruct (replaceRoutes_shows field p) as (_ & -> & ->).
Qed.

Lemma upsert_done field (p : P) : shown_error p = None ->
  match upserted field (shown_routes p) with
  | Return routes => exists p', proj_upsertRoute field p = Return p' /\ shows (proj_setPending false p') None routes
  | Throw e => proj_upsertRoute field p = Throw e
  end.
Proof.
  intros He. pose proof (upsertRoute_shows field p) as Hu.
  destruct (proj_upsertRoute field p) as [p'|e]; [|by rewrite Hu].
  destruct Hu as (_ & He' & ->). eexists. split; [done|]. unfold shows.
  destruct (setPending_shows false p') as (-> & -> & ->). by rewrite He'.
Qed.

(** Whatever the projection, a call asks the executor once and shows what its answer says. *)
Lemma run_call_spec now uuid c (p : P) s :
  let (o, s') := executor now uuid (command_of c) (payload_of c) s in
  let '(q, error, routes) := answer c o (shown_routes p) in
  exists p', run_call executor now uuid c (p, s) = (q, (p', s')) /\ shows p' error routes.
Proof.
  destruct (run_started p) as [He0 Hr0]. unfold answer.
  destruct c; cbn [run_call command_of payload_of field_of fallback_of shown_update];
    unfold process_load, process_save, process_toggle, process_run, on_projection, on_projection_out, on_executor,
      gateway_list, gateway_save, gateway_toggle, response_field, ex_execute; run_eff; cbn [default];
    (destruct (executor _ _ _ _ _) as [[v|e] s'] eqn:Hx; unfold mbind, outcome_bind; cbn [fst snd];
      [|eexists; split; [reflexivity|]; rewrite <- Hr0; apply run_failed]);
    (destruct (prop _ v) as [field|e]; cbn [fst snd];
      [|eexists; split; [reflexivity|]; rewrite <- Hr0; apply run_failed]).
  { eexists. split; [reflexivity|]. by apply load_done. }
  all: pose proof (upsert_done field _ He0) as Hu; rewrite Hr0 in Hu.
  all: destruct (upserted field (shown_routes p)) as [routes|e]; [by destruct Hu as (p' & -> & Hp'); eexists|].
  all: rewrite Hu; eexists; split; [reflexivity|]; rewrite <- Hr0; apply run_failed.
Qed.
End call_spec.

(** ** The executor in memory updates its list at one id *)

(** Routes with distinct ids. *)
Definition keyed_list (l : list jsval) : Prop := exists ids, ids_are l ids /\ NoDup ids.

Lemma keyed_identified l : keyed_list l -> identified l.
Proof.
  intros (ids & Hl & _). unfold identified. induction Hl; constructor; [by eexists|done].
Qed.

Lemma keyed_NoDup l : keyed_list l -> NoDup l.
Proof.
  intros (ids & Hl & Hnd). induction Hl as [|r id l ids Hr Hl IH]; [constructor|].
  apply NoDup_cons in Hnd as [Hin Hnd]. constructor; [|by apply IH]. intros Hm. apply Hin.
  apply list_elem_of_lookup_1 in Hm as (i & Hi). destruct (Forall2_lookup_l _ _ _ _ _ Hl Hi) as (c & Hc & Hrc).
  assert (c = id) as -> by (unfold has_id in *; congruence). by eapply list_elem_of_lookup_2.
Qed.

(** An update keeps the ids distinct and changes the route of one id. *)
Definition updates (a : string) (route : jsval) (l next : list jsval) : Prop :=
  keyed_list next /\ updated_at a route l next.

Lemma elem_without id r l : r ∈ without id l <-> r ∈ l /\ js_is_str (jget "id" r) id = false.
Proof. unfold without. by rewrite !list_elem_of_In, List.filter_In, negb_true_iff. Qed.

Lemma without_ids l ids a : ids_are l ids -> ids_are (without a l) (List.filter (fun b => negb (bool_decide (b = a))) ids).
Proof.
  induction 1 as [|r b l ids Hr Hl IH]; [constructor|]. unfold without. cbn [List.filter]. rewrite Hr. cbn [js_is_str].
  destruct (bool_decide (b = a)); [exact IH|]. by constructor.
Qed.

Lemma save_updates l route a : keyed_list l -> has_id a route -> updates a route l (without a l ++ [route]).
Proof.
  intros (ids & Hl & Hnd) Ha. split.
  - exists (List.filter (fun b => negb (bool_decide (b = a))) ids ++ [a]). split.
    + apply Forall2_app; [by apply without_ids|]. by repeat constructor.
    + apply NoDup_app. split_and!; [by apply NoDup_ListNoDup, List.NoDup_filter, NoDup_ListNoDup| |apply NoDup_singleton].
      intros b [_ Hb]%list_elem_of_In%List.filter_In ->%list_elem_of_singleton. by rewrite bool_decide_true in Hb.
  - intros b r Hb. rewrite elem_of_app, list_elem_of_singleton, elem_without, Hb. cbn [js_is_str].
    destruct (decide (b = a)) as [->|Hne].
    + rewrite bool_decide_true by done. naive_solver.
    + rewrite bool_decide_false by done. split; [|tauto]. intros [[? _]| ->]; [done|]. unfold has_id in *. congruence.
Qed.

(** The route found for an id, and what replacing it does. *)
Lemma find_id_spec l ids a : ids_are l ids ->
  find_id (JStr a) l = Return None \/
  exists current, find_id (JStr a) l = Return (Some current) /\ has_id a current /\ current ∈ l /\ a ∈ ids.
Proof.
  induction 1 as [|r b l ids Hr _ IH]; [by left|]. cbn [find_id]. unfold other_id, mbind, outcome_bind.
  rewrite (prop_id _ _ Hr). cbn [strict_ne]. destruct (bool_decide_reflect (b = a)) as [->|Hne]; cbn [negb].
  - right. exists r. split_and!; try done; apply list_elem_of_here.
  - destruct IH as [->|(c & -> & ? & ? & ?)]; [by left|]. right. exists c. split_and!; try done; by apply list_elem_of_further.
Qed.

Lemma replace_updates l route a : keyed_list l -> has_id a route -> (exists r, r ∈ l /\ has_id a r) ->
  exists next, replace_id (JStr a) route l = Return next /\ updates a route l next.
Proof.
  intros (ids & Hl & Hnd) Ha (r0 & Hr0 & Har0).
  assert (Hm : exists next, replace_id (JStr a) route l = Return next /\ ids_are next ids /\
    Forall2 (fun r r' => (has_id a r -> r' = route) /\ (~ has_id a r -> r' = r)) l next).
  { clear Hnd r0 Hr0 Har0. unfold replace_id. induction Hl as [|r b l ids Hr _ (next & IH & Hids & Hf)].
    { exists []. by split_and!; constructor. }
    cbn [mapM_out]. unfold other_id, mbind, outcome_bind in *. rewrite (prop_id _ _ Hr), IH. cbn [strict_ne].
    eexists. split; [reflexivity|]. destruct (bool_decide_reflect (b = a)) as [->|Hne]; cbn [negb].
    - by split; constructor.
    - split; constructor; try done. split; [|done]. unfold has_id in *. congruence. }
  destruct Hm as (next & Hm & Hids & Hf). exists next. split; [done|]. split; [by exists ids|].
  eapply replaced_at; try done. apply list_elem_of_lookup_1 in Hr0 as (i & Hi).
  destruct (Forall2_lookup_l _ _ _ _ _ Hl Hi) as (c & Hc & Hrc).
  assert (c = a) as -> by (unfold has_id in *; congruence). by eapply list_elem_of_lookup_2.
Qed.

(** ** The two applications agree *)
Section apps.
Context `{HostDate} `{LocalStorageApi}.

(** What the types of the process allow. *)
Definition typed_call (uuid : string) (c : process_call) : Prop :=
  no_secret_pattern uuid = true /\
  match c with CallLoad b => b = true | CallSave draft => typed_draft draft | CallToggle _ _ => True end.

Lemma typed_call_command uuid c : typed_call uuid c -> typed_command uuid (command_of c) (payload_of c).
Proof. intros [Hu Hc]. destruct c; split; try done. intros _. by eexists. Qed.

(** What the executor in memory does for a call: it lists its routes, updates them at one id,
    or refuses to toggle a route it does not have. *)
Inductive memory_answer (l : list jsval) : process_call -> outcome jsval -> list jsval -> Prop :=
  | M_list : memory_answer l (CallLoad true) (Return (JObj [("routes", JArr l)])) l
  | M_update c a route next : (forall b, c <> CallLoad b) -> route_ok route -> has_id a route -> updates a route l next ->
      memory_answer l c (Return (JObj [("route", route)])) next
  | M_missing id enabled : memory_answer l (CallToggle id enabled) (Throw (not_found (JStr id))) l.

Lemma drafted_id d now uuid r : typed_draft d -> drafted_route d now uuid = Return r -> exists a, has_id a r.
Proof.
  intros [Hid Hh _ _]. unfold drafted_route, mbind, outcome_bind.
  assert (Hp : prop "id" d = Return (jget "id" d)) by (unfold prop; destruct Hh as (h & Hh & _); by destruct d).
  rewrite Hp. intros <-%Return_inj. unfold has_id. cbn [jget obj_get]. rewrite decide_True by done.
  destruct Hid as [-> | (i & -> & _)]; by eexists.
Qed.

Lemma drafted_total d now uuid : typed_draft d -> exists r, drafted_route d now uuid = Return r.
Proof.
  intros [_ Hh _ _]. unfold drafted_route, prop. destruct Hh as (h & Hh & _). by destruct d; try discriminate; eexists.
Qed.

Lemma toggled_id a current enabled now : route_ok current -> has_id a current -> has_id a (toggled_route current enabled now).
Proof.
  intros ((o & ->) & Hwf & _) Ha. apply val_wf_obj in Hwf as [Hnd _]. unfold has_id, toggled_route in *. cbn [spread_props jget] in *.
  rewrite obj_get_spread by nodup_literals. cbn [obj_get]. rewrite !decide_False by done.
  rewrite obj_get_spread by done. by destruct (obj_get "id" o).
Qed.

Lemma memory_call now uuid c l : keyed_list l -> Forall route_ok l -> typed_call uuid c ->
  let (o, next) := mock_execute now uuid (command_of c) (payload_of c) l in
  memory_answer l c o next /\ keyed_list next.
Proof.
  intros Hk Hl [Hu Hc]. unfold mock_execute. destruct c as [b|draft|id enabled]; cbn [command_of payload_of].
  - subst b. cbn. split; [constructor|done].
  - rewrite decide_False, decide_True by done.
    change (prop "draft" (JObj [("draft", draft)])) with (Return draft). unfold mbind, outcome_bind.
    destruct (drafted_total draft now uuid Hc) as [route Hr]. rewrite Hr. destruct (drafted_id _ _ _ _ Hc Hr) as [a Ha].
    pose proof (drafted_ok _ _ _ _ Hc Hu Hr) as Hok. rewrite Ha, filter_other_id by by apply keyed_identified.
    destruct (save_updates l route a Hk Ha) as [Hk' Hup]. split; [|done]. by eapply M_update.
  - rewrite !decide_False, decide_True by done.
    change (prop "id" _) with (Return (JStr id)). unfold mbind, outcome_bind.
    destruct Hk as (ids & Hids & Hnd). destruct (find_id_spec l ids id Hids) as [->|(current & -> & Ha & Hin & _)].
    { split; [constructor|by exists ids]. }
    set (route := toggled_route current _ now).
    assert (Hcur : route_ok current) by (by eapply List.Forall_forall in Hl; [|apply list_elem_of_In]).
    assert (Hr : has_id id route) by (by apply toggled_id).
    destruct (replace_updates l route id) as (next & -> & Hk' & Hup); [by exists ids|done|by exists current|].
    split; [|done]. eapply M_update; [done|by apply toggled_ok|exact Hr|done].
Qed.

(** The routes shown are the routes held, in some order. *)
Definition in_step (l : list jsval) (routes : jsval) : Prop :=
  exists shown, routes = JArr shown /\ keyed_list shown /\ forall r, r ∈ shown <-> r ∈ l.

Lemma in_step_permutation l shown : keyed_list l -> in_step l (JArr shown) -> shown ≡ₚ l.
Proof.
  intros Hl (shown' & [= <-] & Hs & Hm). apply NoDup_Permutation; [by apply keyed_NoDup..|done].
Qed.

Lemma ok_sanitized r : route_ok r -> sanitizeForJson r = r.
Proof. intros (_ & Hwf & _ & Hc). by apply sanitize_clean_id. Qed.

Lemma updates_in_step a route l next shown shown' :
  keyed_list l -> keyed_list shown -> (forall r, r ∈ shown <-> r ∈ l) -> updates a route l next -> updates a route shown shown' ->
  forall r, r ∈ shown' <-> r ∈ next.
Proof.
  intros Hl Hs Hm [Hk Hn] [Hk' Hn'] r.
  assert (Hid : (exists b, has_id b r) -> r ∈ shown' <-> r ∈ next).
  { intros [b Hb]. rewrite (Hn b r Hb), (Hn' b r Hb). destruct (decide (b = a)); [done|apply Hm]. }
  split; intros Hr; apply Hid; try done;
    [apply keyed_identified, List.Forall_forall with (x := r) in Hk'|apply keyed_identified, List.Forall_forall with (x := r) in Hk];
    try done; by apply list_elem_of_In.
Qed.

(** After the answer the projection is in step with the executor; only a toggle of a route that
    is not there fails. *)
Definition fails_only (c : process_call) (o : outcome unit) : Prop :=
  match o with Throw e => exists id enabled, c = CallToggle id enabled /\ e = not_found (JStr id) | Return _ => True end.

Lemma ok_list_sanitized l : Forall route_ok l -> sanitizeForJson (JArr l) = JArr l.
Proof.
  intros Hl. cbn [sanitizeForJson]. f_equal. apply map_all_id. eapply List.Forall_impl; [|exact Hl]. apply ok_sanitized.
Qed.

Lemma upserted_in_step l next a route routes : keyed_list l -> route_ok route -> has_id a route -> updates a route l next ->
  in_step l routes -> exists routes', upserted route routes = Return routes' /\ in_step next routes'.
Proof.
  intros Hl Hok Ha Hup (shown & -> & Hs & Hm). pose proof (ok_sanitized _ Hok) as Hsan.
  pose proof Hs as (ids & Hids & Hnd).
  destruct (upsert_spec shown ids route a Hids Hnd Ha) as (shown' & Hu & Hids' & Hnd' & Hat); [by rewrite Hsan|].
  rewrite Hsan in Hat. exists (JArr shown'). unfold upserted. rewrite Hu. split; [reflexivity|].
  exists shown'. split; [done|]. split; [by eexists|].
  eapply (updates_in_step a route l next shown shown' Hl Hs Hm Hup). by split; [eexists|].
Qed.

Lemma answer_in_step l c o next routes : Forall route_ok l -> keyed_list l -> memory_answer l c o next ->
  (forall b, c <> CallLoad b) -> in_step l routes ->
  in_step next (snd (answer c o routes)) /\ fails_only c (fst (fst (answer c o routes))).
Proof.
  intros Hl Hk [|c' a route next' Hc Hok Ha Hup|id enabled] Hnl Hst; [by destruct (Hnl true)| |].
  - destruct (upserted_in_step _ _ _ _ _ Hk Hok Ha Hup Hst) as (routes' & Hu & Hst').
    assert (Hans : answer c' (Return (JObj [("route", route)])) routes = (Return tt, None, routes')).
    { unfold answer. destruct c'; [by destruct (Hc includeDisabled)|..];
        cbn [field_of shown_update]; unfold mbind, outcome_bind;
        change (prop "route" (JObj [("route", route)])) with (Return route); cbv beta iota; by rewrite Hu. }
    by rewrite Hans.
  - split; [exact Hst|]. by exists id, enabled.
Qed.

Lemma load_in_step l o next routes : Forall route_ok l -> keyed_list l -> memory_answer l (CallLoad true) o next ->
  in_step next (snd (answer (CallLoad true) o routes)) /\ fst (fst (answer (CallLoad true) o routes)) = Return tt.
Proof.
  intros Hl Hk Hm. remember (CallLoad true) as c eqn:Hc. destruct Hm as [|c' a route next' Hnl| ]; [|by destruct (Hnl true)|discriminate].
  unfold answer. cbn [field_of shown_update]. unfold mbind, outcome_bind.
  change (prop "routes" (JObj [("routes", JArr l)])) with (Return (JArr l)). cbv beta iota. rewrite ok_list_sanitized by done.
  split; [by exists l|done].
Qed.

(** Two projections that show the same. *)
Definition show_alike (p : Projection.state) (q : RendererStore.state) : Prop :=
  exists error routes, shows p error routes /\ shows q error routes.

Record agree (w : Projection.state * list jsval) (d : RendererStore.state * storage) : Prop := {
  ag_shown : show_alike (fst w) (fst d);
  ag_held : simulates (snd w) (snd d);
  ag_ids : keyed_list (snd w);
  ag_step : in_step (snd w) (Projection.routes (fst w))
}.

(** The calls that write: a save, and a toggle of a route that is there. *)
Definition writes (l : list jsval) (c : process_call) : Prop :=
  match c with
  | CallLoad _ => False
  | CallSave draft => typed_draft draft
  | CallToggle id _ => exists r, r ∈ l /\ has_id id r
  end.

Definition quota_exceeded : jserror := JsError (EDom "QuotaExceededError") "QuotaExceededError".

Lemma found_id l ids a r : ids_are l ids -> r ∈ l -> has_id a r -> exists current, find_id (JStr a) l = Return (Some current).
Proof.
  intros Hl Hr Ha. induction Hl as [|x b l ids Hx _ IH]; [by apply elem_of_nil in Hr|]. cbn [find_id].
  unfold other_id, mbind, outcome_bind. rewrite (prop_id _ _ Hx). cbn [strict_ne].
  destruct (bool_decide_reflect (b = a)) as [->|Hne]; cbn [negb]; [by eexists|].
  apply elem_of_cons in Hr as [->|Hr]; [|by apply IH]. unfold has_id in *. congruence.
Qed.

Lemma write_refused now uuid c l s :
  (forall v, rejects s ROUTES_KEY v = true) -> local_loadRoutes true s = JArr l -> keyed_list l -> writes l c ->
  local_execute true now uuid (command_of c) (payload_of c) s = (Throw quota_exceeded, s).
Proof.
  intros Hno Hs (ids & Hl & Hnd) Hc. pose proof (keyed_identified l (ex_intro _ ids (conj Hl Hnd))) as Hi.
  assert (Hset : forall next, local_saveRoutes true next s = (Throw quota_exceeded, s)).
  { intros next. unfold local_saveRoutes, setItem. by rewrite Hno. }
  destruct c as [b|draft|id enabled]; [done|..]; unfold local_execute; run_eff; cbn [command_of payload_of].
  - rewrite decide_False, decide_True by done. unfold outcome_bind.
    change (prop "draft" (JObj [("draft", draft)])) with (Return draft).
    destruct (drafted_total draft now uuid Hc) as [route Hr]. cbv beta iota. rewrite Hr, Hs.
    destruct (drafted_id _ _ _ _ Hc Hr) as [a Ha]. unfold js_array.
    rewrite Ha, filter_other_id by done. cbn [fst snd]. by rewrite Hset.
  - rewrite !decide_False, decide_True by done. unfold outcome_bind. rewrite Hs. unfold js_array.
    change (prop "id" _) with (Return (JStr id)). cbv beta iota.
    destruct Hc as (r & Hr & Ha). destruct (found_id l ids id r Hl Hr Ha) as [current ->].
    destruct (replace_updates l (JObj [("id", JStr id)]) id) as (next & Hn & _); [by exists ids|done|by exists r|].
    assert (Hrep : exists next, replace_id (JStr id) (toggled_route current (JBool enabled) now) l = Return next).
    { clear -Hi. unfold replace_id. induction Hi as [|x l [b Hx] _ [next IH]]; [by eexists|]. cbn [mapM_out].
      unfold other_id, mbind, outcome_bind in *. rewrite (prop_id _ _ Hx), IH. by eexists. }
    change (jget "enabled" (JObj [("id", JStr id); ("enabled", JBool enabled)])) with (JBool enabled).
    destruct Hrep as [next' ->]. cbn [fst snd]. by rewrite Hset.
Qed.

Section open.
Context (Hopen : forall s k v, rejects s k v = false).

(** One call of both, [routes] shown before it. *)
Lemma call_agrees now uuid c p q l s :
  Projection.routes p = RendererStore.routes q -> simulates l s -> keyed_list l -> typed_call uuid c ->
  ((exists b, c = CallLoad b) \/ in_step l (Projection.routes p)) ->
  let (o, w) := run_call mock_execute now uuid c (p, l) in
  let (o', d) := run_call (local_execute true) now uuid c (q, s) in
  o' = o /\ agree w d /\ fails_only c o.
Proof.
  intros Hpq Hsim Hk Hc Hst. pose proof Hsim as [Hl _].
  destruct (executors_step Hopen now uuid _ _ l s Hsim (typed_call_command _ _ Hc)) as [Ho Hsim'].
  pose proof (memory_call now uuid c l Hk Hl Hc) as Hm.
  pose proof (run_call_spec mock_execute now uuid c p l) as Hw.
  pose proof (run_call_spec (local_execute true) now uuid c q s) as Hd.
  change (shown_routes p) with (Projection.routes p) in Hw. change (shown_routes q) with (RendererStore.routes q) in Hd.
  rewrite <- Hpq in Hd.
  destruct (mock_execute now uuid _ _ l) as [o l'], (local_execute true now uuid _ _ s) as [o' s'].
  cbn [fst snd] in Ho, Hsim'. subst o'. destruct Hm as [Hm Hk'].
  assert (Hans : in_step l' (snd (answer c o (Projection.routes p))) /\ fails_only c (fst (fst (answer c o (Projection.routes p))))).
  { destruct Hst as [[b ->]|Hst].
    - destruct Hc as [_ ->]. destruct (load_in_step _ _ _ (Projection.routes p) Hl Hk Hm) as [? ->]. done.
    - destruct c as [b|draft|id enabled]; [|by eapply answer_in_step..]. destruct Hc as [_ ->].
      destruct (load_in_step _ _ _ (Projection.routes p) Hl Hk Hm) as [? ->]. done. }
  destruct (answer c o (Projection.routes p)) as [[a error] routes]. cbn [fst snd] in Hans.
  destruct Hw as (p' & -> & Hp'), Hd as (q' & -> & Hq'). split; [done|]. split; [|apply Hans].
  split; [by exists error, routes|done|done|]. cbn [fst snd]. change (Projection.routes p') with (shown_routes p').
  destruct Hp' as (_ & _ & ->). apply Hans.
Qed.

(** The calls of a session, without the clock. *)
Definition calls_of (cs : list (Z * string * process_call)) : list process_call := List.map snd cs.
Definition typed_session (cs : list (Z * string * process_call)) : Prop :=
  Forall (fun '(_, uuid, c) => typed_call uuid c) cs.

Lemma session_agrees cs : typed_session cs -> forall w d, agree w d ->
  let (os, w') := web_session cs w in let (os', d') := desktop_session cs d in
  os' = os /\ agree w' d' /\ Forall2 fails_only (calls_of cs) os.
Proof.
  induction 1 as [|[[now uuid] c] cs Hc _ IH]; intros [p l] [q s] Hag; [by split_and!; [|..|constructor]|].
  unfold web_session, desktop_session in *. cbn [run_session]. pose proof Hag as [(error & routes & Hp & Hq) Hsim Hk Hst]. cbn [fst snd] in *.
  assert (Hpq : Projection.routes p = RendererStore.routes q).
  { change (shown_routes p = shown_routes q). destruct Hp as (_ & _ & ->), Hq as (_ & _ & ->). done. }
  pose proof (call_agrees now uuid c p q l s Hpq Hsim Hk Hc (or_intror Hst)) as Hcall.
  destruct (run_call mock_execute now uuid c (p, l)) as [o w1], (run_call (local_execute true) now uuid c (q, s)) as [o' d1].
  destruct Hcall as (-> & Hag1 & Hf). specialize (IH w1 d1 Hag1).
  destruct (run_session mock_execute cs w1) as [os w'], (run_session (local_execute true) cs d1) as [os' d'].
  destruct IH as (-> & Hag' & Hfs). split; [done|]. split; [done|]. by constructor.
Qed.

Lemma mounted_session_agrees now uuid cs l s :
  simulates l s -> keyed_list l -> no_secret_pattern uuid = true -> typed_session cs ->
  let calls := (now, uuid, useRoutesProcess Mounted) :: cs in
  let (os, w) := web_session calls (Projection.init, l) in
  let (os', d) := desktop_session calls (RendererStore.init, s) in
  os' = os /\ Forall2 fails_only (calls_of calls) os /\ agree w d.
Proof.
  intros Hsim Hk Hu Hcs calls. unfold calls, web_session, desktop_session. cbn [run_session useRoutesProcess].
  pose proof (call_agrees now uuid (CallLoad true) Projection.init RendererStore.init l s eq_refl Hsim Hk
                (conj Hu eq_refl) (or_introl (ex_intro _ true eq_refl))) as Hcall.
  destruct (run_call mock_execute _ _ _ _) as [o w1], (run_call (local_execute true) _ _ _ _) as [o' d1].
  destruct Hcall as (-> & Hag & Hf). pose proof (session_agrees cs Hcs w1 d1 Hag) as Hs. unfold web_session, desktop_session in Hs.
  destruct (run_session mock_execute cs w1) as [os w], (run_session (local_execute true) cs d1) as [os' d].
  destruct Hs as (-> & Hag' & Hfs). split_and!; [done|by constructor|done].
Qed.
End open.

(** C13.  The routes process of the browser over the executor in memory and the one of the
    desktop over local storage, started on storage that reads back as the browser's routes,
    with distinct ids and no text redaction would change, and given the load of the first render and any typed calls after it, texts and random ids that
    redaction leaves alone.  As long as the storage accepts every write, every call has the same
    outcome in both and no call fails but a toggle of a route that is not there; the two stores
    show the same error and the same routes with the pending flag down, the storage reads back
    as the list in memory, and the routes shown are, up to their order, the routes held.  Where
    the storage refuses to write, every call that writes fails on the desktop with the
    storage's error, whose message is shown, and keeps the storage and the routes shown. *)
Theorem apps_agree now uuid cs l s :
  simulates l s -> keyed_list l -> no_secret_pattern uuid = true -> typed_session cs ->
  ((forall s k v, rejects s k v = false) ->
   let calls := (now, uuid, useRoutesProcess Mounted) :: cs in
   let (os, w) := web_session calls (Projection.init, l) in
   let (os', d) := desktop_session calls (RendererStore.init, s) in
   os' = os /\ Forall2 fails_only (calls_of calls) os /\
   show_alike (fst w) (fst d) /\ simulates (snd w) (snd d) /\
   exists shown, Projection.routes (fst w) = JArr shown /\ shown ≡ₚ snd w) /\
  ((forall v, rejects s ROUTES_KEY v = true) -> forall q now uuid c, writes l c ->
   let (o, d) := run_call (local_execute true) now uuid c (q, s) in
   o = Throw quota_exceeded /\ snd d = s /\
   shows (fst d) (redacted_error (Some "QuotaExceededError")) (RendererStore.routes q)).
Proof.
  intros Hsim Hk Hu Hcs. split.
  - intros Hopen calls. pose proof (mounted_session_agrees Hopen now uuid cs l s Hsim Hk Hu Hcs) as Hs.
    fold calls in Hs. cbv zeta in Hs.
    destruct (web_session calls _) as [os w], (desktop_session calls _) as [os' d].
    destruct Hs as (-> & Hf & [Hshow Hheld Hids Hst]). split_and!; [done..|].
    pose proof Hst as (shown & Hr & _). exists shown. split; [done|]. apply in_step_permutation; [done|]. by rewrite <- Hr.
  - intros Hno q now' uuid' c Hc. pose proof (run_call_spec (local_execute true) now' uuid' c q s) as Hr.
    rewrite (write_refused now' uuid' c l s Hno (proj2 Hsim) Hk Hc) in Hr.
    change (shown_routes q) with (RendererStore.routes q) in Hr.
    destruct (run_call _ _ _ _ _) as [o d]. destruct Hr as (p' & [= -> ->] & Hp). by split_and!.
Qed.
End apps.

(** ** The theorem at work *)

#[local] Existing Instance open_storage.
#[local] Existing Instance no_host.

Definition sample_draft : jsval := JObj [("host", JStr "a.example"); ("destination", JStr "10.0.0.1")].
Definition sample_calls : list (Z * string * process_call) :=
  [(1, "u1", useRoutesProcess (Save sample_draft)); (2, "u2", useRoutesProcess (Toggle "u1" false));
   (3, "u3", useRoutesProcess (Toggle "zz" true)); (4, "u4", useRoutesProcess Load)].

Lemma apps_agree_witness :
  let calls := (0, "u0", useRoutesProcess Mounted) :: sample_calls in
  let (os, w) := web_session calls (Projection.init, []) in
  let (os', d) := desktop_session calls (RendererStore.init, ∅) in
  os' = os /\ Forall2 fails_only (calls_of calls) os /\
  show_alike (fst w) (fst d) /\ simulates (snd w) (snd d) /\
  exists shown, Projection.routes (fst w) = JArr shown /\ shown ≡ₚ snd w.
Proof.
  assert (Hsim : simulates [] ∅) by (split; [apply List.Forall_nil|reflexivity]).
  assert (Hk : keyed_list []) by (exists []; split; [apply Forall2_nil_2|apply NoDup_nil_2]).
  assert (Hu : no_secret_pattern "u0" = true) by (vm_compute; reflexivity).
  assert (Hcs : typed_session sample_calls).
  { repeat apply List.Forall_cons; try apply List.Forall_nil; (split; [vm_compute; reflexivity|]); try exact I; [|reflexivity].
    constructor; [by left|by eexists; split; [reflexivity|vm_compute]..|by left]. }
  destruct (apps_agree 0 "u0" sample_calls [] ∅ Hsim Hk Hu Hcs) as [Hagree _].
  apply Hagree. reflexivity.
Defined.

(** A save on a full storage. *)
Example full_storage_save :
  fst (run_call (P := RendererStore.state) (@local_execute _ (fun _ _ _ => true) true) 1 "u1" (CallSave sample_draft)
         (RendererStore.init, ∅)) = Throw quota_exceeded.
Proof. vm_compute. reflexivity. Qed.
