(* ===== verification/SshConnection.v ===== *)
(** * The shared SSH connection

    apps/desktop/src/main/ssh/SSHConnectionManager.ts: one client serves every command of
    the main process.  The client library ([ssh2]) and the abort signals are the
    environment: they emit events, in any order and at any time; an operation or a callback
    of the manager runs to its end before the next event.  The continuations a promise runs
    ([finally], [then], the code after an await) are events of their own. *)

From S2P Require Import Prelude JsString Regex JsValue Dates Json Secrets Repositories RoutesProcess.

Definition CONNECT_FAILED_CODE : string := "SSH_CONNECT_FAILED".
Definition SHUTTING_DOWN_CODE : string := "SSH_SHUTTING_DOWN".

(** ** State *)

(** Clients and signals are numbered in the order they are made. *)
Abbreviation client := nat.
Abbreviation signal := nat.

(** A connection attempt: the signal of the call that started it, what its promise was
    settled with ([settled] is that it was), whether the [finally] of [getClient] ran for it,
    and whether the client was told to end. *)
Record conn := Conn {
  c_signal : option signal;
  c_result : option (outcome client);
  c_cleared : bool;
  c_ended : bool
}.

(** A caller of [getClient] that waits for an attempt, with its own signal. *)
Record waiter := Waiter {
  w_conn : client;
  w_signal : option signal;
  w_result : option (outcome client)
}.

(** [closing] holds the clients whose [shutdown] has not returned; [uncaught] is raised when
    a client without an error listener emits an error. *)
Record manager := Manager {
  activeClient : option client;
  connectPromise : option client;
  shuttingDown : bool;
  conns : list conn;
  waiters : list waiter;
  aborted : list signal;
  closing : list client;
  uncaught : bool
}.

Definition init_manager : manager := Manager None None false [] [] [] [] false.

Definition set_active (a : option client) (st : manager) : manager :=
  Manager a (connectPromise st) (shuttingDown st) (conns st) (waiters st) (aborted st) (closing st) (uncaught st).
Definition set_promise (p : option client) (st : manager) : manager :=
  Manager (activeClient st) p (shuttingDown st) (conns st) (waiters st) (aborted st) (closing st) (uncaught st).
Definition set_shutting (b : bool) (st : manager) : manager :=
  Manager (activeClient st) (connectPromise st) b (conns st) (waiters st) (aborted st) (closing st) (uncaught st).
Definition set_conns (cs : list conn) (st : manager) : manager :=
  Manager (activeClient st) (connectPromise st) (shuttingDown st) cs (waiters st) (aborted st) (closing st) (uncaught st).
Definition set_waiters (ws : list waiter) (st : manager) : manager :=
  Manager (activeClient st) (connectPromise st) (shuttingDown st) (conns st) ws (aborted st) (closing st) (uncaught st).
Definition set_aborted (g : list signal) (st : manager) : manager :=
  Manager (activeClient st) (connectPromise st) (shuttingDown st) (conns st) (waiters st) g (closing st) (uncaught st).
Definition set_closing (l : list client) (st : manager) : manager :=
  Manager (activeClient st) (connectPromise st) (shuttingDown st) (conns st) (waiters st) (aborted st) l (uncaught st).
Definition set_uncaught (st : manager) : manager :=
  Manager (activeClient st) (connectPromise st) (shuttingDown st) (conns st) (waiters st) (aborted st) (closing st) true.

(** ** The callbacks of [connect] *)

Definition settle (r : outcome client) (ended : bool) (c : conn) : conn :=
  Conn (c_signal c) (Some r) (c_cleared c) (c_ended c || ended).

(** [onAbort] *)
Definition conn_onAbort (c : conn) : conn :=
  match c_result c with
  | Some _ => c
  | None => settle (Throw aborted_error) true c
  end.

(** [if (this.activeClient === client) this.activeClient = null] *)
Definition invalidate (n : client) (st : manager) : manager :=
  if decide (activeClient st = Some n) then set_active None st else st.

(** [onReady], which also installs the listeners of an active client. *)
Definition onReady (n : client) (st : manager) : manager :=
  match conns st !! n with
  | Some c =>
      match c_result c with
      | Some _ => st
      | None => set_active (Some n) (set_conns (<[n := settle (Return n) false c]> (conns st)) st)
      end
  | None => st
  end.

(** An error: [onError] while connecting, the invalidating listener of a ready client, and no
    listener at all on a client whose attempt failed or was aborted. *)
Definition onError (n : client) (message : string) (st : manager) : manager :=
  match conns st !! n with
  | Some c =>
      match c_result c with
      | None =>
          let e := RemoteExecutionError (redactPotentialSecrets message) (Some CONNECT_FAILED_CODE) in
          set_conns (<[n := settle (Throw e) false c]> (conns st)) st
      | Some (Return _) => invalidate n st
      | Some (Throw _) => set_uncaught st
      end
  | None => st
  end.

Definition onClose (n : client) (st : manager) : manager :=
  match conns st !! n with
  | Some c => match c_result c with Some (Return _) => invalidate n st | _ => st end
  | None => st
  end.

(** ** The operations *)

Definition is_aborted (g : option signal) (st : manager) : bool :=
  match g with Some s => bool_decide (s ∈ aborted st) | None => false end.

(** [this.connectPromise = this.connect(signal).finally(...)] *)
Definition connect (g : option signal) (st : manager) : manager :=
  let c := Conn g None false false in
  set_promise (Some (length (conns st)))
    (set_conns (conns st ++ [if is_aborted g st then conn_onAbort c else c]) st).

(** What a call of [getClient] has at its first await. *)
Inductive reply := Settled (r : outcome client) | Waiting (n : client).

Definition withAbort (n : client) (g : option signal) (st : manager) : manager * reply :=
  if is_aborted g st then (st, Settled (Throw aborted_error))
  else (set_waiters (waiters st ++ [Waiter n g None]) st, Waiting n).

Definition getClient (g : option signal) (st : manager) : manager * reply :=
  if shuttingDown st then
    (st, Settled (Throw (RemoteExecutionError "SSH connection manager is shutting down" (Some SHUTTING_DOWN_CODE))))
  else match activeClient st with
  | Some n => (st, Settled (Return n))
  | None =>
      match connectPromise st with
      | Some n => withAbort n g st
      | None => withAbort (length (conns st)) g (connect g st)
      end
  end.

(** [client.end()] *)
Definition end_client (n : client) (st : manager) : manager :=
  match conns st !! n with
  | Some c => set_conns (<[n := Conn (c_signal c) (c_result c) (c_cleared c) true]> (conns st)) st
  | None => st
  end.

(** [shutdown] up to its await: at once without an active client. *)
Definition shutdown (st : manager) : manager :=
  match activeClient st with
  | None => set_shutting false (set_active None st)
  | Some n => set_closing (n :: closing st) (end_client n (set_active None (set_shutting true st)))
  end.

(** The timer or the close event of the client ended the wait. *)
Definition shutdown_done (n : client) (st : manager) : manager :=
  if decide (n ∈ closing st)
  then set_shutting false (set_closing (List.filter (fun m => negb (bool_decide (m = n))) (closing st)) st)
  else st.

(** [.finally(() => { this.connectPromise = null; })] *)
Definition finally (n : client) (st : manager) : manager :=
  match conns st !! n with
  | Some c =>
      if bool_decide (is_Some (c_result c)) && negb (c_cleared c)
      then set_promise None (set_conns (<[n := Conn (c_signal c) (c_result c) true (c_ended c)]> (conns st)) st)
      else st
  | None => st
  end.

(** The attempt's answer reaches a waiter, unless its signal was first. *)
Definition deliver (i : nat) (st : manager) : manager :=
  match waiters st !! i with
  | Some w =>
      match w_result w, conns st !! w_conn w with
      | None, Some c =>
          if c_cleared c then set_waiters (<[i := Waiter (w_conn w) (w_signal w) (c_result c)]> (waiters st)) st else st
      | _, _ => st
      end
  | None => st
  end.

(** A signal aborts: the attempts and the waiters that listen to it. *)
Definition abort (g : signal) (st : manager) : manager :=
  set_aborted (g :: aborted st)
    (set_conns (List.map (fun c => if decide (c_signal c = Some g) then conn_onAbort c else c) (conns st))
      (set_waiters
        (List.map (fun w => if decide (w_signal w = Some g)
                            then match w_result w with
                                 | None => Waiter (w_conn w) (w_signal w) (Some (Throw aborted_error))
                                 | Some _ => w
                                 end
                            else w) (waiters st)) st)).

Inductive event :=
  | EvGet (g : option signal)
  | EvShutdown
  | EvAbort (g : signal)
  | EvReady (n : client)
  | EvError (n : client) (message : string)
  | EvClose (n : client)
  | EvFinally (n : client)
  | EvDeliver (i : nat)
  | EvShutdownDone (n : client).

Definition handle (ev : event) (st : manager) : manager :=
  match ev with
  | EvGet g => fst (getClient g st)
  | EvShutdown => shutdown st
  | EvAbort g => abort g st
  | EvReady n => onReady n st
  | EvError n m => onError n m st
  | EvClose n => onClose n st
  | EvFinally n => finally n st
  | EvDeliver i => deliver i st
  | EvShutdownDone n => shutdown_done n st
  end.

Inductive manager_step : manager -> manager -> Prop :=
  | Manager_step ev st : manager_step st (handle ev st).

Definition run_events (evs : list event) : manager := fold_left (fun st ev => handle ev st) evs init_manager.

(** [connect]'s keepalive settings: the option, else the configuration, else the default. *)
Definition keepalive (opt config : option Z) (dflt : Z) : Z := default (default dflt config) opt.
Definition keepaliveInterval (opt config : option Z) : Z := keepalive opt config 15000.
Definition keepaliveCountMax (opt config : option Z) : Z := keepalive opt config 3.

(** * Safety *)

(** The errors a caller can be given. *)
Definition connect_error (e : jserror) : Prop :=
  e = aborted_error \/
  err_class_of e = ERemote CONNECT_FAILED_CODE /\ test bearer_pattern (err_message e) = false.

(** Attempt [n] gives its own client or one of those errors; only an attempt that is still
    pending, or settled with its [finally] to come, is not cleared. *)
Record conn_ok (n : client) (c : conn) : Prop := {
  ok_pending : c_result c = None -> c_cleared c = false /\ c_ended c = false;
  ok_return m : c_result c = Some (Return m) -> m = n;
  ok_throw e : c_result c = Some (Throw e) -> connect_error e
}.

Definition answered (st : manager) (n : client) (o : outcome client) : Prop :=
  match o with
  | Return m => m = n /\ exists c, conns st !! n = Some c /\ c_result c = Some (Return n)
  | Throw e => connect_error e
  end.

Record manager_ok (st : manager) : Prop := {
  mo_conns n c : conns st !! n = Some c -> conn_ok n c;
  mo_flight n c : conns st !! n = Some c -> c_cleared c = false -> connectPromise st = Some n;
  mo_promise n : connectPromise st = Some n -> exists c, conns st !! n = Some c;
  mo_active n : activeClient st = Some n ->
    exists c, conns st !! n = Some c /\ c_result c = Some (Return n) /\ c_ended c = false;
  mo_waiters w o : w ∈ waiters st -> w_result w = Some o -> answered st (w_conn w) o
}.

Lemma aborted_ok : connect_error aborted_error.
Proof. by left. Qed.

Lemma init_ok : manager_ok init_manager.
Proof. constructor; try discriminate. intros w o Hw. by apply elem_of_nil in Hw. Qed.

Lemma insert_conn n m (c c' d : conn) (l : list conn) :
  l !! n = Some c -> <[n := c']> l !! m = Some d -> (m = n /\ d = c') \/ (m <> n /\ l !! m = Some d).
Proof.
  intros Hn Hm. destruct (decide (m = n)) as [->|Hne].
  - rewrite list_lookup_insert_eq in Hm by (by eapply lookup_lt_Some). injection Hm as <-. by left.
  - rewrite list_lookup_insert_ne in Hm by done. by right.
Qed.

(** What a step may do to one attempt: settle it, clear it, or end a client that is not
    active; an answer already given stays. *)
Definition grows (st : manager) (n : client) (c c' : conn) : Prop :=
  (forall r, c_result c = Some r -> c_result c' = Some r) /\
  (c_cleared c' = false -> c_cleared c = false) /\
  (activeClient st = Some n -> c_ended c = false -> c_ended c' = false).

Lemma answered_grows st n c c' m o :
  conns st !! n = Some c -> grows st n c c' -> answered st m o ->
  answered (set_conns (<[n := c']> (conns st)) st) m o.
Proof.
  intros Hn (Hr & _) Ho. destruct o as [k|e]; [|done]. destruct Ho as [-> (d & Hd & Hdr)]. split; [done|].
  cbn. destruct (decide (m = n)) as [->|Hne].
  - exists c'. rewrite list_lookup_insert_eq by (by eapply lookup_lt_Some). split; [done|]. apply Hr. congruence.
  - exists d. by rewrite list_lookup_insert_ne.
Qed.

Lemma update_conn_ok st n c c' :
  manager_ok st -> conns st !! n = Some c -> conn_ok n c' -> grows st n c c' ->
  manager_ok (set_conns (<[n := c']> (conns st)) st).
Proof.
  intros [Hc Hf Hp Ha Hw] Hn Hc' Hg. constructor; cbn.
  - intros m d Hm. destruct (insert_conn _ _ _ _ _ _ Hn Hm) as [[-> ->]|[_ Hd]]; eauto.
  - intros m d Hm Hd. destruct (insert_conn _ _ _ _ _ _ Hn Hm) as [[-> ->]|[_ Hd']]; [|eauto].
    eapply Hf; [exact Hn|]. by apply Hg.
  - intros m Hm. destruct (Hp m Hm) as [d Hd]. apply lookup_lt_is_Some_2. rewrite length_insert. by eapply lookup_lt_Some.
  - intros m Hm. destruct (Ha m Hm) as (d & Hd & Hr & He). destruct (decide (m = n)) as [->|Hne].
    + exists c'. rewrite list_lookup_insert_eq by (by eapply lookup_lt_Some).
      assert (d = c) as -> by congruence. destruct Hg as (Hgr & _ & Hge). by eauto.
    + exists d. by rewrite list_lookup_insert_ne.
  - intros w o Hin Hr. eapply answered_grows; eauto.
Qed.

(** Steps that leave the attempts alone. *)
Lemma clear_active_ok st : manager_ok st -> manager_ok (set_active None st).
Proof. intros [Hc Hf Hp Ha Hw]. by constructor. Qed.

Lemma shutting_ok b st : manager_ok st -> manager_ok (set_shutting b st).
Proof. intros [Hc Hf Hp Ha Hw]. by constructor. Qed.

Lemma closing_ok l st : manager_ok st -> manager_ok (set_closing l st).
Proof. intros [Hc Hf Hp Ha Hw]. by constructor. Qed.

Lemma invalidate_ok n st : manager_ok st -> manager_ok (invalidate n st).
Proof. intros Hok. unfold invalidate. destruct (decide _); [by apply clear_active_ok|done]. Qed.

Lemma waiters_ok ws st :
  manager_ok st -> (forall w o, w ∈ ws -> w_result w = Some o -> answered st (w_conn w) o) ->
  manager_ok (set_waiters ws st).
Proof. intros [Hc Hf Hp Ha _] Hw. by constructor. Qed.

Lemma settle_ok n r ended c : (forall m, r = Return m -> m = n) -> (forall e, r = Throw e -> connect_error e) ->
  conn_ok n (settle r ended c).
Proof. intros Hm He. constructor; [discriminate|intros m [= ->]; auto|intros e [= ->]; auto]. Qed.

Lemma settle_grows st n r ended c :
  c_result c = None -> (activeClient st = Some n -> ended = false) -> grows st n c (settle r ended c).
Proof.
  intros Hc He. split_and!; [by rewrite Hc|done|]. intros Ha Hn. cbn. by rewrite Hn, (He Ha).
Qed.

Lemma pending_not_active st n c : manager_ok st -> conns st !! n = Some c -> c_result c = None -> activeClient st <> Some n.
Proof. intros Hok Hn Hc Ha. destruct (mo_active _ Hok n Ha) as (d & Hd & Hr & _). congruence. Qed.

Lemma onReady_ok n st : manager_ok st -> manager_ok (onReady n st).
Proof.
  intros Hok. unfold onReady. destruct (conns st !! n) as [c|] eqn:Hn; [|done].
  destruct (c_result c) eqn:Hr; [done|].
  assert (Hok' : manager_ok (set_conns (<[n := settle (Return n) false c]> (conns st)) st)).
  { eapply update_conn_ok; [done|done|by apply settle_ok; congruence|by apply settle_grows]. }
  destruct Hok' as [Hc Hf Hp Ha Hw]. constructor; try done. intros m [= <-]. cbn.
  exists (settle (Return n) false c). rewrite list_lookup_insert_eq by (by eapply lookup_lt_Some).
  split; [done|]. split; [done|]. cbn. rewrite (proj2 (ok_pending _ _ (mo_conns _ Hok n c Hn) Hr)). done.
Qed.

Lemma onError_ok n m st : manager_ok st -> manager_ok (onError n m st).
Proof.
  intros Hok. unfold onError. destruct (conns st !! n) as [c|] eqn:Hn; [|done].
  destruct (c_result c) as [[k|e]|] eqn:Hr.
  - by apply invalidate_ok.
  - destruct Hok as [Hc Hf Hp Ha Hw]. by constructor.
  - eapply update_conn_ok; [done|done| |by apply settle_grows]. apply settle_ok; [discriminate|].
    intros e [= <-]. right. split; [done|]. apply redacted_no_bearer.
Qed.

Lemma onClose_ok n st : manager_ok st -> manager_ok (onClose n st).
Proof.
  intros Hok. unfold onClose. destruct (conns st !! n) as [c|] eqn:Hn; [|done].
  destruct (c_result c) as [[k|e]|]; [by apply invalidate_ok|done..].
Qed.

Lemma shutdown_ok st : manager_ok st -> manager_ok (shutdown st).
Proof.
  intros Hok. unfold shutdown. destruct (activeClient st) as [n|] eqn:Ha.
  - apply closing_ok. unfold end_client. set (st1 := set_active None (set_shutting true st)).
    assert (Hok1 : manager_ok st1) by (by apply clear_active_ok, shutting_ok).
    destruct (conns st1 !! n) as [c|] eqn:Hn; [|done]. eapply update_conn_ok; [done|done| |].
    + destruct (mo_conns _ Hok1 n c Hn) as [Hp Hr He]. constructor; try done. cbn. intros Hc.
      destruct (mo_active _ Hok n Ha) as (d & Hd & Hdr & _). assert (d = c) as -> by (unfold st1 in Hn; cbn in Hn; congruence).
      congruence.
    + split_and!; [done|done|discriminate].
  - by apply shutting_ok, clear_active_ok.
Qed.

Lemma finally_ok n st : manager_ok st -> manager_ok (finally n st).
Proof.
  intros Hok. unfold finally. destruct (conns st !! n) as [c|] eqn:Hn; [|done].
  destruct (bool_decide_reflect (is_Some (c_result c))) as [[r Hr]|]; [|done]. destruct (c_cleared c) eqn:Hc; [done|]. cbn [andb negb].
  set (c' := Conn _ _ _ _).
  assert (Hok' : manager_ok (set_conns (<[n := c']> (conns st)) st)).
  { eapply update_conn_ok; [done|done| |by split_and!].
    destruct (mo_conns _ Hok n c Hn) as [Hp Hr' He]. constructor; cbn; [by rewrite Hr|done|done]. }
  destruct Hok' as [Hc' Hf Hp Ha Hw]. constructor; try done. cbn. intros m d Hm Hd.
  pose proof (Hf m d Hm Hd) as Hm1. pose proof (mo_flight _ Hok n c Hn Hc) as Hm2. cbn in Hm1.
  assert (m = n) as -> by congruence. cbn in Hm. rewrite list_lookup_insert_eq in Hm by (by eapply lookup_lt_Some).
  by injection Hm as <-.
Qed.

Lemma deliver_ok i st : manager_ok st -> manager_ok (deliver i st).
Proof.
  intros Hok. unfold deliver. destruct (waiters st !! i) as [w|] eqn:Hi; [|done].
  destruct (w_result w) eqn:Hw; [done|]. destruct (conns st !! w_conn w) as [c|] eqn:Hc; [|done].
  destruct (c_cleared c) eqn:Hcl; [|done]. apply waiters_ok; [done|]. intros v o Hv Ho.
  apply list_elem_of_lookup_1 in Hv as [j Hj]. destruct (decide (j = i)) as [->|Hne].
  - rewrite list_lookup_insert_eq in Hj by (by eapply lookup_lt_Some). injection Hj as <-. cbn in *.
    destruct (mo_conns _ Hok _ c Hc) as [_ Hr He]. destruct o as [m|e]; [|by apply He].
    split; [by apply Hr|]. exists c. split; [done|]. rewrite Ho. f_equal. f_equal. by apply Hr.
  - rewrite list_lookup_insert_ne in Hj by done. eapply mo_waiters; [done| |done]. by eapply list_elem_of_lookup_2.
Qed.

Lemma onAbort_ok st n c : manager_ok st -> conns st !! n = Some c ->
  conn_ok n (conn_onAbort c) /\ grows st n c (conn_onAbort c).
Proof.
  intros Hok Hn. unfold conn_onAbort. destruct (c_result c) eqn:Hr.
  - split; [by eapply mo_conns|by split_and!].
  - split; [apply settle_ok; [discriminate|intros e [= <-]; apply aborted_ok]|].
    apply settle_grows; [done|]. intros Ha. by apply (pending_not_active st n c) in Ha.
Qed.

Lemma abort_ok g st : manager_ok st -> manager_ok (abort g st).
Proof.
  intros Hok. unfold abort. set (f := fun c => if decide (c_signal c = Some g) then conn_onAbort c else c).
  assert (Hf : forall n c, conns st !! n = Some c -> conn_ok n (f c) /\ grows st n c (f c)).
  { intros n c Hn. unfold f. destruct (decide _); [by apply onAbort_ok|]. split; [by eapply mo_conns|by split_and!]. }
  assert (Hl : forall n d, List.map f (conns st) !! n = Some d -> exists c, conns st !! n = Some c /\ d = f c).
  { intros n d Hn. change (List.map f) with (fmap (M := list) f) in Hn. rewrite list_lookup_fmap in Hn.
    destruct (conns st !! n) as [c|]; [|discriminate]. injection Hn as <-. by exists c. }
  assert (Hl' : forall n c, conns st !! n = Some c -> List.map f (conns st) !! n = Some (f c)).
  { intros n c Hn. change (List.map f) with (fmap (M := list) f). by rewrite list_lookup_fmap, Hn. }
  pose proof Hok as [Hc Hfl Hp Ha Hw]. constructor; cbn.
  - intros n d (c & Hn & ->)%Hl. by apply Hf.
  - intros n d (c & Hn & ->)%Hl Hd. eapply Hfl; [exact Hn|]. by apply (Hf n c Hn).
  - intros n (c & Hn)%Hp. eauto.
  - intros n Hn. destruct (Ha n Hn) as (c & Hcn & Hr & He). exists (f c).
    destruct (Hf n c Hcn) as [_ (Hg1 & _ & Hg3)]. split_and!; eauto.
  - assert (Hans : forall m o, answered st m o -> answered (abort g st) m o).
    { intros m [k|e]; [|done]. intros [-> (c & Hcm & Hr)]. split; [done|]. exists (f c). cbn. split; [by apply Hl'|].
      by apply (Hf m c Hcm). }
    intros w o Hin Hr. apply list_elem_of_In, List.in_map_iff in Hin as (v & <- & Hv). apply list_elem_of_In in Hv.
    destruct (decide (w_signal v = Some g)); [|apply Hans; eauto].
    destruct (w_result v) as [r|] eqn:Hvr; [apply Hans; eauto|]. injection Hr as <-. apply aborted_ok.
Qed.

Lemma connect_ok g st : manager_ok st -> connectPromise st = None -> manager_ok (connect g st).
Proof.
  intros Hok Hnone. unfold connect. set (c := if is_aborted g st then _ else _).
  assert (Hc0 : conn_ok (length (conns st)) c /\ c_cleared c = false).
  { unfold c. destruct (is_aborted g st); (split; [|done]); constructor; try done. intros e [= <-]. apply aborted_ok. }
  destruct Hc0 as [Hc0 Hcl]. pose proof Hok as [Hc Hf Hp Ha Hw].
  assert (Happ : forall n d, (conns st ++ [c]) !! n = Some d ->
            conns st !! n = Some d \/ n = length (conns st) /\ d = c).
  { intros n d [Hn|[Hge Hn]]%lookup_app_Some; [by left|]. right.
    apply list_lookup_singleton_Some in Hn as [Hz ->]. split; [lia|done]. }
  constructor; cbn.
  - intros n d [Hn|[-> ->]]%Happ; eauto.
  - intros n d [Hn|[-> ->]]%Happ Hd; [|done]. exfalso. pose proof (Hf n d Hn Hd). congruence.
  - intros n [= <-]. exists c. by rewrite lookup_app_r, Nat.sub_diag.
  - intros n Hn. destruct (Ha n Hn) as (d & Hd & ?). exists d. by rewrite lookup_app_l by (by eapply lookup_lt_Some).
  - intros w [k|e] Hin Hr; [|by apply (Hw w _ Hin Hr)]. destruct (Hw w _ Hin Hr) as [-> (d & Hd & Hdr)].
    split; [done|]. exists d. cbn. by rewrite lookup_app_l by (by eapply lookup_lt_Some).
Qed.

Lemma withAbort_ok n g st : manager_ok st -> manager_ok (fst (withAbort n g st)).
Proof.
  intros Hok. unfold withAbort. destruct (is_aborted g st); [done|]. apply waiters_ok; [done|].
  intros w o [Hin| ->%list_elem_of_singleton]%elem_of_app Hr; [by eapply mo_waiters|discriminate].
Qed.

Lemma getClient_ok g st : manager_ok st -> manager_ok (fst (getClient g st)).
Proof.
  intros Hok. unfold getClient. destruct (shuttingDown st); [done|]. destruct (activeClient st); [done|].
  destruct (connectPromise st) eqn:Hp; [by apply withAbort_ok|]. by apply withAbort_ok, connect_ok.
Qed.

Lemma handle_ok ev st : manager_ok st -> manager_ok (handle ev st).
Proof.
  intros Hok. destruct ev; cbn [handle];
    [by apply getClient_ok|by apply shutdown_ok|by apply abort_ok|by apply onReady_ok|by apply onError_ok
    |by apply onClose_ok|by apply finally_ok|by apply deliver_ok|].
  unfold shutdown_done. destruct (decide _); [by apply shutting_ok, closing_ok|done].
Qed.

Lemma reachable_ok st : rtc manager_step init_manager st -> manager_ok st.
Proof.
  intros Hr. pose proof init_ok as Hok. revert Hok. induction Hr as [|x y z [ev st] _ IH]; [done|].
  intros Hok. by apply IH, handle_ok.
Qed.

(** C14.  However calls, aborts, shutdowns, promise continuations and client events
    interleave: at most one connection attempt is pending; the active client is one whose
    attempt succeeded and that was never told to end, and it is what [getClient] gives at
    once; and a waiting caller is only ever given the client of its own attempt, which then
    succeeded, the ABORTED error, or a connect error whose text has no bearer token. *)
Theorem manager_safe st : rtc manager_step init_manager st ->
  (forall n m c d, conns st !! n = Some c -> conns st !! m = Some d ->
     c_result c = None -> c_result d = None -> n = m) /\
  (forall n, activeClient st = Some n ->
     exists c, conns st !! n = Some c /\ c_result c = Some (Return n) /\ c_ended c = false) /\
  (forall g n, snd (getClient g st) = Settled (Return n) -> activeClient st = Some n) /\
  (forall w o, w ∈ waiters st -> w_result w = Some o -> answered st (w_conn w) o).
Proof.
  intros Hok%reachable_ok. split_and!.
  - intros n m c d Hn Hm Hc Hd.
    pose proof (mo_flight _ Hok n c Hn (proj1 (ok_pending _ _ (mo_conns _ Hok n c Hn) Hc))).
    pose proof (mo_flight _ Hok m d Hm (proj1 (ok_pending _ _ (mo_conns _ Hok m d Hm) Hd))). congruence.
  - apply Hok.
  - intros g n. unfold getClient, withAbort. destruct (shuttingDown st); [discriminate|].
    destruct (activeClient st); [by intros [= ->]|].
    destruct (connectPromise st); destruct (is_aborted _ _); discriminate.
  - apply Hok.
Qed.

Lemma finally_settled n st c r :
  conns st !! n = Some c -> c_result c = Some r ->
  waiters (finally n st) = waiters st /\
  exists c', conns (finally n st) !! n = Some c' /\ c_result c' = Some r /\ c_cleared c' = true.
Proof.
  intros Hn Hr. unfold finally. rewrite Hn, Hr. rewrite bool_decide_true by done. destruct (c_cleared c) eqn:Hc; cbn.
  - split; [done|]. by exists c.
  - split; [done|]. eexists. rewrite list_lookup_insert_eq by (by eapply lookup_lt_Some). by split_and!.
Qed.

Lemma delivered i n g st c r :
  waiters st !! i = Some (Waiter n g None) -> conns st !! n = Some c -> c_result c = Some r ->
  waiters (deliver i (finally n st)) !! i = Some (Waiter n g (Some r)).
Proof.
  intros Hi Hn Hr. destruct (finally_settled n st c r Hn Hr) as (Hws & c' & Hc' & Hr' & Hcl).
  unfold deliver. rewrite Hws, Hi. cbn [w_result w_conn w_signal]. rewrite Hc', Hcl, Hr'. cbn [waiters set_waiters].
  by rewrite list_lookup_insert_eq by (by eapply lookup_lt_Some).
Qed.

(** C39.  No caller waits for ever on a settled attempt: once the attempt a waiter waits for
    has an answer, the promise's continuations bring exactly that answer to the waiter, and
    the manager is free to start a new attempt. *)
Theorem waiter_answered i n g st c r :
  waiters st !! i = Some (Waiter n g None) -> conns st !! n = Some c -> c_result c = Some r -> c_cleared c = false ->
  waiters (deliver i (finally n st)) !! i = Some (Waiter n g (Some r)) /\
  connectPromise (deliver i (finally n st)) = None.
Proof.
  intros Hi Hn Hr Hc. split; [by eapply delivered|].
  destruct (finally_settled n st c r Hn Hr) as (Hws & c' & Hc' & Hr' & Hcl).
  unfold deliver. rewrite Hws, Hi. cbn [w_result w_conn w_signal]. rewrite Hc', Hcl. cbn.
  unfold finally. by rewrite Hn, Hr, Hc, bool_decide_true.
Qed.

(** Two hazards of sharing the attempt.  The abort of the call that started it is the
    answer of every other caller waiting for it, whatever their own signals.  And a shutdown
    during an attempt returns at once: when the attempt succeeds after it, its client becomes
    active. *)
Theorem manager_hazards st n c g i h :
  conns st !! n = Some c -> c_result c = None -> c_signal c = Some g ->
  waiters st !! i = Some (Waiter n h None) ->
  (h <> Some g ->
   waiters (deliver i (finally n (abort g st))) !! i = Some (Waiter n h (Some (Throw aborted_error)))) /\
  (activeClient st = None ->
   shuttingDown (shutdown st) = false /\ closing (shutdown st) = closing st /\
   activeClient (onReady n (shutdown st)) = Some n).
Proof.
  intros Hn Hr Hg Hi. split.
  - intros Hne. apply (delivered i n h (abort g st) (settle (Throw aborted_error) true c)).
    + cbn. change (List.map ?f ?l) with (f <$> l). rewrite list_lookup_fmap, Hi. cbn. by rewrite decide_False.
    + cbn. change (List.map ?f ?l) with (f <$> l). rewrite list_lookup_fmap, Hn. cbn.
      rewrite decide_True by done. unfold conn_onAbort. by rewrite Hr.
    + done.
  - intros Ha. unfold shutdown. rewrite Ha. split_and!; [done|done|]. unfold onReady. cbn. by rewrite Hn, Hr.
Qed.

(** * The theorems at work *)

(** Two callers with signals 1 and 2 share the first attempt. *)
Definition shared_attempt : manager := run_events [EvGet (Some 1%nat); EvGet (Some 2%nat)].

Lemma rtc_run evs st : rtc manager_step st (fold_left (fun s ev => handle ev s) evs st).
Proof.
  revert st. induction evs as [|ev evs IH]; intros st; [apply rtc_refl|]. eapply rtc_l; [apply Manager_step|apply IH].
Qed.

Lemma manager_safe_witness :
  snd (getClient None (run_events [EvGet None; EvReady 0%nat])) = Settled (Return 0%nat) /\
  activeClient (run_events [EvGet None; EvReady 0%nat]) = Some 0%nat.
Proof.
  split; [reflexivity|].
  apply (proj1 (proj2 (proj2 (manager_safe (run_events [EvGet None; EvReady 0%nat]) (rtc_run _ _)))) None).
  reflexivity.
Defined.

Lemma waiter_answered_witness :
  let st := handle (EvReady 0) shared_attempt in
  waiters (deliver 1 (finally 0 st)) !! 1%nat = Some (Waiter 0 (Some 2%nat) (Some (Return 0%nat))) /\
  connectPromise (deliver 1 (finally 0 st)) = None.
Proof.
  apply (waiter_answered 1 0 (Some 2%nat) (handle (EvReady 0) shared_attempt)
           (Conn (Some 1%nat) (Some (Return 0%nat)) false false)); reflexivity.
Defined.

Lemma manager_hazards_witness :
  waiters (deliver 1 (finally 0 (abort 1 shared_attempt))) !! 1%nat =
    Some (Waiter 0 (Some 2%nat) (Some (Throw aborted_error))) /\
  activeClient (onReady 0 (shutdown shared_attempt)) = Some 0%nat.
Proof.
  destruct (manager_hazards shared_attempt 0 (Conn (Some 1%nat) None false false) 1 1 (Some 2%nat)
              eq_refl eq_refl eq_refl eq_refl) as [Ha Hs].
  split; [by apply Ha|]. by destruct (Hs eq_refl) as (_ & _ & Hs').
Defined.
