(* ===== verification/SshExecutor.v ===== *)
(** * Commands over SSH

    apps/desktop/src/main/ssh/SSHExecutor.ts: the command line sent to the host, one
    execution on a client as a machine over the events of its channel, its timer and its
    signal, and the retry loop above it. *)

From S2P Require Import Prelude JsString Regex JsValue Dates Json Secrets Repositories RoutesProcess SshConnection.

(** ** [Buffer.from(text, "utf8").toString("base64")] *)

(** The UTF-8 bytes of a text whose characters are below U+0100. *)
Fixpoint utf8 (s : string) : string :=
  match s with
  | "" => ""
  | String c s' =>
      if (code c <? 128)%N then String c (utf8 s')
      else String (char (192 + code c / 64)) (String (char (128 + code c mod 64)) (utf8 s'))
  end.

Definition b64_char (n : N) : ascii :=
  if (n <? 26)%N then char (65 + n)
  else if (n <? 52)%N then char (71 + n)
  else if (n <? 62)%N then char (n - 4)
  else if (n =? 62)%N then "+"%char else "/"%char.

Fixpoint base64 (s : string) : string :=
  match s with
  | String a (String b (String c rest)) =>
      String (b64_char (code a / 4))
        (String (b64_char (code a mod 4 * 16 + code b / 16))
          (String (b64_char (code b mod 16 * 4 + code c / 64))
            (String (b64_char (code c mod 64)) (base64 rest))))
  | String a (String b "") =>
      String (b64_char (code a / 4))
        (String (b64_char (code a mod 4 * 16 + code b / 16))
          (String (b64_char (code b mod 16 * 4)) "="))
  | String a "" =>
      String (b64_char (code a / 4)) (String (b64_char (code a mod 4 * 16)) "==")
  | "" => ""
  end.

(** ** The command line *)
Definition serialized_payload (payload : jsval) : outcome string :=
  match json_stringify payload with
  | Some text => Return (base64 (utf8 text))
  | None => Throw type_error
  end.

Definition remoteCommand (cliPath command : string) (payload : jsval) : outcome string :=
  serialized ← serialized_payload payload;
  Return (cliPath +:+ " " +:+ command +:+ " " +:+ serialized).

(** ** What a failed command printed *)
Definition parseRemoteError (stderr : string) : option (string * string) :=
  let raw := trim stderr in
  if startsWith "{" raw then
    match json_parse raw with
    | Return (JObj o) =>
        match obj_get "message" o, obj_get "code" o with
        | Some (JStr message), Some (JStr code) => Some (redactPotentialSecrets message, code)
        | _, _ => None
        end
    | _ => None
    end
  else None.

(** ** One execution on a client *)

(** [opened] is that the callback of [client.exec] ran, [streamRef] that it gave a channel,
    [closes] how often the channel was told to close; the timer and the abort listener are
    held until the promise is settled. *)
Record exec_state := Exec {
  settled : option (outcome string);
  opened : bool;
  streamRef : bool;
  closes : nat;
  timer_on : bool;
  listening : bool;
  stdout : string;
  stderr : string
}.

Definition settle_once (r : outcome string) (st : exec_state) : exec_state :=
  match settled st with
  | Some _ => st
  | None => Exec (Some r) (opened st) (streamRef st) (closes st) false false (stdout st) (stderr st)
  end.

Definition abortStream (st : exec_state) : exec_state :=
  if streamRef st
  then Exec (settled st) (opened st) true (S (closes st)) (timer_on st) (listening st) (stdout st) (stderr st)
  else st.

Definition exec_onAbort (st : exec_state) : exec_state := settle_once (Throw aborted_error) (abortStream st).

Definition timed_out : jserror := RemoteExecutionError "SSH command timed out" (Some "SSH_TIMEOUT").

(** A command that fails: the error it printed, or its redacted output, or its exit code
    ([None] for a command killed by a signal). *)
Definition exit_error (code : option Z) (stderr : string) : jserror :=
  match parseRemoteError stderr with
  | Some (message, c) => RemoteExecutionError message (Some c)
  | None =>
      let text := redactPotentialSecrets stderr in
      RemoteExecutionError
        (if nonempty text then text
         else "SSH exited with code " +:+ (match code with Some z => show_Z z | None => "undefined" end))
        (Some "SSH_NON_ZERO")
  end.

Inductive exec_event :=
  | ExOpen (error : option string)
  | ExData (chunk : string)
  | ExErrData (chunk : string)
  | ExClose (code : option Z)
  | ExTimeout
  | ExAbort.

(** A channel's events come once it is open; the timer and the signal count while held. *)
Definition exec_handle (st : exec_state) (ev : exec_event) : exec_state :=
  match ev with
  | ExOpen error =>
      if opened st then st
      else
        let st := Exec (settled st) true (streamRef st) (closes st) (timer_on st) (listening st) (stdout st) (stderr st) in
        match error with
        | Some message =>
            settle_once (Throw (RemoteExecutionError (redactPotentialSecrets message) (Some "SSH_EXEC_OPEN_FAILED"))) st
        | None => Exec (settled st) true true (closes st) (timer_on st) (listening st) "" ""
        end
  | ExData chunk =>
      if streamRef st
      then Exec (settled st) (opened st) true (closes st) (timer_on st) (listening st) (stdout st +:+ chunk) (stderr st)
      else st
  | ExErrData chunk =>
      if streamRef st
      then Exec (settled st) (opened st) true (closes st) (timer_on st) (listening st) (stdout st) (stderr st +:+ chunk)
      else st
  | ExClose code =>
      if streamRef st then
        if decide (code = Some 0) then settle_once (Return (trim (stdout st))) st
        else settle_once (Throw (exit_error code (stderr st))) st
      else st
  | ExTimeout => if timer_on st then settle_once (Throw timed_out) (abortStream st) else st
  | ExAbort => if listening st then exec_onAbort st else st
  end.

(** [signal] is the caller's signal, when there is one: whether it is aborted already. *)
Definition exec_start (signal : option bool) : exec_state :=
  match signal with
  | Some true => exec_onAbort (Exec None false false 0 false false "" "")
  | Some false => Exec None false false 0 true true "" ""
  | None => Exec None false false 0 true false "" ""
  end.

Definition execOnClient (signal : option bool) (evs : list exec_event) : exec_state :=
  fold_left exec_handle evs (exec_start signal).

(** ** Retries *)

(** What the loop uses of the rest, for one call: the connection manager, an execution with
    its timeout, and the delay, which the signal may reject. *)
Class SshApi (S : Type) := {
  api_getClient : eff S client;
  api_exec : client -> string -> Z -> eff S string;
  api_delay : Z -> eff S unit
}.

Definition is_connect_failed (e : jserror) : bool :=
  match err_class_of e with ERemote c => bool_decide (c = CONNECT_FAILED_CODE) | _ => false end.

Definition shouldRetry (e : jserror) (attempt totalAttempts : Z) : bool :=
  if totalAttempts <=? attempt then false else is_connect_failed e.

Section executor.
Context {S : Type} `{SshApi S}.
(** The constructor's options. *)
Context (maxRetries retryBaseDelayMs : option Z).

Definition totalAttempts : Z := default 1 maxRetries + 1.
Definition backoff (attempt : Z) : Z := default 250 retryBaseDelayMs * 2 ^ (attempt - 1).

(** The loop, with its remaining attempts as fuel. *)
Fixpoint retry_loop (fuel : nat) (attempt : Z) (lastError : option jserror) (command : string) (timeoutMs : Z)
    : eff S string :=
  match fuel with
  | O => throw (default (RemoteExecutionError "SSH execution failed" (Some "SSH_EXEC_FAILED"))
                  (e ← lastError; if instanceof_Error e then Some e else None))
  | Datatypes.S fuel' =>
      let attempt := attempt + 1 in
      try_catch
        (client ← api_getClient; output ← api_exec client command timeoutMs; mret output)
        (fun error =>
           if negb (shouldRetry error attempt totalAttempts) then throw error
           else _ ← api_delay (backoff attempt);
                retry_loop fuel' attempt (Some error) command timeoutMs)
  end.

Definition execWithRetry (command : string) (timeoutMs : option Z) : eff S string :=
  retry_loop (Z.to_nat totalAttempts) 0 None command (default 10000 timeoutMs).

Definition bad_payload : jserror :=
  RemoteExecutionError "Invalid JSON from SSH target" (Some "BAD_REMOTE_PAYLOAD").

Definition execute (cliPath command : string) (payload : jsval) (timeoutMs : option Z) : eff S jsval :=
  line ← lift_outcome (remoteCommand cliPath command payload);
  output ← execWithRetry line timeoutMs;
  match json_parse output with Return v => mret v | Throw _ => throw bad_payload end.

Definition health_marker : string := "__nginx_admin_ssh_ok__".

Definition checkConnection (timeoutMs : option Z) : eff S unit :=
  client ← api_getClient;
  output ← api_exec client ("echo " +:+ health_marker) (default 10000 timeoutMs);
  if decide (output = health_marker) then mret tt
  else throw (RemoteExecutionError ("Unexpected SSH health-check output: " +:+ output) (Some "SSH_HEALTHCHECK_FAILED")).

Definition runShell (command : string) (timeoutMs : option Z) : eff S string :=
  execWithRetry command timeoutMs.
End executor.

(** * The payload reaches the command line whole *)

(** The reading side: what a base64 and UTF-8 decoder make of the argument. *)
Definition b64_val (c : ascii) : N :=
  if is_upper c then code c - 65 else if is_lower c then code c - 71
  else if is_digit c then code c + 4 else if Ascii.eqb c "+" then 62 else 63.

Fixpoint unbase64 (s : string) : option string :=
  match s with
  | "" => Some ""
  | String a (String b (String c (String d rest))) =>
      let first := char (b64_val a * 4 + b64_val b / 16) in
      let second := char (b64_val b mod 16 * 16 + b64_val c / 4) in
      let third := char (b64_val c mod 4 * 64 + b64_val d) in
      if Ascii.eqb d "=" then
        Some (if Ascii.eqb c "=" then String first "" else String first (String second ""))
      else (fun t => String first (String second (String third t))) <$> unbase64 rest
  | _ => None
  end.

Fixpoint utf8_decode (s : string) : option string :=
  match s with
  | "" => Some ""
  | String c s' =>
      if (code c <? 128)%N then String c <$> utf8_decode s'
      else match s' with
           | String d s'' => String (char ((code c - 192) * 64 + (code d - 128))) <$> utf8_decode s''
           | "" => None
           end
  end.

Definition b64_alphabet (c : ascii) : bool :=
  is_alnum c || Ascii.eqb c "+" || Ascii.eqb c "/" || Ascii.eqb c "=".

Lemma code_char n : (n < 256)%N -> code (char n) = n.
Proof. apply N_ascii_embedding. Qed.

Lemma char_code c : char (code c) = c.
Proof. apply ascii_N_embedding. Qed.

Lemma code_bound c : (code c < 256)%N.
Proof. apply N_ascii_bounded. Qed.

Lemma b64_char_facts n : (n < 64)%N ->
  b64_val (b64_char n) = n /\ Ascii.eqb (b64_char n) "=" = false /\ b64_alphabet (b64_char n) = true.
Proof.
  intros Hn.
  assert (Hall : forallb (fun k => (b64_val (b64_char k) =? k)%N && negb (Ascii.eqb (b64_char k) "=") &&
             b64_alphabet (b64_char k)) (List.map N.of_nat (seq 0 64)) = true) by (vm_compute; reflexivity).
  rewrite List.forallb_forall in Hall. specialize (Hall n).
  assert (Hin : In n (List.map N.of_nat (seq 0 64))).
  { apply List.in_map_iff. exists (N.to_nat n). split; [lia|]. apply List.in_seq. lia. }
  specialize (Hall Hin). bool_hyps. split_and!; [by apply N.eqb_eq|done|done].
Qed.

(** Strings by groups of three characters. *)
Lemma triples_ind (P : string -> Prop) :
  P "" -> (forall a, P (String a "")) -> (forall a b, P (String a (String b ""))) ->
  (forall a b c s, P s -> P (String a (String b (String c s)))) -> forall s, P s.
Proof.
  intros H0 H1 H2 H3. fix F 1. intros [|a [|b [|c s]]]; [apply H0|apply H1|apply H2|apply H3, F].
Qed.

Ltac b64_step :=
  repeat match goal with
  | |- context [b64_val (b64_char ?n)] =>
      let H := fresh in
      assert (H : (n < 64)%N) by lia; rewrite (proj1 (b64_char_facts n H)); clear H
  | |- context [Ascii.eqb (b64_char ?n) "="] =>
      let H := fresh in
      assert (H : (n < 64)%N) by lia; rewrite (proj1 (proj2 (b64_char_facts n H))); clear H
  end.

Lemma bytes_back a n : n = code a -> char n = a.
Proof. intros ->. apply char_code. Qed.

Lemma unbase64_base64 s : unbase64 (base64 s) = Some s.
Proof.
  induction s as [|a|a b|a b c s IH] using triples_ind; [done|..];
    pose proof (code_bound a); try pose proof (code_bound b); try pose proof (code_bound c);
    cbn [base64 unbase64]; b64_step; cbn [Ascii.eqb Bool.eqb].
  - by rewrite (bytes_back a) by lia.
  - by rewrite (bytes_back a), (bytes_back b) by lia.
  - rewrite IH. cbn. by rewrite (bytes_back a), (bytes_back b), (bytes_back c) by lia.
Qed.

Lemma base64_in_alphabet s : str_forallb b64_alphabet (base64 s) = true.
Proof.
  induction s as [|a|a b|a b c s IH] using triples_ind; [done|..];
    pose proof (code_bound a); try pose proof (code_bound b); try pose proof (code_bound c);
    cbn [base64 str_forallb];
    repeat match goal with |- context [b64_alphabet (b64_char ?n)] =>
      let H := fresh in assert (H : (n < 64)%N) by lia; rewrite (proj2 (proj2 (b64_char_facts n H))); clear H end;
    [done|done|exact IH].
Qed.

Lemma utf8_back s : utf8_decode (utf8 s) = Some s.
Proof.
  induction s as [|c s IH]; [done|]. cbn [utf8]. pose proof (code_bound c).
  destruct (code c <? 128)%N eqn:Hc; cbn [utf8_decode].
  - by rewrite Hc, IH.
  - rewrite !code_char by lia. destruct (N.ltb_spec (192 + code c / 64) 128)%N; [lia|]. rewrite IH. cbn.
    by rewrite (bytes_back c) by lia.
Qed.

(** C18.  The command line carries the payload whole and nothing else: after the CLI's path
    and the command comes one word of the base64 alphabet, without blank or shell
    metacharacter whatever the payload, and decoding that word gives text that parses to the
    payload as JSON sees it. *)
Theorem remote_command_roundtrip cliPath command payload w :
  val_wf payload -> json_norm payload = Some w ->
  exists word text,
    remoteCommand cliPath command payload = Return (cliPath +:+ " " +:+ command +:+ " " +:+ word) /\
    str_forallb b64_alphabet word = true /\
    (bytes ← unbase64 word; utf8_decode bytes) = Some text /\ json_parse text = Return w.
Proof.
  intros Hwf Hn. destruct (json_roundtrip payload w Hwf Hn) as [Hst Hparse].
  exists (base64 (utf8 (print w))), (print w). unfold remoteCommand, serialized_payload. rewrite Hst.
  split_and!; [done|apply base64_in_alphabet| |done]. rewrite unbase64_base64. cbn. apply utf8_back.
Qed.

(** * An execution settles once *)

Definition is_open (ev : exec_event) : bool := match ev with ExOpen _ => true | _ => false end.
Definition chunk (ev : exec_event) : string := match ev with ExData c => c | _ => "" end.

(** What the command printed, of the events that follow the opening of the channel. *)
Fixpoint data_of (evs : list exec_event) : string :=
  match evs with [] => "" | ev :: rest => chunk ev +:+ data_of rest end.
Fixpoint printed (evs : list exec_event) : string :=
  match evs with
  | [] => ""
  | ev :: rest => if is_open ev then data_of rest else printed rest
  end.

Lemma data_of_snoc evs ev : data_of (evs ++ [ev]) = data_of evs +:+ chunk ev.
Proof. induction evs as [|e evs IH]; cbn; [by rewrite app_nil_r_str|]. by rewrite IH, app_assoc_str. Qed.

Lemma printed_snoc evs ev :
  printed (evs ++ [ev]) = if existsb is_open evs then printed evs +:+ chunk ev else "".
Proof.
  induction evs as [|e evs IH]; cbn; [by destruct (is_open ev)|]. destruct (is_open e); cbn; [apply data_of_snoc|done].
Qed.

Lemma exec_snoc sig evs ev : execOnClient sig (evs ++ [ev]) = exec_handle (execOnClient sig evs) ev.
Proof. unfold execOnClient. by rewrite fold_left_app. Qed.

Lemma no_b_no_bearer s :
  str_existsb (fun c => Ascii.eqb c "b" || Ascii.eqb c "B") s = false -> test bearer_pattern s = false.
Proof. apply test_needs. vm_compute. reflexivity. Qed.

Lemma digits_no_b s : str_forallb is_digit s = true ->
  str_existsb (fun c => Ascii.eqb c "b" || Ascii.eqb c "B") s = false.
Proof.
  intros Hs. rewrite str_existsb_forallb. apply negb_false_iff. eapply str_forallb_impl; [|exact Hs].
  intros c Hc. destruct (Ascii.eqb_spec c "b") as [->|]; [discriminate|].
  by destruct (Ascii.eqb_spec c "B") as [->|].
Qed.

Lemma exit_error_clean code stderr : test bearer_pattern (err_message (exit_error code stderr)) = false.
Proof.
  unfold exit_error. destruct (parseRemoteError stderr) as [[m c]|] eqn:Hp; cbn [err_message RemoteExecutionError].
  - revert Hp. unfold parseRemoteError. destruct (startsWith _ _); [|discriminate].
    destruct (json_parse _) as [[]|]; try discriminate. destruct (obj_get "message" _) as [[]|]; try discriminate.
    destruct (obj_get "code" _) as [[]|]; try discriminate. intros [= <- <-]. apply redacted_no_bearer.
  - destruct (nonempty _); [apply redacted_no_bearer|]. apply no_b_no_bearer. rewrite str_existsb_app.
    apply orb_false_iff. split; [vm_compute; reflexivity|]. destruct code as [z|]; [|vm_compute; reflexivity].
    unfold show_Z. destruct (z <? 0); cbn [str_existsb]; [apply orb_false_iff; split; [reflexivity|]|];
      apply digits_no_b, show_N_digits.
Qed.

Record exec_ok (evs : list exec_event) (st : exec_state) : Prop := {
  ex_settled : settled st <> None -> timer_on st = false /\ listening st = false;
  ex_pending : settled st = None -> timer_on st = true;
  ex_error e : settled st = Some (Throw e) -> test bearer_pattern (err_message e) = false;
  ex_opened : opened st = existsb is_open evs;
  ex_stream : streamRef st = true -> opened st = true /\ stdout st = printed evs
}.

Lemma settle_once_ok evs r st :
  exec_ok evs st -> (forall e, r = Throw e -> test bearer_pattern (err_message e) = false) ->
  exec_ok evs (settle_once r st).
Proof.
  intros Hok Hr. unfold settle_once. destruct (settled st) eqn:Hs; [done|].
  constructor; cbn; [done|discriminate|intros e [= ->]; by apply Hr|apply Hok..].
Qed.

Lemma abortStream_ok evs st : exec_ok evs st -> exec_ok evs (abortStream st).
Proof.
  intros Hok. unfold abortStream. destruct (streamRef st) eqn:Hs; [|done].
  constructor; cbn; try apply Hok. intros _. by apply (ex_stream _ _ Hok).
Qed.

Lemma fixed_error_ok m c e : test bearer_pattern m = false -> Throw (A := string) (RemoteExecutionError m c) = Throw e ->
  test bearer_pattern (err_message e) = false.
Proof. by intros Hm [= <-]. Qed.

(** An event other than the opening of the channel and its data changes nothing of what was
    printed. *)
Lemma exec_ok_weaken evs ev st :
  is_open ev = false -> chunk ev = "" -> exec_ok evs st -> exec_ok (evs ++ [ev]) st.
Proof.
  intros Ho Hc Hok. constructor; try apply Hok.
  - rewrite existsb_app. cbn. rewrite Ho, !orb_false_r. apply Hok.
  - intros Hs. destruct (ex_stream _ _ Hok Hs) as [Hop Hout]. split; [done|].
    rewrite printed_snoc, <- (ex_opened _ _ Hok), Hop, Hc, app_nil_r_str. done.
Qed.

Lemma exec_handle_ok evs ev st : exec_ok evs st -> exec_ok (evs ++ [ev]) (exec_handle st ev).
Proof.
  intros Hok. destruct ev as [err|c|c|code| |]; cbn [exec_handle].
  - pose proof (ex_opened _ _ Hok) as Hop. destruct (opened st) eqn:Ho.
    + constructor; try apply Hok; [rewrite existsb_app, <- Hop; done|]. intros Hs.
      destruct (ex_stream _ _ Hok Hs) as [_ Hout]. split; [done|]. by rewrite printed_snoc, <- Hop, app_nil_r_str.
    + assert (Hns : streamRef st = false).
      { destruct (streamRef st) eqn:Hs; [|done]. destruct (ex_stream _ _ Hok Hs). congruence. }
      assert (Hpr : printed (evs ++ [ExOpen err]) = "") by (by rewrite printed_snoc, <- Hop).
      assert (Hex : existsb is_open (evs ++ [ExOpen err]) = true) by (rewrite existsb_app; apply orb_true_r).
      destruct err as [m|].
      * apply settle_once_ok; [|intros e; apply fixed_error_ok, redacted_no_bearer].
        constructor; cbn; try apply Hok; [done|]. by rewrite Hns.
      * constructor; cbn; try apply Hok; [done|]. by rewrite Hpr.
  - destruct (streamRef st) eqn:Hs.
    + destruct (ex_stream _ _ Hok Hs) as [Hop Hout]. constructor; cbn; try apply Hok.
      * rewrite existsb_app. cbn. rewrite !orb_false_r. apply Hok.
      * intros _. split; [done|]. rewrite printed_snoc, <- (ex_opened _ _ Hok), Hop, Hout. done.
    + constructor; try apply Hok; [rewrite existsb_app; cbn; rewrite !orb_false_r; apply Hok|]. by rewrite Hs.
  - destruct (streamRef st) eqn:Hs; [|by apply exec_ok_weaken].
    apply exec_ok_weaken; [done|done|]. constructor; cbn; try apply Hok. intros _. by apply (ex_stream _ _ Hok).
  - apply exec_ok_weaken; [done|done|]. destruct (streamRef st); [|done].
    destruct (decide (code = Some 0)); apply settle_once_ok; try done. intros e [= <-]. apply exit_error_clean.
  - apply exec_ok_weaken; [done|done|]. destruct (timer_on st); [|done].
    apply settle_once_ok; [by apply abortStream_ok|]. intros e. apply fixed_error_ok. vm_compute. reflexivity.
  - apply exec_ok_weaken; [done|done|]. destruct (listening st); [|done].
    apply settle_once_ok; [by apply abortStream_ok|]. intros e. apply fixed_error_ok. vm_compute. reflexivity.
Qed.

Lemma execOnClient_ok sig evs : exec_ok evs (execOnClient sig evs).
Proof.
  induction evs as [|ev evs IH] using rev_ind.
  - destruct sig as [[]|]; constructor; try done. intros e [= <-]. vm_compute. reflexivity.
  - rewrite exec_snoc. by apply exec_handle_ok.
Qed.

Lemma settle_once_keeps r st o : settled st = Some o -> settled (settle_once r st) = Some o.
Proof. intros Hs. unfold settle_once. by rewrite Hs. Qed.

Lemma abortStream_settled st : settled (abortStream st) = settled st.
Proof. unfold abortStream. by destruct (streamRef st). Qed.

Lemma exec_handle_keeps ev st o : settled st = Some o -> settled (exec_handle st ev) = Some o.
Proof.
  intros Hs. destruct ev as [err|c|c|code| |]; cbn [exec_handle].
  - destruct (opened st); [done|]. destruct err; [by apply settle_once_keeps|done].
  - by destruct (streamRef st).
  - by destruct (streamRef st).
  - destruct (streamRef st); [|done]. destruct (decide _); by apply settle_once_keeps.
  - destruct (timer_on st); [|done]. apply settle_once_keeps. by rewrite abortStream_settled.
  - destruct (listening st); [|done]. apply settle_once_keeps. by rewrite abortStream_settled.
Qed.

(** The only event that settles with output. *)
Lemma settles_return ev st out :
  settled st = None -> settled (exec_handle st ev) = Some (Return out) ->
  ev = ExClose (Some 0) /\ streamRef st = true /\ out = trim (stdout st).
Proof.
  intros Hs. assert (Hso : forall r st', settled st' = None -> settled (settle_once r st') = Some r).
  { intros r st' Hs'. unfold settle_once. by rewrite Hs'. }
  destruct ev as [err|c|c|code| |]; cbn [exec_handle].
  - destruct (opened st); [congruence|]. destruct err; [rewrite Hso by done; discriminate|cbn; congruence].
  - destruct (streamRef st); cbn; congruence.
  - destruct (streamRef st); cbn; congruence.
  - destruct (streamRef st); [|congruence]. destruct (decide (code = Some 0)) as [->|]; rewrite Hso by done; [|discriminate].
    by intros [= <-].
  - destruct (timer_on st); [|congruence]. rewrite Hso by (by rewrite abortStream_settled). discriminate.
  - destruct (listening st); [|congruence]. unfold exec_onAbort. rewrite Hso by (by rewrite abortStream_settled). discriminate.
Qed.

Lemma returned_output sig evs out :
  settled (execOnClient sig evs) = Some (Return out) ->
  exists pre post, evs = pre ++ ExClose (Some 0) :: post /\
    settled (execOnClient sig pre) = None /\ streamRef (execOnClient sig pre) = true /\ out = trim (printed pre).
Proof.
  induction evs as [|ev evs IH] using rev_ind; [by destruct sig as [[]|]|]. rewrite exec_snoc. intros Hs.
  destruct (settled (execOnClient sig evs)) as [o|] eqn:He.
  - rewrite (exec_handle_keeps _ _ _ He) in Hs. injection Hs as ->. destruct (IH eq_refl) as (pre & post & -> & Hrest).
    exists pre, (post ++ [ev]). split; [by rewrite <- app_assoc|done].
  - destruct (settles_return _ _ _ He Hs) as (-> & Hst & ->). exists evs, []. split_and!; try done.
    f_equal. apply (ex_stream _ _ (execOnClient_ok sig evs) Hst).
Qed.

(** C16.  An execution whose call of the client's [exec] returns settles once, and rightly:
    whatever the order of the channel's events, the timer and the signal, its answer never changes and the timer and the listener are
    released with it; until then the timer is armed, and its expiry settles it; it gives
    output only when the open channel closed with code 0, and then the trimmed text that
    channel printed before; and the text of its errors has no bearer token. *)
Theorem exec_settles sig evs :
  let st := execOnClient sig evs in
  (forall o more, settled st = Some o ->
     settled (execOnClient sig (evs ++ more)) = Some o /\ timer_on st = false /\ listening st = false) /\
  (settled st = None -> settled (exec_handle st ExTimeout) = Some (Throw timed_out)) /\
  (forall out, settled st = Some (Return out) ->
     exists pre post, evs = pre ++ ExClose (Some 0) :: post /\
       settled (execOnClient sig pre) = None /\ streamRef (execOnClient sig pre) = true /\ out = trim (printed pre)) /\
  (forall e, settled st = Some (Throw e) -> test bearer_pattern (err_message e) = false).
Proof.
  pose proof (execOnClient_ok sig evs) as Hok. cbn zeta. split_and!.
  - intros o more Ho. split; [|apply Hok; congruence]. unfold execOnClient in *. rewrite fold_left_app. revert Ho.
    generalize (fold_left exec_handle evs (exec_start sig)). induction more as [|ev more IH]; intros st Ho; [done|].
    cbn. apply IH. by apply exec_handle_keeps.
  - intros Hs. cbn [exec_handle]. rewrite (ex_pending _ _ Hok Hs). unfold settle_once. by rewrite abortStream_settled, Hs.
  - apply returned_output.
  - apply Hok.
Qed.

(** * Retries *)

(** A host whose behaviour in successive attempts is given: no client, or the outcome of the
    execution.  It records the delays it is asked for and the commands it runs. *)
Inductive attempt := NoClient (e : jserror) | Ran (o : outcome string).
Record scripted := Script { answers : list attempt; delays : list Z; ran : list string }.

Definition attempt_outcome (a : attempt) : outcome string := match a with NoClient e => Throw e | Ran o => o end.

#[export] Instance scripted_api : SshApi scripted := {|
  api_getClient := fun s =>
    match answers s with
    | NoClient e :: rest => (Throw e, Script rest (delays s) (ran s))
    | _ => (Return 0%nat, s)
    end;
  api_exec := fun _ command _ s =>
    match answers s with
    | Ran o :: rest => (o, Script rest (delays s) (ran s ++ [command]))
    | _ => (Throw type_error, s)
    end;
  api_delay := fun ms s => (Return tt, Script (answers s) (delays s ++ [ms]) (ran s))
|}.

(** The command is run by the attempts that had a client. *)
Definition runs (command : string) (l : list attempt) : list string :=
  flat_map (fun a => match a with NoClient _ => [] | Ran _ => [command] end) l.

Definition retryable (a : attempt) : bool :=
  match attempt_outcome a with Throw e => is_connect_failed e | Return _ => false end.

Section retry_theorems.
Context (maxRetries retryBaseDelayMs : option Z) (command : string) (ms : Z).

Definition one_attempt : eff scripted string :=
  client ← api_getClient; output ← api_exec client command ms; mret output.

Lemma one_attempt_spec a l ds cs :
  one_attempt (Script (a :: l) ds cs) = (attempt_outcome a, Script l ds (cs ++ runs command [a])).
Proof. unfold one_attempt. run_eff. destruct a as [e|[s|e]]; cbn; by rewrite ?app_nil_r. Qed.

Lemma retry_loop_spec pre last rest fuel n le ds cs :
  Forall (fun a => retryable a = true) pre ->
  totalAttempts maxRetries = Z.of_nat (fuel + n) -> (length pre < fuel)%nat ->
  (retryable last = true -> S (length pre) = fuel) ->
  retry_loop maxRetries retryBaseDelayMs fuel (Z.of_nat n) le command ms (Script (pre ++ last :: rest) ds cs) =
  (attempt_outcome last,
   Script rest (ds ++ List.map (fun k => backoff retryBaseDelayMs (Z.of_nat k)) (seq (S n) (length pre)))
               (cs ++ runs command (pre ++ [last]))).
Proof.
  intros Hpre. revert fuel n le ds cs. induction Hpre as [|a pre Ha Hpre IH]; intros fuel n le ds cs Ht Hlt Hlast;
    (destruct fuel as [|fuel]; [lia|]); cbn [retry_loop app length seq List.map]; unfold try_catch;
    fold one_attempt; rewrite one_attempt_spec.
  - rewrite app_nil_r. destruct (attempt_outcome last) as [out|e] eqn:Ho; [done|].
    assert (Hno : shouldRetry e (Z.of_nat n + 1) (totalAttempts maxRetries) = false).
    { unfold shouldRetry. destruct (Z.leb_spec (totalAttempts maxRetries) (Z.of_nat n + 1)); [done|].
      destruct (is_connect_failed e) eqn:Hc; [|done]. unfold retryable in Hlast. rewrite Ho in Hlast.
      specialize (Hlast Hc). cbn in Hlast. lia. }
    by rewrite Hno.
  - unfold retryable in Ha. destruct (attempt_outcome a) as [out|e] eqn:Ho; [discriminate|].
    assert (Hyes : shouldRetry e (Z.of_nat n + 1) (totalAttempts maxRetries) = true).
    { unfold shouldRetry. cbn [length] in Hlt. destruct (Z.leb_spec (totalAttempts maxRetries) (Z.of_nat n + 1)); [lia|done]. }
    rewrite Hyes. cbn [negb]. unfold api_delay, scripted_api. run_eff.
    replace (Z.of_nat n + 1) with (Z.of_nat (S n)) by lia. cbn [answers delays ran length] in *.
    rewrite IH; [|lia|lia|intros Hl; specialize (Hlast Hl); lia].
    rewrite <- !app_assoc. f_equal. f_equal. unfold runs. cbn [flat_map]. by rewrite app_nil_r.
Qed.

(** C24.  The retry policy: as long as attempts are left, an attempt that could not connect is
    repeated after a delay that doubles from the base each time; the first other outcome, or
    the last attempt's, is the answer.  Every script with at least as many entries as
    attempts has this shape. *)
Theorem retry_spec retries pre last rest timeoutMs :
  default 1 maxRetries = Z.of_nat retries -> default 10000 timeoutMs = ms ->
  Forall (fun a => retryable a = true) pre -> (length pre <= retries)%nat ->
  (retryable last = true -> length pre = retries) ->
  execWithRetry maxRetries retryBaseDelayMs command timeoutMs (Script (pre ++ last :: rest) [] []) =
  (attempt_outcome last,
   Script rest (List.map (fun k => default 250 retryBaseDelayMs * 2 ^ Z.of_nat k) (seq 0 (length pre)))
               (runs command (pre ++ [last]))).
Proof.
  intros Hr Hms Hpre Hlen Hlast. unfold execWithRetry. rewrite Hms.
  assert (Ht : totalAttempts maxRetries = Z.of_nat (S retries + 0)) by (unfold totalAttempts; lia).
  rewrite (retry_loop_spec pre last rest (Z.to_nat (totalAttempts maxRetries)) 0); [|done|lia..].
  f_equal. f_equal. rewrite app_nil_l, <- seq_shift, List.map_map. apply List.map_ext. intros k. unfold backoff.
  do 2 f_equal. lia.
Qed.
End retry_theorems.

(** An execution that was settled before its channel opened. *)
Definition orphan (e : jserror) (st : exec_state) : Prop :=
  settled st = Some (Throw e) /\ opened st = true /\ streamRef st = true /\ closes st = 0%nat /\
  timer_on st = false /\ listening st = false.

Lemma orphan_keeps e ev st : orphan e st -> orphan e (exec_handle st ev).
Proof.
  intros (Hs & Ho & Hr & Hc & Ht & Hl).
  assert (Hk : forall r, settle_once r st = st) by (intros r; unfold settle_once; by rewrite Hs).
  destruct ev as [err|c|c|code| |]; cbn [exec_handle]; rewrite ?Ho, ?Hr, ?Ht, ?Hl; [| | | |by split_and!..].
  - by split_and!.
  - by split_and!.
  - by split_and!.
  - destruct (decide _); rewrite Hk; by split_and!.
Qed.

(** Two hazards of an execution.  An abort or a timeout before the channel opens settles
    the promise, but the command runs all the same, and its channel is never told to close
    whatever comes after.  And a command that ran and failed is run again when the error it
    printed has the code of a failed connection. *)
Theorem exec_hazards sig ev :
  sig <> Some true -> ev = ExTimeout \/ ev = ExAbort /\ sig = Some false ->
  (exists e, forall more, orphan e (execOnClient sig (ev :: ExOpen None :: more))) /\
  (forall stderr message code n retries, parseRemoteError stderr = Some (message, CONNECT_FAILED_CODE) ->
     n < retries -> shouldRetry (exit_error code stderr) n retries = true).
Proof.
  intros Hsig Hev. split.
  - assert (Hstart : exists e, orphan e (execOnClient sig [ev; ExOpen None])).
    { destruct Hev as [->|[-> ->]]; [|eexists; by split_and!].
      destruct sig as [[]|]; [done| |]; (eexists; by split_and!). }
    destruct Hstart as [e He]. exists e. intros more. change (ev :: ExOpen None :: more) with ([ev; ExOpen None] ++ more).
    unfold execOnClient in *. rewrite fold_left_app. revert He. generalize (fold_left exec_handle [ev; ExOpen None] (exec_start sig)).
    induction more as [|ev' more IH]; intros st Hst; [done|]. cbn. by apply IH, orphan_keeps.
  - intros stderr message code n retries Hp Hn. unfold shouldRetry, exit_error. rewrite Hp.
    destruct (Z.leb_spec retries n); [lia|]. reflexivity.
Qed.

(** * The theorems at work *)

Definition sample_payload : jsval := JObj [("id", JStr "r1"); ("enabled", JBool true)].

Lemma remote_command_roundtrip_witness :
  exists word text,
    remoteCommand "/usr/local/bin/nginx-admin-cli" "routes:toggle" sample_payload =
      Return ("/usr/local/bin/nginx-admin-cli" +:+ " " +:+ "routes:toggle" +:+ " " +:+ word) /\
    str_forallb b64_alphabet word = true /\
    (bytes ← unbase64 word; utf8_decode bytes) = Some text /\ json_parse text = Return sample_payload.
Proof.
  apply (remote_command_roundtrip "/usr/local/bin/nginx-admin-cli" "routes:toggle" sample_payload sample_payload).
  - split; [nodup_literals|]. repeat split.
  - reflexivity.
Defined.

Definition no_route : jserror := RemoteExecutionError "no route to host" (Some CONNECT_FAILED_CODE).

Lemma retry_spec_witness :
  execWithRetry (Some 2) (Some 100) "uptime" None
    (Script [NoClient no_route; NoClient no_route; Ran (Return "up")] [] []) =
  (Return "up", Script [] [100; 200] ["uptime"]).
Proof.
  apply (retry_spec (Some 2) (Some 100) "uptime" 10000 2 [NoClient no_route; NoClient no_route] (Ran (Return "up")) [] None);
    [reflexivity|reflexivity| |cbn; lia|discriminate].
  repeat apply List.Forall_cons; [reflexivity|reflexivity|apply List.Forall_nil].
Defined.

Definition planted_error : string :=
  "{" +:+ dq +:+ "message" +:+ dq +:+ ":" +:+ dq +:+ "m" +:+ dq +:+ "," +:+ dq +:+ "code" +:+ dq +:+ ":" +:+
  dq +:+ "SSH_CONNECT_FAILED" +:+ dq +:+ "}".

Lemma exec_hazards_witness :
  (exists e, forall more, orphan e (execOnClient None (ExTimeout :: ExOpen None :: more))) /\
  shouldRetry (exit_error (Some 1) planted_error) 1 2 = true.
Proof.
  destruct (exec_hazards None ExTimeout ltac:(discriminate) (or_introl eq_refl)) as [Ho Hr].
  split; [exact Ho|]. apply (Hr planted_error "m"); [vm_compute; reflexivity|lia].
Defined.
