(* ===== verification/SshRetry.v ===== *)
(** * What the SSH executor logs, and how it waits

    The methods of apps/desktop/src/main/ssh/SSHExecutor.ts with the lines they log, over the
    loop of SshExecutor.v that leaves them out, the log method SSHConnectionManager.ts has a
    copy of, and the delay between two attempts as a machine over its timer and its signal. *)

From S2P Require Import Prelude JsString Regex JsValue Dates Json Secrets Repositories RoutesProcess.
From S2P Require Import SshConnection SshExecutor.

(** ** Log lines *)
Inductive log_level := Info | Warn | Failure.
Record log_line := LogLine { log_at : log_level; log_text : string; log_meta : option jsval }.

(** [console[level](`${this.logPrefix} ${message}`, sanitizeForJson(meta))], without the last
    argument when there is no meta. *)
Definition log (logPrefix : string) (level : log_level) (message : string) (meta : jsval) : log_line :=
  LogLine level (logPrefix +:+ " " +:+ message)
    (match meta with JUndef => None | _ => Some (sanitizeForJson meta) end).

Definition executor_log : log_level -> string -> jsval -> log_line := log "[ssh][executor]".
Definition manager_log : log_level -> string -> jsval -> log_line := log "[ssh][manager]".

(** [getConnectionMeta] of the manager. *)
Definition getConnectionMeta (host : option string) (port opt_interval cfg_interval opt_count cfg_count : option Z) : jsval :=
  JObj [("host", opt_str host); ("port", match port with Some p => JNum (NInt p) | None => JUndef end);
        ("keepaliveInterval", JNum (NInt (keepaliveInterval opt_interval cfg_interval)));
        ("keepaliveCountMax", JNum (NInt (keepaliveCountMax opt_count cfg_count)))].

(** No field with a sensitive name and no bearer token, in the text or beside it. *)
Definition log_safe (l : log_line) : Prop :=
  test bearer_pattern (log_text l) = false /\
  forall meta, log_meta l = Some meta -> hasSensitiveFieldName meta = false /\ bearer_free meta = true.

Lemma log_is_safe logPrefix level message meta :
  test bearer_pattern (logPrefix +:+ " " +:+ message) = false -> log_safe (log logPrefix level message meta).
Proof.
  intros Ht. split; [exact Ht|]. intros m Hm.
  assert (m = sanitizeForJson meta) as -> by (by destruct meta; inversion Hm).
  split; [apply sanitize_field_names|apply sanitize_bearer_free].
Qed.

(** ** The methods with their log *)
Section logged.
Context {S : Type} `{SshApi S} (maxRetries retryBaseDelayMs : option Z).

Abbreviation world := (S * list log_line)%type.

Definition on_api {A} (m : eff S A) : eff world A := fun w => let (o, s') := m (fst w) in (o, (s', snd w)).
Definition emit (l : log_line) : eff world unit := modify (fun w => (fst w, snd w ++ [l])).

Definition num (z : Z) : jsval := JNum (NInt z).

Fixpoint retry_loop_logged (fuel : nat) (attempt : Z) (lastError : option jserror) (commandName command : string)
    (timeoutMs : Z) : eff world string :=
  match fuel with
  | O => throw (default (RemoteExecutionError "SSH execution failed" (Some "SSH_EXEC_FAILED"))
                  (e ← lastError; if instanceof_Error e then Some e else None))
  | Datatypes.S fuel' =>
      let attempt := attempt + 1 in
      let where_ := [("command", JStr commandName); ("attempt", num attempt); ("totalAttempts", num (totalAttempts maxRetries))] in
      try_catch
        (_ ← emit (executor_log Info "Executing over SSH" (JObj where_));
         client ← on_api api_getClient;
         on_api (api_exec client command timeoutMs))
        (fun error =>
           _ ← emit (executor_log Warn "SSH execution attempt failed"
                 (JObj (where_ ++ [("error", JStr (redactPotentialSecrets (err_message error)))])));
           if negb (shouldRetry error attempt (totalAttempts maxRetries)) then
             _ ← emit (executor_log Failure "SSH execution failed with no retries left" (JObj where_));
             throw error
           else
             let delayMs := backoff retryBaseDelayMs attempt in
             _ ← emit (executor_log Info "Retrying SSH execution with backoff"
                   (JObj [("command", JStr commandName); ("delayMs", num delayMs)]));
             _ ← on_api (api_delay delayMs);
             retry_loop_logged fuel' attempt (Some error) commandName command timeoutMs)
  end.

Definition execWithRetry_logged (commandName command : string) (timeoutMs : option Z) : eff world string :=
  retry_loop_logged (Z.to_nat (totalAttempts maxRetries)) 0 None commandName command (default 10000 timeoutMs).

Definition execute_logged (cliPath command : string) (payload : jsval) (timeoutMs : option Z) : eff world jsval :=
  _ ← emit (executor_log Info "Preparing remote command execution"
        (JObj [("command", JStr command); ("timeoutMs", num (default 10000 timeoutMs))]));
  line ← lift_outcome (remoteCommand cliPath command payload);
  output ← execWithRetry_logged command line timeoutMs;
  match json_parse output with
  | Return v => _ ← emit (executor_log Info "Remote command execution completed" (JObj [("command", JStr command)])); mret v
  | Throw _ => throw bad_payload
  end.

Definition checkConnection_logged (timeoutMs : option Z) : eff world unit :=
  _ ← on_api (checkConnection timeoutMs);
  emit (executor_log Info "SSH health check completed successfully" JUndef).

(** The timeout it logs is not the one it passes on. *)
Definition runShell_logged (command : string) (timeoutMs : option Z) : eff world string :=
  _ ← emit (executor_log Info "Executing bootstrap shell command" (JObj [("timeoutMs", num (default 30000 timeoutMs))]));
  execWithRetry_logged "shell" command timeoutMs.

(** *** The log changes nothing and tells nothing *)

(** A method with its log is the method, and what it adds to the log is safe. *)
Definition logs {A} (m : eff world A) (plain : eff S A) : Prop :=
  forall s ls, exists added, m (s, ls) = (fst (plain s), (snd (plain s), ls ++ added)) /\ Forall log_safe added.

Lemma logs_api {A} (m : eff S A) : logs (on_api m) m.
Proof. intros s ls. exists []. unfold on_api. cbn [fst snd]. destruct (m s). by rewrite app_nil_r. Qed.

Lemma logs_ret {A} (a : A) : logs (mret a) (mret a).
Proof. intros s ls. exists []. by rewrite app_nil_r. Qed.

Lemma logs_throw {A} e : logs (throw (A := A) e) (throw e).
Proof. intros s ls. exists []. by rewrite app_nil_r. Qed.

Lemma logs_outcome {A} (o : outcome A) : logs (lift_outcome o) (lift_outcome o).
Proof. intros s ls. exists []. by rewrite app_nil_r. Qed.

Lemma logs_bind {A B} (m : eff world A) p (f : A -> eff world B) g :
  logs m p -> (forall a, logs (f a) (g a)) -> logs (a ← m; f a) (a ← p; g a).
Proof.
  intros Hm Hf s ls. run_eff. destruct (Hm s ls) as (l1 & -> & H1). destruct (p s) as [[a|e] s1]; cbn [fst snd].
  - destruct (Hf a s1 (ls ++ l1)) as (l2 & -> & H2). exists (l1 ++ l2). rewrite app_assoc. split; [done|by apply Forall_app].
  - by exists l1.
Qed.

Lemma logs_emit {A} level message meta (m : eff world A) p :
  test bearer_pattern ("[ssh][executor]" +:+ " " +:+ message) = false ->
  logs m p -> logs (_ ← emit (executor_log level message meta); m) p.
Proof.
  intros Ht Hm s ls. unfold emit. run_eff. destruct (Hm s (ls ++ [executor_log level message meta])) as (l & -> & Hl).
  exists (executor_log level message meta :: l). rewrite <- app_assoc. split; [done|].
  apply List.Forall_cons; [by apply log_is_safe|done].
Qed.

Lemma logs_emit_last level message meta :
  test bearer_pattern ("[ssh][executor]" +:+ " " +:+ message) = false ->
  logs (emit (executor_log level message meta)) (mret tt).
Proof.
  intros Ht s ls. exists [executor_log level message meta]. split; [reflexivity|].
  apply List.Forall_cons; [by apply log_is_safe|apply List.Forall_nil].
Qed.

Lemma logs_try {A} (m : eff world A) p f g :
  logs m p -> (forall e, logs (f e) (g e)) -> logs (try_catch m f) (try_catch p g).
Proof.
  intros Hm Hf s ls. unfold try_catch. destruct (Hm s ls) as (l1 & -> & H1). destruct (p s) as [[a|e] s1]; cbn [fst snd].
  - by exists l1.
  - destruct (Hf e s1 (ls ++ l1)) as (l2 & -> & H2). exists (l1 ++ l2). rewrite app_assoc. split; [done|by apply Forall_app].
Qed.

Lemma bind_ret {A} (m : eff S A) s : (a ← m; mret a) s = m s.
Proof. run_eff. by destruct (m s) as [[]]. Qed.

Lemma logs_ext {A} (m : eff world A) p q : (forall s, p s = q s) -> logs m p -> logs m q.
Proof. intros Hpq Hm s ls. rewrite <- Hpq. apply Hm. Qed.

Lemma retry_loop_logs fuel attempt lastError commandName command timeoutMs :
  logs (retry_loop_logged fuel attempt lastError commandName command timeoutMs)
       (retry_loop maxRetries retryBaseDelayMs fuel attempt lastError command timeoutMs).
Proof.
  revert attempt lastError. induction fuel as [|fuel IH]; intros attempt lastError; cbn [retry_loop_logged retry_loop]; [apply logs_throw|].
  apply logs_try.
  - apply logs_emit; [vm_compute; reflexivity|]. apply logs_bind; [apply logs_api|]. intros client.
    eapply logs_ext; [intros s; symmetry; apply bind_ret|apply logs_api].
  - intros e. apply logs_emit; [vm_compute; reflexivity|]. destruct (negb _);
      (apply logs_emit; [vm_compute; reflexivity|]); [apply logs_throw|]. apply logs_bind; [apply logs_api|]. intros _. apply IH.
Qed.

Lemma execWithRetry_logs commandName command timeoutMs :
  logs (execWithRetry_logged commandName command timeoutMs)
       (execWithRetry maxRetries retryBaseDelayMs command timeoutMs).
Proof. apply retry_loop_logs. Qed.

Lemma execute_logs cliPath command payload timeoutMs :
  logs (execute_logged cliPath command payload timeoutMs)
       (SshExecutor.execute maxRetries retryBaseDelayMs cliPath command payload timeoutMs).
Proof.
  apply logs_emit; [vm_compute; reflexivity|]. apply logs_bind; [apply logs_outcome|]. intros line.
  apply logs_bind; [apply execWithRetry_logs|]. intros output. destruct (json_parse output); [|apply logs_throw].
  apply logs_emit; [vm_compute; reflexivity|apply logs_ret].
Qed.

Lemma checkConnection_logs timeoutMs : logs (checkConnection_logged timeoutMs) (checkConnection timeoutMs).
Proof.
  apply (logs_ext _ (u ← checkConnection timeoutMs; mret u)); [apply bind_ret|].
  apply logs_bind; [apply logs_api|]. intros [].
  apply logs_emit_last. vm_compute. reflexivity.
Qed.

Lemma runShell_logs command timeoutMs :
  logs (runShell_logged command timeoutMs) (runShell maxRetries retryBaseDelayMs command timeoutMs).
Proof. apply logs_emit; [vm_compute; reflexivity|apply execWithRetry_logs]. Qed.

(** C25.  The executor's methods with the lines they log are the methods without them: whatever
    the host and the connection do, each answers and leaves the rest as the bare method does,
    and no line it adds to the log has a bearer token in its text or its data, nor data with a
    sensitive field, whatever the command, the payload and the errors were. *)
Theorem logging_transparent cliPath command payload timeoutMs :
  logs (execute_logged cliPath command payload timeoutMs)
       (SshExecutor.execute maxRetries retryBaseDelayMs cliPath command payload timeoutMs) /\
  logs (checkConnection_logged timeoutMs) (checkConnection timeoutMs) /\
  logs (runShell_logged command timeoutMs) (runShell maxRetries retryBaseDelayMs command timeoutMs).
Proof. split_and!; [apply execute_logs|apply checkConnection_logs|apply runShell_logs]. Qed.
End logged.

(** ** The delay between two attempts *)

(** The promise's answer, its timer, and the listener on the signal. *)
Record delay_state := Delay { d_settled : option (outcome unit); d_timer : bool; d_listening : bool }.

(** [onAbort]: a promise that is settled keeps its answer. *)
Definition delay_onAbort (st : delay_state) : delay_state :=
  Delay (Some (default (Throw aborted_error) (d_settled st))) false false.

(** The timer fires: the listener is removed. *)
Definition delay_fires (st : delay_state) : delay_state := Delay (Some (default (Return tt) (d_settled st))) false false.

(** [signal] as in [exec_start]: aborted already, or listened to. *)
Definition delay_start (signal : option bool) : delay_state :=
  match signal with
  | Some true => delay_onAbort (Delay None true false)
  | Some false => Delay None true true
  | None => Delay None true false
  end.

Inductive delay_event := DTimer | DAbort.
Definition delay_handle (st : delay_state) (ev : delay_event) : delay_state :=
  match ev with
  | DTimer => if d_timer st then delay_fires st else st
  | DAbort => if d_listening st then delay_onAbort st else st
  end.
Definition delay (signal : option bool) (evs : list delay_event) : delay_state := fold_left delay_handle evs (delay_start signal).

(** The first event that counts. *)
Definition delay_answer (signal : option bool) (evs : list delay_event) : option (outcome unit) :=
  match signal with
  | Some true => Some (Throw aborted_error)
  | Some false => (fun ev => match ev with DTimer => Return tt | DAbort => Throw aborted_error end) <$> head evs
  | None => if existsb (fun ev => match ev with DTimer => true | DAbort => false end) evs then Some (Return tt) else None
  end.

Lemma delay_over evs o : fold_left delay_handle evs (Delay (Some o) false false) = Delay (Some o) false false.
Proof. induction evs as [|[] evs IH]; [done|exact IH|exact IH]. Qed.

(** The delay ends once, with the timer and the listener released: by the timer, or by the
    signal if it was first; an aborted signal ends it at once. *)
Lemma delay_spec signal evs :
  d_settled (delay signal evs) = delay_answer signal evs /\
  d_timer (delay signal evs) = bool_decide (delay_answer signal evs = None) /\
  (is_Some (delay_answer signal evs) -> d_listening (delay signal evs) = false).
Proof.
  unfold delay. destruct signal as [[]|]; cbn [delay_start delay_answer].
  - change (delay_onAbort _) with (Delay (Some (Throw aborted_error)) false false). by rewrite delay_over.
  - destruct evs as [|[] evs]; cbn [fold_left]; [by split_and!; [| |intros []]|..];
      [change (delay_handle _ _) with (Delay (Some (Return tt)) false false)
      |change (delay_handle _ _) with (Delay (Some (Throw aborted_error)) false false)]; by rewrite delay_over.
  - induction evs as [|[] evs IH]; [done| |exact IH]. cbn [fold_left existsb].
    change (delay_handle _ _) with (Delay (Some (Return tt)) false false). by rewrite delay_over.
Qed.
