(* ===== verification/SshPath.v ===== *)
(** * The executor over the connection manager

    The retry loop of SSHExecutor.ts run on the state of SSHConnectionManager.ts: the two
    machines of [SshConnection] and [SshExecutor] put together.  Between the executor's awaits
    the network answers: it refuses a connection or establishes it. *)

From S2P Require Import Prelude JsString Regex JsValue Dates Json Secrets Repositories RoutesProcess.
From S2P Require Import SshConnection SshExecutor.

(** What the network and the host do, attempt by attempt: a connection is refused with an error,
    or there is one and the command has an outcome. *)
Inductive answer := Refuse (message : string) | Accept (o : outcome string).

Record ssh_world := SshWorld {
  mgr : manager;
  script : list answer;
  waited : list Z;
  commands : list string
}.

(** The event that answers a new attempt. *)
Definition network_event (n : client) (l : list answer) : event :=
  match l with Refuse message :: _ => EvError n message | _ => EvReady n end.

Definition after_refusal (l : list answer) : list answer := match l with Refuse _ :: rest => rest | _ => l end.

(** [await this.connectionManager.getClient(...)]: the call, and while it waits the event of its
    attempt, the [finally] of the attempt and the delivery to the caller. *)
Definition path_getClient : eff ssh_world client := fun w =>
  match getClient None (mgr w) with
  | (m, Settled r) => (r, SshWorld m (script w) (waited w) (commands w))
  | (m, Waiting n) =>
      let i := length (waiters (mgr w)) in
      let m := fold_left (fun st ev => handle ev st) [network_event n (script w); EvFinally n; EvDeliver i] m in
      (match waiters m !! i with
       | Some (Waiter _ _ (Some r)) => r
       | _ => Throw type_error
       end, SshWorld m (after_refusal (script w)) (waited w) (commands w))
  end.

(** A command runs on the connected client only. *)
Definition path_exec (n : client) (command : string) (timeoutMs : Z) : eff ssh_world string := fun w =>
  match script w with
  | Accept o :: rest =>
      if decide (activeClient (mgr w) = Some n)
      then (o, SshWorld (mgr w) rest (waited w) (commands w ++ [command]))
      else (Throw type_error, w)
  | _ => (Throw type_error, w)
  end.

#[export] Instance path_api : SshApi ssh_world := {|
  api_getClient := path_getClient;
  api_exec := path_exec;
  api_delay := fun ms w => (Return tt, SshWorld (mgr w) (script w) (waited w ++ [ms]) (commands w))
|}.

(** ** Two interfaces that answer alike *)
Section simulation.
Context {S1 S2 : Type} `{A1 : SshApi S1} `{A2 : SshApi S2} (R : S1 -> S2 -> Prop).

(** Related states are left related, with answers that [Q] relates in the state they are given. *)
Definition alike_at {A B} (Q : A -> B -> S1 -> Prop) (m1 : eff S1 A) (m2 : eff S2 B) (s1 : S1) (s2 : S2) : Prop :=
  R (snd (m1 s1)) (snd (m2 s2)) /\
  match fst (m1 s1), fst (m2 s2) with
  | Return a, Return b => Q a b (snd (m1 s1))
  | Throw e1, Throw e2 => e1 = e2
  | _, _ => False
  end.
Definition alike {A B} (Q : A -> B -> S1 -> Prop) (m1 : eff S1 A) (m2 : eff S2 B) : Prop :=
  forall s1 s2, R s1 s2 -> alike_at Q m1 m2 s1 s2.
Definition same {A} (a b : A) (_ : S1) : Prop := a = b.

(** [P] is what the caller of [getClient] knows of its client; which one it is in the other
    world does not matter. *)
Context (P : client -> S1 -> Prop).
Context (Hget : alike (fun n _ s1 => P n s1) api_getClient api_getClient).
Context (Hexec : forall n1 n2 command ms s1 s2, R s1 s2 -> P n1 s1 ->
  alike_at same (api_exec n1 command ms) (api_exec n2 command ms) s1 s2).
Context (Hdelay : forall ms, alike same (api_delay ms) (api_delay ms)).

Lemma alike_bind {A B C D} (Q : A -> B -> S1 -> Prop) (Q' : C -> D -> S1 -> Prop) m1 m2 f1 f2 s1 s2 :
  alike_at Q m1 m2 s1 s2 -> (forall a b t1 t2, R t1 t2 -> Q a b t1 -> alike_at Q' (f1 a) (f2 b) t1 t2) ->
  alike_at Q' (a ← m1; f1 a) (b ← m2; f2 b) s1 s2.
Proof.
  intros [Hs' Ho] Hf. unfold alike_at in *. run_eff.
  destruct (m1 s1) as [[a|e1] s1'], (m2 s2) as [[b|e2] s2']; cbn [fst snd] in *; try done. by apply Hf.
Qed.

Lemma alike_try {A B} (Q : A -> B -> S1 -> Prop) m1 m2 f1 f2 :
  alike Q m1 m2 -> (forall e, alike Q (f1 e) (f2 e)) -> alike Q (try_catch m1 f1) (try_catch m2 f2).
Proof.
  intros Hm Hf s1 s2 Hs. destruct (Hm s1 s2 Hs) as [Hs' Ho]. unfold alike_at, try_catch in *.
  destruct (m1 s1) as [[a|e1] s1'], (m2 s2) as [[b|e2] s2']; cbn [fst snd] in *; try done. subst. by apply Hf.
Qed.

Lemma retry_loop_alike maxRetries base fuel attempt lastError command ms :
  alike same (retry_loop (S := S1) maxRetries base fuel attempt lastError command ms)
             (retry_loop (S := S2) maxRetries base fuel attempt lastError command ms).
Proof.
  revert attempt lastError. induction fuel as [|fuel IH]; intros attempt lastError; cbn [retry_loop]; [by intros s1 s2 Hs|].
  apply alike_try.
  - intros s1 s2 Hs. eapply alike_bind; [by apply Hget|]. intros n1 n2 t1 t2 Ht Hn.
    eapply alike_bind; [by apply Hexec|]. by intros o1 o2 u1 u2 Hu <-.
  - intros e. destruct (negb _); [by intros s1 s2 Hs|]. intros s1 s2 Hs. eapply alike_bind; [by apply Hdelay|].
    intros _ _ t1 t2 Ht _. by apply IH.
Qed.
End simulation.

(** ** The path is the script *)

Definition refused (message : string) : jserror := RemoteExecutionError (redactPotentialSecrets message) (Some CONNECT_FAILED_CODE).
Definition entry (a : answer) : attempt := match a with Refuse message => NoClient (refused message) | Accept o => Ran o end.
(** The network refuses connections first and then establishes them. *)
Definition answers_of (refusals : list string) (outcomes : list (outcome string)) : list answer :=
  List.map Refuse refusals ++ List.map Accept outcomes.

(** A manager between two calls: no attempt under way. *)
Definition quiet (st : manager) : Prop :=
  shuttingDown st = false /\ connectPromise st = None.

(** The world beside the script of the bare loop; once connected, nothing is refused.  [total] counts the
    attempts to connect, those made and those to come. *)
Record path_related (total : nat) (w : ssh_world) (s : scripted) : Prop := {
  pr_script : answers s = List.map entry (script w);
  pr_waited : delays s = waited w;
  pr_commands : ran s = commands w;
  pr_quiet : quiet (mgr w);
  pr_shape : exists refusals outcomes, script w = answers_of refusals outcomes /\
    (activeClient (mgr w) <> None -> refusals = []) /\
    (length (conns (mgr w)) + length refusals + match activeClient (mgr w) with Some _ => 0 | None => 1 end = total)%nat;
  pr_connected : commands w <> [] -> activeClient (mgr w) <> None;
  pr_reached : rtc manager_step init_manager (mgr w)
}.

Lemma lookup_snoc {A} (l : list A) x : (l ++ [x]) !! length l = Some x.
Proof. by apply list_lookup_middle. Qed.

Lemma insert_snoc {A} (l : list A) x y : <[length l := y]> (l ++ [x]) = l ++ [y].
Proof. rewrite insert_app_r_alt by lia. by rewrite Nat.sub_diag. Qed.

(** One attempt of a quiet manager without a client: its answer, and the manager after it. *)
Definition attempted (r : outcome client) (st : manager) : manager :=
  let n := length (conns st) in
  set_active (match r with Return _ => Some n | Throw _ => None end)
    (set_promise None (set_conns (conns st ++ [Conn None (Some r) true false])
      (set_waiters (waiters st ++ [Waiter n None (Some r)]) st))).

Lemma getClient_connects st : quiet st -> activeClient st = None ->
  getClient None st =
  (set_waiters (waiters st ++ [Waiter (length (conns st)) None None])
     (set_promise (Some (length (conns st))) (set_conns (conns st ++ [Conn None None false false]) st)),
   Waiting (length (conns st))).
Proof. intros [Hsh Hp] Ha. unfold getClient. rewrite Hsh, Ha, Hp. reflexivity. Qed.

Lemma attempt_events st l : quiet st -> activeClient st = None ->
  let r := match l with Refuse message :: _ => Throw (refused message) | _ => Return (length (conns st)) end in
  fold_left (fun st ev => handle ev st) [network_event (length (conns st)) l; EvFinally (length (conns st)); EvDeliver (length (waiters st))]
    (fst (getClient None st)) = attempted r st.
Proof.
  intros Hq Ha. rewrite getClient_connects by done. cbn [fst fold_left].
  set (w := Waiter (length (conns st)) None None). set (c := Conn None None false false).
  assert (Hnet : forall r, (r = match l with Refuse message :: _ => Throw (refused message) | _ => Return (length (conns st)) end) ->
    handle (network_event (length (conns st)) l)
      (set_waiters (waiters st ++ [w]) (set_promise (Some (length (conns st))) (set_conns (conns st ++ [c]) st))) =
    set_active (match r with Return _ => Some (length (conns st)) | Throw _ => None end)
      (set_conns (conns st ++ [settle r false c])
        (set_waiters (waiters st ++ [w]) (set_promise (Some (length (conns st))) st)))).
  { intros r ->. destruct l as [|[message|o] l]; cbn [network_event handle]; unfold onReady, onError;
      cbn [conns set_waiters set_promise set_conns]; rewrite lookup_snoc; cbn [c_result c];
      rewrite insert_snoc; [reflexivity| |reflexivity].
    unfold set_active, set_conns, set_waiters, set_promise, settle, refused.
    cbn [activeClient connectPromise shuttingDown conns waiters aborted closing uncaught]. by rewrite Ha. }
  rewrite (Hnet _ eq_refl). clear Hnet.
  set (r := match l with Refuse message :: _ => Throw (refused message) | _ => Return (length (conns st)) end).
  cbn [handle]. unfold finally. cbn [conns set_active set_conns]. rewrite lookup_snoc.
  cbn [settle c_result c_cleared c is_Some]. rewrite bool_decide_true by (by eexists). cbn [andb negb].
  rewrite insert_snoc. unfold deliver. cbn [waiters set_promise set_conns set_active set_waiters conns].
  rewrite lookup_snoc. cbn [w w_result w_conn]. rewrite lookup_snoc. cbn [c_cleared]. rewrite insert_snoc. reflexivity.
Qed.

Lemma path_getClient_connects w : quiet (mgr w) -> activeClient (mgr w) = None ->
  let r := match script w with Refuse message :: _ => Throw (refused message) | _ => Return (length (conns (mgr w))) end in
  path_getClient w = (r, SshWorld (attempted r (mgr w)) (after_refusal (script w)) (waited w) (commands w)).
Proof.
  intros Hq Ha r. unfold path_getClient. pose proof (attempt_events (mgr w) (script w) Hq Ha) as He. cbn zeta in He.
  rewrite (getClient_connects _ Hq Ha) in *. cbn [fst] in He. rewrite He. fold r. cbn [attempted waiters set_active set_promise set_conns set_waiters].
  by rewrite lookup_snoc.
Qed.

Lemma attempted_quiet r st : quiet st -> quiet (attempted r st).
Proof. by intros [Hsh _]. Qed.

Lemma attempted_reached st l : quiet st -> activeClient st = None -> rtc manager_step init_manager st ->
  rtc manager_step init_manager
    (attempted (match l with Refuse message :: _ => Throw (refused message) | _ => Return (length (conns st)) end) st).
Proof.
  intros Hq Ha Hr. rewrite <- (attempt_events st l Hq Ha). cbn [fold_left].
  do 3 (eapply rtc_r; [|apply Manager_step]). eapply rtc_r; [exact Hr|]. apply (Manager_step (EvGet None)).
Qed.

Abbreviation connected := (fun (n : client) (w : ssh_world) => activeClient (mgr w) = Some n).

Lemma getClient_alike total : alike (path_related total) (fun n _ w => connected n w) api_getClient api_getClient.
Proof.
  intros w s [Hs Hd Hr Hq (ms & os & Hw & Hm & Ht) Hc Hrch]. unfold alike_at. cbn [api_getClient path_api scripted_api].
  destruct (activeClient (mgr w)) as [n|] eqn:Ha.
  - assert (Hg : path_getClient w = (Return n, w)).
    { unfold path_getClient, getClient. destruct Hq as [-> _]. rewrite Ha. by destruct w. }
    rewrite (Hm ltac:(discriminate)) in Hw, Ht. rewrite Hg, Hs, Hw.
    destruct os as [|o os]; cbn [answers_of List.map app entry fst snd]; (split; [|done]);
      (split; [by rewrite Hs, Hw|done..| |by rewrite Ha|done]); rewrite Ha; [by exists [], []|by exists [], (o :: os)].
  - rewrite (path_getClient_connects w Hq Ha), Hs, Hw. pose proof (fun r => attempted_quiet r _ Hq) as Hq'.
    pose proof (fun l => attempted_reached _ l Hq Ha Hrch) as Hrch'.
    destruct ms as [|message ms]; [destruct os as [|o os]|]; cbn [answers_of List.map app entry fst snd after_refusal];
      (split; [|done]); (split; [cbn; by rewrite ?Hs, ?Hw|done|done|apply Hq'| | |]); cbn [attempted conns set_active activeClient mgr].
    + exists [], []. split; [done|]. split; [done|]. cbn. rewrite length_app. cbn in *. lia.
    + done.
    + apply (Hrch' []).
    + exists [], (o :: os). split; [done|]. split; [done|]. cbn. rewrite length_app. cbn in *. lia.
    + done.
    + apply (Hrch' [Accept o]).
    + exists ms, os. split; [done|]. split; [done|]. cbn. rewrite length_app. cbn in *. lia.
    + intros Hne. by apply Hc in Hne.
    + apply (Hrch' [Refuse message]).
Qed.

Lemma exec_alike total n1 n2 command ms w s : path_related total w s -> connected n1 w ->
  alike_at (path_related total) same (api_exec n1 command ms) (api_exec n2 command ms) w s.
Proof.
  intros [Hs Hd Hr Hq (rs & os & Hw & Hm & Ht) Hc Hrch] Hn. unfold alike_at. cbn [api_exec path_api scripted_api].
  unfold path_exec. rewrite (Hm ltac:(congruence)) in Hw, Ht. rewrite Hs, Hw.
  destruct os as [|o os]; cbn [answers_of List.map app entry fst snd]; [|rewrite decide_True by done; cbn [fst snd]].
  - split; [|done]. split; [by rewrite Hs, Hw|done..| |done|done]. by exists [], [].
  - split; [|by destruct o]. split; cbn; [done|done|by rewrite Hr|done| |by rewrite Hn|done]. exists [], os. by rewrite Hn in *.
Qed.

Lemma delay_alike total ms : alike (path_related total) same (api_delay ms) (api_delay ms).
Proof. intros w s [Hs Hd Hr Hq Hx Hc Hrch]. split; [|done]. split; cbn; try done. by rewrite Hd. Qed.

Lemma path_refines total maxRetries base command timeoutMs :
  alike (path_related total) same (execWithRetry (S := ssh_world) maxRetries base command timeoutMs)
    (execWithRetry (S := scripted) maxRetries base command timeoutMs).
Proof.
  apply (retry_loop_alike _ (fun n w => connected n w)); [apply getClient_alike|by intros; apply exec_alike|apply delay_alike].
Qed.

Lemma entry_answers refusals outcomes :
  List.map entry (answers_of refusals outcomes) = List.map (fun m => NoClient (refused m)) refusals ++ List.map Ran outcomes.
Proof. unfold answers_of. by rewrite List.map_app, !List.map_map. Qed.

Lemma refusals_retryable refusals : Forall (fun a => retryable a = true) (List.map (fun m => NoClient (refused m)) refusals).
Proof. apply Forall_map_iff, List.Forall_forall. by intros m _. Qed.

Lemma refusals_run command refusals : runs command (List.map (fun m => NoClient (refused m)) refusals) = [].
Proof. by induction refusals. Qed.

Lemma answers_left ms os outcomes : List.map Ran outcomes = List.map entry (answers_of ms os) -> ms = [] /\ os = outcomes.
Proof.
  rewrite entry_answers. destruct ms as [|m ms]; [|by destruct outcomes]. cbn. intros He. split; [done|].
  revert os He. induction outcomes as [|o l IH]; intros [|o' os] He; try done. injection He as <- He. f_equal. by apply IH.
Qed.

(** A manager between two calls, reached from the start; once connected, nothing is refused. *)
Definition ready (st : manager) (refusals : list string) : Prop :=
  quiet st /\ rtc manager_step init_manager st /\ (activeClient st <> None -> refusals = []).

(** The attempts to connect that are still to come. *)
Definition attempts_left (st : manager) (refusals : list string) : nat :=
  length refusals + match activeClient st with Some _ => 0 | None => 1 end.

(** Whatever is made of the interface behaves over the connection manager as over a script: the
    same answer, delays and commands, and a manager that is ready again. *)
Lemma path_of_alike {A} (m1 : eff ssh_world A) (m2 : eff scripted A) refusals outcomes st q rest ws cs :
  (forall total, alike (path_related total) same m1 m2) -> ready st refusals ->
  m2 (Script (List.map entry (answers_of refusals outcomes)) [] []) = (q, Script (List.map Ran rest) ws cs) ->
  exists st', m1 (SshWorld st (answers_of refusals outcomes) [] []) = (q, SshWorld st' (answers_of [] rest) ws cs) /\
    ready st' [] /\ (cs <> [] -> activeClient st' <> None) /\
    (length (conns st') + attempts_left st' [] = length (conns st) + attempts_left st refusals)%nat.
Proof.
  intros Hm (Hq & Hrch & Hact) Hrun. set (w := SshWorld _ _ _ _). set (s := Script _ _ _) in Hrun.
  assert (Hrel : path_related (length (conns st) + attempts_left st refusals) w s).
  { split; try done. exists refusals, outcomes. split_and!; [done|done|]. unfold attempts_left. cbn. lia. }
  destruct (Hm _ w s Hrel) as [Hrel' Hans].
  rewrite Hrun in Hrel', Hans. destruct (m1 w) as [q' [st' sc wt cm]]. cbn [fst snd] in *.
  assert (q' = q) as -> by (destruct q', q; cbn in Hans; unfold same in Hans; by subst).
  destruct Hrel' as [Hs Hd Hr Hq' (ms & os & Hsh & _ & Hcount) Hc Hrch']. cbn [script waited commands mgr answers delays ran] in *.
  subst sc. apply answers_left in Hs as [-> ->]. subst wt cm. exists st'. split_and!; try done.
  unfold attempts_left in *. cbn [length] in *. lia.
Qed.

(** A connection that is lost between two calls leaves the manager ready to make another. *)
Lemma lost_connection_ready st n refusals : ready st [] -> activeClient st = Some n ->
  ready (handle (EvClose n) st) refusals /\ activeClient (handle (EvClose n) st) = None.
Proof.
  intros ([Hsh Hp] & Hr & _) Ha. destruct (mo_active _ (reachable_ok _ Hr) n Ha) as (c & Hc & Hres & _).
  assert (He : handle (EvClose n) st = set_active None st).
  { cbn [handle]. unfold onClose, invalidate. by rewrite Hc, Hres, Ha, decide_True. }
  rewrite He. split; [|done]. split; [done|]. split; [|done]. eapply rtc_r; [exact Hr|]. rewrite <- He. apply Manager_step.
Qed.

(** [shutdown] of the executor: that of the manager and, while it waits, the client's close. *)
Definition path_shutdown : eff ssh_world unit := fun w =>
  (Return tt,
   SshWorld (match activeClient (mgr w) with
             | Some n => handle (EvShutdownDone n) (handle EvShutdown (mgr w))
             | None => handle EvShutdown (mgr w)
             end) (script w) (waited w) (commands w)).

(** After a shutdown between two calls the manager is ready to connect again. *)
Lemma shutdown_ready w refusals : ready (mgr w) [] ->
  fst (path_shutdown w) = Return tt /\ ready (mgr (snd (path_shutdown w))) refusals /\ activeClient (mgr (snd (path_shutdown w))) = None.
Proof.
  intros ([Hsh Hp] & Hr & _). unfold path_shutdown. cbn [fst snd mgr]. destruct (activeClient (mgr w)) as [n|] eqn:Ha.
  - assert (Hin : n ∈ closing (handle EvShutdown (mgr w))) by (cbn; unfold shutdown; rewrite Ha; apply list_elem_of_here).
    assert (Hn : activeClient (handle EvShutdown (mgr w)) = None /\ connectPromise (handle EvShutdown (mgr w)) = None).
    { cbn [handle]. unfold shutdown. rewrite Ha. unfold end_client. cbn [conns set_active set_shutting].
      by destruct (conns (mgr w) !! n). }
    destruct Hn as [Hn Hpn]. cbn [handle] in *. unfold shutdown_done. rewrite decide_True by done. split; [done|]. split; [|exact Hn].
    split; [by split|]. split; [|intros Hne; destruct Hne; exact Hn]. eapply rtc_r; [eapply rtc_r; [exact Hr|apply (Manager_step EvShutdown)]|].
    pose proof (Manager_step (EvShutdownDone n) (shutdown (mgr w))) as Hstep. cbn [handle] in Hstep. unfold shutdown_done in Hstep.
    by rewrite decide_True in Hstep.
  - split; [done|]. assert (He : handle EvShutdown (mgr w) = set_shutting false (set_active None (mgr w))) by (cbn; unfold shutdown; by rewrite Ha).
    split; [|by rewrite He]. split; [by rewrite He|]. split; [|by rewrite He].
    eapply rtc_r; [exact Hr|apply Manager_step].
Qed.

Section path_theorem.
Context (maxRetries retryBaseDelayMs : option Z) (command : string) (timeoutMs : option Z).
Context (retries : nat) (Hretries : default 1 maxRetries = Z.of_nat retries).

Definition doubling (n : nat) : list Z := List.map (fun k => default 250 retryBaseDelayMs * 2 ^ Z.of_nat k) (seq 0 n).

Abbreviation run_path := (execWithRetry (S := ssh_world) maxRetries retryBaseDelayMs command timeoutMs).
Abbreviation run_script := (execWithRetry (S := scripted) maxRetries retryBaseDelayMs command timeoutMs).

(** The loop's answer and the world it leaves, from those of the script. *)
Lemma path_of_script refusals outcomes st q rest ws cs :
  ready st refusals ->
  run_script (Script (List.map entry (answers_of refusals outcomes)) [] []) = (q, Script (List.map Ran rest) ws cs) ->
  exists st', run_path (SshWorld st (answers_of refusals outcomes) [] []) = (q, SshWorld st' (answers_of [] rest) ws cs) /\
    ready st' [] /\ (cs <> [] -> activeClient st' <> None) /\
    (length (conns st') + attempts_left st' [] = length (conns st) + attempts_left st refusals)%nat.
Proof. apply path_of_alike. intros total. apply path_refines. Qed.

Lemma refusals_run_path refusals last rest : (length refusals <= retries)%nat -> (retryable last = true -> length refusals = retries) ->
  run_script (Script (List.map (fun m => NoClient (refused m)) refusals ++ last :: rest) [] []) =
  (attempt_outcome last, Script rest (doubling (length refusals)) (runs command [last])).
Proof.
  intros Hlen Hlast.
  rewrite (retry_spec maxRetries retryBaseDelayMs command (default 10000 timeoutMs) retries _ last rest timeoutMs
             Hretries eq_refl (refusals_retryable refusals)); [|by rewrite List.length_map|by rewrite List.length_map].
  unfold runs. rewrite flat_map_app. fold (runs command (List.map (fun m => NoClient (refused m)) refusals)).
  by rewrite refusals_run, List.length_map.
Qed.

Lemma command_runs refusals outcomes o st : ready st refusals -> (length refusals <= retries)%nat -> retryable (Ran o) = false ->
  exists st', run_path (SshWorld st (answers_of refusals (o :: outcomes)) [] []) =
      (o, SshWorld st' (answers_of [] outcomes) (doubling (length refusals)) [command]) /\
    ready st' [] /\ activeClient st' <> None /\
    length (conns st') = (length (conns st) + attempts_left st refusals)%nat.
Proof.
  intros Hready Hlen Ho.
  destruct (path_of_script refusals (o :: outcomes) st o outcomes (doubling (length refusals)) [command] Hready)
    as (st' & Hrun & Hr' & Hc & Hn).
  - rewrite entry_answers. cbn [List.map]. rewrite refusals_run_path by (done || by rewrite Ho). reflexivity.
  - exists st'. specialize (Hc ltac:(discriminate)). split; [done|]. split; [done|]. split; [done|].
    unfold attempts_left at 1 in Hn. cbn [length] in Hn. destruct (activeClient st'); [lia|done].
Qed.

(** A loop whose attempts are all refused leaves the manager without a client. *)
Lemma refused_loop_idle fuel ms l : (fuel <= length ms)%nat -> forall attempt lastError w,
  script w = List.map Refuse ms ++ l -> quiet (mgr w) -> activeClient (mgr w) = None ->
  activeClient (mgr (snd (retry_loop maxRetries retryBaseDelayMs fuel attempt lastError command (default 10000 timeoutMs) w))) = None.
Proof.
  revert ms. induction fuel as [|fuel IH]; intros ms Hms attempt lastError w Hs Hq Ha; [exact Ha|].
  destruct ms as [|m ms]; [cbn in Hms; lia|]. cbn [retry_loop]. unfold try_catch, mbind at 1, eff_bind at 1.
  pose proof (path_getClient_connects w Hq Ha) as Hg. rewrite Hs in Hg. cbn [List.map app after_refusal] in Hg.
  change (api_getClient w) with (path_getClient w). rewrite Hg.
  destruct (negb _); [done|]. unfold mbind, eff_bind. cbn [api_delay path_api].
  apply (IH ms); [cbn in Hms; lia|done|by apply attempted_quiet|done].
Qed.

Lemma command_refused refusals outcomes message st :
  ready st refusals -> activeClient st = None -> length refusals = retries ->
  exists st', run_path (SshWorld st (answers_of (refusals ++ [message]) outcomes) [] []) =
      (Throw (refused message), SshWorld st' (answers_of [] outcomes) (doubling retries) []) /\
    ready st' [] /\ activeClient st' = None /\ length (conns st') = (length (conns st) + retries + 1)%nat.
Proof.
  intros (Hq & Hrch & _) Ha Hlen.
  destruct (path_of_script (refusals ++ [message]) outcomes st (Throw (refused message)) outcomes (doubling retries) [])
    as (st' & Hrun & Hr' & _ & Hn).
  - by split_and!; [| |rewrite Ha].
  - rewrite entry_answers, List.map_app, <- app_assoc. cbn [List.map app]. rewrite refusals_run_path by (done || lia). by rewrite Hlen.
  - assert (Hidle : activeClient st' = None).
    { pose proof (refused_loop_idle (Z.to_nat (totalAttempts maxRetries)) (refusals ++ [message]) (List.map Accept outcomes)
        ltac:(rewrite length_app; cbn; unfold totalAttempts; lia) 0 None
        (SshWorld st (answers_of (refusals ++ [message]) outcomes) [] []) eq_refl Hq Ha) as Hi.
      unfold execWithRetry in Hrun. by rewrite Hrun in Hi. }
    exists st'. split; [exact Hrun|]. split; [done|]. split; [done|].
    unfold attempts_left in Hn. rewrite Hidle, Ha, length_app in Hn. cbn [length] in Hn. lia.
Qed.

(** The executor over the connection manager.  Each refused connection is a new attempt of
    the manager after a delay that doubles; the first that is established serves the command,
    which runs once and whose outcome is the answer, and stays the connection of the next one: a
    command that finds one makes no attempt.  When every attempt allowed is refused, the answer
    is the last refusal's redacted error and nothing ran.  The manager is left between two calls
    in a reachable state, so that its invariant holds. *)
Theorem command_over_connection refusals outcomes st :
  ready st refusals ->
  (forall o, (length refusals <= retries)%nat -> retryable (Ran o) = false ->
     exists st', run_path (SshWorld st (answers_of refusals (o :: outcomes)) [] []) =
         (o, SshWorld st' (answers_of [] outcomes) (doubling (length refusals)) [command]) /\
       ready st' [] /\ activeClient st' <> None /\
       length (conns st') = (length (conns st) + attempts_left st refusals)%nat) /\
  (forall message, activeClient st = None -> length refusals = retries ->
     exists st', run_path (SshWorld st (answers_of (refusals ++ [message]) outcomes) [] []) =
         (Throw (refused message), SshWorld st' (answers_of [] outcomes) (doubling retries) []) /\
       ready st' [] /\ activeClient st' = None /\ length (conns st') = (length (conns st) + retries + 1)%nat).
Proof.
  intros Hready. split; [intros; by apply command_runs|]. intros message Ha Hlen. by apply command_refused.
Qed.
End path_theorem.

Lemma command_over_connection_witness :
  let st := init_manager in
  ready st ["no route"; "no route"] /\
  exists st', execWithRetry (S := ssh_world) (Some 2) (Some 100) "uptime" None
      (SshWorld st (answers_of ["no route"; "no route"] [Return "up"]) [] []) =
    (Return "up", SshWorld st' (answers_of [] []) (doubling (Some 100) 2) ["uptime"]) /\
  ready st' [] /\ activeClient st' <> None /\ length (conns st') = 3%nat.
Proof.
  assert (Hr : ready init_manager ["no route"; "no route"]) by (split; [done|]; split; [apply rtc_refl|done]).
  split; [exact Hr|].
  apply (proj1 (command_over_connection (Some 2) (Some 100) "uptime" None 2 eq_refl _ [] _ Hr) (Return "up")); [cbn; lia|reflexivity].
Defined.

(** ** A session of commands, lost connections and shutdowns *)
Section session.
Context (maxRetries retryBaseDelayMs : option Z).
Context (retries : nat) (Hretries : default 1 maxRetries = Z.of_nat retries).

(** A command with the connections refused before one is established, or all of them; the host
    closes the connection; the executor is shut down. *)
Inductive use :=
  | Command (command : string) (timeoutMs : option Z) (refusals : list string) (o : outcome string)
  | Unreachable (command : string) (timeoutMs : option Z) (refusals : list string) (message : string)
  | Lost
  | Stop.

(** What a session shows: the outcomes of its commands, the delays, and what the host ran. *)
Abbreviation shown := (list (outcome string) * list Z * list string)%type.
Definition show_nothing : shown := ([], [], []).
Definition show_then (a b : shown) : shown := (a.1.1 ++ b.1.1, a.1.2 ++ b.1.2, a.2 ++ b.2).

Definition run_command (command : string) (timeoutMs : option Z) (script : list answer) (st : manager) : shown * manager :=
  let (q, w) := execWithRetry (S := ssh_world) maxRetries retryBaseDelayMs command timeoutMs (SshWorld st script [] []) in
  (([q], waited w, commands w), mgr w).

Definition run_use (u : use) (st : manager) : shown * manager :=
  match u with
  | Command command timeoutMs refusals o => run_command command timeoutMs (answers_of refusals [o]) st
  | Unreachable command timeoutMs refusals message => run_command command timeoutMs (answers_of (refusals ++ [message]) []) st
  | Lost => (show_nothing, match activeClient st with Some n => handle (EvClose n) st | None => st end)
  | Stop => (show_nothing, mgr (snd (path_shutdown (SshWorld st [] [] []))))
  end.

Fixpoint run_uses (us : list use) (st : manager) : shown * manager :=
  match us with
  | [] => (show_nothing, st)
  | u :: rest => let (a, st1) := run_use u st in let (b, st2) := run_uses rest st1 in (show_then a b, st2)
  end.

(** The specification: a link that is up or down, and how many attempts it took so far. *)
Abbreviation link := (bool * nat)%type.

Definition link_use (u : use) (l : link) : shown * link :=
  match u with
  | Command command _ refusals o =>
      (([o], doubling retryBaseDelayMs (length refusals), [command]),
       (true, if l.1 then l.2 else (l.2 + length refusals + 1)%nat))
  | Unreachable _ _ _ message => (([Throw (refused message)], doubling retryBaseDelayMs retries, []), (false, (l.2 + retries + 1)%nat))
  | Lost | Stop => (show_nothing, (false, l.2))
  end.

Fixpoint link_uses (us : list use) (l : link) : shown * link :=
  match us with
  | [] => (show_nothing, l)
  | u :: rest => let (a, l1) := link_use u l in let (b, l2) := link_uses rest l1 in (show_then a b, l2)
  end.

(** Connections are refused only when there is none, and as often as the executor tries. *)
Definition allowed (u : use) (up : bool) : Prop :=
  match u with
  | Command _ _ refusals o =>
      (length refusals <= retries)%nat /\ retryable (Ran o) = false /\ (up = true -> refusals = [])
  | Unreachable _ _ refusals _ => up = false /\ length refusals = retries
  | Lost | Stop => True
  end.

Fixpoint all_allowed (us : list use) (l : link) : Prop :=
  match us with [] => True | u :: rest => allowed u l.1 /\ all_allowed rest (snd (link_use u l)) end.

Definition link_of (st : manager) : link := (bool_decide (is_Some (activeClient st)), length (conns st)).

Lemma ready_idle st refusals : ready st [] -> activeClient st = None -> ready st refusals.
Proof. intros (Hq & Hr & _) Ha. split; [done|]. split; [done|]. by rewrite Ha. Qed.

Lemma ready_refusals st refusals : ready st [] -> ((link_of st).1 = true -> refusals = []) -> ready st refusals.
Proof.
  intros Hr Hup. destruct (activeClient st) as [n|] eqn:Ha; [|by apply ready_idle].
  rewrite Hup; [done|]. unfold link_of. cbn. rewrite Ha. by apply bool_decide_true.
Qed.

Lemma use_refines u st : ready st [] -> allowed u (link_of st).1 ->
  ready (snd (run_use u st)) [] /\ (fst (run_use u st), link_of (snd (run_use u st))) = link_use u (link_of st).
Proof.
  intros Hr Hu. destruct u as [command timeoutMs refusals o|command timeoutMs refusals message| |]; cbn [run_use link_use allowed] in *.
  - destruct Hu as (Hlen & Ho & Hup). unfold run_command.
    destruct (command_runs maxRetries retryBaseDelayMs command timeoutMs retries Hretries refusals [] o st
      (ready_refusals _ _ Hr Hup) Hlen Ho) as (st' & -> & Hr' & Ha & Hn).
    split; [exact Hr'|]. cbn [fst snd waited commands mgr]. f_equal. unfold link_of. cbn [fst snd].
    unfold attempts_left in Hn. f_equal.
    + destruct (activeClient st'); [by apply bool_decide_true|done].
    + rewrite Hn. destruct (activeClient st) eqn:Hst; cbn [fst snd].
      * rewrite bool_decide_true by done. rewrite Hup; [cbn; lia|]. unfold link_of. cbn. rewrite Hst. by apply bool_decide_true.
      * rewrite bool_decide_false by (by intros [? ?]). lia.
  - destruct Hu as (Hup & Hlen). unfold run_command.
    assert (Ha : activeClient st = None).
    { unfold link_of in Hup. cbn in Hup. apply bool_decide_eq_false in Hup. destruct (activeClient st); [|done]. destruct Hup. by eexists. }
    destruct (command_refused maxRetries retryBaseDelayMs command timeoutMs retries Hretries refusals [] message st
      (ready_idle _ _ Hr Ha) Ha Hlen) as (st' & -> & Hr' & Ha' & Hn).
    split; [exact Hr'|]. cbn [fst snd waited commands mgr]. f_equal. unfold link_of. cbn [fst snd]. by rewrite Ha', Hn.
  - destruct (activeClient st) as [n|] eqn:Ha; cbn [fst snd].
    + destruct (lost_connection_ready st n [] Hr Ha) as [Hr' Hn]. split; [exact Hr'|]. unfold link_of. rewrite Hn. cbn.
      do 2 f_equal. unfold onClose. destruct (conns st !! n) as [c|]; [|done].
      destruct (c_result c) as [[m|e]|]; try done. unfold invalidate. by destruct (decide _).
    + split; [done|]. unfold link_of. by rewrite Ha.
  - destruct (shutdown_ready (SshWorld st [] [] []) [] Hr) as (_ & Hr' & Hn). cbn [fst snd].
    split; [exact Hr'|]. unfold link_of. rewrite Hn. do 2 f_equal.
    unfold path_shutdown. cbn [snd mgr fst]. destruct (activeClient st) as [n|] eqn:Ha; cbn [handle]; unfold shutdown, shutdown_done; rewrite Ha; [|done].
    unfold end_client. cbn [conns set_active set_shutting].
    destruct (decide _); cbn [conns set_shutting set_closing]; destruct (conns st !! n); cbn [conns set_conns set_active set_shutting]; by rewrite ?length_insert.
Qed.

(** C19.  The executor over the connection manager refines a link that is up or down.  Over any
    session of commands, connections lost between them and shutdowns: a command on a link that
    is up is run once without a delay or a new attempt; on one that is down the refused attempts
    are repeated after doubling delays until one is established, which then stays up; when all
    are refused the answer is the last refusal, redacted, the host has run nothing, and the next
    command tries again.  The manager is left between two calls in a reachable state.  [allowed]
    leaves out the outcomes of a run that carry SSH_CONNECT_FAILED, which are tried again as if
    no connection had been made. *)
Theorem session_over_connection us st : ready st [] -> all_allowed us (link_of st) ->
  ready (snd (run_uses us st)) [] /\
  (fst (run_uses us st), link_of (snd (run_uses us st))) = link_uses us (link_of st).
Proof.
  revert st. induction us as [|u us IH]; intros st Hr Hus; [done|]. destruct Hus as [Hu Hus]. cbn [run_uses link_uses].
  destruct (use_refines u st Hr Hu) as [Hr1 Hl]. destruct (run_use u st) as [a st1]. cbn [fst snd] in *.
  rewrite <- Hl in Hus |- *. cbn [snd] in Hus. destruct (IH st1 Hr1 Hus) as [Hr2 Hl2].
  destruct (run_uses us st1) as [b st2]. cbn [fst snd] in *. rewrite <- Hl2. done.
Qed.
End session.

Definition sample_uses : list use :=
  [Unreachable "uptime" None ["no route"] "no route"; Command "uptime" None ["no route"] (Return "up");
   Command "id" None [] (Return "root"); Lost; Command "id" None [] (Return "root"); Stop].

Lemma session_over_connection_witness :
  ready (snd (run_uses (Some 1) (Some 100) sample_uses init_manager)) [] /\
  link_of (snd (run_uses (Some 1) (Some 100) sample_uses init_manager)) = (false, 5%nat).
Proof.
  assert (Hr : ready init_manager []) by (split; [done|]; split; [apply rtc_refl|done]).
  destruct (session_over_connection (Some 1) (Some 100) 1 eq_refl sample_uses init_manager Hr) as [Hr' Hl].
  - cbn. split_and!; (done || lia).
  - split; [exact Hr'|]. exact (f_equal snd Hl).
Defined.
