(* ===== verification/SshLog.v ===== *)
(** * What the connection manager and one execution log

    The lines of apps/desktop/src/main/ssh/SSHConnectionManager.ts, event by event beside the
    machine of SshConnection.v, and those of one execution of SSHExecutor.ts beside the machine
    of SshExecutor.v.  SshRetry.v has the log method and the lines of the executor's methods. *)

From S2P Require Import Prelude JsString Regex JsValue Dates Json Secrets Repositories RoutesProcess.
From S2P Require Import SshConnection SshExecutor SshRetry.

(** ** Automation: safe lines *)
Lemma Forall_flat_map {A B} (P : B -> Prop) (f : A -> list B) l : (forall x, Forall P (f x)) -> Forall P (flat_map f l).
Proof. intros Hf. induction l; [constructor|]. cbn. by apply Forall_app. Qed.

Ltac safe_line := apply log_is_safe; vm_compute; reflexivity.
Ltac safe_lines :=
  repeat match goal with
  | |- Forall log_safe (_ :: _) => apply List.Forall_cons; [safe_line|]
  | |- Forall log_safe [] => apply List.Forall_nil
  | |- Forall log_safe (_ ++ _) => apply Forall_app; split
  | |- Forall log_safe (flat_map _ _) => apply Forall_flat_map; intros ?
  | |- Forall log_safe (match ?x with _ => _ end) => destruct x
  end.

(** ** The manager *)
Section manager_log.
(** [getConnectionMeta()] *)
Context (meta : jsval).

Definition attempt_aborted : log_line := manager_log Warn "SSH connect aborted by signal" JUndef.

Definition getClient_lines (g : option signal) (st : manager) : list log_line :=
  if shuttingDown st then [manager_log Warn "Client requested during shutdown" JUndef]
  else match activeClient st, connectPromise st with
  | Some _, _ => [manager_log Info "Reusing active SSH client" JUndef]
  | None, Some _ => [manager_log Info "Waiting for in-flight SSH connection attempt" JUndef]
  | None, None =>
      manager_log Info "Creating new SSH connection" meta :: (if is_aborted g st then [attempt_aborted] else [])
  end.

Definition shutdown_lines (st : manager) : list log_line :=
  [manager_log Info
     (match activeClient st with
      | None => "Shutdown requested with no active SSH client"
      | Some _ => "Shutting down active SSH client"
      end) JUndef].

Definition shutdown_done_lines (n : client) (st : manager) : list log_line :=
  if decide (n ∈ closing st) then [manager_log Info "SSH client shutdown complete" JUndef] else [].

Definition onReady_lines (n : client) (st : manager) : list log_line :=
  match c_result <$> conns st !! n with
  | Some None => [manager_log Info "SSH connection is ready" meta]
  | _ => []
  end.

Definition onError_lines (n : client) (message : string) (st : manager) : list log_line :=
  match c_result <$> conns st !! n with
  | Some None => [manager_log Failure "SSH connection failed" (JObj [("message", JStr (redactPotentialSecrets message))])]
  | Some (Some (Return _)) => [manager_log Warn "Active SSH client emitted error and was invalidated" JUndef]
  | _ => []
  end.

Definition onClose_lines (n : client) (st : manager) : list log_line :=
  match c_result <$> conns st !! n with
  | Some (Some (Return _)) => [manager_log Info "Active SSH client closed and was invalidated" JUndef]
  | _ => []
  end.

(** A signal aborts the pending attempt that listens to it, then the calls that wait with it. *)
Definition abort_lines (g : signal) (st : manager) : list log_line :=
  flat_map (fun c => if decide (c_signal c = Some g) then match c_result c with None => [attempt_aborted] | Some _ => [] end else [])
    (conns st) ++
  flat_map (fun w => if decide (w_signal w = Some g)
                     then match w_result w with
                          | None => [manager_log Warn "Pending SSH operation aborted by signal" JUndef]
                          | Some _ => []
                          end
                     else []) (waiters st).

Definition manager_lines (ev : event) (st : manager) : list log_line :=
  match ev with
  | EvGet g => getClient_lines g st
  | EvShutdown => shutdown_lines st
  | EvAbort g => abort_lines g st
  | EvReady n => onReady_lines n st
  | EvError n m => onError_lines n m st
  | EvClose n => onClose_lines n st
  | EvShutdownDone n => shutdown_done_lines n st
  | EvFinally _ | EvDeliver _ => []
  end.

(** The manager beside the lines it has logged. *)
Inductive logged_step : manager * list log_line -> manager * list log_line -> Prop :=
  | Logged_step ev st ls : logged_step (st, ls) (handle ev st, ls ++ manager_lines ev st).

(** *** The lines of the attempts *)

(** A kind of line and the attempts it is logged for. *)
Record kind := Kind { k_text : string; k_conn : conn -> bool }.

Definition is_ready (c : conn) : bool := match c_result c with Some (Return _) => true | _ => false end.
Definition is_refused (c : conn) : bool := match c_result c with Some (Throw e) => is_connect_failed e | _ => false end.
Definition is_stopped (c : conn) : bool := match c_result c with Some (Throw e) => negb (is_connect_failed e) | _ => false end.
Definition is_pending (c : conn) : bool := match c_result c with None => true | _ => false end.

Definition created : kind := Kind "Creating new SSH connection" (fun _ => true).
Definition readied : kind := Kind "SSH connection is ready" is_ready.
Definition failed : kind := Kind "SSH connection failed" is_refused.
Definition stopped : kind := Kind "SSH connect aborted by signal" is_stopped.
Definition kinds : list kind := [created; readied; failed; stopped].

Definition is_kind (k : kind) (l : log_line) : bool := bool_decide (log_text l = "[ssh][manager] " +:+ k_text k).
Definition lines_of (k : kind) (ls : list log_line) : nat := length (List.filter (is_kind k) ls).
Definition tally (P : conn -> bool) (cs : list conn) : nat := length (List.filter P cs).
Definition unit_if (b : bool) : nat := if b then 1 else 0.

Lemma lines_app k ls1 ls2 : lines_of k (ls1 ++ ls2) = (lines_of k ls1 + lines_of k ls2)%nat.
Proof. unfold lines_of. by rewrite List.filter_app, length_app. Qed.

Lemma tally_app P cs1 cs2 : tally P (cs1 ++ cs2) = (tally P cs1 + tally P cs2)%nat.
Proof. unfold tally. by rewrite List.filter_app, length_app. Qed.

Lemma tally_cons P c cs : tally P (c :: cs) = (unit_if (P c) + tally P cs)%nat.
Proof. unfold tally. cbn. by destruct (P c). Qed.

Lemma tally_insert P cs n c c' : cs !! n = Some c ->
  (tally P (<[n := c']> cs) + unit_if (P c) = tally P cs + unit_if (P c'))%nat.
Proof.
  revert n. induction cs as [|d cs IH]; intros [|n] Hn; try done.
  - injection Hn as ->. change (<[0%nat := c']> (c :: cs)) with (c' :: cs). rewrite !tally_cons. lia.
  - specialize (IH n Hn). change (<[S n := c']> (d :: cs)) with (d :: <[n := c']> cs). rewrite !tally_cons. lia.
Qed.

(** An update that keeps the attempt's answer changes no tally. *)
Lemma tally_same k cs n c c' : In k kinds -> cs !! n = Some c -> c_result c' = c_result c ->
  tally (k_conn k) (<[n := c']> cs) = tally (k_conn k) cs.
Proof.
  intros Hk Hn Hr. pose proof (tally_insert (k_conn k) cs n c c' Hn) as Ht.
  assert (k_conn k c' = k_conn k c) as He; [|rewrite He in Ht; lia].
  cbn in Hk. destruct Hk as [<-|[<-|[<-|[<-|[]]]]]; cbn; unfold is_ready, is_refused, is_stopped; by rewrite ?Hr.
Qed.

(** The lines an event logs of a kind are the attempts it brings to that kind. *)
Definition accounted (ev : event) (st : manager) (k : kind) : Prop :=
  (lines_of k (manager_lines ev st) + tally (k_conn k) (conns st) = tally (k_conn k) (conns (handle ev st)))%nat.

Lemma accounted_same ev st k : lines_of k (manager_lines ev st) = 0%nat ->
  tally (k_conn k) (conns (handle ev st)) = tally (k_conn k) (conns st) -> accounted ev st k.
Proof. unfold accounted. lia. Qed.

Lemma kind_of_log k level message m : is_kind k (manager_log level message m) = bool_decide (message = k_text k).
Proof.
  unfold is_kind, manager_log, log. cbn [log_text]. apply bool_decide_ext. split; [|by intros ->].
  cbn. intros He. by repeat (injection He as He).
Qed.

Lemma invalidate_conns n st : conns (invalidate n st) = conns st.
Proof. unfold invalidate. by destruct (decide _). Qed.

Lemma settled_accounted ev st k n c r ended line : In k kinds -> conns st !! n = Some c -> c_result c = None ->
  manager_lines ev st = [line] -> conns (handle ev st) = <[n := settle r ended c]> (conns st) ->
  unit_if (k_conn k (settle r ended c)) = (unit_if (k_conn k c) + unit_if (is_kind k line))%nat ->
  accounted ev st k.
Proof.
  intros Hk Hn Hc Hl Hconns Hu. unfold accounted. rewrite Hl, Hconns.
  pose proof (tally_insert (k_conn k) _ n c (settle r ended c) Hn) as Ht.
  assert (lines_of k [line] = unit_if (is_kind k line)) as -> by (unfold lines_of; cbn; by destruct (is_kind k line)). lia.
Qed.

(** By cases on the kind, for an attempt whose answer is known. *)
Ltac by_kind Hk Hr :=
  cbn in Hk; destruct Hk as [<-|[<-|[<-|[<-|[]]]]]; cbn [k_conn k_text created readied failed stopped];
  unfold is_ready, is_refused, is_stopped; rewrite ?Hr; reflexivity.

Lemma result_of n st c : conns st !! n = Some c -> c_result <$> conns st !! n = Some (c_result c).
Proof. by intros ->. Qed.

Lemma onReady_accounted n st k : In k kinds -> accounted (EvReady n) st k.
Proof.
  intros Hk. destruct (conns st !! n) as [c|] eqn:Hn.
  2: { apply accounted_same; cbn [manager_lines handle]; unfold onReady_lines, onReady; by rewrite Hn. }
  destruct (c_result c) as [r|] eqn:Hr.
  { apply accounted_same; cbn [manager_lines handle]; unfold onReady_lines, onReady; rewrite Hn; cbn; by rewrite Hr. }
  eapply (settled_accounted _ _ _ n c (Return n) false); [done|done|done| | |].
  - cbn [manager_lines]. unfold onReady_lines. rewrite Hn. cbn. by rewrite Hr.
  - cbn [handle]. unfold onReady. by rewrite Hn, Hr.
  - rewrite kind_of_log. by_kind Hk Hr.
Qed.

Lemma onError_accounted n m st k : In k kinds -> accounted (EvError n m) st k.
Proof.
  intros Hk. destruct (conns st !! n) as [c|] eqn:Hn.
  2: { apply accounted_same; cbn [manager_lines handle]; unfold onError_lines, onError; by rewrite Hn. }
  pose proof (result_of n st c Hn) as Hres. destruct (c_result c) as [[r|e]|] eqn:Hr.
  - apply accounted_same; cbn [manager_lines handle]; [unfold onError_lines; rewrite Hres|unfold onError; by rewrite Hn, Hr, invalidate_conns].
    unfold lines_of. cbn [List.filter]. rewrite kind_of_log. by_kind Hk Hr.
  - apply accounted_same; cbn [manager_lines handle]; [unfold onError_lines; by rewrite Hres|unfold onError; by rewrite Hn, Hr].
  - eapply (settled_accounted _ _ _ n c _ false _ Hk Hn Hr).
    + cbn [manager_lines]. unfold onError_lines. rewrite Hres. reflexivity.
    + cbn [handle]. unfold onError. rewrite Hn, Hr. reflexivity.
    + rewrite kind_of_log. by_kind Hk Hr.
Qed.

Lemma onClose_accounted n st k : In k kinds -> accounted (EvClose n) st k.
Proof.
  intros Hk. destruct (conns st !! n) as [c|] eqn:Hn.
  2: { apply accounted_same; cbn [manager_lines handle]; unfold onClose_lines, onClose; by rewrite Hn. }
  apply accounted_same; cbn [manager_lines handle]; unfold onClose_lines, onClose; rewrite Hn; cbn;
    destruct (c_result c) as [[r|e]|] eqn:Hr; try done; [|by rewrite invalidate_conns].
  unfold lines_of. cbn [List.filter]. rewrite kind_of_log. by_kind Hk Hr.
Qed.

Lemma shutdown_accounted st k : In k kinds -> accounted EvShutdown st k.
Proof.
  intros Hk. apply accounted_same; cbn [manager_lines handle]; unfold shutdown_lines, shutdown.
  - unfold lines_of. cbn [List.filter]. rewrite kind_of_log. destruct (activeClient st); by_kind Hk Hk.
  - destruct (activeClient st) as [n|]; [|done]. cbn [conns set_closing]. unfold end_client. cbn [conns set_active set_shutting].
    destruct (conns st !! n) as [c|] eqn:Hn; [|done]. by eapply (tally_same k _ n c).
Qed.

Lemma shutdown_done_accounted n st k : In k kinds -> accounted (EvShutdownDone n) st k.
Proof.
  intros Hk. apply accounted_same; cbn [manager_lines handle]; unfold shutdown_done_lines, shutdown_done;
    destruct (decide _); try done.
  unfold lines_of. cbn [List.filter]. rewrite kind_of_log. by_kind Hk Hk.
Qed.

Lemma continuation_accounted n st k : In k kinds -> accounted (EvFinally n) st k /\ accounted (EvDeliver n) st k.
Proof.
  intros Hk. split; (apply accounted_same; [reflexivity|]); cbn [handle].
  - unfold finally. destruct (conns st !! n) as [c|] eqn:Hn; [|done]. destruct (_ && _); [|done]. by eapply (tally_same k _ n c).
  - unfold deliver. destruct (waiters st !! n) as [w|]; [|done]. destruct (w_result w), (conns st !! w_conn w) as [c|]; try done.
    by destruct (c_cleared c).
Qed.

Lemma lines_cons k l ls : lines_of k (l :: ls) = (unit_if (is_kind k l) + lines_of k ls)%nat.
Proof. unfold lines_of. cbn. by destruct (is_kind k l). Qed.

Lemma withAbort_conns n g st : conns (fst (withAbort n g st)) = conns st.
Proof. unfold withAbort. by destruct (is_aborted g st). Qed.

Lemma getClient_accounted g st k : In k kinds -> accounted (EvGet g) st k.
Proof.
  intros Hk. unfold accounted. cbn [manager_lines handle]. unfold getClient_lines, getClient.
  destruct (shuttingDown st); [rewrite lines_cons, kind_of_log; by_kind Hk Hk|].
  destruct (activeClient st); [rewrite lines_cons, kind_of_log; by_kind Hk Hk|].
  destruct (connectPromise st); rewrite withAbort_conns; [rewrite lines_cons, kind_of_log; by_kind Hk Hk|].
  unfold connect. cbn [conns set_promise set_conns]. rewrite tally_app, lines_cons, kind_of_log, Nat.add_comm. f_equal.
  destruct (is_aborted g st); [rewrite lines_cons; unfold attempt_aborted; rewrite kind_of_log|]; by_kind Hk Hk.
Qed.

Lemma abort_accounted g st k : In k kinds -> accounted (EvAbort g) st k.
Proof.
  intros Hk. unfold accounted. cbn [manager_lines handle]. unfold abort_lines, abort. cbn [conns set_aborted set_conns].
  rewrite lines_app.
  assert (lines_of k (flat_map (fun w => if decide (w_signal w = Some g)
            then match w_result w with None => [manager_log Warn "Pending SSH operation aborted by signal" JUndef] | Some _ => [] end
            else []) (waiters st)) = 0%nat) as ->.
  { induction (waiters st) as [|w ws IH]; [done|]. cbn [flat_map]. rewrite lines_app, IH.
    destruct (decide _); [|done]. destruct (w_result w); [done|]. rewrite lines_cons, kind_of_log. by_kind Hk Hk. }
  rewrite Nat.add_0_r. induction (conns st) as [|c cs IH]; [done|]. cbn [flat_map List.map].
  rewrite lines_app, !tally_cons.
  assert (lines_of k (if decide (c_signal c = Some g) then match c_result c with None => [attempt_aborted] | Some _ => [] end else []) +
          unit_if (k_conn k c) = unit_if (k_conn k (if decide (c_signal c = Some g) then conn_onAbort c else c)))%nat; [|lia].
  destruct (decide _); [|done]. unfold conn_onAbort. destruct (c_result c) as [r|] eqn:Hr; [done|].
  rewrite lines_cons. unfold attempt_aborted. rewrite kind_of_log. by_kind Hk Hr.
Qed.

Lemma event_accounted ev st k : In k kinds -> accounted ev st k.
Proof.
  intros Hk. destruct ev; [by apply getClient_accounted|by apply shutdown_accounted|by apply abort_accounted|by apply onReady_accounted
    |by apply onError_accounted|by apply onClose_accounted|by apply continuation_accounted..|by apply shutdown_done_accounted].
Qed.

(** No line tells a secret: neither its text nor its data, whatever the configuration and the
    errors of the library. *)
Lemma manager_lines_safe ev st : Forall log_safe (manager_lines ev st).
Proof.
  destruct ev; cbn [manager_lines]; unfold getClient_lines, shutdown_lines, abort_lines, onReady_lines, onError_lines,
    onClose_lines, shutdown_done_lines, attempt_aborted; try destruct (activeClient st); safe_lines.
Qed.

(** The log beside a reachable manager. *)
Record log_ok (st : manager) (ls : list log_line) : Prop := {
  lo_reached : rtc manager_step init_manager st;
  lo_tally k : In k kinds -> lines_of k ls = tally (k_conn k) (conns st);
  lo_safe : Forall log_safe ls
}.

Lemma logged_ok w w' : log_ok (fst w) (snd w) -> rtc logged_step w w' -> log_ok (fst w') (snd w').
Proof.
  intros Hok Hr. induction Hr as [|x y z [ev st ls] _ IH]; [done|]. apply IH. cbn [fst snd] in *.
  destruct Hok as [Hr Ht Hs]. split.
  - eapply rtc_r; [exact Hr|apply Manager_step].
  - intros k Hk. rewrite lines_app, Ht by done. pose proof (event_accounted ev st k Hk). unfold accounted in *. lia.
  - apply Forall_app. split; [done|apply manager_lines_safe].
Qed.

(** Every attempt is in one of the four states. *)
Lemma tally_total cs : (tally is_ready cs + tally is_refused cs + tally is_stopped cs + tally is_pending cs = length cs)%nat.
Proof.
  induction cs as [|c cs IH]; [done|]. rewrite !tally_cons. cbn [length]. rewrite <- IH.
  unfold is_ready, is_refused, is_stopped, is_pending. destruct (c_result c) as [[m|e]|]; cbn; try lia.
  destruct (is_connect_failed e); cbn; lia.
Qed.

Lemma tally_zero P cs : (forall n c, cs !! n = Some c -> P c = false) -> tally P cs = 0%nat.
Proof.
  induction cs as [|c cs IH]; intros H; [done|]. rewrite tally_cons, (H 0%nat c eq_refl), IH; [done|].
  intros n d Hd. by apply (H (S n)).
Qed.

Lemma tally_unique P cs :
  (forall n m c d, cs !! n = Some c -> cs !! m = Some d -> P c = true -> P d = true -> n = m) -> (tally P cs <= 1)%nat.
Proof.
  induction cs as [|c cs IH]; intros Hu; [cbn; lia|]. rewrite tally_cons. destruct (P c) eqn:Hc.
  - rewrite tally_zero; [cbn; lia|]. intros n d Hd. destruct (P d) eqn:Hp; [|done].
    by specialize (Hu 0%nat (S n) c d eq_refl Hd Hc Hp).
  - cbn [unit_if]. apply IH. intros n m c1 d1 H1 H2 H3 H4. by specialize (Hu (S n) (S m) c1 d1 H1 H2 H3 H4) as [= ->].
Qed.

Lemma pending_once st : manager_ok st -> (tally is_pending (conns st) <= 1)%nat.
Proof.
  intros Hok. apply tally_unique. intros n m c d Hn Hm Hc Hd.
  assert (Hflight : forall k e, conns st !! k = Some e -> is_pending e = true -> connectPromise st = Some k).
  { intros k e Hk He. apply (mo_flight _ Hok k e Hk), (ok_pending k e); [by apply (mo_conns _ Hok)|].
    unfold is_pending in He. by destruct (c_result e). }
  pose proof (Hflight n c Hn Hc). pose proof (Hflight m d Hm Hd). congruence.
Qed.

Lemma init_log_ok : log_ok init_manager [].
Proof. split; [apply rtc_refl|intros k Hk; by_kind Hk Hk|apply List.Forall_nil]. Qed.

(** C34.  The log of the manager accounts for every attempt, however calls, aborts, shutdowns and
    client events interleave: there are as many lines of a connection being created as attempts,
    as many of one that is ready, failed or aborted as attempts that ended so, so that the
    creations are the ends and at most one attempt that is pending; and no line has a bearer
    token or a sensitive field. *)
Theorem manager_log_accounts st ls : rtc logged_step (init_manager, []) (st, ls) ->
  lines_of created ls = length (conns st) /\
  lines_of readied ls = tally is_ready (conns st) /\
  lines_of failed ls = tally is_refused (conns st) /\
  lines_of stopped ls = tally is_stopped (conns st) /\
  (lines_of readied ls + lines_of failed ls + lines_of stopped ls <= lines_of created ls <=
   lines_of readied ls + lines_of failed ls + lines_of stopped ls + 1)%nat /\
  Forall log_safe ls.
Proof.
  intros Hr. pose proof (logged_ok (init_manager, []) (st, ls) init_log_ok Hr) as Hok. cbn [fst snd] in Hok.
  destruct Hok as [Hrch Ht Hs]. pose proof (tally_total (conns st)). pose proof (pending_once st (reachable_ok st Hrch)).
  assert (Hall : lines_of created ls = length (conns st)).
  { rewrite Ht by (by left). cbn [k_conn created]. unfold tally. f_equal. clear. by induction (conns st) as [|c cs IH]; cbn; [|rewrite IH]. }
  assert (H1 : lines_of readied ls = tally is_ready (conns st)) by (apply (Ht readied); cbn; tauto).
  assert (H2 : lines_of failed ls = tally is_refused (conns st)) by (apply (Ht failed); cbn; tauto).
  assert (H3 : lines_of stopped ls = tally is_stopped (conns st)) by (apply (Ht stopped); cbn; tauto).
  split_and!; try done; lia.
Qed.
End manager_log.

(** ** One execution *)
Section execution_log.
Context (timeoutMs : Z).

Definition command_aborted : log_line := executor_log Warn "SSH command aborted" JUndef.

Definition exec_lines (st : exec_state) (ev : exec_event) : list log_line :=
  match ev with
  | ExOpen (Some message) =>
      if opened st then []
      else [executor_log Failure "Failed to open SSH exec channel" (JObj [("message", JStr message)])]
  | ExOpen None | ExData _ | ExErrData _ => []
  | ExClose code =>
      if streamRef st then
        if decide (code = Some 0) then [executor_log Info "SSH command stream closed successfully" JUndef]
        else [executor_log Failure "SSH command exited with non-zero code"
                (JObj [("code", match code with Some z => num z | None => JUndef end);
                       ("stderrLength", num (Z.of_nat (String.length (trim (stderr st)))))])]
      else []
  | ExTimeout =>
      if timer_on st then [executor_log Warn "SSH command timed out" (JObj [("timeoutMs", num timeoutMs)])] else []
  | ExAbort => if listening st then [command_aborted] else []
  end.

Definition exec_start_lines (signal : option bool) : list log_line :=
  match signal with Some true => [command_aborted] | _ => [] end.

(** An execution and the lines it logs. *)
Definition exec_logged (signal : option bool) (evs : list exec_event) : exec_state * list log_line :=
  fold_left (fun w ev => (exec_handle (fst w) ev, snd w ++ exec_lines (fst w) ev)) evs
    (exec_start signal, exec_start_lines signal).

(** What a line says of the execution's outcome. *)
Inductive tells : string -> outcome string -> Prop :=
  | T_aborted : tells "SSH command aborted" (Throw aborted_error)
  | T_timeout : tells "SSH command timed out" (Throw timed_out)
  | T_open m : tells "Failed to open SSH exec channel"
      (Throw (RemoteExecutionError (redactPotentialSecrets m) (Some "SSH_EXEC_OPEN_FAILED")))
  | T_exit code err : code <> Some 0 -> tells "SSH command exited with non-zero code" (Throw (exit_error code err))
  | T_closed out : tells "SSH command stream closed successfully" (Return (trim out)).

(** Nothing is logged until the execution has its outcome, and the first line tells it. *)
Definition told (st : exec_state) (ls : list log_line) : Prop :=
  match ls, settled st with
  | [], None => True
  | l :: _, Some o => exists text, log_text l = "[ssh][executor] " +:+ text /\ tells text o
  | _, _ => False
  end.

Lemma settled_settle_once r st : settled (settle_once r st) = Some (default r (settled st)).
Proof. unfold settle_once. by destruct (settled st) as [o|] eqn:E; cbn; rewrite ?E. Qed.

Lemma settled_abortStream st : settled (abortStream st) = settled st.
Proof. unfold abortStream. by destruct (streamRef st). Qed.

(** An outcome stays, and an event that settles logs its line. *)
Lemma event_told st ev :
  match settled st with
  | Some o => settled (exec_handle st ev) = Some o
  | None => told (exec_handle st ev) (exec_lines st ev)
  end.
Proof.
  destruct (settled st) as [o|] eqn:Ho; destruct ev as [[m|]|c|c|code| |]; cbn [exec_handle exec_lines];
    unfold exec_onAbort; repeat case_match; try done;
    rewrite ?settled_settle_once, ?settled_abortStream; cbn [settled]; rewrite ?Ho; try done;
    unfold told; cbn [settled]; rewrite ?settled_settle_once, ?settled_abortStream; cbn [settled]; rewrite ?Ho; try done;
    eexists; (split; [reflexivity|]); cbn [default]; by constructor.
Qed.

Lemma step_told st ls ev : told st ls -> told (exec_handle st ev) (ls ++ exec_lines st ev).
Proof.
  intros Hl. pose proof (event_told st ev) as He. unfold told in Hl. destruct (settled st) as [o|] eqn:Ho.
  - destruct ls as [|l ls]; [done|]. cbn [app]. unfold told. by rewrite He.
  - destruct ls as [|l ls]; [exact He|done].
Qed.

Lemma start_told signal : told (exec_start signal) (exec_start_lines signal).
Proof. destruct signal as [[]|]; try done. exists "SSH command aborted". split; [reflexivity|constructor]. Qed.

Lemma exec_lines_safe st ev : Forall log_safe (exec_lines st ev).
Proof. destruct ev as [[m|]|c|c|code| |]; cbn [exec_lines]; unfold command_aborted; safe_lines. Qed.

Lemma exec_start_lines_safe signal : Forall log_safe (exec_start_lines signal).
Proof. destruct signal as [[]|]; cbn [exec_start_lines]; unfold command_aborted; safe_lines. Qed.

(** The log changes nothing of an execution; it is empty until the execution has its outcome,
    and its first line tells that outcome; no line has a bearer token or a sensitive field. *)
Theorem exec_log_tells signal evs :
  fst (exec_logged signal evs) = execOnClient signal evs /\
  told (execOnClient signal evs) (snd (exec_logged signal evs)) /\
  Forall log_safe (snd (exec_logged signal evs)).
Proof.
  unfold exec_logged, execOnClient. pose proof (start_told signal) as Ht. pose proof (exec_start_lines_safe signal) as Hs.
  revert Ht Hs. generalize (exec_start_lines signal). generalize (exec_start signal).
  induction evs as [|ev evs IH]; intros st ls Ht Hs; cbn [fold_left fst snd]; [by split_and!|].
  apply IH; [by apply step_told|]. apply Forall_app. split; [done|apply exec_lines_safe].
Qed.

(** Only the first line does: an execution that was told to time out still logs how its channel
    closed, here as a success. *)
Lemma late_line :
  settled (execOnClient None [ExOpen None; ExTimeout; ExClose (Some 0)]) = Some (Throw timed_out) /\
  List.map log_text (snd (exec_logged None [ExOpen None; ExTimeout; ExClose (Some 0)])) =
    ["[ssh][executor] SSH command timed out"; "[ssh][executor] SSH command stream closed successfully"].
Proof. split; reflexivity. Qed.

(** [client.exec] itself throws, as it does on a client that is not connected: the promise is
    rejected with what it threw, and nothing settles the execution. *)
Definition exec_thrown (signal : option bool) (message : string) : outcome string * exec_state :=
  (Throw (match signal with Some true => aborted_error | _ => JsError EError message end), exec_start signal).

(** The answer is there, but the timer and the listener are held until the timer fires, which
    then logs a timeout of a command that never ran. *)
Lemma thrown_keeps_timer signal message : signal <> Some true ->
  fst (exec_thrown signal message) = Throw (JsError EError message) /\
  timer_on (snd (exec_thrown signal message)) = true /\
  listening (snd (exec_thrown signal message)) = bool_decide (is_Some signal) /\
  exec_lines (snd (exec_thrown signal message)) ExTimeout =
    [executor_log Warn "SSH command timed out" (JObj [("timeoutMs", num timeoutMs)])].
Proof. by destruct signal as [[]|]. Qed.
End execution_log.

(** ** The theorems at work *)

Definition sample_meta : jsval := getConnectionMeta (Some "10.0.0.1") (Some 22) None None None None.
Definition sample_events : list event := [EvGet None; EvError 0 "password=hunter2"; EvFinally 0; EvGet None; EvReady 1].
Definition sample_log : manager * list log_line :=
  fold_left (fun w ev => (handle ev (fst w), snd w ++ manager_lines sample_meta ev (fst w))) sample_events (init_manager, []).

Lemma logged_run meta evs w :
  rtc (logged_step meta) w (fold_left (fun w ev => (handle ev (fst w), snd w ++ manager_lines meta ev (fst w))) evs w).
Proof.
  revert w. induction evs as [|ev evs IH]; intros [st ls]; [apply rtc_refl|]. cbn [fold_left].
  eapply rtc_l; [apply (Logged_step meta ev st ls)|apply IH].
Qed.

Lemma manager_log_accounts_witness :
  lines_of created (snd sample_log) = length (conns (fst sample_log)) /\ lines_of failed (snd sample_log) = 1%nat.
Proof.
  destruct (manager_log_accounts sample_meta (fst sample_log) (snd sample_log)) as (Hc & _ & Hf & _).
  - exact (logged_run sample_meta sample_events (init_manager, [])).
  - split; [exact Hc|]. rewrite Hf. vm_compute. reflexivity.
Defined.
