(* ===== verification/Bootstrap.v ===== *)
(** * The bootstrap handlers of the desktop application

    apps/desktop/src/main/ipc/registerBootstrapHandlers.ts (module-level functions and the
    three handlers), the channels apps/desktop/src/preload/remoteBridge.ts forwards to them,
    and the client of apps/web/src/features/bootstrap/bootstrapBridgeClient.ts that calls
    the preload script. *)

From S2P Require Import Prelude JsString Regex JsValue Dates Json Secrets Repositories RoutesProcess.
From S2P Require Import SshConnection SshExecutor.

(** ** Results that cross the process boundary *)
Inductive ipc_result := IpcSuccess (data : jsval) | IpcFailure (message code : string).

Definition toIpcError (e : jserror) : ipc_result :=
  match err_class_of e with
  | ERemote code => IpcFailure (redactPotentialSecrets (err_message e)) code
  | ENotError => IpcFailure "Unhandled bootstrap error" "BOOTSTRAP_FAILED"
  | _ => IpcFailure (redactPotentialSecrets (err_message e)) "BOOTSTRAP_FAILED"
  end.

Definition untrusted : ipc_result := IpcFailure "Untrusted sender" "UNTRUSTED_SENDER".

(** ** Quoting, timeouts, trust *)

Definition close_quote : string := String SQUOTE (dq +:+ String SQUOTE (dq +:+ String SQUOTE "")).

(** [value.replace(/'/g, ...)] *)
Fixpoint escape_quotes (s : string) : string :=
  match s with
  | "" => ""
  | String c s' => (if Ascii.eqb c SQUOTE then close_quote else String c "") +:+ escape_quotes s'
  end.
Definition quoteForShell (value : string) : string :=
  String SQUOTE (escape_quotes value +:+ String SQUOTE "").

Definition DEFAULT_INSTALL_TIMEOUT_MS : Z := 120000.
Definition MIN_INSTALL_TIMEOUT_MS : Z := 5000.
Definition MAX_INSTALL_TIMEOUT_MS : Z := 300000.

(** [Math.trunc] of a finite number. *)
Definition trunc (n : jsnum) : option Z :=
  match n with
  | NInt z => Some z
  | NDec m k => Some (Z.quot m (10 ^ Z.pos k))
  | _ => None
  end.

Definition normalizeTimeout (value : jsval) : Z :=
  match value with
  | JNum n =>
      match trunc n with
      | Some z => Z.min MAX_INSTALL_TIMEOUT_MS (Z.max MIN_INSTALL_TIMEOUT_MS z)
      | None => DEFAULT_INSTALL_TIMEOUT_MS
      end
  | _ => DEFAULT_INSTALL_TIMEOUT_MS
  end.

(** [new URL(s).origin], or nothing for a text the host's parser throws on. *)
Class HostUrl := url_origin : string -> option string.

Definition isTrustedSender `{HostUrl} (isPackaged : bool) (devUrl : option string) (frameUrl : string) : bool :=
  if negb (nonempty frameUrl) then false
  else if isPackaged then startsWith "file://" frameUrl
  else match devUrl with
  | Some url =>
      if nonempty url then
        match url_origin url, url_origin frameUrl with
        | Some allowed, Some actual => bool_decide (allowed = actual)
        | _, _ => false
        end
      else startsWith "file://" frameUrl
  | None => startsWith "file://" frameUrl
  end.

(** ** The handlers *)

(** The environment the main process started with. *)
Record bootstrap_env := BootstrapEnv {
  env_isPackaged : bool;
  env_renderer_url : option string;
  env_install_script_url : option string;
  env_service_name : option string;
  env_healthcheck : option string
}.

Definition DEFAULT_INSTALL_SCRIPT_URL (env : bootstrap_env) : string :=
  default "https://repo/install.sh" (env_install_script_url env).
Definition DEFAULT_SERVICE_NAME (env : bootstrap_env) : string :=
  default "nginx-admin.service" (env_service_name env).
Definition DEFAULT_HEALTH_COMMAND (env : bootstrap_env) : string :=
  default "nginx-admin status" (env_healthcheck env).

Record HostMetadata := Metadata {
  md_id : string; md_name : string; md_host : string; md_port : Z;
  md_description : option string; md_createdAt : option string; md_updatedAt : option string;
  md_checkedAt : option string; md_latencyMs : option Z; md_status : option string
}.

Definition opt_num (o : option Z) : jsval := match o with Some z => JNum (NInt z) | None => JUndef end.

Section handlers.
Context {S : Type} `{SshApi S} `{HostUrl}.
Context (maxRetries retryBaseDelayMs : option Z) (env : bootstrap_env) (metadata : HostMetadata).

(** [event.senderFrame?.url ?? ""] *)
Definition trusted (senderFrame : option string) : bool :=
  isTrustedSender (env_isPackaged env) (env_renderer_url env) (default "" senderFrame).

Definition connection_context : jsval :=
  JObj [("id", JStr (md_id metadata)); ("name", JStr (md_name metadata)); ("host", JStr (md_host metadata));
        ("port", JNum (NInt (md_port metadata))); ("description", opt_str (md_description metadata));
        ("createdAt", opt_str (md_createdAt metadata)); ("updatedAt", opt_str (md_updatedAt metadata));
        ("checkedAt", opt_str (md_checkedAt metadata)); ("latencyMs", opt_num (md_latencyMs metadata));
        ("status", opt_str (md_status metadata))].

Definition handle_get_context (senderFrame : option string) : eff S ipc_result :=
  if negb (trusted senderFrame) then mret untrusted
  else mret (IpcSuccess (JObj
    [("connection", connection_context);
     ("defaults", JObj
       [("installScriptUrl", JStr (DEFAULT_INSTALL_SCRIPT_URL env));
        ("serviceName", JStr (DEFAULT_SERVICE_NAME env));
        ("healthCommand", JStr (DEFAULT_HEALTH_COMMAND env));
        ("timeoutMs", JNum (NInt 120000))])])).

(** The clock before the check, when the answer is built, and at its latency. *)
Definition handle_check_host (start checked finish : Z) (senderFrame : option string) : eff S ipc_result :=
  if negb (trusted senderFrame) then mret untrusted
  else try_catch
    (_ ← checkConnection (Some 7000);
     mret (IpcSuccess (JObj
       [("reachable", JBool true); ("checkedAt", JStr (iso_string checked));
        ("latencyMs", JNum (NInt (finish - start)))])))
    (fun e => mret (toIpcError e)).

Definition run_shell (command : string) (timeoutMs : Z) : eff S string :=
  runShell maxRetries retryBaseDelayMs command (Some timeoutMs).

Definition install_command : string :=
  "curl -fsSL " +:+ quoteForShell (DEFAULT_INSTALL_SCRIPT_URL env) +:+ " | sudo bash".
Definition active_command : string := "systemctl is-active " +:+ quoteForShell (DEFAULT_SERVICE_NAME env).
Definition enabled_command : string := "systemctl is-enabled " +:+ quoteForShell (DEFAULT_SERVICE_NAME env).

(** What a successful installation answers. *)
Definition installed (now : Z) (activeStateRaw enabledStateRaw healthOutput : string) : jsval :=
  JObj [("installedAt", JStr (iso_string now));
        ("service", JObj
          [("name", JStr (DEFAULT_SERVICE_NAME env));
           ("active", JBool (bool_decide (trim activeStateRaw = "active")));
           ("enabled", JBool (bool_decide (trim enabledStateRaw = "enabled")));
           ("activeStateRaw", JStr (trim activeStateRaw));
           ("enabledStateRaw", JStr (trim enabledStateRaw))]);
        ("health", JObj
          [("ok", JBool true); ("output", JStr (redactPotentialSecrets (trim healthOutput)))])].

(** [request?.options?.timeoutMs] *)
Definition requested_timeout (request : jsval) : jsval := jget "timeoutMs" (jget "options" request).

Definition handle_install (now : Z) (senderFrame : option string) (request : jsval) : eff S ipc_result :=
  if negb (trusted senderFrame) then mret untrusted
  else
    let timeoutMs := normalizeTimeout (requested_timeout request) in
    try_catch
      (_ ← run_shell install_command timeoutMs;
       activeStateRaw ← run_shell active_command 15000;
       enabledStateRaw ← run_shell enabled_command 15000;
       healthOutput ← run_shell (DEFAULT_HEALTH_COMMAND env) 15000;
       mret (IpcSuccess (installed now activeStateRaw enabledStateRaw healthOutput)))
      (fun e => mret (toIpcError e)).

(** ** Channels *)
Definition BOOTSTRAP_CHECK_HOST_CHANNEL : string := "bootstrap:check-host".
Definition BOOTSTRAP_INSTALL_DAEMON_CHANNEL : string := "bootstrap:install-daemon".
Definition BOOTSTRAP_GET_CONTEXT_CHANNEL : string := "bootstrap:get-context".

(** [registerBootstrapHandlers]: what [ipcMain] does with an invocation; a channel without a
    handler rejects it. *)
Definition ipc_main (clock : Z * Z * Z) (senderFrame : option string) (channel : string) (request : jsval)
    : eff S ipc_result :=
  let '(start, checked, finish) := clock in
  if decide (channel = BOOTSTRAP_GET_CONTEXT_CHANNEL) then handle_get_context senderFrame
  else if decide (channel = BOOTSTRAP_CHECK_HOST_CHANNEL) then handle_check_host start checked finish senderFrame
  else if decide (channel = BOOTSTRAP_INSTALL_DAEMON_CHANNEL) then handle_install checked senderFrame request
  else throw (JsError EError ("No handler registered for '" +:+ channel +:+ "'")).
End handlers.

(** ** The preload script: [ipcRenderer.invoke] on its own copy of the channel names *)
Section preload.
Context {S : Type} (invoke : string -> jsval -> eff S ipc_result).
Definition bridge_getContext : eff S ipc_result := invoke "bootstrap:get-context" JUndef.
Definition bridge_checkHost : eff S ipc_result := invoke "bootstrap:check-host" JUndef.
Definition bridge_installDaemon (request : jsval) : eff S ipc_result := invoke "bootstrap:install-daemon" request.
End preload.

(** ** The web client: the bridge of [window], when there is one *)
Section bridge_client.
Context {S : Type} (bridge : option (string -> jsval -> eff S ipc_result)).

Definition unavailable : ipc_result :=
  IpcFailure "Bootstrap bridge is available only in desktop runtime" "BOOTSTRAP_UNAVAILABLE".

Definition getBootstrapContext : eff S ipc_result :=
  match bridge with Some invoke => bridge_getContext invoke | None => mret unavailable end.
Definition checkBootstrapHost : eff S ipc_result :=
  match bridge with Some invoke => bridge_checkHost invoke | None => mret unavailable end.
Definition installBootstrapDaemon (options : jsval) : eff S ipc_result :=
  match bridge with
  | Some invoke => bridge_installDaemon invoke (JObj [("options", options)])
  | None => mret unavailable
  end.
End bridge_client.

(** * The shell reads the commands as they are meant *)

(** The part of the POSIX shell's word splitting the commands use: words of plain characters
    and quoted pieces, blanks between them and the pipe; any other character with a meaning
    to the shell is refused. *)
Inductive token := Word (w : string) | Pipe.
Inductive quoting := Plain | Single | Double.

Definition plain_char (c : ascii) : bool := is_alnum c || Ascii.eqb c "-" || Ascii.eqb c "." || Ascii.eqb c "_".
Definition active_in_double (c : ascii) : bool :=
  Ascii.eqb c "$" || Ascii.eqb c "`" || Ascii.eqb c BACKSLASH.

Definition flush (cur : option string) (rest : list token) : list token :=
  match cur with Some w => Word w :: rest | None => rest end.

Fixpoint sh_tokens (q : quoting) (cur : option string) (s : string) : option (list token) :=
  let word := default "" cur in
  match s with
  | "" => match q with Plain => Some (flush cur []) | _ => None end
  | String c s' =>
      match q with
      | Single => if Ascii.eqb c SQUOTE then sh_tokens Plain cur s' else sh_tokens Single (Some (word +:+ String c "")) s'
      | Double =>
          if Ascii.eqb c DQUOTE then sh_tokens Plain cur s'
          else if active_in_double c then None else sh_tokens Double (Some (word +:+ String c "")) s'
      | Plain =>
          if Ascii.eqb c SQUOTE then sh_tokens Single (Some word) s'
          else if Ascii.eqb c DQUOTE then sh_tokens Double (Some word) s'
          else if Ascii.eqb c " " then flush cur <$> sh_tokens Plain None s'
          else if Ascii.eqb c "|" then (fun ts => flush cur (Pipe :: ts)) <$> sh_tokens Plain None s'
          else if plain_char c then sh_tokens Plain (Some (word +:+ String c "")) s'
          else None
      end
  end.

Definition sh_read (s : string) : option (list token) := sh_tokens Plain None s.

Lemma sh_escaped v w rest :
  sh_tokens Single (Some w) (escape_quotes v +:+ String SQUOTE rest) = sh_tokens Plain (Some (w +:+ v)) rest.
Proof.
  revert w. induction v as [|c v IH]; intros w; [by rewrite app_nil_r_str|]. cbn [escape_quotes].
  replace (w +:+ String c v) with ((w +:+ String c "") +:+ v) by (by rewrite app_assoc_str).
  rewrite <- IH, app_assoc_str. destruct (Ascii.eqb_spec c SQUOTE) as [->|Hc].
  - reflexivity.
  - rewrite app_cons, app_nil_l_str. cbn [sh_tokens]. rewrite (proj2 (Ascii.eqb_neq _ _) Hc). reflexivity.
Qed.

Lemma sh_quoted v rest :
  sh_tokens Plain None (quoteForShell v +:+ rest) = sh_tokens Plain (Some v) rest.
Proof.
  unfold quoteForShell. rewrite app_cons, app_assoc_str.
  transitivity (sh_tokens Single (Some "") (escape_quotes v +:+ String SQUOTE rest)); [reflexivity|].
  by rewrite sh_escaped.
Qed.

(** C12.  No value of the environment escapes its quotes: the shell of the host reads the
    quoted text as one word that is the value itself, quotes and metacharacters included, so
    the three commands built from configuration are exactly the programs and arguments they
    are meant to be. *)
Theorem commands_quoted env v :
  sh_read (quoteForShell v) = Some [Word v] /\
  sh_read (install_command env) =
    Some [Word "curl"; Word "-fsSL"; Word (DEFAULT_INSTALL_SCRIPT_URL env); Pipe; Word "sudo"; Word "bash"] /\
  sh_read (active_command env) = Some [Word "systemctl"; Word "is-active"; Word (DEFAULT_SERVICE_NAME env)] /\
  sh_read (enabled_command env) = Some [Word "systemctl"; Word "is-enabled"; Word (DEFAULT_SERVICE_NAME env)].
Proof.
  unfold sh_read. split_and!.
  - rewrite <- (app_nil_r_str (quoteForShell v)), sh_quoted. reflexivity.
  - unfold install_command. transitivity (cons (Word "curl") <$> (cons (Word "-fsSL") <$>
      sh_tokens Plain None (quoteForShell (DEFAULT_INSTALL_SCRIPT_URL env) +:+ " | sudo bash"))); [reflexivity|].
    by rewrite sh_quoted.
  - unfold active_command. rewrite <- (app_nil_r_str (quoteForShell _)).
    transitivity (cons (Word "systemctl") <$> (cons (Word "is-active") <$>
      sh_tokens Plain None (quoteForShell (DEFAULT_SERVICE_NAME env) +:+ ""))); [reflexivity|].
    by rewrite sh_quoted.
  - unfold enabled_command. rewrite <- (app_nil_r_str (quoteForShell _)).
    transitivity (cons (Word "systemctl") <$> (cons (Word "is-enabled") <$>
      sh_tokens Plain None (quoteForShell (DEFAULT_SERVICE_NAME env) +:+ ""))); [reflexivity|].
    by rewrite sh_quoted.
Qed.

(** * The handlers *)

(** The answer of a handler that is reached and does not throw. *)
Definition answer_ok (r : ipc_result) : Prop :=
  match r with IpcSuccess _ => True | IpcFailure m _ => test bearer_pattern m = false end.

Lemma toIpcError_ok e : answer_ok (toIpcError e).
Proof.
  unfold toIpcError. destruct (err_class_of e); cbn [answer_ok]; try apply redacted_no_bearer. vm_compute. reflexivity.
Qed.

Section handler_theorems.
Context {S : Type} `{SshApi S} `{HostUrl}.
Context (maxRetries retryBaseDelayMs : option Z) (env : bootstrap_env) (metadata : HostMetadata).

Abbreviation main := (ipc_main maxRetries retryBaseDelayMs env metadata).

Lemma guarded (m : eff S ipc_result) frame (s : S) :
  (forall s, exists r s', m s = (Return r, s') /\ answer_ok r) ->
  exists r s', (if negb (trusted env frame) then mret untrusted else m) s = (Return r, s') /\ answer_ok r /\
    (trusted env frame = false -> r = untrusted /\ s' = s).
Proof.
  intros Hm. destruct (trusted env frame); cbn [negb].
  - destruct (Hm s) as (r & s' & -> & Hr). exists r, s'. by split_and!.
  - exists untrusted, s. split_and!; try done.
Qed.

Lemma caught (body : eff S ipc_result) s :
  (forall s r s', body s = (Return r, s') -> answer_ok r) ->
  exists r s', try_catch body (fun e => mret (toIpcError e)) s = (Return r, s') /\ answer_ok r.
Proof.
  intros Hb. unfold try_catch. destruct (body s) as [[r|e] s'] eqn:E; [by eauto|].
  exists (toIpcError e), s'. split; [done|apply toIpcError_ok].
Qed.

(** A chain of awaits that ends in a success answers nothing else. *)
Definition succeeds (m : eff S ipc_result) : Prop := forall s r s', m s = (Return r, s') -> answer_ok r.

Lemma succeeds_ret d : succeeds (mret (IpcSuccess d)).
Proof. by intros s r s' [= <- _]. Qed.

Lemma succeeds_bind {A} (m : eff S A) f : (forall a, succeeds (f a)) -> succeeds (a ← m; f a).
Proof. intros Hf s r s'. run_eff. destruct (m s) as [[a|e] s1]; [apply Hf|discriminate]. Qed.

(** C27.  The preload bridge reaches the three handlers, and each answers whatever the host
    does: a frame that is not trusted gets the refusal and nothing is done on the host; no
    handler throws; and the text of a failure has no bearer token.  A packaged application
    trusts exactly the pages it loads from a file. *)
Theorem handlers_guarded clock frame options s call :
  call ∈ [bridge_getContext (main clock frame); bridge_checkHost (main clock frame);
          bridge_installDaemon (main clock frame) (JObj [("options", options)])] ->
  exists r s', call s = (Return r, s') /\ answer_ok r /\
    (trusted env frame = false -> r = untrusted /\ s' = s) /\
    (env_isPackaged env = true -> trusted env frame = startsWith "file://" (default "" frame)).
Proof.
  intros Hc. assert (Hp : env_isPackaged env = true -> trusted env frame = startsWith "file://" (default "" frame)).
  { intros Hpk. unfold trusted, isTrustedSender. rewrite Hpk. by destruct (default "" frame). }
  assert (Hg : exists r s', call s = (Return r, s') /\ answer_ok r /\ (trusted env frame = false -> r = untrusted /\ s' = s));
    [|destruct Hg as (r & s' & ? & ? & ?); exists r, s'; by split_and!].
  destruct clock as [[start checked] finish]. repeat rewrite elem_of_cons in Hc.
  destruct Hc as [->|[->|[->|Hc%elem_of_nil]]]; try done; apply guarded; intros s1.
  - eexists _, _. by split.
  - apply caught, succeeds_bind. intros []. apply succeeds_ret.
  - apply caught. repeat (apply succeeds_bind; intros ?). apply succeeds_ret.
Qed.
End handler_theorems.

(** ** The installation, command by command *)
Section install_theorems.
Context `{HostUrl} (maxRetries retryBaseDelayMs : option Z) (env : bootstrap_env).
Context (now : Z) (frame : option string) (request : jsval).
Context (Hretries : 0 <= default 1 maxRetries) (Htrusted : trusted env frame = true).

Abbreviation install := (handle_install maxRetries retryBaseDelayMs env now frame request).

(** An outcome the retry loop passes on. *)
Definition final (o : outcome string) : Prop :=
  match o with Throw e => is_connect_failed e = false | Return _ => True end.

Lemma run_shell_once command ms o rest ds cs : final o ->
  run_shell maxRetries retryBaseDelayMs command ms (Script (Ran o :: rest) ds cs) = (o, Script rest ds (cs ++ [command])).
Proof.
  intros Ho. unfold run_shell, runShell, execWithRetry.
  pose proof (retry_loop_spec maxRetries retryBaseDelayMs command (default 10000 (Some ms)) [] (Ran o) rest
    (Z.to_nat (totalAttempts maxRetries)) 0 None ds cs) as Hl. cbn [length app] in Hl.
  change 0 with (Z.of_nat 0) at 1. rewrite Hl; [by rewrite app_nil_r|constructor|unfold totalAttempts; lia|unfold totalAttempts; lia|].
  unfold retryable. cbn [attempt_outcome]. destruct o as [out|e]; [discriminate|]. cbn in Ho. by rewrite Ho.
Qed.

(** The commands of an installation, in order. *)
Definition install_commands : list string :=
  [install_command env; active_command env; enabled_command env; DEFAULT_HEALTH_COMMAND env].

Lemma install_succeeds o1 o2 o3 o4 rest :
  install (Script (Ran (Return o1) :: Ran (Return o2) :: Ran (Return o3) :: Ran (Return o4) :: rest) [] []) =
  (Return (IpcSuccess (installed env now o2 o3 o4)), Script rest [] install_commands).
Proof.
  unfold handle_install. rewrite Htrusted. cbn [negb]. run_eff. by rewrite !run_shell_once.
Qed.

Lemma install_fails (outs : list string) e rest : (length outs < 4)%nat -> is_connect_failed e = false ->
  install (Script (List.map (fun o => Ran (Return o)) outs ++ Ran (Throw e) :: rest) [] []) =
  (Return (toIpcError e), Script rest [] (take (S (length outs)) install_commands)).
Proof.
  intros Hlen He. unfold handle_install. rewrite Htrusted. cbn [negb]. run_eff.
  do 4 (destruct outs as [|? outs]; [cbn [List.map app]; by rewrite !run_shell_once|]). cbn in Hlen. lia.
Qed.

(** The installation runs the install script, the two service checks and the health
    command in that order.  When all succeed it answers with what they printed; when one
    fails it stops there, answers with that failure, and runs none of the commands after
    it.  The request has no influence on what is run. *)
Theorem install_sequence rest :
  (forall o1 o2 o3 o4,
     install (Script (Ran (Return o1) :: Ran (Return o2) :: Ran (Return o3) :: Ran (Return o4) :: rest) [] []) =
     (Return (IpcSuccess (installed env now o2 o3 o4)), Script rest [] install_commands)) /\
  (forall (outs : list string) e, (length outs < 4)%nat -> is_connect_failed e = false ->
     install (Script (List.map (fun o => Ran (Return o)) outs ++ Ran (Throw e) :: rest) [] []) =
     (Return (toIpcError e), Script rest [] (take (S (length outs)) install_commands))).
Proof. split; intros; [by apply install_succeeds|by apply install_fails]. Qed.
End install_theorems.

(** The timeout of the installation stays between five seconds and five minutes; a whole
    number of milliseconds in between is taken as it is. *)
Lemma normalizeTimeout_bounds v :
  MIN_INSTALL_TIMEOUT_MS <= normalizeTimeout v <= MAX_INSTALL_TIMEOUT_MS /\
  (forall z, v = JNum (NInt z) -> MIN_INSTALL_TIMEOUT_MS <= z <= MAX_INSTALL_TIMEOUT_MS -> normalizeTimeout v = z).
Proof.
  unfold normalizeTimeout, MIN_INSTALL_TIMEOUT_MS, MAX_INSTALL_TIMEOUT_MS, DEFAULT_INSTALL_TIMEOUT_MS. split.
  - destruct v as [| | |n| | | |]; try lia. destruct (trunc n); lia.
  - intros z -> Hz. cbn [trunc]. lia.
Qed.

(** * The theorems at work *)

Definition no_url : HostUrl := fun _ => None.
#[local] Existing Instance no_url.

Definition packaged_env : bootstrap_env := BootstrapEnv true None (Some "https://it's/install.sh") None None.
Definition page : option string := Some "file:///app/index.html".

Definition sample_metadata : HostMetadata := Metadata "default" "h" "10.0.0.1" 22 None None None None None None.
Definition remote_page : option string := Some "https://other.example".
Definition idle : scripted := Script [] [] [].
Definition remote_install : eff scripted ipc_result :=
  bridge_installDaemon (ipc_main None None packaged_env sample_metadata (0, 0, 0) remote_page)
    (JObj [("options", JUndef)]).

Lemma handlers_guarded_witness : remote_install idle = (Return untrusted, idle).
Proof.
  destruct (handlers_guarded None None packaged_env sample_metadata (0, 0, 0) remote_page JUndef idle remote_install)
    as (r & s' & Hr & _ & Hu & _).
  - right. right. left.
  - rewrite Hr. by destruct (Hu eq_refl) as [-> ->].
Defined.

Definition inactive_error : jserror := RemoteExecutionError "inactive" (Some "SSH_NON_ZERO").

Lemma install_sequence_witness :
  handle_install (Some 1) None packaged_env 0 page JUndef
    (Script (List.map (fun o => Ran (Return o)) ["installed"] ++ [Ran (Throw inactive_error)]) [] []) =
  (Return (toIpcError inactive_error), Script [] [] [install_command packaged_env; active_command packaged_env]).
Proof.
  apply (proj2 (install_sequence (Some 1) None packaged_env 0 page JUndef ltac:(cbn; lia) eq_refl []) ["installed"]);
    [cbn; lia|reflexivity].
Defined.
