(* ===== verification/DesktopSecrets.v ===== *)
(** * Host credentials of the desktop application

    apps/desktop/src/main/secrets: the repository of credentials (SecretsRepository.ts) as a
    class with laws, its implementation over the system's credential store
    (KeytarSecretsRepository.ts), and the migration of credentials out of the environment and
    the .env file (migrateDesktopSecrets.ts). *)

From S2P Require Import Prelude JsString Regex JsValue Dates Json Secrets Repositories RoutesProcess.

(** ** SecretsRepository.ts *)

(** [new SecretsRepositoryError(message, code)] *)
Definition SecretsRepositoryError (message code : string) : jserror := JsError (ESecrets code) message.

Definition HOST_SECRET_KEYS : list string := ["username"; "password"; "token"; "privateKey"; "passphrase"].

(** The loop over the keys, with the fields collected so far. *)
Fixpoint normalize_keys (keys : list string) (source : jsval) (result : obj) : outcome obj :=
  match keys with
  | [] => Return result
  | key :: keys' =>
      match jget key source with
      | JUndef | JNull | JStr "" => normalize_keys keys' source result
      | JStr item => normalize_keys keys' source (obj_set key (JStr item) result)
      | _ => Throw (SecretsRepositoryError ("Stored host secret field is invalid: " +:+ key) "INVALID_SECRET_FORMAT")
      end
  end.

Definition normalizeHostSecrets (value : jsval) : outcome obj :=
  match value with
  | JObj _ | JDate _ => normalize_keys HOST_SECRET_KEYS value []
  | _ => Throw (SecretsRepositoryError "Stored host secret payload is not an object" "INVALID_SECRET_FORMAT")
  end.

Definition hasHostSecrets (secrets : option obj) : bool :=
  match secrets with
  | Some o => existsb (fun k => truthy (jget k (JObj o))) HOST_SECRET_KEYS
  | None => false
  end.

Class SecretsRepository (S : Type) := {
  sr_get : string -> eff S (option obj);
  sr_set : string -> jsval -> eff S unit;
  sr_delete : string -> eff S unit
}.

(** What its clients rely on: reading changes nothing; a successful write is of a valid value,
    is what a later read of that host gives if the read succeeds, and touches no other host;
    a failed write changes nothing. *)
Class SecretsRepositoryLaws (S : Type) `{SecretsRepository S} := {
  sr_get_pure h s : snd (sr_get h s) = s;
  sr_set_ok h v s s' : sr_set h v s = (Return tt, s') ->
    exists n, normalizeHostSecrets v = Return n /\
      (forall r, fst (sr_get h s') = Return r -> r = Some n) /\
      (forall h', h' <> h -> fst (sr_get h' s') = fst (sr_get h' s));
  sr_set_fails h v s e s' : sr_set h v s = (Throw e, s') -> s' = s
}.

(** ** KeytarSecretsRepository.ts *)
Inductive keytar_op := GetPassword | SetPassword | DeletePassword.

(** The native module: whether loading it fails, and the calls the system refuses. *)
Class KeytarHost := {
  keytar_load : option jserror;
  keytar_refuses : keytar_op -> string -> option jserror
}.

(** The credential store: the passwords of the service, by account. *)
Abbreviation keytar_store := (gmap string string).

Definition accountForHost (hostId : string) : string := "host:" +:+ hostId.

Definition mapKeytarError (e : jserror) (fallbackMessage : string) : jserror :=
  match err_class_of e with
  | ESecrets _ => e
  | _ =>
      let message := redactPotentialSecrets (err_message e) in
      let normalized := toLowerCase message in
      let code :=
        if includes "denied" normalized || includes "access" normalized then "ACCESS_DENIED"
        else if includes "secret service" normalized || includes "credential" normalized ||
                includes "keychain" normalized || includes "libsecret" normalized
        then "CREDENTIAL_MANAGER_UNAVAILABLE"
        else "KEYTAR_UNAVAILABLE" in
      SecretsRepositoryError (fallbackMessage +:+ ": " +:+ message) code
  end.

Module Keytar.
Section repository.
Context `{KeytarHost}.
(** Whether the constructor was given a store; the native module is loaded otherwise. *)
Context (given_store : bool).

Definition getStore : eff keytar_store unit :=
  try_catch
    (if given_store then mret tt else match keytar_load with Some e => throw e | None => mret tt end)
    (fun e => throw (mapKeytarError e "Unable to load keytar")).

(** The three calls of the native module. *)
Definition call {A} (op : keytar_op) (account : string) (m : eff keytar_store A) : eff keytar_store A :=
  match keytar_refuses op account with Some e => throw e | None => m end.

Definition get (hostId : string) : eff keytar_store (option obj) :=
  try_catch
    (_ ← getStore;
     raw ← call GetPassword (accountForHost hostId) (fun s => (Return (s !! accountForHost hostId), s));
     match raw with
     | Some text =>
         if nonempty text then
           try_catch
             (v ← lift_outcome (json_parse text); n ← lift_outcome (normalizeHostSecrets v); mret (Some n))
             (fun _ => throw (SecretsRepositoryError "Stored host credentials are invalid" "CORRUPTED_CREDENTIALS"))
         else mret None
     | None => mret None
     end)
    (fun e => throw (mapKeytarError e "Unable to read host credentials")).

Definition set (hostId : string) (secrets : jsval) : eff keytar_store unit :=
  normalized ← lift_outcome (normalizeHostSecrets secrets);
  try_catch
    (_ ← getStore;
     call SetPassword (accountForHost hostId)
       (modify (fun s => <[accountForHost hostId := default "" (json_stringify (JObj normalized))]> s)))
    (fun e => throw (mapKeytarError e "Unable to write host credentials")).

Definition delete (hostId : string) : eff keytar_store unit :=
  try_catch
    (_ ← getStore;
     call DeletePassword (accountForHost hostId) (modify (fun s => base.delete (accountForHost hostId) s)))
    (fun e => throw (mapKeytarError e "Unable to delete host credentials")).

#[export] Instance repository : SecretsRepository keytar_store :=
  {| sr_get := get; sr_set := set; sr_delete := delete |}.
End repository.
End Keytar.

(** ** Environment files *)
Definition SECRET_ENV_KEYS : list string :=
  ["SSH_USERNAME"; "SSH_PASSWORD"; "SSH_PRIVATE_KEY"; "SSH_PRIVATE_KEY_PATH"; "SSH_PASSPHRASE"].

Abbreviation env_map := (gmap string string).
Abbreviation files := (gmap string string).

Definition clearSecretProcessEnv (env : env_map) : env_map :=
  fold_left (fun e k => base.delete k e) SECRET_ENV_KEYS env.

(** A line of the file that assigns a variable: its key and the text after the equals sign. *)
Definition env_assignment (rawLine : string) : option (string * string) :=
  let line := trim rawLine in
  if negb (nonempty line) || startsWith "#" line then None
  else match indexOf "=" line with
  | None | Some O => None
  | Some i => Some (trim (str_take i line), str_drop (S i) line)
  end.

(** The lines [cleanupEnvFile] keeps. *)
Definition keep_line (rawLine : string) : bool :=
  match env_assignment rawLine with
  | Some (key, _) => negb (bool_decide (key ∈ SECRET_ENV_KEYS))
  | None => true
  end.

Definition cleaned_env (original : string) : string :=
  join nl (List.filter keep_line (split_lines original)).

(** A path the process cannot read, or write. *)
Class FileHost := {
  read_fails : string -> option jserror;
  write_fails : string -> option jserror
}.

(** The main process: its environment, the files, and the state of the credential store. *)
Record world (S : Type) := World { w_env : env_map; w_files : files; w_store : S }.
Arguments World {S}. Arguments w_env {S}. Arguments w_files {S}. Arguments w_store {S}.

Section migration.
Context {S : Type} `{SecretsRepository S} `{FileHost}.

Definition on_store {A} (m : eff S A) : eff (world S) A := fun w =>
  let (o, s') := m (w_store w) in (o, World (w_env w) (w_files w) s').

Definition existsSync (path : string) (w : world S) : bool := bool_decide (is_Some (w_files w !! path)).

Definition readFileSync (path : string) : eff (world S) string := fun w =>
  match read_fails path, w_files w !! path with
  | Some e, _ => (Throw e, w)
  | None, Some text => (Return text, w)
  | None, None => (Throw (JsError EError ("ENOENT: no such file or directory, open '" +:+ path +:+ "'")), w)
  end.

Definition writeFileSync (path text : string) : eff (world S) unit := fun w =>
  match write_fails path with
  | Some e => (Throw e, w)
  | None => (Return tt, World (w_env w) (<[path := text]> (w_files w)) (w_store w))
  end.

Definition getEnv (key : string) (w : world S) : option string :=
  match w_env w !! key with
  | Some value => if nonempty value && nonempty (trim value) then Some value else None
  | None => None
  end.

Definition readPrivateKeyFromEnv : eff (world S) (option string) :=
  w ← get_state;
  match getEnv "SSH_PRIVATE_KEY_PATH" w with
  | Some explicitPath =>
      if negb (existsSync explicitPath w)
      then throw (SecretsRepositoryError "SSH private key file was not found" "MIGRATION_FAILED")
      else text ← readFileSync explicitPath; mret (Some text)
  | None =>
      match getEnv "SSH_PRIVATE_KEY" w with
      | None => mret None
      | Some legacyValue =>
          if existsSync legacyValue w then text ← readFileSync legacyValue; mret (Some text)
          else mret (Some legacyValue)
      end
  end.

Definition collectEnvSecrets : eff (world S) obj :=
  w ← get_state;
  privateKey ← readPrivateKeyFromEnv;
  mret [("username", opt_str (getEnv "SSH_USERNAME" w)); ("password", opt_str (getEnv "SSH_PASSWORD" w));
        ("privateKey", opt_str privateKey); ("passphrase", opt_str (getEnv "SSH_PASSPHRASE" w))].

Definition clear_env : eff (world S) unit :=
  modify (fun w => World (clearSecretProcessEnv (w_env w)) (w_files w) (w_store w)).

Definition cleanupEnvFile (envPath : option string) : eff (world S) bool :=
  w ← get_state;
  match envPath with
  | Some path =>
      if nonempty path && existsSync path w then
        original ← readFileSync path;
        let next := cleaned_env original in
        if decide (next = original) then mret false
        else _ ← writeFileSync path next; mret true
      else mret false
  | None => mret false
  end.

Record migration_result := Migration {
  hostId : string; migrated : bool; cleanedEnvFile : bool; secrets : option obj
}.

Definition MIGRATION_MARKER_HOST_ID : string := "__migration_desktop_env_v1__".
Definition marker_value : jsval := JObj [("token", JStr "completed")].

(** [{ ...existing, ...envSecrets }] *)
Definition merged_secrets (existing : option obj) (envSecrets : obj) : jsval :=
  JObj (obj_spread (obj_spread [] (default [] existing)) envSecrets).

Definition runDesktopSecretsMigration (envPath : option string) (host : string) : eff (world S) migration_result :=
  marker ← on_store (sr_get MIGRATION_MARKER_HOST_ID);
  existing ← on_store (sr_get host);
  match marker with
  | Some _ =>
      _ ← clear_env; mret (Migration host false false existing)
  | None =>
      envSecrets ← collectEnvSecrets;
      if negb (hasHostSecrets (Some envSecrets)) then
        _ ← on_store (sr_set MIGRATION_MARKER_HOST_ID marker_value);
        _ ← clear_env;
        mret (Migration host false false existing)
      else
        _ ← on_store (sr_set host (merged_secrets existing envSecrets));
        verified ← on_store (sr_get host);
        if negb (hasHostSecrets verified)
        then throw (SecretsRepositoryError "Unable to verify migrated host credentials" "MIGRATION_FAILED")
        else
          cleaned ← cleanupEnvFile envPath;
          _ ← clear_env;
          _ ← on_store (sr_set MIGRATION_MARKER_HOST_ID marker_value);
          mret (Migration host true cleaned verified)
  end.
End migration.

(** * The credential store keeps the promise *)

(** A field the loop passes over. *)
Definition skipped (v : jsval) : bool :=
  match v with JUndef | JNull | JStr "" => true | _ => false end.

Lemma normalize_step key keys source acc :
  normalize_keys (key :: keys) source acc =
  if skipped (jget key source) then normalize_keys keys source acc
  else match jget key source with
       | JStr item => normalize_keys keys source (obj_set key (JStr item) acc)
       | _ => Throw (SecretsRepositoryError ("Stored host secret field is invalid: " +:+ key) "INVALID_SECRET_FORMAT")
       end.
Proof. cbn [normalize_keys]. by destruct (jget key source) as [| | | |[]| | |]. Qed.

Lemma elem_cons_ne (k key : string) keys : k <> key -> bool_decide (k ∈ key :: keys) = bool_decide (k ∈ keys).
Proof. intros Hne. apply bool_decide_ext. rewrite elem_of_cons. naive_solver. Qed.

(** What the loop builds: the non-empty strings of the source, and nothing else. *)
Lemma normalize_get keys source acc n k :
  NoDup keys -> normalize_keys keys source acc = Return n ->
  obj_get k n = if bool_decide (k ∈ keys) && negb (skipped (jget k source)) then Some (jget k source) else obj_get k acc.
Proof.
  intros Hnd. revert acc. induction Hnd as [|key keys Hnot _ IH]; intros acc; [by intros <-%Return_inj|].
  rewrite normalize_step. destruct (skipped (jget key source)) eqn:Hs.
  - intros Hn. rewrite (IH _ Hn). destruct (decide (k = key)) as [->|Hne].
    + by rewrite Hs, !andb_false_r.
    + by rewrite elem_cons_ne.
  - destruct (jget key source) as [| | | |item| | |] eqn:Hk; try discriminate. intros Hn. rewrite (IH _ Hn).
    destruct (decide (k = key)) as [->|Hne].
    + rewrite bool_decide_false by done. rewrite bool_decide_true by set_solver. rewrite Hk, Hs. cbn. apply obj_get_set_eq.
    + by rewrite obj_get_set_ne, elem_cons_ne.
Qed.

Lemma normalize_strings keys source acc n (P : string * jsval -> Prop) :
  (forall k s, P (k, JStr s)) -> Forall P acc -> NoDup (List.map fst acc) ->
  normalize_keys keys source acc = Return n -> Forall P n /\ NoDup (List.map fst n).
Proof.
  intros HP. revert acc. induction keys as [|key keys IH]; intros acc Ha Hnd; [by intros <-%Return_inj|].
  rewrite normalize_step. destruct (skipped _); [by apply IH|].
  destruct (jget key source); try discriminate. apply IH; [by apply obj_set_Forall|by apply obj_set_NoDup].
Qed.

Lemma normalize_agree keys source source' acc :
  (forall k, k ∈ keys -> skipped (jget k source) = skipped (jget k source') /\
     (skipped (jget k source) = false -> jget k source' = jget k source)) ->
  normalize_keys keys source acc = normalize_keys keys source' acc.
Proof.
  revert acc. induction keys as [|key keys IH]; intros acc Hag; [done|]. rewrite !normalize_step.
  destruct (Hag key (list_elem_of_here _ _)) as [Hs Hv]. rewrite <- Hs.
  destruct (skipped (jget key source)); [apply IH; set_solver|]. rewrite Hv by done.
  destruct (jget key source); try done. apply IH. set_solver.
Qed.

Lemma host_keys_NoDup : NoDup HOST_SECRET_KEYS.
Proof. unfold HOST_SECRET_KEYS. nodup_literals. Qed.

Lemma normalized_keys v n : normalizeHostSecrets v = Return n -> normalize_keys HOST_SECRET_KEYS v [] = Return n.
Proof. by destruct v. Qed.

(** Normalised credentials are a JSON object, and normalise to themselves. *)
Lemma normalized_wf v n : normalizeHostSecrets v = Return n -> is_json (JObj n) /\ val_wf (JObj n).
Proof.
  intros Hn%normalized_keys. rewrite is_json_obj, val_wf_obj.
  destruct (normalize_strings _ _ _ _ (fun kv => is_json (snd kv) /\ val_wf (snd kv)) ltac:(done) (List.Forall_nil _)
              (NoDup_nil_2) Hn) as [Hf Hnd].
  split_and!; [..|done|]; (eapply List.Forall_impl; [|exact Hf]; by intros kv []).
Qed.

Lemma normalized_again v n : normalizeHostSecrets v = Return n -> normalizeHostSecrets (JObj n) = Return n.
Proof.
  intros Hn%normalized_keys. cbn [normalizeHostSecrets]. rewrite <- Hn. apply normalize_agree. intros k Hk.
  pose proof (normalize_get _ _ _ _ k host_keys_NoDup Hn) as Hg. rewrite bool_decide_true in Hg by done.
  cbn [jget]. rewrite Hg. destruct (skipped (jget k v)) eqn:Hs; cbn; [done|by rewrite Hs].
Qed.

(** The values that are credentials: an object, and each of the five fields missing, null or a
    string. *)
Definition is_credentials (v : jsval) : Prop :=
  ((exists o, v = JObj o) \/ (exists t, v = JDate t)) /\
  forall k, k ∈ HOST_SECRET_KEYS -> skipped (jget k v) = true \/ exists x, jget k v = JStr x.

Lemma normalize_keys_returns keys source acc :
  is_return (normalize_keys keys source acc) = true <->
  forall k, k ∈ keys -> skipped (jget k source) = true \/ exists x, jget k source = JStr x.
Proof.
  revert acc. induction keys as [|key keys IH]; intros acc.
  { split; [|done]. intros _ k Hk. by apply elem_of_nil in Hk. }
  rewrite normalize_step. setoid_rewrite elem_of_cons. destruct (skipped (jget key source)) eqn:Hs.
  - rewrite IH. split; [|auto]. intros Hk k [->|Hin]; auto.
  - destruct (jget key source) eqn:Hj; try (split; [done|]; intros Hk; destruct (Hk key (or_introl eq_refl)) as [Hx|[x Hx]];
      rewrite Hj in Hx; [by rewrite Hs in Hx|done]).
    rewrite IH. split; [|auto]. intros Hk k [->|Hin]; [right; by eexists|auto].
Qed.

Lemma normalize_returns v : is_return (normalizeHostSecrets v) = true <-> is_credentials v.
Proof.
  unfold is_credentials. rewrite <- (normalize_keys_returns HOST_SECRET_KEYS v []).
  destruct v; simpl; try (split; [done|]; intros [[[? ?]|[? ?]] _]; done).
  - split; [|by intros []]. intros Hr. split; [right; by eexists|done].
  - split; [|by intros []]. intros Hr. split; [left; by eexists|done].
Qed.

Section keytar_laws.
Context `{KeytarHost} (given_store : bool).

Abbreviation get := (Keytar.get given_store).
Abbreviation set := (Keytar.set given_store).

Lemma getStore_pure s : snd (Keytar.getStore given_store s) = s.
Proof. unfold Keytar.getStore, try_catch. destruct given_store; [done|]. by destruct keytar_load. Qed.

Lemma call_get_pure op account s :
  snd (Keytar.call op account (fun s : keytar_store => (Return (s !! account), s)) s) = s.
Proof. unfold Keytar.call. by destruct (keytar_refuses op account). Qed.

Lemma keytar_get_pure h s : snd (get h s) = s.
Proof.
  unfold get. run_eff. pose proof (getStore_pure s) as Hg.
  destruct (Keytar.getStore given_store s) as [[[]|e] s1]; cbn in Hg; subst s1; [|done].
  pose proof (call_get_pure GetPassword (accountForHost h) s) as Hc.
  destruct (Keytar.call _ _ _ s) as [[raw|e] s1]; cbn in Hc; subst s1; [|done].
  destruct raw as [text|]; [|done]. destruct (nonempty text); [|done]. unfold lift_outcome, mret, eff_ret, throw.
  destruct (json_parse text) as [v|]; [|done]. by destruct (normalizeHostSecrets v).
Qed.

(** What a read gives, by the text stored for the account. *)
Definition read_text (raw : option string) (r : option obj) : Prop :=
  match raw with
  | Some text =>
      if nonempty text then exists v n, json_parse text = Return v /\ normalizeHostSecrets v = Return n /\ r = Some n
      else r = None
  | None => r = None
  end.

Lemma keytar_get_returns h s r : fst (get h s) = Return r -> read_text (s !! accountForHost h) r.
Proof.
  unfold get. run_eff. pose proof (getStore_pure s) as Hg.
  destruct (Keytar.getStore given_store s) as [[[]|e] s1]; cbn in Hg; subst s1; [|discriminate].
  unfold Keytar.call. destruct (keytar_refuses _ _); [discriminate|]. unfold read_text.
  destruct (s !! accountForHost h) as [text|]; [|by intros [= <-]]. destruct (nonempty text); [|by intros [= <-]].
  unfold lift_outcome, mret, eff_ret, throw. destruct (json_parse text) as [v|]; [|discriminate].
  destruct (normalizeHostSecrets v) as [n|] eqn:Hn; [|discriminate]. intros [= <-]. by exists v, n.
Qed.

Lemma keytar_get_local h s s' : s !! accountForHost h = s' !! accountForHost h -> fst (get h s) = fst (get h s').
Proof.
  intros Hs. unfold get. run_eff.
  pose proof (getStore_pure s) as Hg. pose proof (getStore_pure s') as Hg'.
  assert (Hsame : fst (Keytar.getStore given_store s) = fst (Keytar.getStore given_store s')).
  { unfold Keytar.getStore, try_catch. destruct given_store; [done|]. by destruct keytar_load. }
  destruct (Keytar.getStore given_store s) as [[[]|e] s1]; destruct (Keytar.getStore given_store s') as [o s2];
    cbn in Hg, Hg', Hsame; subst s1 s2 o; [|done].
  unfold Keytar.call. destruct (keytar_refuses _ _); [done|]. rewrite <- Hs.
  destruct (s !! accountForHost h) as [text|]; [|done]. destruct (nonempty text); [|done].
  unfold lift_outcome, mret, eff_ret, throw. destruct (json_parse text) as [v|]; [|done].
  by destruct (normalizeHostSecrets v).
Qed.

Lemma print_obj_nonempty o : nonempty (print (JObj o)) = true.
Proof. by rewrite print_obj. Qed.

Lemma keytar_set_returns h v s s' : set h v s = (Return tt, s') ->
  exists n, normalizeHostSecrets v = Return n /\ s' = <[accountForHost h := print (JObj n)]> s.
Proof.
  unfold set. run_eff.
  destruct (normalizeHostSecrets v) as [n|] eqn:Hn; [|discriminate]. pose proof (getStore_pure s) as Hg.
  destruct (Keytar.getStore given_store s) as [[[]|e] s1]; cbn in Hg; subst s1; [|discriminate].
  unfold Keytar.call. destruct (keytar_refuses _ _); [discriminate|]. destruct (normalized_wf v n Hn) as [Hj Hwf].
  destruct (json_roundtrip _ _ Hwf (json_norm_id _ Hj)) as [-> _]. intros [= <-]. by exists n.
Qed.

Lemma keytar_set_ok h v s s' : set h v s = (Return tt, s') ->
  exists n, normalizeHostSecrets v = Return n /\
    (forall r, fst (get h s') = Return r -> r = Some n) /\
    (forall h', h' <> h -> fst (get h' s') = fst (get h' s)).
Proof.
  intros (n & Hn & ->)%keytar_set_returns. exists n. split_and!; [done| |].
  - intros r Hr%keytar_get_returns. rewrite lookup_insert_eq in Hr. cbn [read_text] in Hr. rewrite print_obj_nonempty in Hr.
    destruct Hr as (w & m & Hw & Hm & ->). destruct (normalized_wf v n Hn) as [Hj Hwf].
    destruct (json_roundtrip (JObj n) (JObj n) Hwf (json_norm_id _ Hj)) as [_ Hp]. rewrite Hp in Hw.
    apply Return_inj in Hw as <-. rewrite (normalized_again v n Hn) in Hm. apply Return_inj in Hm as <-. done.
  - intros h' Hne. apply keytar_get_local. rewrite lookup_insert_ne; [done|]. unfold accountForHost.
    intros He. apply Hne. symmetry. by apply app_inv_str in He.
Qed.

Lemma keytar_set_fails h v s e s' : set h v s = (Throw e, s') -> s' = s.
Proof.
  unfold set. run_eff.
  destruct (normalizeHostSecrets v) as [n|]; [|by intros [= _ <-]]. pose proof (getStore_pure s) as Hg.
  destruct (Keytar.getStore given_store s) as [[[]|e'] s1]; cbn in Hg; subst s1; [|by intros [= _ <-]].
  unfold Keytar.call. destruct (keytar_refuses _ _); [by intros [= _ <-]|discriminate].
Qed.

(** The implementation discharges the interface's laws. *)
#[export] Instance keytar_laws : @SecretsRepositoryLaws keytar_store (Keytar.repository given_store).
Proof. constructor; [apply keytar_get_pure|apply keytar_set_ok|apply keytar_set_fails]. Qed.

(** What a read answers for the text of an account. *)
Definition read_answer (h : string) (raw : option string) : outcome (option obj) :=
  match keytar_refuses GetPassword (accountForHost h) with
  | Some e => Throw (mapKeytarError e "Unable to read host credentials")
  | None =>
      match raw with
      | Some text =>
          if nonempty text then
            match (v ← json_parse text; normalizeHostSecrets v) with
            | Return n => Return (Some n)
            | Throw _ => Throw (SecretsRepositoryError "Stored host credentials are invalid" "CORRUPTED_CREDENTIALS")
            end
          else Return None
      | None => Return None
      end
  end.

Lemma getStore_ok s : (given_store = true \/ keytar_load = None) -> Keytar.getStore given_store s = (Return tt, s).
Proof. unfold Keytar.getStore, try_catch. destruct given_store; [done|]. intros [|Hl]; [done|]. by rewrite Hl. Qed.

Lemma keytar_get_answer h s : (given_store = true \/ keytar_load = None) ->
  get h s = (read_answer h (s !! accountForHost h), s).
Proof.
  intros Hg. unfold get, read_answer. run_eff. rewrite getStore_ok by done. unfold Keytar.call.
  destruct (keytar_refuses _ _) as [e|]; [done|].
  destruct (s !! accountForHost h) as [text|]; [|done]. destruct (nonempty text); [|done].
  unfold outcome_bind. destruct (json_parse text) as [v|]; [|done]. by destruct (normalizeHostSecrets v).
Qed.

Lemma keytar_set_store h v s s' : set h v s = (Return tt, s') -> given_store = true \/ keytar_load = None.
Proof.
  unfold set, Keytar.getStore. run_eff. destruct (normalizeHostSecrets v); [|discriminate].
  destruct given_store; [by left|]. destruct keytar_load; [discriminate|by right].
Qed.

(** C36.  The credential store gives back what was written.  A write with a native module that
    loads and a system that does not refuse it succeeds exactly on the values that are
    credentials.  After it the host is read as the written fields that are non-empty strings,
    without an error unless the system refuses the read; every other host reads as before;
    and a write that fails, or a read, leaves the store as it was. *)
Theorem keytar_roundtrip h v s :
  (given_store = true \/ keytar_load = None -> keytar_refuses SetPassword (accountForHost h) = None ->
     is_return (fst (set h v s)) = true <-> is_credentials v) /\
  (forall s', set h v s = (Return tt, s') ->
     exists n,
       (forall k, k ∈ HOST_SECRET_KEYS -> obj_get k n = if skipped (jget k v) then None else Some (jget k v)) /\
       (forall k, k ∉ HOST_SECRET_KEYS -> obj_get k n = None) /\
       get h s' = (match keytar_refuses GetPassword (accountForHost h) with
                   | Some e => Throw (mapKeytarError e "Unable to read host credentials")
                   | None => Return (Some n)
                   end, s') /\
       (forall h', h' <> h -> fst (get h' s') = fst (get h' s))) /\
  (forall e s', set h v s = (Throw e, s') -> s' = s) /\
  snd (get h s) = s.
Proof.
  split_and!.
  - intros Hg Hw. rewrite <- normalize_returns. unfold set, Keytar.call. run_eff.
    destruct (normalizeHostSecrets v); [|done]. by rewrite getStore_ok, Hw.
  - intros s' Hs. pose proof (keytar_set_ok _ _ _ _ Hs) as (n & Hn & _ & Ho).
    pose proof (keytar_set_returns _ _ _ _ Hs) as (n' & Hn' & ->). rewrite Hn in Hn'. apply Return_inj in Hn' as <-.
    exists n. pose proof (normalized_keys _ _ Hn) as Hk. split_and!; [| | |done].
    + intros k Hin. rewrite (normalize_get _ _ _ _ k host_keys_NoDup Hk), bool_decide_true by done.
      by destruct (skipped (jget k v)).
    + intros k Hin. by rewrite (normalize_get _ _ _ _ k host_keys_NoDup Hk), bool_decide_false by done.
    + rewrite keytar_get_answer by by eapply keytar_set_store. unfold read_answer. rewrite lookup_insert_eq, print_obj_nonempty.
      destruct (normalized_wf v n Hn) as [Hj Hwf].
      destruct (json_roundtrip (JObj n) (JObj n) Hwf (json_norm_id _ Hj)) as [_ ->]. unfold mbind, outcome_bind.
      by rewrite (normalized_again v n Hn).
  - intros e s'. apply keytar_set_fails.
  - apply keytar_get_pure.
Qed.
End keytar_laws.

(** * The cleaned file has no credential *)

Definition no_lf (s : string) : bool := str_forallb (fun c => negb (Ascii.eqb c LF)) s.

(** A line as it is read back: a carriage return at its end is taken for part of the break. *)
Definition same_line (l x : string) : Prop := x = l \/ l = x +:+ String CR "".

Lemma split_go_cons cur c s : Ascii.eqb c LF = false ->
  split_lines_go cur (String c s) = split_lines_go (String c cur) s \/
  (c = CR /\ exists s', s = String LF s' /\ split_lines_go cur (String c s) = str_rev cur :: split_lines_go "" s').
Proof.
  intros Hc. cbn [split_lines_go]. rewrite Hc. destruct s as [|d s']; [by left|].
  destruct (Ascii.eqb_spec c CR) as [->|]; [|by left]. destruct (Ascii.eqb_spec d LF) as [->|]; [|by left].
  right. split; [done|]. by exists s'.
Qed.

Lemma split_line l cur rest : no_lf l = true ->
  exists x, split_lines_go cur (l +:+ nl +:+ rest) = x :: split_lines_go "" rest /\ same_line (str_rev cur +:+ l) x.
Proof.
  revert cur. induction l as [|c l IH]; intros cur Hl.
  - exists (str_rev cur). rewrite app_nil_r_str. split; [done|]. by left.
  - unfold no_lf in Hl. cbn [str_forallb] in Hl. bool_hyps. rewrite app_cons.
    destruct (split_go_cons cur c (l +:+ nl +:+ rest)) as [He|(-> & s' & Hs & He)]; [done| |]; rewrite He.
    + destruct (IH (String c cur) H0) as (x & Hx & Hsame). exists x. split; [done|].
      rewrite str_rev_cons, app_assoc_str in Hsame. exact Hsame.
    + destruct l as [|d l].
      * injection Hs as <-. exists (str_rev cur). split; [done|]. by right.
      * cbn in Hs. injection Hs as -> _. unfold no_lf in H0. cbn in H0. discriminate.
Qed.

Lemma split_last l cur : no_lf l = true -> split_lines_go cur l = [str_rev cur +:+ l].
Proof.
  revert cur. induction l as [|c l IH]; intros cur Hl; [by rewrite app_nil_r_str|].
  unfold no_lf in Hl. cbn [str_forallb] in Hl. bool_hyps.
  destruct (split_go_cons cur c l) as [He|(-> & s' & -> & _)]; [done| |discriminate].
  rewrite He, IH by done. by rewrite str_rev_cons, app_assoc_str.
Qed.

Lemma split_no_lf cur s : no_lf cur = true -> Forall (fun l => no_lf l = true) (split_lines_go cur s).
Proof.
  remember (String.length s) as n eqn:Hn. assert (Hle : (String.length s <= n)%nat) by lia. clear Hn.
  revert s Hle cur. induction n as [|n IH]; intros s Hle cur Hcur.
  - destruct s; [|cbn in Hle; lia]. constructor; [|constructor]. unfold no_lf. by rewrite str_forallb_rev.
  - destruct s as [|c s]; [constructor; [|constructor]; unfold no_lf; by rewrite str_forallb_rev|]. cbn in Hle.
    destruct (Ascii.eqb c LF) eqn:Hc.
    + cbn [split_lines_go]. rewrite Hc. constructor; [unfold no_lf; by rewrite str_forallb_rev|]. apply IH; [lia|done].
    + destruct (split_go_cons cur c s Hc) as [->|(-> & s' & -> & ->)].
      * apply IH; [lia|]. unfold no_lf in *. cbn. by rewrite Hc, Hcur.
      * constructor; [unfold no_lf; by rewrite str_forallb_rev|]. apply IH; [cbn in Hle; lia|done].
Qed.

Lemma split_join l ls : Forall (fun l => no_lf l = true) (l :: ls) ->
  Forall2 same_line (l :: ls) (split_lines (join nl (l :: ls))).
Proof.
  unfold split_lines. revert l. induction ls as [|l' ls IH]; intros l Hl; apply Forall_cons in Hl as [Hl Hls].
  - cbn [join]. rewrite split_last by done. constructor; [by left|constructor].
  - rewrite join_cons by done. destruct (split_line l "" (join nl (l' :: ls)) Hl) as (x & -> & Hx).
    constructor; [exact Hx|by apply IH].
Qed.

Lemma trim_cr l : trim (l +:+ String CR "") = trim l.
Proof.
  assert (Hend : forall x, trimEnd (x +:+ String CR "") = trimEnd x).
  { intros x. unfold trimEnd. by rewrite str_rev_app_distr. }
  unfold trim. induction l as [|c l IH]; [done|]. rewrite app_cons. cbn [trimStart].
  destruct (is_space c); [exact IH|]. by rewrite <- app_cons, Hend.
Qed.

Lemma same_line_assignment l x : same_line l x -> env_assignment x = env_assignment l.
Proof. intros [->| ->]; [done|]. unfold env_assignment. by rewrite trim_cr. Qed.

(** C31.  Cleaning an environment file leaves no credential assigned in it: of the lines of
    the cleaned text, read back the way the application reads the file, none assigns a secret
    variable, and the other assignments are all kept, in order. *)
Theorem cleaned_env_safe original :
  Forall (fun l => keep_line l = true) (split_lines (cleaned_env original)) /\
  omap env_assignment (split_lines (cleaned_env original)) =
    List.filter (fun kv => negb (bool_decide (fst kv ∈ SECRET_ENV_KEYS))) (omap env_assignment (split_lines original)).
Proof.
  assert (Hkept : omap env_assignment (List.filter keep_line (split_lines original)) =
    List.filter (fun kv => negb (bool_decide (fst kv ∈ SECRET_ENV_KEYS))) (omap env_assignment (split_lines original))).
  { induction (split_lines original) as [|l ls IH]; [done|]. cbn. unfold keep_line at 1.
    destruct (env_assignment l) as [[k v]|] eqn:He; cbn; rewrite ?He; [|exact IH].
    destruct (negb (bool_decide (k ∈ SECRET_ENV_KEYS))); cbn; rewrite ?He; by rewrite IH. }
  rewrite <- Hkept. unfold cleaned_env.
  pose proof (split_no_lf "" original eq_refl) as Hlf. change (split_lines_go "" original) with (split_lines original) in Hlf.
  assert (Hf : Forall (fun l => no_lf l = true) (List.filter keep_line (split_lines original))).
  { apply List.Forall_forall. intros l [Hl _]%List.filter_In. by apply (proj1 (List.Forall_forall _ _) Hlf). }
  assert (Hk : Forall (fun l => keep_line l = true) (List.filter keep_line (split_lines original))).
  { apply List.Forall_forall. by intros l [_ Hl]%List.filter_In. }
  destruct (List.filter keep_line (split_lines original)) as [|l ls].
  { split; [|reflexivity]. constructor; [reflexivity|constructor]. }
  pose proof (split_join l ls Hf) as Hs. clear Hf Hlf Hkept. revert Hk. induction Hs as [|y x ys xs Hx _ IH]; intros Hk; [done|].
  apply Forall_cons in Hk as [Hy Hk]. destruct (IH Hk) as [Hk1 Ho]. pose proof (same_line_assignment _ _ Hx) as Ha.
  split.
  - constructor; [|done]. unfold keep_line in *. by rewrite Ha.
  - cbn. by rewrite Ha, Ho.
Qed.

(** * The migration *)

Lemma clear_env_gone k env : k ∈ SECRET_ENV_KEYS -> clearSecretProcessEnv env !! k = None.
Proof.
  unfold clearSecretProcessEnv. intros Hk.
  assert (Hall : forall l (e : env_map), k ∈ l \/ e !! k = None -> fold_left (fun e k => base.delete k e) l e !! k = None).
  { clear. induction l as [|k' l IH]; intros e He; cbn; [destruct He as [He|He]; [by apply elem_of_nil in He|done]|].
    apply IH. destruct (decide (k = k')) as [->|Hne]; [right; apply lookup_delete_eq|].
    rewrite lookup_delete_ne by done. destruct He as [He|He]; [left; set_solver|by right]. }
  apply Hall. by left.
Qed.

Section migration_theorems.
Context {S : Type} `{SecretsRepositoryLaws S} `{FileHost}.

(** The credentials a read of the store gives for a host. *)
Definition stored_secrets (h : string) (s : S) (r : option obj) : Prop := fst (sr_get h s) = Return r.

Lemma on_store_get h (w : world S) : on_store (sr_get h) w = (fst (sr_get h (w_store w)), w).
Proof.
  unfold on_store. pose proof (sr_get_pure h (w_store w)) as Hp. destruct (sr_get h (w_store w)) as [o s'].
  cbn in *. subst s'. by destruct w.
Qed.

Lemma on_store_set h v (w : world S) :
  on_store (sr_set h v) w = (fst (sr_set h v (w_store w)), World (w_env w) (w_files w) (snd (sr_set h v (w_store w)))).
Proof. unfold on_store. by destruct (sr_set h v (w_store w)). Qed.

(** Collecting reads files and changes nothing. *)
Lemma readFile_pure path (w : world S) : snd (readFileSync path w) = w.
Proof. unfold readFileSync. destruct (read_fails path); [done|]. by destruct (w_files w !! path). Qed.

Lemma collect_pure (w : world S) : snd (collectEnvSecrets w) = w.
Proof.
  assert (Hr : forall path, snd ((text ← readFileSync path; mret (Some text)) w) = w).
  { intros path. run_eff. pose proof (readFile_pure path w) as Hp.
    by destruct (readFileSync path w) as [[t|e] w']; cbn in *. }
  assert (Hk : snd (readPrivateKeyFromEnv w) = w).
  { unfold readPrivateKeyFromEnv, get_state, mbind at 1, eff_bind at 1. destruct (getEnv "SSH_PRIVATE_KEY_PATH" w) as [path|].
    - destruct (negb _); [done|apply Hr].
    - destruct (getEnv "SSH_PRIVATE_KEY" w) as [v|]; [|done]. destruct (existsSync v w); [apply Hr|done]. }
  unfold collectEnvSecrets. run_eff. destruct (readPrivateKeyFromEnv w) as [[k|e] w']; by cbn in *.
Qed.

(** Cleaning touches no more than the file it is given. *)
Lemma cleanup_only envPath (w : world S) :
  w_env (snd (cleanupEnvFile envPath w)) = w_env w /\ w_store (snd (cleanupEnvFile envPath w)) = w_store w /\
  (forall p, Some p <> envPath -> w_files (snd (cleanupEnvFile envPath w)) !! p = w_files w !! p).
Proof.
  unfold cleanupEnvFile. run_eff. destruct envPath as [path|]; [|done].
  destruct (nonempty path && existsSync path w); [|done]. pose proof (readFile_pure path w) as Hp.
  destruct (readFileSync path w) as [[text|e] w']; cbn in Hp; subst w'; [|done].
  destruct (decide (cleaned_env text = text)); [done|]. unfold writeFileSync. destruct (write_fails path); [done|].
  cbn. split_and!; [done|done|]. intros p Hp. rewrite lookup_insert_ne by congruence. done.
Qed.

(** C10.  The migration cannot lose the credentials of the environment file: whatever fails on
    the way, a file is only ever changed when the credential store gave back a credential of
    that host, and it still holds it at the end; and no other file than the environment file
    is touched. *)
Theorem migration_keeps_credentials envPath host (w : world S) :
  host <> MIGRATION_MARKER_HOST_ID ->
  let w' := snd (runDesktopSecretsMigration envPath host w) in
  (forall p, Some p <> envPath -> w_files w' !! p = w_files w !! p) /\
  (w_files w' = w_files w \/
   exists n, hasHostSecrets (Some n) = true /\ (stored_secrets host (w_store w') (Some n))).
Proof.
  intros Hne. cbn zeta. unfold runDesktopSecretsMigration, clear_env. run_eff.
  rewrite on_store_get. destruct (fst (sr_get MIGRATION_MARKER_HOST_ID (w_store w))) as [marker|]; [|by split; [|left]].
  rewrite on_store_get. destruct (fst (sr_get host (w_store w))) as [existing|]; [|by split; [|left]].
  destruct marker; [by split; [|left]|]. pose proof (collect_pure w) as Hc.
  destruct (collectEnvSecrets w) as [[es|e] w1]; cbn in Hc; subst w1; [|by split; [|left]].
  destruct (negb (hasHostSecrets (Some es))).
  { rewrite on_store_set. destruct (fst (sr_set _ _ _)); by split; [|left]. }
  rewrite on_store_set. destruct (sr_set host _ (w_store w)) as [[[]|e] s1] eqn:Hset; cbn [fst snd]; [|by split; [|left]].
  rewrite on_store_get. cbn [w_store]. destruct (fst (sr_get host s1)) as [verified|] eqn:Hv; [|by split; [|left]].
  destruct (hasHostSecrets verified) eqn:Hh; cbn [negb]; [|by split; [|left]].
  destruct verified as [n|]; [|discriminate]. set (w1 := World _ _ s1).
  destruct (cleanup_only envPath w1) as (He & Hs & Hf).
  destruct (cleanupEnvFile envPath w1) as [[cleaned|e] w2]; cbn in He, Hs, Hf.
  - rewrite on_store_set. cbn [w_store]. rewrite Hs.
    destruct (sr_set MIGRATION_MARKER_HOST_ID marker_value s1) as [[[]|e] s3] eqn:Hm; cbn.
    + split; [exact Hf|]. right. exists n. split; [done|]. unfold stored_secrets.
      destruct (sr_set_ok _ _ _ _ Hm) as (m & _ & _ & Hother). by rewrite Hother.
    + split; [exact Hf|]. right. exists n. split; [done|]. unfold stored_secrets.
      by rewrite (sr_set_fails _ _ _ _ _ Hm).
  - cbn. split; [exact Hf|]. right. exists n. split; [done|]. unfold stored_secrets. by rewrite Hs.
Qed.

(** The credentials the environment can set, and a field the store would hold. *)
Definition ENV_CREDENTIALS : list string := ["username"; "password"; "privateKey"; "passphrase"].
Definition set_value (v : jsval) : option jsval := if skipped v then None else Some v.

Lemma env_in_host k : k ∈ ENV_CREDENTIALS -> k ∈ HOST_SECRET_KEYS.
Proof.
  unfold ENV_CREDENTIALS. intros Hk.
  repeat (apply elem_of_cons in Hk as [->|Hk]; [refine (proj1 (bool_decide_spec _) _); vm_compute; exact I|]).
  by apply elem_of_nil in Hk.
Qed.

Lemma collected_keys (w : world S) es : fst (collectEnvSecrets w) = Return es -> List.map fst es = ENV_CREDENTIALS.
Proof.
  unfold collectEnvSecrets. run_eff. destruct (readPrivateKeyFromEnv w) as [[k|e] w']; [|discriminate].
  by intros [= <-].
Qed.

Lemma merged_get (w : world S) es existing n :
  fst (collectEnvSecrets w) = Return es -> normalizeHostSecrets (merged_secrets existing es) = Return n ->
  (forall k, k ∈ ENV_CREDENTIALS -> obj_get k n = set_value (jget k (JObj es))) /\
  obj_get "token" n = set_value (jget "token" (JObj (obj_of_entries (default [] existing)))).
Proof.
  intros Hes%collected_keys Hn%normalized_keys.
  assert (Hnd : NoDup (List.map fst es)) by (rewrite Hes; unfold ENV_CREDENTIALS; nodup_literals).
  assert (Hget : forall k, k ∈ HOST_SECRET_KEYS -> obj_get k n = set_value (jget k (merged_secrets existing es))).
  { intros k Hk. rewrite (normalize_get _ _ _ _ k host_keys_NoDup Hn), bool_decide_true by done.
    unfold set_value. cbn [andb]. by destruct (skipped _). }
  assert (Hm : forall k, jget k (merged_secrets existing es) =
     match obj_get k es with Some v => v | None => jget k (JObj (obj_spread [] (default [] existing))) end).
  { intros k. unfold merged_secrets. cbn [jget]. rewrite obj_get_spread by done. by destruct (obj_get k es). }
  split.
  - intros k Hk. rewrite Hget by (by apply env_in_host). rewrite Hm. cbn [jget].
    destruct (obj_get k es) eqn:Hg; [done|]. apply obj_get_None in Hg. by rewrite Hes in Hg.
  - rewrite Hget by (refine (proj1 (bool_decide_spec _) _); vm_compute; exact I). rewrite Hm.
    rewrite (proj2 (obj_get_None "token" es)); [|by rewrite Hes; refine (proj1 (bool_decide_spec _) _); vm_compute]. reflexivity.
Qed.

Lemma migration_spec envPath host (w w' : world S) r :
  host <> MIGRATION_MARKER_HOST_ID ->
  runDesktopSecretsMigration envPath host w = (Return r, w') ->
  (forall k, k ∈ SECRET_ENV_KEYS -> w_env w' !! k = None) /\
  (migrated r = false -> w_files w' = w_files w /\ stored_secrets host (w_store w) (secrets r) /\
     fst (sr_get host (w_store w')) = fst (sr_get host (w_store w))) /\
  (migrated r = true -> exists es existing n,
     fst (collectEnvSecrets w) = Return es /\ stored_secrets host (w_store w) existing /\
     secrets r = Some n /\ stored_secrets host (w_store w') (Some n) /\
     (forall k, k ∈ ENV_CREDENTIALS -> obj_get k n = set_value (jget k (JObj es))) /\
     obj_get "token" n = set_value (jget "token" (JObj (obj_of_entries (default [] existing))))).
Proof.
  intros Hne. unfold runDesktopSecretsMigration, clear_env, stored_secrets. run_eff.
  rewrite on_store_get. destruct (fst (sr_get MIGRATION_MARKER_HOST_ID (w_store w))) as [marker|]; [|discriminate].
  rewrite on_store_get. destruct (fst (sr_get host (w_store w))) as [existing|] eqn:Hex; [|discriminate].
  destruct marker.
  { intros [= <- <-]. cbn. split_and!; [intros k; apply clear_env_gone|done|discriminate]. }
  pose proof (collect_pure w) as Hc. destruct (collectEnvSecrets w) as [[es|e] w1] eqn:Hes; cbn in Hc; subst w1; [|discriminate].
  apply (f_equal fst) in Hes. cbn [fst] in Hes.
  destruct (negb (hasHostSecrets (Some es))).
  { rewrite on_store_set. destruct (sr_set _ _ (w_store w)) as [[[]|e] s1] eqn:Hm; cbn [fst]; [|discriminate].
    intros [= <- <-]. cbn. split_and!; [intros k; apply clear_env_gone|intros _|discriminate].
    split_and!; [done|done|]. destruct (sr_set_ok _ _ _ _ Hm) as (m & _ & _ & Hother). by rewrite Hother. }
  rewrite on_store_set. destruct (sr_set host _ (w_store w)) as [[[]|e] s1] eqn:Hset; cbn [fst snd]; [|discriminate].
  rewrite on_store_get. cbn [w_store]. destruct (fst (sr_get host s1)) as [verified|] eqn:Hv; [|discriminate].
  destruct (hasHostSecrets verified) eqn:Hh; cbn [negb]; [|discriminate]. set (w1 := World _ _ s1).
  destruct (cleanup_only envPath w1) as (He & Hs & _).
  destruct (cleanupEnvFile envPath w1) as [[cleaned|e] w2]; cbn in He, Hs; [|discriminate].
  rewrite on_store_set. cbn [w_store]. rewrite Hs.
  destruct (sr_set MIGRATION_MARKER_HOST_ID marker_value s1) as [[[]|e] s3] eqn:Hm; cbn [fst snd]; [|discriminate].
  intros [= <- <-]. cbn. split_and!; [intros k; apply clear_env_gone|discriminate|intros _].
  destruct (sr_set_ok _ _ _ _ Hset) as (n & Hn & Hread & _). specialize (Hread _ Hv) as ->.
  exists es, existing, n. destruct (merged_get w es existing n Hes Hn) as [Hk Ht]. split_and!; try done.
  destruct (sr_set_ok _ _ _ _ Hm) as (m & _ & _ & Hother). by rewrite Hother.
Qed.
(** What a migration that returns has done.  The secret variables are gone from the
    environment; without a migration the store's credentials and every file are as they
    were; with one, the store holds the credentials of the environment, a stored token is
    kept, and any other stored credential the environment does not set is lost. *)
Theorem migration_outcome envPath host (w w' : world S) r :
  host <> MIGRATION_MARKER_HOST_ID ->
  runDesktopSecretsMigration envPath host w = (Return r, w') ->
  (forall k, k ∈ SECRET_ENV_KEYS -> w_env w' !! k = None) /\
  (migrated r = false -> w_files w' = w_files w /\ stored_secrets host (w_store w) (secrets r) /\
     fst (sr_get host (w_store w')) = fst (sr_get host (w_store w))) /\
  (migrated r = true -> exists es existing n,
     fst (collectEnvSecrets w) = Return es /\ stored_secrets host (w_store w) existing /\
     secrets r = Some n /\ stored_secrets host (w_store w') (Some n) /\
     (forall k, k ∈ ENV_CREDENTIALS -> obj_get k n = set_value (jget k (JObj es))) /\
     obj_get "token" n = set_value (jget "token" (JObj (obj_of_entries (default [] existing))))).
Proof. apply migration_spec. Qed.
End migration_theorems.

(** * The theorems at work *)

Definition willing_keytar : KeytarHost := {| keytar_load := None; keytar_refuses := fun _ _ => None |}.
Definition open_files : FileHost := {| read_fails := fun _ => None; write_fails := fun _ => None |}.
#[local] Existing Instance willing_keytar.
#[local] Existing Instance open_files.
#[local] Instance given_repository : SecretsRepository keytar_store := Keytar.repository true.
#[local] Instance given_laws : SecretsRepositoryLaws keytar_store := keytar_laws true.

Definition stored_before : keytar_store := <["host:default" := "{" +:+ dq +:+ "token" +:+ dq +:+ ":" +:+ dq +:+ "t" +:+ dq +:+ "}"]> ∅.
Definition before : world keytar_store :=
  World (<["SSH_PASSWORD" := "s3cret"]> ∅) (<[".env" := "A=1" +:+ nl +:+ "SSH_PASSWORD=s3cret"]> ∅) stored_before.
Definition migration_run : outcome migration_result * world keytar_store :=
  runDesktopSecretsMigration (S := keytar_store) (Some ".env") "default" before.
Definition after : world keytar_store := snd migration_run.
Definition migration_report : migration_result :=
  Migration "default" true true (Some [("password", JStr "s3cret"); ("token", JStr "t")]).

Lemma keytar_roundtrip_witness :
  exists n, obj_get "password" n = Some (JStr "p") /\ obj_get "username" n = None /\
    fst (Keytar.get true "h" (snd (Keytar.set true "h" (JObj [("password", JStr "p")]) ∅))) = Return (Some n).
Proof.
  destruct (proj1 (proj2 (keytar_roundtrip true "h" (JObj [("password", JStr "p")]) ∅))
              (snd (Keytar.set true "h" (JObj [("password", JStr "p")]) ∅))) as (n & Hk & _ & Hg & _).
  { vm_compute. reflexivity. }
  exists n. split; [apply (Hk "password"); apply list_elem_of_In; simpl; tauto|].
  split; [apply (Hk "username"); apply list_elem_of_In; simpl; tauto|]. exact (f_equal fst Hg).
Defined.

Lemma migration_keeps_credentials_witness :
  w_files after = w_files before \/
  exists n, hasHostSecrets (Some n) = true /\ stored_secrets "default" (w_store after) (Some n).
Proof. apply (migration_keeps_credentials (Some ".env") "default" before). discriminate. Defined.

Lemma migration_outcome_witness :
  migration_run = (Return migration_report, after) /\ w_env after !! "SSH_PASSWORD" = None.
Proof.
  assert (Hr : migration_run = (Return migration_report, after)).
  { rewrite (surjective_pairing migration_run). apply (f_equal (fun o => (o, snd migration_run))). vm_compute. reflexivity. }
  split; [exact Hr|].
  apply (proj1 (migration_outcome (Some ".env") "default" before after migration_report ltac:(discriminate) Hr)).
  right. left.
Defined.
