(* ===== verification/WebPage.v ===== *)
(** * The routes page of the web application

    apps/web/src/processes/useRouteOperations.ts ([RouteOps]), useRoutePreview.ts and
    useRoutesList.ts, apps/web/src/pages/routes/model/useRoutesPage.ts ([Page]),
    apps/web/src/processes/integrations/storeIntegrations.ts ([Integrations]) and
    packages/shared/src/lib/factories.ts ([Factories]).

    A hook's handler runs on the state of its component and of the stores below it; what its
    closure captured when the component rendered is an argument.  The notices and success
    messages are texts in Russian: they are named by the constructors of two types. *)

From S2P Require Import Prelude JsString Regex JsValue Dates Json Secrets Zod Schemas ConfigGenerator.
From S2P Require Import Repositories UseCases Stores.

(** ** packages/shared/src/lib/factories.ts *)
Module Factories.
Definition createLocationConfig (overrides : obj) : jsval :=
  JObj (obj_spread [("path", JStr "/"); ("proxy_pass", JUndef); ("try_files", JUndef); ("index", JUndef);
                    ("extra_directives", JUndef)] overrides).

Definition createAdvancedConfig (overrides : obj) : jsval :=
  JObj (obj_spread [("client_max_body_size", JStr "1m"); ("keepalive_timeout", JStr "65s"); ("gzip", JBool false);
                    ("gzip_types", JUndef); ("caching", JBool false); ("cache_valid", JUndef)] overrides).

Definition createRoute (uuid : string) (now : Z) (overrides : obj) : jsval :=
  JObj (obj_spread
    [("id", JStr uuid); ("domain", JStr "sh.ru"); ("port", JNum (NInt 80)); ("root", JStr "/");
     ("enabled", JBool true); ("ssl", JBool false); ("ssl_certificate", JStr ""); ("ssl_certificate_key", JStr "");
     ("proxy_pass", JUndef); ("locations", JArr []); ("advanced", createAdvancedConfig []);
     ("metadata", JObj [("createdAt", JDate (Some now)); ("updatedAt", JDate (Some now));
                        ("createdBy", JStr "system"); ("tags", JArr [])])] overrides).

Definition createLogEntry (uuid : string) (now : Z) (overrides : obj) : jsval :=
  JObj (obj_spread [("id", JStr uuid); ("timestamp", JDate (Some now)); ("level", JStr "info"); ("message", JStr "");
                    ("source", JStr "system")] overrides).

Definition createServerState (now : Z) (overrides : obj) : jsval :=
  JObj (obj_spread
    [("status", JStr "stopped");
     ("stats", JObj [("requests", JNum (NInt 0)); ("traffic", JStr "0b"); ("activeConnections", JNum (NInt 0));
                     ("uptime", JNum (NInt 0)); ("cpuUsage", JNum (NInt 0)); ("memoryUsage", JNum (NInt 0))]);
     ("version", JStr "0.0.0"); ("lastUpdated", JDate (Some now))] overrides).
End Factories.

(** ** apps/web/src/processes/useRouteOperations.ts *)
Module RouteOps.
Inductive message := Saved | Updated | Done | Deleted.
Record ops := Ops { loading : bool; error : option string; success : option message }.
Definition init : ops := Ops false None None.

Definition setLoading (b : bool) (o : ops) : ops := Ops b (error o) (success o).
Definition setError (e : option string) (o : ops) : ops := Ops (loading o) e (success o).
Definition setSuccess (m : option message) (o : ops) : ops := Ops (loading o) (error o) m.

Section operations.
Context {S : Type} `{RouteRepository S} `{Zod} `{HostDate}.

(** The routes store beside the repository it persists to, and the hook's state above it. *)
Abbreviation store := (RoutesStore.state * S)%type.
Abbreviation world := (ops * store)%type.

Definition set (f : ops -> ops) : eff world unit := fun w => (Return tt, (f (fst w), snd w)).
Definition on_store {A} (m : eff store A) : eff world A := fun w =>
  let (o, s') := m (snd w) in (o, (fst w, s')).

(** [null] is [None]; a thrown value that is no [Error] has no message to redact. *)
Definition wrap {A} (fn : eff store A) (successMessage : message) : eff world (option A) :=
  _ ← set (setLoading true);
  _ ← set (setError None);
  _ ← set (setSuccess None);
  try_finally
    (try_catch
      (res ← on_store fn;
       _ ← set (setSuccess (Some successMessage));
       mret (Some res))
      (fun e =>
         if instanceof_Error e
         then _ ← set (setError (Some (redactPotentialSecrets (err_message e)))); mret None
         else throw type_error))
    (fun w => (setLoading false (fst w), snd w)).

(** [captured] is what the adapter of the last render reads. *)
Definition create (captured data : obj) (now : Z) (suffix : string) : eff world (option unit) :=
  let _ := RoutesStore.createRouteRepositoryAdapter captured in
  wrap (_ ← UseCases.createRoute data now suffix; RoutesStore.loadRoutes) Saved.

Definition update (captured : obj) (id : string) (updates : obj) (now : Z) : eff world (option unit) :=
  let _ := RoutesStore.createRouteRepositoryAdapter captured in
  wrap (_ ← UseCases.updateRoute id updates now; RoutesStore.loadRoutes) Updated.

Definition toggle (captured : obj) (id : string) (now : Z) : eff world (option unit) :=
  let _ := RoutesStore.createRouteRepositoryAdapter captured in
  wrap (_ ← UseCases.toggleRouteStatus id now; RoutesStore.loadRoutes) Done.

Definition remove (captured : obj) (id : string) : eff world (option unit) :=
  let _ := RoutesStore.createRouteRepositoryAdapter captured in
  wrap (_ ← repo_delete id; RoutesStore.loadRoutes) Deleted.

Definition reset : eff world unit := set (fun _ => Ops false None None).
End operations.
End RouteOps.

(** ** apps/web/src/pages/routes/model/useRoutesPage.ts *)
Module Page.

(** The notices the page shows ([toast.success] and [toast.error]). *)
Inductive notice :=
  | Created | Changed | SaveFailed | Toggled | ToggleFailed | Removed | RemoveFailed
  | LocationRemoved | LocationRemoveFailed | LocationInvalid | LocationInvalidEn | LocationSaved | LocationSaveFailed.

(** The hook's flags, the notices shown so far, the values of its form, and the modal's store. *)
Record page := PageState {
  isSaving : bool;
  isRemoving : bool;
  isSavingLocation : bool;
  isRemovingLocation : bool;
  notices : list notice;
  form : jsval;
  modal : ModalStore.state
}.

Definition setIsSaving (b : bool) (p : page) : page :=
  PageState b (isRemoving p) (isSavingLocation p) (isRemovingLocation p) (notices p) (form p) (modal p).
Definition setIsRemoving (b : bool) (p : page) : page :=
  PageState (isSaving p) b (isSavingLocation p) (isRemovingLocation p) (notices p) (form p) (modal p).
Definition setIsSavingLocation (b : bool) (p : page) : page :=
  PageState (isSaving p) (isRemoving p) b (isRemovingLocation p) (notices p) (form p) (modal p).
Definition setIsRemovingLocation (b : bool) (p : page) : page :=
  PageState (isSaving p) (isRemoving p) (isSavingLocation p) b (notices p) (form p) (modal p).
Definition toast (n : notice) (p : page) : page :=
  PageState (isSaving p) (isRemoving p) (isSavingLocation p) (isRemovingLocation p) (notices p ++ [n]) (form p) (modal p).
Definition setForm (v : jsval) (p : page) : page :=
  PageState (isSaving p) (isRemoving p) (isSavingLocation p) (isRemovingLocation p) (notices p) v (modal p).
Definition setModal (m : ModalStore.state) (p : page) : page :=
  PageState (isSaving p) (isRemoving p) (isSavingLocation p) (isRemovingLocation p) (notices p) (form p) m.

Section handlers.
Context {S : Type} `{RouteRepository S} `{Zod} `{HostDate}.

Abbreviation operations := (RouteOps.ops * (RoutesStore.state * S))%type.
Abbreviation world := (page * operations)%type.

Definition set (f : page -> page) : eff world unit := fun w => (Return tt, (f (fst w), snd w)).
Definition on_ops {A} (m : eff operations A) : eff world A := fun w =>
  let (o, s') := m (snd w) in (o, (fst w, s')).
Definition finally (f : page -> page) (w : world) : world := (f (fst w), snd w).

(** *** Route actions *)
Definition openForCreate (uuid : string) (now : Z) : eff world unit :=
  _ ← set (fun p => setModal (ModalStore.openForCreate (modal p)) p);
  set (setForm (Factories.createRoute uuid now [])).

Definition openForEdit (route : jsval) : eff world unit :=
  _ ← set (fun p => setModal (ModalStore.openForEdit (modal p)) p);
  set (setForm route).

Definition closeModal : eff world unit :=
  _ ← set (fun p => setModal (ModalStore.closeModal (modal p)) p);
  on_ops RouteOps.reset.

(** [RouteSchema.parse({ ...rest, id })] *)
Definition with_id_last (values : jsval) : jsval :=
  JObj (obj_set "id" (jget "id" values) (obj_remove "id" (obj_spread [] (spread_props values)))).

Definition is_create (m : ModalStore.mode) : bool :=
  match m with ModalStore.create => true | ModalStore.edit => false end.

(** The body of [onSubmit] and of [saveRouteForce], with the mode and the routes of the render
    and the values it saves. *)
Definition save_values (mode : ModalStore.mode) (captured : obj) (values : jsval) (now : Z) (suffix : string)
    : eff world unit :=
  _ ← set (setIsSaving true);
  try_finally
    (try_catch
      (_ ← (if is_create mode || negb (truthy (jget "id" values)) then
              route ← lift_outcome (parse RouteSchema values);
              _ ← on_ops (RouteOps.create captured (spread_props route) now suffix);
              set (toast Created)
            else
              route ← lift_outcome (parse RouteSchema (with_id_last values));
              _ ← on_ops (RouteOps.update captured (str_of (jget "id" values)) (spread_props route) now);
              set (toast Changed));
       closeModal)
      (fun _ => set (toast SaveFailed)))
    (finally (setIsSaving false)).

(** [form.handleSubmit] calls it with the values its resolver accepted. *)
Definition onSubmit := save_values.
(** It reads the values itself. *)
Definition saveRouteForce (mode : ModalStore.mode) (captured : obj) (now : Z) (suffix : string) : eff world unit :=
  w ← get_state; save_values mode captured (form (fst w)) now suffix.

Definition onToggle (captured : obj) (id : string) (now : Z) : eff world unit :=
  try_catch
    (_ ← on_ops (RouteOps.toggle captured id now); set (toast Toggled))
    (fun _ => set (toast ToggleFailed)).

Definition onRemove (captured : obj) (id : string) : eff world unit :=
  _ ← set (setIsRemoving true);
  try_finally
    (try_catch
      (_ ← on_ops (RouteOps.remove captured id); set (toast Removed))
      (fun _ => set (toast RemoveFailed)))
    (finally (setIsRemoving false)).

(** *** Location actions *)
Definition start_edit (index : option nat) (value : jsval) (p : page) : page :=
  setModal (ModalStore.startEditLocation index value (modal p)) p.

(** [createLocation({ path: "/" })] has a path and nothing else. *)
Definition new_location : jsval :=
  let loc := createLocation (JObj [("path", JStr "/")]) in
  JObj [("path", js_or (jget "path" loc) (JStr "/")); ("proxy_pass", JUndef);
        ("try_files", js_or (jget "try_files" loc) (JStr "")); ("index", js_or (jget "index" loc) (JStr ""));
        ("extra_directives", js_or (jget "extra_directives" loc) (JStr ""))].

Definition onAddLocation : eff world unit := set (start_edit None new_location).
Definition startEditLocation (index : option nat) (value : jsval) : eff world unit := set (start_edit index value).
Definition onEditLocation (index : nat) (value : jsval) : eff world unit := set (start_edit (Some index) value).

(** [form.getValues("locations")], and the spread or the method call that needs a list. *)
Definition form_locations (p : page) : outcome (list jsval) :=
  match jget "locations" (form p) with JArr l => Return l | _ => Throw type_error end.

(** [form.setValue("locations", next)] *)
Definition set_locations (next : list jsval) (p : page) : page :=
  setForm (JObj (obj_set "locations" (JArr next) (spread_props (form p)))) p.

Definition onDeleteLocation (index : nat) : eff world unit :=
  _ ← set (setIsRemovingLocation true);
  try_finally
    (try_catch
      (w ← get_state;
       current ← lift_outcome (form_locations (fst w));
       _ ← set (set_locations (removeLocation current index));
       set (toast LocationRemoved))
      (fun _ => set (toast LocationRemoveFailed)))
    (finally (setIsRemovingLocation false)).

(** [onSaveLocation] and [onSaveLocationForce] differ in the text of the refusal; [editing] is
    the index of the render. *)
Definition save_location (refusal : notice) (editing : option nat) (value : jsval) : eff world unit :=
  _ ← set (setIsSavingLocation true);
  try_finally
    (try_catch
      (if negb (length (UseCases.validateLocation value) =? 0)%nat then set (toast refusal)
       else
         w ← get_state;
         current ← lift_outcome (form_locations (fst w));
         _ ← set (set_locations (match editing with
                                 | None => addLocationToRoute current value
                                 | Some i => updateLocationInRoute current i value
                                 end));
         _ ← set (start_edit None JNull);
         set (toast LocationSaved))
      (fun _ => set (toast LocationSaveFailed)))
    (finally (setIsSavingLocation false)).
Definition onSaveLocation := save_location LocationInvalid.
Definition onSaveLocationForce := save_location LocationInvalidEn.

(** *** useRoutePreview.ts and useRoutesList.ts *)

(** The preview of the form's values; [None] is the comment shown for values that do not parse. *)
Definition useRoutePreview (values : jsval) : option string :=
  match parse RouteSchema values with
  | Return route => Some (generateConfigPreview route)
  | Throw _ => None
  end.

Definition routes_list (st : RoutesStore.state) : list jsval := List.map snd (RoutesStore.routes st).
End handlers.
End Page.

(** ** apps/web/src/processes/integrations/storeIntegrations.ts *)
Module Integrations.
Section subscriptions.
Context {S : Type} `{RouteRepository S} `{Zod} `{HostDate}.

(** The first subscription: a change of the server's status is logged. *)
Definition log_status_change (st prev : ServerStore.state) (now : Z) (suffix : string) : eff LogsStore.state unit :=
  match handleServerStatusChange (ServerStore.status st) (ServerStore.status prev) now with
  | Some entry => LogsStore.addLog entry now suffix
  | None => mret tt
  end.

(** The second: the form follows the selected route. *)
Definition sync_form (st prev : RoutesStore.state) (form : RouteFormStore.state) : RouteFormStore.state :=
  match handleRouteSelectionChange (RoutesStore.currentRouteId st) (RoutesStore.currentRouteId prev)
          (RoutesStore.routes st) with
  | Some route => RouteFormStore.setFormData route form
  | None =>
      match RoutesStore.currentRouteId st, RoutesStore.currentRouteId prev with
      | None, Some _ => RouteFormStore.resetForm form
      | _, _ => form
      end
  end.

(** The third: every change of a store that holds routes starts a timer of a second. *)
Definition autosave (st : RoutesStore.state) (timers : nat) : nat :=
  match RoutesStore.routes st with [] => timers | _ => Datatypes.S timers end.

(** The stores with the number of autosave timers that run. *)
Abbreviation world := (RoutesStore.state * S * nat)%type.

(** A timer fires: the routes are saved; a failure sets the store's error, which is a change
    the subscription sees. *)
Definition fire (w : world) : world :=
  match snd w with
  | O => w
  | Datatypes.S timers =>
      let (o, w') := RoutesStore.saveRoutes (fst w) in
      (w', match o with Return true => timers | _ => autosave (fst w') timers end)
  end.
End subscriptions.
End Integrations.

(** * What the factories make is of the type they declare *)

Section factories_theorems.
Context `{ZodLaws} `{HostDate}.

(** The fields of a schema of objects. *)
Definition schema_shape (s : schema) : list (string * schema) :=
  match s with ZObject fs | ZSuperRefine (ZObject fs) _ => fs | _ => [] end.

(** Overrides whose values the schemas of their fields accept, and that leave some fields alone. *)
Definition typed_overrides (s : schema) (o : obj) : Prop :=
  forall k f v, (k, f) ∈ schema_shape s -> obj_get k o = Some v -> makeValidator f v = true.
Definition untouched (ks : list string) (o : obj) : Prop := Forall (fun k => obj_get k o = None) ks.

Lemma spread_fields base o k :
  NoDup (List.map fst o) -> jget k (JObj (obj_spread base o)) =
  match obj_get k o with Some v => v | None => jget k (JObj base) end.
Proof. intros Ho. by apply jget_spread. Qed.

(** Overridden defaults are of the type exactly when the overrides are. *)
Lemma spread_accepted fs base o :
  NoDup (List.map fst o) -> is_Some (accept_fields base fs) ->
  is_Some (accept (ZObject fs) (JObj (obj_spread base o))) <-> typed_overrides (ZObject fs) o.
Proof.
  intros Ho [b Hb]. rewrite accept_object. cbn [object_props]. unfold typed_overrides. cbn [schema_shape]. split.
  - intros [w Hw] k f v Hin Hv. destruct (accept_fields (obj_spread base o) fs) as [w'|] eqn:Hf; [|done].
    apply validate_accept. destruct (accept_fields_all _ _ _ _ _ Hf Hin) as [x Hx].
    rewrite spread_fields, Hv in Hx by done. by exists x.
  - intros Hty. destruct (accept_fields_total (obj_spread base o) fs) as [w ->]; [|by eexists].
    intros k f Hin. rewrite spread_fields by done. destruct (obj_get k o) as [v|] eqn:Hv.
    + apply validate_accept. by eapply Hty.
    + by eapply accept_fields_all.
Qed.

(** The same for a schema with a refinement that raises no issue when some fields have their
    defaults. *)
Lemma spread_refined fs f base o ks :
  NoDup (List.map fst o) -> NoDup (List.map fst fs) -> untouched ks o -> is_Some (accept_fields base fs) ->
  (forall u, (forall k s, k ∈ ks -> obj_get k fs = Some s -> accept s (jget k (JObj base)) = Some (jget k u)) ->
     snd (f u) = []) ->
  makeValidator (ZSuperRefine (ZObject fs) f) (JObj (obj_spread base o)) = true <->
  typed_overrides (ZSuperRefine (ZObject fs) f) o.
Proof.
  intros Ho Hfs Hun Hb Hf. rewrite validate_accept. setoid_rewrite accept_superRefine.
  change (typed_overrides _ o) with (typed_overrides (ZObject fs) o). rewrite <- (spread_accepted fs base o Ho Hb). split.
  - intros (w & u & Hu & _). by exists u.
  - intros [u Hu]. exists (fst (f u)), u. split; [done|]. rewrite (surjective_pairing (f u)) at 1. f_equal. apply Hf.
    intros k s Hk Hs. pose proof (proj1 (List.Forall_forall _ _) Hun k (proj1 (list_elem_of_In _ _) Hk)) as Hnone. cbn beta in Hnone.
    rewrite accept_object in Hu. cbn [object_props] in Hu.
    destruct (accept_fields (obj_spread base o) fs) as [w|] eqn:Hw; [|done]. injection Hu as <-.
    pose proof (accept_fields_get _ _ _ _ _ Hw Hfs Hs) as Hg. by rewrite spread_fields, Hnone in Hg.
Qed.

Lemma route_refined u : route_rules u -> snd (Route_refine u) = [].
Proof. intros Hr. by rewrite (proj2 (Route_refine_spec u _) (conj Hr eq_refl)). Qed.

(** The value a field of the defaults is parsed to. *)
Ltac default_field H k :=
  let Hk := fresh "Hk" in let He := fresh in
  pose proof (H k _ ltac:(apply list_elem_of_In; simpl; tauto) eq_refl) as Hk;
  match type of Hk with
  | ?l = Some _ =>
      let r := eval vm_compute in l in
      assert (He : l = r) by (vm_compute; reflexivity); rewrite He in Hk; clear He; injection Hk as Hk; symmetry in Hk
  end.

Lemma route_factory_rules uuid now u :
  (forall k s, k ∈ ["ssl"; "proxy_pass"; "root"; "port"; "locations"] -> obj_get k Route_shape = Some s ->
     accept s (jget k (Factories.createRoute uuid now [])) = Some (jget k u)) -> route_rules u.
Proof.
  intros Hu. default_field Hu "ssl". default_field Hu "proxy_pass". default_field Hu "root". default_field Hu "port".
  default_field Hu "locations".
  constructor; unfold location_paths; rewrite ?Hk, ?Hk0, ?Hk1, ?Hk2, ?Hk3; try done. apply NoDup_nil_2.
Qed.

(** C40.  Whatever the id, the clock and the overrides: a log entry or a server state of the
    factories is accepted by the schema of its type exactly when every override is accepted by
    the schema of its field.  So is a location, an advanced configuration or a route, when the
    overrides leave alone the fields that the rules between fields are about: a location's
    [try_files] and directives, the two switches of an advanced configuration, a route's SSL
    flag, proxy target, root, port and locations.  The route a new form starts with is stored
    without the two empty certificate paths. *)
Theorem factories_typed uuid now o :
  NoDup (List.map fst o) ->
  (validateLogEntry (Factories.createLogEntry uuid now o) = true <-> typed_overrides LogEntrySchema o) /\
  (validateServerState (Factories.createServerState now o) = true <-> typed_overrides ServerStateSchema o) /\
  (untouched ["try_files"; "extra_directives"] o ->
     Schemas.validateLocation (Factories.createLocationConfig o) = true <-> typed_overrides LocationConfigSchema o) /\
  (untouched ["gzip"; "caching"] o ->
     validateAdvancedConfig (Factories.createAdvancedConfig o) = true <-> typed_overrides AdvancedConfigSchema o) /\
  (untouched ["ssl"; "proxy_pass"; "root"; "port"; "locations"] o ->
     validateRoute (Factories.createRoute uuid now o) = true <-> typed_overrides RouteSchema o) /\
  parse RouteSchema (Factories.createRoute uuid now []) =
    Return (jset "ssl_certificate_key" JUndef (jset "ssl_certificate" JUndef (Factories.createRoute uuid now []))).
Proof.
  intros Ho. split_and!.
  - unfold validateLogEntry. rewrite validate_accept. apply spread_accepted; [done|]. eexists. vm_compute. reflexivity.
  - unfold validateServerState. rewrite validate_accept. apply spread_accepted; [done|]. eexists. vm_compute. reflexivity.
  - intros Hun.
    apply (spread_refined LocationConfig_shape LocationConfig_refine _ o ["try_files"; "extra_directives"] Ho); [nodup_literals|exact Hun|eexists; vm_compute; reflexivity|].
    intros u Hu. default_field Hu "try_files". default_field Hu "extra_directives". unfold LocationConfig_refine.
    by rewrite Hk, Hk0, andb_false_r.
  - intros Hun.
    apply (spread_refined AdvancedConfig_shape AdvancedConfig_refine _ o ["gzip"; "caching"] Ho); [nodup_literals|exact Hun|eexists; vm_compute; reflexivity|].
    intros u Hu. default_field Hu "gzip". default_field Hu "caching".
    destruct (AdvancedConfig_refine_spec u (clear_advanced u)) as [_ Hr]. rewrite Hr; [done|]. split; [|done].
    split; [rewrite Hk|rewrite Hk0]; done.
  - intros Hun.
    apply (spread_refined Route_shape Route_refine _ o ["ssl"; "proxy_pass"; "root"; "port"; "locations"] Ho); [nodup_literals|exact Hun|eexists; vm_compute; reflexivity|].
    intros u Hu. by apply route_refined, (route_factory_rules uuid now).
  - apply parse_accept_iff. vm_compute. reflexivity.
Qed.
End factories_theorems.

(** * Operations settle *)
Section operations_theorems.
Context {S : Type} `{RouteRepository S} `{Zod} `{HostDate}.

Abbreviation operations := (RouteOps.ops * (RoutesStore.state * S))%type.

Lemma wrap_spec {A} (fn : eff (RoutesStore.state * S) A) m o s :
  RouteOps.wrap fn m (o, s) =
  match fn s with
  | (Return a, s') => (Return (Some a), (RouteOps.Ops false None (Some m), s'))
  | (Throw e, s') =>
      if instanceof_Error e
      then (Return None, (RouteOps.Ops false (Some (redactPotentialSecrets (err_message e))) None, s'))
      else (Throw type_error, (RouteOps.Ops false None None, s'))
  end.
Proof.
  unfold RouteOps.wrap, RouteOps.on_store, RouteOps.set. run_eff.
  cbn [fst snd]. destruct (fn s) as [[a|e] s']; [reflexivity|]. by destruct (instanceof_Error e).
Qed.

(** How an operation ends: the flag down; on success the message and no error, on failure a
    redacted error and no message, with [null] for an answer. *)
Definition op_settled (q : outcome (option unit)) (o : RouteOps.ops) : Prop :=
  RouteOps.loading o = false /\
  match q with
  | Return (Some _) => RouteOps.error o = None /\ RouteOps.success o <> None
  | Return None =>
      RouteOps.success o = None /\ exists m, RouteOps.error o = Some m /\ test bearer_pattern m = false
  | Throw _ => RouteOps.error o = None /\ RouteOps.success o = None
  end.

Lemma wrap_settled (fn : eff (RoutesStore.state * S) unit) m w :
  let (q, w') := RouteOps.wrap fn m w in op_settled q (fst w').
Proof.
  destruct w as [o s]. rewrite wrap_spec. destruct (fn s) as [[[]|e] s']; [by split_and!|].
  destruct (instanceof_Error e); [|by split_and!]. split; [reflexivity|]. split; [reflexivity|].
  eexists. split; [reflexivity|apply redacted_no_bearer].
Qed.

(** Every operation of the hook. *)
Definition operation (op : eff operations (option unit)) : Prop :=
  (exists captured data now sfx, op = RouteOps.create captured data now sfx) \/
  (exists captured id updates now, op = RouteOps.update captured id updates now) \/
  (exists captured id now, op = RouteOps.toggle captured id now) \/
  (exists captured id, op = RouteOps.remove captured id).

Lemma operation_settled op w : operation op -> let (q, w') := op w in op_settled q (fst w').
Proof.
  intros [(captured & data & now & sfx & ->)|[(captured & id & u & now & ->)|[(captured & id & now & ->)|(captured & id & ->)]]];
    apply wrap_settled.
Qed.

(** * The page reports success whatever happened *)

Abbreviation pworld := (Page.page * operations)%type.

(** What a submission does with the values: the operation and the notice of its success. *)
Definition submitted (mode : ModalStore.mode) (captured : obj) (values : jsval) (now : Z) (suffix : string)
    : outcome (eff operations (option unit) * Page.notice) :=
  if Page.is_create mode || negb (truthy (jget "id" values)) then
    route ← parse RouteSchema values;
    Return (RouteOps.create captured (spread_props route) now suffix, Page.Created)
  else
    route ← parse RouteSchema (Page.with_id_last values);
    Return (RouteOps.update captured (str_of (jget "id" values)) (spread_props route) now, Page.Changed).

Lemma save_values_spec mode captured values now suffix (p : Page.page) (w : operations) :
  Page.save_values mode captured values now suffix (p, w) =
  let p := Page.setIsSaving true p in
  match submitted mode captured values now suffix with
  | Throw _ => (Return tt, (Page.setIsSaving false (Page.toast Page.SaveFailed p), w))
  | Return (op, n) =>
      match op w with
      | (Throw _, w') => (Return tt, (Page.setIsSaving false (Page.toast Page.SaveFailed p), w'))
      | (Return _, w') =>
          (Return tt,
           (Page.setIsSaving false (Page.setModal (ModalStore.closeModal (Page.modal p)) (Page.toast n p)),
            (RouteOps.init, snd w')))
      end
  end.
Proof.
  unfold Page.save_values, submitted, Page.set, Page.on_ops, Page.closeModal, Page.finally, outcome_bind. run_eff.
  destruct (Page.is_create mode || negb (truthy (jget "id" values))).
  - destruct (parse RouteSchema values) as [route|e]; [|reflexivity]. cbn [fst snd].
    destruct (RouteOps.create _ _ _ _ w) as [[q|e] w']; reflexivity.
  - destruct (parse RouteSchema _) as [route|e]; [|reflexivity]. cbn [fst snd].
    destruct (RouteOps.update _ _ _ _ w) as [[q|e] w']; reflexivity.
Qed.

(** C35.  Saving from the page always ends, with the saving flag down and one notice.  Values
    the schema refuses give the failure notice and reach neither the store nor the
    repository.  Otherwise the operation is run, and when it answers at all, even with the
    [null] of a failure whose message the hook then holds, the page shows the success
    notice, closes the modal and erases that message.  Only an operation that throws gives the
    failure notice, with the modal left open and the hook and the stores as it left them. *)
Theorem submit_reports_success mode captured values now suffix (p : Page.page) (w : operations) :
  let (o, w') := Page.save_values mode captured values now suffix (p, w) in
  o = Return tt /\ Page.isSaving (fst w') = false /\
  match submitted mode captured values now suffix with
  | Throw _ => Page.notices (fst w') = Page.notices p ++ [Page.SaveFailed] /\ Page.modal (fst w') = Page.modal p /\ snd w' = w
  | Return (op, n) =>
      operation op /\ op_settled (fst (op w)) (fst (snd (op w))) /\ snd (snd w') = snd (snd (op w)) /\
      (is_return (fst (op w)) = true ->
         Page.notices (fst w') = Page.notices p ++ [n] /\ ModalStore.modalOpen (Page.modal (fst w')) = false /\
         fst (snd w') = RouteOps.init) /\
      (is_return (fst (op w)) = false ->
         Page.notices (fst w') = Page.notices p ++ [Page.SaveFailed] /\ Page.modal (fst w') = Page.modal p /\
         snd w' = snd (op w))
  end.
Proof.
  rewrite save_values_spec. assert (Hop : forall op n, submitted mode captured values now suffix = Return (op, n) -> operation op).
  { intros op n. unfold submitted, mbind, outcome_bind.
    destruct (Page.is_create mode || negb (truthy (jget "id" values))); destruct (parse RouteSchema _) as [route|e];
      try discriminate; intros Hr%Return_inj; injection Hr as <- _; [left|right; left]; by repeat eexists. }
  destruct (submitted mode captured values now suffix) as [[op n]|e]; [|by split_and!].
  specialize (Hop op n eq_refl). pose proof (operation_settled op w Hop) as Hs.
  destruct (op w) as [[q|e] w']; cbn [fst snd is_return]; by split_and!.
Qed.
End operations_theorems.

(** * Autosave *)
Section autosave_theorems.
Context {S : Type} `{RouteRepository S}.

Lemma saveRoutes_spec (st : RoutesStore.state) (s : S) :
  RoutesStore.saveRoutes (st, s) =
  match repo_saveAll (RoutesStore.routes st) s with
  | (Return _, s') => (Return true, (st, s'))
  | (Throw e, s') => (Return false, (RoutesStore.set_error e st, s'))
  end.
Proof.
  unfold RoutesStore.saveRoutes, RoutesStore.on_repository, RoutesStore.set. run_eff.
  cbn [fst snd]. by destruct (repo_saveAll _ s) as [[[]|e] s'].
Qed.

(** The stores after [k] seconds in which the next timer fires. *)
Definition fires (k : nat) (w : RoutesStore.state * S * nat) : RoutesStore.state * S * nat := Nat.iter k Integrations.fire w.

(** C38.  Autosaving ends exactly when saving works.  If every save succeeds, [n] timers are
    all spent after [n] firings and the store is as it was; if every save fails while the
    store holds routes, each firing starts the next timer, and the [n] timers are there after
    any number of firings. *)
Theorem autosave_ends st (s : S) n :
  ((forall rs s, exists s', repo_saveAll rs s = (Return tt, s')) ->
     snd (fires n (st, s, n)) = 0%nat /\ fst (fst (fires n (st, s, n))) = st) /\
  ((forall rs s, exists e s', repo_saveAll rs s = (Throw e, s')) -> RoutesStore.routes st <> [] ->
     forall k, snd (fires k (st, s, n)) = n /\ RoutesStore.routes (fst (fst (fires k (st, s, n)))) = RoutesStore.routes st).
Proof.
  split.
  - intros Hok. revert s. unfold fires. induction n as [|n IH]; intros s; [done|]. rewrite Nat.iter_succ_r.
    unfold Integrations.fire at 2 4. cbn [fst snd]. rewrite saveRoutes_spec.
    destruct (Hok (RoutesStore.routes st) s) as (s' & ->). apply IH.
  - intros Hfail Hne k.
    assert (Hk : exists st' s', fires k (st, s, n) = (st', s', n) /\ RoutesStore.routes st' = RoutesStore.routes st);
      [|by destruct Hk as (st' & s' & -> & Hr)].
    induction k as [|k (st' & s' & IH & Hr)]; [by exists st, s|]. unfold fires in *. rewrite Nat.iter_succ, IH.
    unfold Integrations.fire. cbn [fst snd]. destruct n as [|n]; [by exists st', s'|]. rewrite saveRoutes_spec.
    destruct (Hfail (RoutesStore.routes st') s') as (e & s2 & ->).
    exists (RoutesStore.set_error e st'), s2. split; [|done]. unfold Integrations.autosave. cbn [fst snd RoutesStore.routes RoutesStore.set_error].
    rewrite Hr. by destruct (RoutesStore.routes st).
Qed.
End autosave_theorems.

(** A change of the server's status, and nothing else, adds one entry to the log. *)
Lemma status_change_logged st prev now sfx logs :
  exists logs', Integrations.log_status_change st prev now sfx logs = (Return tt, logs') /\
    length (LogsStore.logs logs') =
      (length (LogsStore.logs logs) + if decide (ServerStore.status st = ServerStore.status prev) then 0 else 1)%nat.
Proof.
  unfold Integrations.log_status_change, handleServerStatusChange.
  destruct (decide (ServerStore.status st <> ServerStore.status prev)) as [Hne|Heq].
  - rewrite decide_False by done. unfold LogsStore.addLog, LogsStore.sanitizeLog, LogsStore.redact_message, prop.
    cbn [nullish jget obj_get]. eexists. split; [reflexivity|]. cbn [LogsStore.logs]. by rewrite length_app.
  - destruct (decide (ServerStore.status st = ServerStore.status prev)) as [_|Hn]; [|done].
    exists logs. split; [done|]. lia.
Qed.

(** * The theorems at work *)

#[local] Existing Instance no_host.
#[local] Existing Instance zod_model.
#[local] Existing Instance zod_model_laws.

Lemma factories_typed_witness :
  validateRoute (Factories.createRoute "a1" 0 [("enabled", JBool false)]) = true /\
  validateRoute (Factories.createRoute "a1" 0 [("enabled", JStr "no")]) = false.
Proof.
  assert (Hroute : forall v, untouched ["ssl"; "proxy_pass"; "root"; "port"; "locations"] [("enabled", v)] /\
    NoDup (List.map fst [("enabled", v)])).
  { intros v. split; [repeat constructor|nodup_literals]. }
  assert (Hiff : forall v, validateRoute (Factories.createRoute "a1" 0 [("enabled", v)]) = true <->
    typed_overrides RouteSchema [("enabled", v)]).
  { intros v. apply (factories_typed "a1" 0 [("enabled", v)]); apply Hroute. }
  split.
  - apply Hiff. intros k f v Hin Hv. cbn [obj_get] in Hv. destruct (decide (k = "enabled")) as [->|]; [|discriminate Hv].
    injection Hv as <-. apply list_elem_of_In in Hin. cbn in Hin.
    repeat (destruct Hin as [Hin|Hin]; [try discriminate Hin; injection Hin as <-; vm_compute; reflexivity|]). destruct Hin.
  - apply not_true_is_false. intros Ht. apply Hiff in Ht.
    assert (Hb : makeValidator ZBoolean (JStr "no") = true); [|vm_compute in Hb; discriminate Hb].
    apply (Ht "enabled" ZBoolean); [|reflexivity]. apply list_elem_of_In. cbn. tauto.
Defined.

(** A repository without routes, and a page that edits a route it does not hold. *)
Definition empty_repository : RouteRepository unit := {|
  repo_save := fun _ => mret tt; repo_findById := fun _ => mret None; repo_findAll := mret [];
  repo_delete := fun _ => mret tt; repo_saveAll := fun _ => mret tt; repo_loadAll := mret [] |}.
#[local] Existing Instance empty_repository.

Definition edited_page : Page.page :=
  Page.PageState false false false false [] (Factories.createRoute "gone" 0 [])
    (ModalStore.openForEdit ModalStore.init).

(** The update of a missing route fails, and the page says that the changes are saved. *)
Example missing_route_reported :
  let w := (edited_page, (RouteOps.init, (RoutesStore.init, tt))) in
  let w' := snd (Page.saveRouteForce ModalStore.edit [] 0 "x" w) in
  Page.notices (fst w') = [Page.Changed] /\ RoutesStore.routes (fst (snd (snd w'))) = [].
Proof. vm_compute. by split. Qed.
