(* ===== verification/RoutesFlow.v ===== *)
(** * The routes page over the storage it uses

    The routes store of packages/shared is created with the repository of
    packages/core/src/repositories/LocalStorageRouteRepository.ts.  The first part proves that
    repository's laws; the second follows each operation of the page's hook through the use
    case, the adapter, the store and the storage and shows that a session of operations is a
    session of updates of one map. *)

From S2P Require Import Prelude JsString Regex JsValue Dates Json Secrets Zod Schemas ConfigGenerator.
From S2P Require Import Repositories UseCases Stores WebPage.

(** ** What the storage keeps *)

(** A value written and read back. *)
Definition kept_value (v : jsval) : jsval := default JNull (json_norm v).

(** A route the repository can hold: an object without secrets, its metadata an object. *)
Definition is_object (v : jsval) : bool := match v with JObj _ => true | _ => false end.
Definition holdable (v : jsval) : Prop :=
  val_wf v /\ clean v = true /\ is_object v = true /\
  (jget "metadata" v = JUndef \/ is_object (jget "metadata" v) = true).

(** The form it has there. *)
Definition plain (v : jsval) : Prop := holdable v /\ is_json v.

Definition map_of (P : jsval -> Prop) (m : obj) : Prop :=
  NoDup (List.map fst m) /\ Forall (fun e => no_secret_pattern (fst e) = true /\ P (snd e)) m.

Definition kept_map (m : obj) : obj := List.map (fun e => (fst e, kept_value (snd e))) m.

Lemma norm_clean v w : clean v = true -> json_norm v = Some w -> clean w = true.
Proof.
  revert w. induction v as [| |b|n|s|t|l IH|o IH] using jsval_ind; intros w Hc Hw; try (by injection Hw as <-); try done.
  - injection Hw as <-. by destruct n.
  - destruct t as [t|]; injection Hw as <-; [|done]. apply iso_no_secret, iso_string_chars.
  - injection Hw as <-. cbn [clean] in *. rewrite forallb_Forall in *. apply Forall_map_iff.
    eapply Forall_impl_strong; [|exact Hc]. intros x Hin Hx. cbn beta.
    pose proof (proj1 (List.Forall_forall _ _) IH x Hin) as Hxw. cbn beta in Hxw.
    destruct (json_norm x) as [y|]; [by apply Hxw|done].
  - rewrite json_norm_obj in Hw. injection Hw as <-. rewrite clean_obj in *.
    induction IH as [|[k x] o Hx _ IHo]; [done|]. cbn [clean_props norm_props] in *. bool_hyps. cbn [snd] in Hx.
    destruct (json_norm x) as [y|]; [|by apply IHo]. cbn [clean_props].
    rewrite (Hx y) by done. rewrite IHo by done. by rewrite H.
Qed.

Lemma norm_props_get k o : NoDup (List.map fst o) ->
  obj_get k (norm_props o) = match obj_get k o with Some x => json_norm x | None => None end.
Proof.
  induction o as [|[k' x] o IH]; intros Hnd; [done|]. simpl in Hnd. apply NoDup_cons in Hnd as [Hn Hnd].
  cbn [norm_props obj_get]. destruct (decide (k = k')) as [<-|Hne].
  - destruct (json_norm x) as [y|]; cbn [obj_get]; [by rewrite decide_True|]. rewrite IH by done.
    apply obj_get_None in Hn. by rewrite Hn.
  - destruct (json_norm x) as [y|]; cbn [obj_get]; [rewrite decide_False by done|]; by apply IH.
Qed.

Lemma kept_obj o : kept_value (JObj o) = JObj (norm_props o).
Proof. unfold kept_value. by rewrite json_norm_obj. Qed.

Lemma kept_plain v : holdable v -> plain (kept_value v) /\ json_norm v = Some (kept_value v).
Proof.
  intros (Hwf & Hc & Ho & Hm). destruct v as [| | | | | | |o]; try done.
  rewrite kept_obj, json_norm_obj. split; [|done].
  pose proof (json_norm_ok (JObj o) _ (json_norm_obj o)) as [Hj Hw]. split; [|done]. split; [by apply Hw|].
  split; [by eapply norm_clean, json_norm_obj|]. split; [done|].
  apply val_wf_obj in Hwf as [Hnd _]. cbn [jget] in *. rewrite norm_props_get by done.
  destruct (obj_get "metadata" o) as [x|]; [|by left].
  destruct Hm as [->|Hm]; [by left|]. right. by destruct x.
Qed.

Lemma plain_kept v : plain v -> kept_value v = v.
Proof. intros [_ Hj]. unfold kept_value. by rewrite json_norm_id. Qed.

Lemma kept_map_plain m : map_of plain m -> kept_map m = m.
Proof.
  intros [_ Hf]. unfold kept_map. apply map_all_id. eapply List.Forall_impl; [|exact Hf].
  intros [k x] [_ Hx]. cbn [fst snd] in *. by rewrite plain_kept.
Qed.

Lemma map_of_impl (P Q : jsval -> Prop) m : (forall v, P v -> Q v) -> map_of P m -> map_of Q m.
Proof.
  intros HPQ [Hnd Hf]. split; [done|]. eapply List.Forall_impl; [|exact Hf]. intros e [Hk Hv]. auto.
Qed.

Lemma plain_holdable v : plain v -> holdable v.
Proof. by intros [? _]. Qed.

Lemma kept_map_keys m : List.map fst (kept_map m) = List.map fst m.
Proof. unfold kept_map. by rewrite List.map_map. Qed.

Lemma kept_map_of m : map_of holdable m -> map_of plain (kept_map m).
Proof.
  intros [Hnd Hf]. split; [by rewrite kept_map_keys|]. unfold kept_map. apply Forall_map_iff.
  eapply List.Forall_impl; [|exact Hf]. intros e [Hk Hv]. split; [done|]. by apply kept_plain.
Qed.

Lemma kept_map_set k v m : kept_map (obj_set k v m) = obj_set k (kept_value v) (kept_map m).
Proof.
  induction m as [|[k' x] m IH]; [done|]. cbn [kept_map List.map obj_set fst snd].
  destruct (decide (k = k')); [done|]. cbn [List.map fst snd]. f_equal. exact IH.
Qed.

Lemma map_of_set (P : jsval -> Prop) k v m :
  no_secret_pattern k = true -> P v -> map_of P m -> map_of P (obj_set k v m).
Proof. intros Hk Hv [Hnd Hf]. split; [by apply obj_set_NoDup|]. by apply obj_set_Forall. Qed.

Lemma map_of_remove (P : jsval -> Prop) k m : map_of P m -> map_of P (obj_remove k m).
Proof.
  intros [Hnd Hf]. unfold obj_remove. split; [by apply filter_keys_NoDup|].
  apply List.Forall_forall. intros e He. apply List.filter_In in He as [He _].
  by apply (proj1 (List.Forall_forall _ _) Hf).
Qed.

(** ** The laws of LocalStorageRouteRepository *)
Section local_laws.
Context `{LocalStorageApi}.

(** The routes a read returns. *)
Definition loaded (s : storage) : obj := match LocalStorage.loadAll s with (Return m, _) => m | (Throw _, _) => [] end.

Lemma loadAll_loaded s : LocalStorage.loadAll s = (Return (loaded s), s).
Proof.
  unfold loaded. assert (Hr : exists m, LocalStorage.loadAll s = (Return m, s)); [|by destruct Hr as [m ->]].
  unfold LocalStorage.loadAll, getItem. run_eff. destruct (s !! LocalStorage.key) as [text|]; [|by eexists].
  destruct (nonempty text); [|by eexists].
  destruct (json_parse text) as [v|]; cbn [fst snd]; [|by eexists].
  destruct (LocalStorage.new_Map v); by eexists.
Qed.

(** Writing entries as an array of pairs, and what they are read back as. *)
Definition entry_pair (e : string * jsval) : jsval := JArr [JStr (fst e); kept_value (snd e)].

Lemma entries_sanitized m : map_of holdable m ->
  sanitizeForJson (JArr (List.map LocalStorage.entry_value m)) = JArr (List.map LocalStorage.entry_value m).
Proof.
  intros [_ Hf]. apply sanitize_clean_id.
  - apply val_wf_arr, Forall_map_iff. eapply List.Forall_impl; [|exact Hf]. intros [k v] [_ (Hw & _)]. by repeat split.
  - cbn [clean]. apply forallb_Forall, Forall_map_iff. eapply List.Forall_impl; [|exact Hf].
    intros [k v] [Hk (_ & Hc & _)]. cbn [LocalStorage.entry_value clean forallb fst snd] in *. by rewrite Hk, Hc.
Qed.

Lemma entries_normed m : map_of holdable m ->
  json_norm (JArr (List.map LocalStorage.entry_value m)) = Some (JArr (List.map entry_pair m)).
Proof.
  intros [_ Hf]. cbn [json_norm]. do 2 f_equal. rewrite List.map_map. apply List.map_ext_in. intros [k v] Hin.
  done.
Qed.

Lemma new_Map_entries m : NoDup (List.map fst m) ->
  LocalStorage.new_Map (JArr (List.map entry_pair m)) = Return (kept_map m).
Proof.
  intros Hnd. unfold LocalStorage.new_Map.
  assert (Hm : mapM_out LocalStorage.map_entry (List.map entry_pair m) = Return (kept_map m)).
  { clear Hnd. induction m as [|[k v] m IH]; [done|]. cbn [List.map mapM_out]. unfold mbind, outcome_bind.
    by rewrite IH. }
  rewrite Hm. cbn. f_equal. apply obj_of_entries_id. by rewrite kept_map_keys.
Qed.

Lemma saved_loaded m s s' : map_of holdable m -> LocalStorage.saveAll m s = (Return tt, s') -> loaded s' = kept_map m.
Proof.
  intros Hm. unfold LocalStorage.saveAll, setItem. destruct (rejects _ _ _); [done|]. intros [= <-].
  destruct (json_roundtrip (JArr (List.map LocalStorage.entry_value m)) (JArr (List.map entry_pair m)))
    as [Hst Hparse]; [|by apply entries_normed|].
  { rewrite <- entries_sanitized by done. apply sanitize_wf. apply val_wf_arr, Forall_map_iff.
    eapply List.Forall_impl; [|exact (proj2 Hm)]. intros [k v] [_ (Hw & _)]. by repeat split. }
  unfold loaded, LocalStorage.loadAll, getItem. run_eff. rewrite lookup_insert_eq.
  unfold stringify_array, stringifyWithoutSecrets. rewrite entries_sanitized, Hst by done.
  change (default "" (Some (print (JArr (List.map entry_pair m))))) with (print (JArr (List.map entry_pair m))).
  rewrite print_arr_nonempty, Hparse. cbn [fst snd]. by rewrite new_Map_entries by apply Hm.
Qed.

Lemma save_refused m s e s' : LocalStorage.saveAll m s = (Throw e, s') -> s' = s.
Proof. unfold LocalStorage.saveAll, setItem. destruct (rejects _ _ _); [by intros [= _ <-]|done]. Qed.

Lemma plain_truthy v : plain v -> truthy v = true.
Proof. intros [(_ & _ & Ho & _) _]. by destruct v. Qed.

Lemma map_of_get (P : jsval -> Prop) m k v : map_of P m -> obj_get k m = Some v -> no_secret_pattern k = true /\ P v.
Proof.
  intros [_ Hf] Hg. apply obj_get_In, list_elem_of_In in Hg. apply (proj1 (List.Forall_forall _ _) Hf (k, v) Hg).
Qed.

(** What is stored under an id, as a repository with laws. *)
#[export] Instance local_laws : @RouteRepositoryLaws storage LocalStorage.repository.
Proof.
  refine {| repo_ok s := map_of plain (loaded s); repo_view := loaded;
            repo_holds r := no_secret_pattern (route_id r) = true /\ holdable r; repo_kept := kept_value |}.
  - intros s id Hok. cbn. unfold LocalStorage.findById. run_eff. rewrite loadAll_loaded.
    destruct (obj_get id (loaded s)) as [v|] eqn:Hv; [|done]. destruct (map_of_get _ _ _ _ Hok Hv) as [_ Hp].
    by rewrite plain_truthy.
  - intros s r s' Hok [Hk Hr]. cbn. unfold LocalStorage.save. run_eff. rewrite loadAll_loaded. intros Hs.
    apply (map_of_impl _ _ _ plain_holdable) in Hok as Hok'.
    pose proof (map_of_set _ _ _ _ Hk Hr Hok') as Hset.
    rewrite obj_of_entries_id in Hs by apply Hset. rewrite (saved_loaded _ _ _ Hset Hs), kept_map_set, kept_map_plain by done.
    split; [|done]. apply map_of_set; [done|by apply kept_plain|done].
  - intros s r e s' _. cbn. unfold LocalStorage.save. run_eff. rewrite loadAll_loaded. apply save_refused.
  - intros s id s' Hok. cbn. unfold LocalStorage.delete. run_eff. rewrite loadAll_loaded. intros Hs.
    apply (map_of_impl _ _ _ plain_holdable) in Hok as Hok'. apply (map_of_remove _ id) in Hok, Hok'.
    rewrite obj_of_entries_id in Hs by apply Hok'. rewrite (saved_loaded _ _ _ Hok' Hs), kept_map_plain by done. done.
Defined.
End local_laws.


(** ** One map

    The store shows a map, the storage holds the same one.  An operation is a pure update of
    it, which the storage keeps in its own form. *)

(** A value without secrets, with distinct keys at every level. *)
Definition secretless (v : jsval) : Prop := val_wf v /\ clean v = true.

Definition good_entry (e : string * jsval) : Prop := isSensitiveFieldName (fst e) = false /\ secretless (snd e).

Lemma secretless_obj o : secretless (JObj o) <-> NoDup (List.map fst o) /\ Forall good_entry o.
Proof.
  unfold secretless. rewrite val_wf_obj, clean_obj, clean_props_Forall. unfold good_entry, secretless.
  rewrite !List.Forall_forall. naive_solver.
Qed.

Lemma obj_spread_good o1 o2 : Forall good_entry o1 -> Forall good_entry o2 -> Forall good_entry (obj_spread o1 o2).
Proof. apply obj_spread_Forall. Qed.

Lemma secretless_spread o1 o2 :
  secretless (JObj o1) -> secretless (JObj o2) -> secretless (JObj (obj_spread o1 o2)).
Proof. rewrite !secretless_obj. intros [H1 F1] [_ F2]. split; [by apply obj_spread_NoDup|by apply obj_spread_good]. Qed.

Lemma secretless_copy o : secretless (JObj o) -> secretless (JObj (obj_spread [] o)).
Proof. apply secretless_spread. split; [by split; [apply NoDup_nil_2|]|done]. Qed.

Section one_map.
Context `{Zod} `{HostDate}.

Inductive route_op :=
  | Create (data : obj) (now : Z) (suffix : string)
  | Update (id : string) (updates : obj) (now : Z)
  | Toggle (id : string) (now : Z)
  | Remove (id : string).

(** Fields with distinct keys and without secrets, which the storage would redact, and no other
    id among the updates. *)
Definition typed_op (op : route_op) : Prop :=
  match op with
  | Create data now suffix =>
      secretless (JObj data) /\ no_secret_pattern (generated_id "route" now suffix) = true
  | Update id updates _ =>
      secretless (JObj updates) /\ (obj_get "id" updates = None \/ obj_get "id" updates = Some (JStr id))
  | _ => True
  end.

Definition update_target (id : string) (updates : obj) (now : Z) (m : obj) : option obj :=
  match obj_get id m with
  | Some r =>
      if is_return (parse RouteSchema (updated_route r updates now))
      then Some (obj_set id (updated_route r updates now) m) else None
  | None => None
  end.

(** The map an operation asks the storage to hold; [None] when the operation is refused. *)
Definition target (op : route_op) (m : obj) : option obj :=
  match op with
  | Create data now suffix =>
      if creatable data now suffix
      then Some (obj_set (generated_id "route" now suffix) (new_route data now suffix) m) else None
  | Update id updates now => update_target id updates now m
  | Toggle id now =>
      match obj_get id m with
      | Some r => update_target id [("enabled", JBool (negb (truthy (jget "enabled" r))))] now m
      | None => None
      end
  | Remove id => Some (obj_remove id m)
  end.

(** Each route is filed under its own id. *)
Definition filed (m : obj) : Prop := Forall (fun e => jget "id" (snd e) = JStr (fst e)) m.
Definition well_kept (P : jsval -> Prop) (m : obj) : Prop := map_of P m /\ filed m.

Lemma filed_kept m : map_of holdable m -> filed m -> filed (kept_map m).
Proof.
  intros [_ Hm] Hf. unfold filed, kept_map in *. apply Forall_map_iff.
  apply List.Forall_forall. intros [k v] Hin. cbn [fst snd].
  pose proof (proj1 (List.Forall_forall _ _) Hm _ Hin) as [_ Hv]. pose proof (proj1 (List.Forall_forall _ _) Hf _ Hin) as Hid.
  cbn [fst snd] in Hid, Hv. destruct Hv as (Hwf & _ & Ho & _). destruct v as [| | | | | | |o]; try done.
  rewrite kept_obj. cbn [jget] in *. apply val_wf_obj in Hwf as [Hnd _]. rewrite norm_props_get by done. destruct (obj_get "id" o); [by subst|done].
Qed.

Lemma kept_well n : well_kept holdable n -> well_kept plain (kept_map n).
Proof. intros [Hm Hf]. split; [by apply kept_map_of|by apply filed_kept]. Qed.

Lemma well_kept_set k v m :
  no_secret_pattern k = true -> holdable v -> jget "id" v = JStr k -> well_kept plain m ->
  well_kept holdable (obj_set k v m).
Proof.
  intros Hk Hv Hid [Hm Hf]. split.
  - apply map_of_set; [done|done|]. by eapply map_of_impl, Hm; apply plain_holdable.
  - by apply obj_set_Forall.
Qed.

Lemma well_kept_remove k m : well_kept plain m -> well_kept holdable (obj_remove k m).
Proof.
  intros [Hm Hf]. split; [apply map_of_remove; by eapply map_of_impl, Hm; apply plain_holdable|].
  apply List.Forall_forall. intros e He. apply List.filter_In in He as [He _].
  by apply (proj1 (List.Forall_forall _ _) Hf).
Qed.

(** The routes the operations file can be held. *)
Lemma new_route_holdable data now suffix :
  typed_op (Create data now suffix) -> holdable (new_route data now suffix).
Proof.
  intros [Hd Hid]. unfold new_route.
  assert (Hs : secretless (JObj (obj_spread (obj_spread [] data)
    [("id", JStr (generated_id "route" now suffix));
     ("metadata", JObj [("createdAt", JDate (Some now)); ("updatedAt", JDate (Some now));
                        ("createdBy", JStr "system"); ("tags", JArr [])])]))).
  { apply secretless_spread; [by apply secretless_copy|]. apply secretless_obj. split; [nodup_literals|].
    repeat apply List.Forall_cons; [by repeat split| |by apply List.Forall_nil]. split; [by vm_compute|].
    split; [|by vm_compute]. apply val_wf_obj. split; [nodup_literals|]. by repeat constructor. }
  destruct Hs as [Hw Hc]. split_and!; [done|done|done|]. right. by rewrite jget_spread by nodup_literals.
Qed.

Lemma updated_metadata_secretless r now : holdable r ->
  secretless (if truthy (jget "metadata" r)
    then JObj (obj_spread (obj_spread [] (spread_props (jget "metadata" r))) [("updatedAt", JDate (Some now))])
    else JUndef).
Proof.
  intros (Hw & Hc & Ho & Hm). destruct Hm as [->|Hm]; [done|].
  assert (Hs : secretless (jget "metadata" r)).
  { destruct r as [| | | | | | |o]; try done.
    assert (Ho' : secretless (JObj o)) by done. apply secretless_obj in Ho' as [_ Hg]. cbn [jget] in *.
    destruct (obj_get "metadata" o) as [v|] eqn:Hv; [|done]. apply obj_get_In, list_elem_of_In in Hv.
    by apply (proj1 (List.Forall_forall _ _) Hg) in Hv as [_ Hv]. }
  destruct (jget "metadata" r) as [| | | | | | |o]; try done. cbn [truthy spread_props].
  apply secretless_spread; [by apply secretless_copy|]. apply secretless_obj. split; [nodup_literals|].
  apply List.Forall_cons; [by repeat split|apply List.Forall_nil].
Qed.

Lemma updated_route_holdable r updates now :
  holdable r -> secretless (JObj updates) -> holdable (updated_route r updates now).
Proof.
  intros Hr Hu. pose proof (updated_metadata_secretless r now Hr) as Hm. destruct Hr as (Hw & Hc & Ho & Hmd).
  destruct r as [| | | | | | |o]; try done. unfold updated_route. cbn [spread_props].
  set (md := if truthy _ then _ else JUndef) in *.
  assert (Hs : secretless (JObj (obj_spread (obj_spread (obj_spread [] o) updates) [("metadata", md)]))).
  { apply secretless_spread; [by apply secretless_spread; [apply secretless_copy|]|].
    apply secretless_obj. split; [nodup_literals|]. apply List.Forall_cons; [by split|apply List.Forall_nil]. }
  destruct Hs as [Hw' Hc']. split_and!; [done|done|done|]. rewrite jget_spread by nodup_literals. cbn [obj_get].
  rewrite decide_True by done. unfold md. destruct (truthy _); [by right|by left].
Qed.

Lemma updated_route_id id r updates now :
  holdable r -> jget "id" r = JStr id -> typed_op (Update id updates now) ->
  jget "id" (updated_route r updates now) = JStr id.
Proof.
  intros (Hw & _ & Ho & _) Hid [[Hu _] Hup]. destruct r as [| | | | | | |o]; try done.
  apply val_wf_obj in Hw as [Hnd _], Hu as [Hun _]. rewrite updated_route_fields by done.
  by destruct Hup as [->| ->].
Qed.

Lemma well_kept_get k m r :
  well_kept plain m -> obj_get k m = Some r -> no_secret_pattern k = true /\ holdable r /\ jget "id" r = JStr k.
Proof.
  intros [Hm Hf] Hg. destruct (map_of_get _ _ _ _ Hm Hg) as [Hk [Hr _]]. split_and!; [done|done|].
  apply obj_get_In, list_elem_of_In in Hg. apply (proj1 (List.Forall_forall _ _) Hf (k, r) Hg).
Qed.

Lemma update_target_kept id updates now m n :
  well_kept plain m -> typed_op (Update id updates now) -> update_target id updates now m = Some n ->
  well_kept holdable n.
Proof.
  intros Hm Hu. unfold update_target. destruct (obj_get id m) as [r|] eqn:Hg; [|done].
  destruct (well_kept_get _ _ _ Hm Hg) as (Hk & Hr & Hid). destruct (is_return _); [|done]. intros [= <-].
  apply well_kept_set; [done| |by apply updated_route_id|done]. apply updated_route_holdable; [done|apply Hu].
Qed.

(** Switching [enabled] is a typed update. *)
Lemma enabled_update_typed id b now : typed_op (Update id [("enabled", JBool b)] now).
Proof.
  split; [|by left]. apply secretless_obj. split; [nodup_literals|].
  apply List.Forall_cons; [by repeat split|apply List.Forall_nil].
Qed.

Lemma target_kept op m n : well_kept plain m -> typed_op op -> target op m = Some n -> well_kept holdable n.
Proof.
  intros Hm Ht. destruct op as [data now sfx|id u now|id now|id]; cbn [target].
  - destruct (creatable data now sfx); [|done]. intros [= <-]. pose proof Ht as [_ Hid].
    apply well_kept_set; [done|by apply new_route_holdable| |done].
    unfold new_route. by rewrite jget_spread by nodup_literals.
  - by apply update_target_kept.
  - destruct (obj_get id m); [|done]. apply update_target_kept; [done|apply enabled_update_typed].
  - intros [= <-]. by apply well_kept_remove.
Qed.
End one_map.

(** ** The store and the storage beside each other *)
Section in_step.
Context `{LocalStorageApi} `{Zod} `{HostDate}.
#[local] Instance storage_routes : RouteRepository storage := LocalStorage.repository.

Abbreviation store := (RoutesStore.state * storage)%type.

Record in_sync (w : store) (m : obj) : Prop := {
  sync_store : RoutesStore.routes (fst w) = m;
  sync_storage : loaded (snd w) = m;
  sync_kept : well_kept plain m
}.

(** In step, and showing no error. *)
Definition shown (w : store) (m : obj) : Prop := in_sync w m /\ RoutesStore.error (fst w) = None.

(** Whether the browser takes the routes. *)
Definition accepts (s : storage) (n : obj) : bool := is_return (fst (LocalStorage.saveAll n s)).
Definition settled (s : storage) (n m : obj) : obj := if accepts s n then kept_map n else m.

Lemma sanitize_plain m : map_of plain m -> RoutesStore.sanitizeRoutesMap m = m.
Proof.
  intros [Hnd Hm]. unfold RoutesStore.sanitizeRoutesMap.
  assert (Hs : List.map (fun e : string * jsval => (fst e, sanitizeForJson (snd e))) m = m).
  { apply map_all_id. eapply List.Forall_impl; [|exact Hm]. intros [k v] [_ [(Hw & Hc & _) _]].
    cbn [fst snd] in *. by rewrite sanitize_clean_id. }
  rewrite Hs. by apply obj_of_entries_id.
Qed.

Lemma load_syncs st s m : loaded s = m -> well_kept plain m ->
  exists w, RoutesStore.loadRoutes (st, s) = (Return tt, w) /\ shown w m.
Proof.
  intros Hl Hm. rewrite loadRoutes_cases. cbn [repo_loadAll storage_routes LocalStorage.repository].
  rewrite loadAll_loaded. eexists. split; [reflexivity|].
  split; [|reflexivity]. split; cbn [fst snd RoutesStore.routes]; [|done|done]. rewrite Hl. apply sanitize_plain, Hm.
Qed.

(** A write of the adapter, and the reload after it. *)
Lemma adapter_writes captured updater n m st s :
  obj_of_entries (updater captured) = n -> well_kept holdable n -> loaded s = m ->
  exists st' s', RoutesStore.adapter_set captured updater (st, s) = (Return tt, (st', s')) /\ loaded s' = settled s n m.
Proof.
  intros Hn Hk Hl. unfold RoutesStore.adapter_set, RoutesStore.set. run_eff. rewrite Hn, saveRoutes_cases.
  cbn [RoutesStore.routes repo_saveAll storage_routes LocalStorage.repository]. unfold settled, accepts.
  destruct (LocalStorage.saveAll n s) as [[[]|e] s'] eqn:Hs; eexists _, _; split; try done; cbn [fst is_return].
  - eapply saved_loaded, Hs. apply Hk.
  - by rewrite (save_refused _ _ _ _ Hs).
Qed.

Lemma settled_kept s n m : well_kept holdable n -> well_kept plain m -> well_kept plain (settled s n m).
Proof. intros Hn Hm. unfold settled. destruct (accepts s n); [by apply kept_well|done]. Qed.

Lemma write_syncs captured updater n m st s :
  obj_of_entries (updater captured) = n -> well_kept holdable n -> in_sync (st, s) m ->
  exists w1 w2, RoutesStore.adapter_set captured updater (st, s) = (Return tt, w1) /\
    RoutesStore.loadRoutes w1 = (Return tt, w2) /\ shown w2 (settled s n m).
Proof.
  intros Hn Hk Hs. destruct (adapter_writes captured updater n m st s Hn Hk (sync_storage _ _ Hs)) as (st' & s' & Ha & Hl).
  destruct (load_syncs st' s' _ Hl) as (w & Hw & Hi); [by apply settled_kept, (sync_kept _ _ Hs)|]. by exists (st', s'), w.
Qed.

(** The hook runs with the routes its last render read. *)
Abbreviation world := (RouteOps.ops * store)%type.
Definition perform (captured : obj) (op : route_op) : eff world (option unit) :=
  match op with
  | Create data now suffix => RouteOps.create captured data now suffix
  | Update id updates now => RouteOps.update captured id updates now
  | Toggle id now => RouteOps.toggle captured id now
  | Remove id => RouteOps.remove captured id
  end.

(** What the operation leaves: refused, nothing; otherwise its target, in the storage's form,
    unless the browser refuses the write; the answer is then a success all the same. *)
Definition performed (op : route_op) (w : store) (m : obj) (q : outcome (option unit)) (w' : store) : Prop :=
  match target op m with
  | None => q = Return None /\ w' = w
  | Some n => q = Return (Some tt) /\ shown w' (settled (snd w) n m)
  end.

(** The use case of an operation, before the reload and the hook's notices. *)
Definition body_performed {A} (body : eff store A) (t : option obj) (w : store) (m : obj) : Prop :=
  match t with
  | None => exists e, body w = (Throw e, w) /\ instanceof_Error e = true
  | Some n => exists a w1 w2, body w = (Return a, w1) /\ RoutesStore.loadRoutes w1 = (Return tt, w2) /\
      shown w2 (settled (snd w) n m)
  end.

Lemma wrap_performed {A} (body : eff store A) t w m msg o :
  body_performed body t w m ->
  exists q o' w', RouteOps.wrap (_ ← body; RoutesStore.loadRoutes) msg (o, w) = (q, (o', w')) /\
    match t with
    | None => q = Return None /\ w' = w
    | Some n => q = Return (Some tt) /\ shown w' (settled (snd w) n m)
    end.
Proof.
  intros Hb. rewrite wrap_spec. run_eff. destruct t as [n|]; cbn [body_performed] in Hb.
  - destruct Hb as (a & w1 & w2 & -> & -> & Hi). eexists _, _, _. split; [reflexivity|by split].
  - destruct Hb as (e & -> & ->). eexists _, _, _. split; [reflexivity|by split].
Qed.

Section captured.
Variables (w : store) (m : obj).
Hypothesis (Hsync : in_sync w m).
#[local] Instance captured_routes : RouteRepository store := RoutesStore.createRouteRepositoryAdapter m.

Lemma write_performed updater n :
  obj_of_entries (updater m) = n -> well_kept holdable n ->
  body_performed (RoutesStore.adapter_set m updater) (Some n) w m.
Proof. intros Hn Hk. destruct w as [st s]. exists tt. by apply write_syncs. Qed.

Lemma entries_set k v : obj_of_entries (obj_set k v (obj_of_entries m)) = obj_set k v m.
Proof.
  pose proof (sync_kept _ _ Hsync) as [[Hnd _] _].
  rewrite (obj_of_entries_id m), obj_of_entries_id; [done|by apply obj_set_NoDup|done].
Qed.

Lemma entries_remove k : obj_of_entries (obj_remove k (obj_of_entries m)) = obj_remove k m.
Proof.
  pose proof (sync_kept _ _ Hsync) as [[Hnd _] _].
  rewrite (obj_of_entries_id m), obj_of_entries_id; [done|by apply filter_keys_NoDup|done].
Qed.

Lemma find_captured id : repo_findById id w = (Return (obj_get id m), w).
Proof.
  cbn [repo_findById captured_routes RoutesStore.createRouteRepositoryAdapter]. run_eff.
  destruct (obj_get id m) as [r|] eqn:Hg; [|done].
  destruct (well_kept_get _ _ _ (sync_kept _ _ Hsync) Hg) as (_ & (_ & _ & Hr & _) & _). by destruct r.
Qed.

Lemma create_performed data now suffix : typed_op (Create data now suffix) ->
  body_performed (UseCases.createRoute data now suffix) (target (Create data now suffix) m) w m.
Proof.
  intros Ht. pose proof (createRoute_cases data now suffix w) as Hc. cbn [target].
  destruct (creatable data now suffix) eqn:Hcr; [|done].
  destruct (write_performed (fun rs => obj_set (route_id (new_route data now suffix)) (new_route data now suffix)
    (obj_of_entries rs)) _ (entries_set _ _)) as (a & w1 & w2 & Hs & Hl & Hi).
  { rewrite route_id_new. eapply (target_kept (Create data now suffix)); [apply Hsync|done|]. cbn [target]. by rewrite Hcr. }
  cbn [repo_save captured_routes RoutesStore.createRouteRepositoryAdapter] in Hc. rewrite Hs in Hc.
  rewrite route_id_new in Hi. by exists (generated_id "route" now suffix), w1, w2.
Qed.

Lemma update_performed id updates now : typed_op (Update id updates now) ->
  body_performed (UseCases.updateRoute id updates now) (update_target id updates now m) w m.
Proof.
  intros Ht. unfold body_performed, UseCases.updateRoute. run_eff. rewrite find_captured.
  destruct (update_target id updates now m) as [n|] eqn:Hn; pose proof Hn as Hn'; unfold update_target in Hn'.
  - destruct (obj_get id m) as [r|] eqn:Hg; [|done].
    destruct (parse RouteSchema (updated_route r updates now)); [|done]. cbn [is_return] in Hn'. injection Hn' as Hn'.
    apply write_performed.
    + rewrite entries_set, <- Hn'. f_equal. unfold route_id.
      destruct (well_kept_get _ _ _ (sync_kept _ _ Hsync) Hg) as (_ & Hr & Hid).
      by rewrite (updated_route_id id).
    + by eapply update_target_kept, Hn; [apply Hsync|].
  - destruct (obj_get id m) as [r|] eqn:Hg; [|by eexists].
    destruct (parse RouteSchema (updated_route r updates now)) as [|e] eqn:Hp; [done|].
    exists e. split; [done|by eapply parse_throws].
Qed.

Lemma toggle_performed id now :
  body_performed (UseCases.toggleRouteStatus id now) (target (Toggle id now) m) w m.
Proof.
  unfold body_performed, UseCases.toggleRouteStatus. unfold mbind, eff_bind. rewrite find_captured. cbn [target].
  destruct (obj_get id m) as [r|] eqn:Hg; [|by eexists]. apply update_performed, enabled_update_typed.
Qed.

Lemma remove_performed id : body_performed (repo_delete id) (target (Remove id) m) w m.
Proof. apply write_performed; [apply entries_remove|]. apply well_kept_remove, Hsync. Qed.

Lemma operation_performed op o : typed_op op ->
  exists q o' w', perform m op (o, w) = (q, (o', w')) /\ performed op w m q w'.
Proof.
  intros Ht. destruct op; apply wrap_performed;
    [by apply create_performed|by apply update_performed|apply toggle_performed|apply remove_performed].
Qed.
End captured.

Lemma perform_operation m op : operation (perform m op).
Proof.
  destruct op as [data now sfx|id u now|id now|id];
    [left|right; left|right; right; left|right; right; right]; by repeat eexists.
Qed.

(** A session: the hook is rendered again between its operations. *)
Fixpoint session (ops : list route_op) : eff world (list (option unit)) :=
  match ops with
  | [] => mret []
  | op :: ops =>
      w ← get_state;
      answer ← perform (RoutesStore.routes (fst (snd w))) op;
      answers ← session ops;
      mret (answer :: answers)
  end.

(** The same session on the map alone. *)
Definition update_map (op : route_op) (m : obj) : option unit * obj :=
  match target op m with Some n => (Some tt, kept_map n) | None => (None, m) end.
Fixpoint updates (ops : list route_op) (m : obj) : list (option unit) * obj :=
  match ops with
  | [] => ([], m)
  | op :: ops =>
      let (answer, m1) := update_map op m in
      let (answers, m2) := updates ops m1 in (answer :: answers, m2)
  end.

(** C4.  The routes page over a browser that takes every write: from a store and a storage
    that hold the same routes, any session of creations, updates, toggles and removals ends
    with the answers and the map of the same session on one map in memory, the store and the
    storage both holding that map. *)
Theorem session_refines ops w m :
  (forall s k v, rejects s k v = false) -> Forall typed_op ops -> in_sync (snd w) m ->
  let (answers, m') := updates ops m in
  exists w', session ops w = (Return answers, w') /\ in_sync (snd w') m'.
Proof.
  intros Hopen Hops. revert w m. induction Hops as [|op ops Hop _ IH]; intros [o w] m Hs; [by eexists|].
  cbn [updates session]. destruct (operation_performed w m Hs op o Hop) as (q & o' & w' & Hp & Hd).
  assert (Hu : q = Return (fst (update_map op m)) /\ in_sync w' (snd (update_map op m))).
  { unfold update_map, performed in *. destruct (target op m) as [n|]; [|by destruct Hd as [-> ->]].
    destruct Hd as [-> [Hi _]]. split; [done|]. unfold settled, accepts, LocalStorage.saveAll, setItem in Hi.
    by rewrite Hopen in Hi. }
  destruct (update_map op m) as [a m1]. destruct Hu as [-> Hi]. cbn [fst snd] in *.
  specialize (IH (o', w') m1 Hi). destruct (updates ops m1) as [answers m2]. destruct IH as (w2 & He & Hi2).
  exists w2. split; [|done]. unfold get_state. run_eff. cbn [fst snd]. rewrite (sync_store _ _ Hs), Hp.
  by rewrite He.
Qed.

(** C32.  A write the browser refuses is lost and reported as a success: the operation answers
    as if it had been done, the hook shows its success message, neither the hook nor the store
    shows an error, and the routes are the ones before. *)
Theorem refused_write_reported o w m op n :
  in_sync w m -> typed_op op -> target op m = Some n -> accepts (snd w) n = false ->
  exists o' w', perform m op (o, w) = (Return (Some tt), (o', w')) /\
    RouteOps.error o' = None /\ RouteOps.success o' <> None /\
    RoutesStore.error (fst w') = None /\ in_sync w' m.
Proof.
  intros Hs Hop Ht Ha. destruct (operation_performed w m Hs op o Hop) as (q & o' & w' & Hp & Hd).
  unfold performed in Hd. rewrite Ht in Hd. destruct Hd as [-> [Hi He]]. unfold settled in Hi. rewrite Ha in Hi.
  assert (Hq : op_settled (Return (Some tt)) o').
  { pose proof (operation_settled _ (o, w) (perform_operation m op)) as Hq. by rewrite Hp in Hq. }
  exists o', w'. split_and!; [done|apply Hq|apply Hq|done|done].
Qed.
End in_step.

(** ** The theorems at work *)

#[local] Existing Instances zod_model no_host.

Definition session_data : obj :=
  [("domain", JStr "example.com"); ("port", JNum (NInt 80)); ("root", JStr "/srv/www"); ("enabled", JBool true);
   ("ssl", JBool false); ("locations", JArr []); ("advanced", Factories.createAdvancedConfig [])].
Definition created_id : string := generated_id "route" 1700000000000 "abc".
Definition session_ops : list route_op :=
  [Create session_data 1700000000000 "abc"; Create [("domain", JStr "-")] 1 "x"; Toggle created_id 1700000000001;
   Update created_id [("root", JStr "/srv/app")] 1700000000002; Remove "nowhere"].
Definition first_world : RouteOps.ops * (RoutesStore.state * storage) := (RouteOps.init, (RoutesStore.init, ∅)).

Ltac secretless_literal :=
  split; [repeat split; refine (proj1 (bool_decide_spec (NoDup _)) _); vm_compute; exact I | vm_compute; reflexivity].

Lemma first_in_sync : in_sync (snd first_world) [].
Proof. split; [reflexivity|reflexivity|]. split; [|apply List.Forall_nil]. split; [apply NoDup_nil_2|apply List.Forall_nil]. Qed.

Lemma session_data_typed : typed_op (Create session_data 1700000000000 "abc").
Proof. split; [secretless_literal|vm_compute; reflexivity]. Qed.

Lemma session_ops_typed : Forall typed_op session_ops.
Proof.
  repeat apply List.Forall_cons; try exact I; [apply session_data_typed| | |apply List.Forall_nil].
  - split; [secretless_literal|vm_compute; reflexivity].
  - split; [secretless_literal|by left].
Qed.

Lemma session_refines_witness :
  fst (updates session_ops []) = [Some tt; None; Some tt; Some tt; Some tt] /\
  exists w', @session open_storage _ _ session_ops first_world = (Return (fst (updates session_ops [])), w') /\
    in_sync (snd w') (snd (updates session_ops [])).
Proof.
  split; [vm_compute; reflexivity|].
  pose proof (@session_refines open_storage _ _ session_ops first_world [] (fun _ _ _ => eq_refl)
    session_ops_typed first_in_sync) as Hs.
  by destruct (updates session_ops []).
Defined.

(** A browser whose quota is used up. *)
Definition full_storage : LocalStorageApi := fun _ _ _ => true.

Lemma refused_write_reported_witness :
  exists o' w', @perform full_storage _ _ [] (Create session_data 1700000000000 "abc") first_world =
      (Return (Some tt), (o', w')) /\
    RouteOps.error o' = None /\ RouteOps.success o' <> None /\ RoutesStore.error (fst w') = None /\ in_sync w' [].
Proof.
  eapply (@refused_write_reported full_storage _ _ RouteOps.init (snd first_world) []);
    [apply first_in_sync|apply session_data_typed|vm_compute; reflexivity|vm_compute; reflexivity].
Defined.
