(* ===== verification/RouteViews.v ===== *)
(** * The components of the routes page

    apps/web/src/pages/routes/RouteList.tsx and the components of
    apps/web/src/pages/routes/RouteModal: what each shows for the page's state and what its
    controls do to it.  A component's view lists the texts, inputs and rows it renders; the
    markup around them and the class names are left out.  An error thrown while rendering is
    the view's [Throw]; there is no error boundary, so it takes the whole page down.  One
    thrown by a handler is reported and leaves the state as the handler left it. *)

From S2P Require Import Prelude JsString Regex JsValue Dates Json Secrets Zod Schemas ConfigGenerator.
From S2P Require Import Repositories UseCases Stores WebPage.

(** ** The values of a form

    react-hook-form is not part of the sources: what the components use of it is a class, and
    what they rely on its laws.  [setValue] is also what a field's [onChange] does to the values;
    [watch] and [field_value] (the [field.value] of a [Controller]) read them, given the values
    a field falls back to: the form's defaults, or those it had when the field was mounted. *)
Fixpoint at_path (path : list string) (values : jsval) : jsval :=
  match path with [] => values | k :: path' => at_path path' (jget k values) end.

Class ReactHookForm := {
  setValue : list string -> jsval -> jsval -> jsval;
  watch : list string -> jsval -> jsval -> jsval;
  field_value : list string -> jsval -> jsval -> jsval
}.

(** A value that is written is read back, one beside it keeps its value.  [undefined] is
    reserved: a field whose value is undefined shows the value it falls back to.  What [watch]
    gives for an undefined value is left open. *)
Class ReactHookFormLaws `{ReactHookForm} := {
  setValue_at path x values : at_path path (setValue path x values) = x;
  setValue_beside path k k' x values : k <> k' ->
    at_path (path ++ [k]) (setValue (path ++ [k']) x values) = at_path (path ++ [k]) values;
  watch_defined path defaults values :
    at_path path values <> JUndef -> watch path defaults values = at_path path values;
  field_value_spec path defaults values :
    field_value path defaults values =
      match at_path path values with JUndef => at_path path defaults | v => v end
}.

Section with_form.
Context `{ReactHookForm}.

(** An input with the properties of a field writes its text. *)
Definition field_onChange (path : list string) (text : string) : jsval -> jsval := setValue path (JStr text).

End with_form.

(** ** BasicTab.tsx *)
Module BasicTab.
Section basic.
Context `{Zod} `{ReactHookForm}.

(** [field.onChange(e.target.value === "" ? undefined : Number(e.target.value))] *)
Definition port_onChange (text : string) : jsval -> jsval :=
  setValue ["port"] (if decide (text = "") then JUndef else JNum (toNumber text)).
Definition enabled_onChange (checked : bool) : jsval -> jsval := setValue ["enabled"] (JBool checked).
Definition ssl_onChange (checked : bool) : jsval -> jsval := setValue ["ssl"] (JBool checked).

(** The inputs by name, each with the value it shows. *)
Definition view (defaults values : jsval) : outcome (list (string * jsval)) :=
  let field k := (k, field_value [k] defaults values) in
  port ← parse PortSchema (field_value ["port"] defaults values);
  Return
    ([field "domain"; ("port", port); field "root"; field "proxy_pass";
      ("enabled", watch ["enabled"] defaults values); ("ssl", watch ["ssl"] defaults values)] ++
     if truthy (watch ["ssl"] defaults values) then [field "ssl_certificate"; field "ssl_certificate_key"] else []).
End basic.
End BasicTab.

(** ** AdvancedTab.tsx *)
Module AdvancedTab.
Section advanced.
Context `{ReactHookForm}.

Definition field (k : string) : list string := ["advanced"; k].
Definition gzip (defaults values : jsval) : jsval := watch (field "gzip") defaults values.
Definition caching (defaults values : jsval) : jsval := watch (field "caching") defaults values.

Definition gzip_onChange (checked : bool) (values : jsval) : jsval :=
  let values := setValue (field "gzip") (JBool checked) values in
  if checked then values else setValue (field "gzip_types") JUndef values.
Definition caching_onChange (checked : bool) (values : jsval) : jsval :=
  let values := setValue (field "caching") (JBool checked) values in
  if checked then values else setValue (field "cache_valid") JUndef values.

(** The text inputs that are shown, and the two boxes. *)
Definition shown (defaults values : jsval) : list string :=
  ["client_max_body_size"; "keepalive_timeout"] ++
  (if truthy (gzip defaults values) then ["gzip_types"] else []) ++
  (if truthy (caching defaults values) then ["cache_valid"] else []).
Definition view (defaults values : jsval) : list (string * jsval) * (bool * bool) :=
  (List.map (fun k => (k, field_value (field k) defaults values)) (shown defaults values),
   (truthy (gzip defaults values), truthy (caching defaults values))).

(** What a user can do in the tab. *)
Inductive step (defaults values : jsval) : jsval -> Prop :=
  | S_text k text : k ∈ shown defaults values -> step defaults values (field_onChange (field k) text values)
  | S_gzip checked : step defaults values (gzip_onChange checked values)
  | S_caching checked : step defaults values (caching_onChange checked values).
End advanced.
End AdvancedTab.

(** ** The row or button an operation was started from

    RouteList, LocationsTab and LocationModal each remember it in a state of their own and
    forget it by a timer of no delay, which every render starts while the operation is over. *)
Module Marker.
Section marker.
Context {A : Type} `{EqDecision A}.
Record state := State { active : option A; timers : nat }.
Definition init : state := State None 0.
Definition click (a : A) (m : state) : state := State (Some a) (timers m).
Definition render (busy : bool) (m : state) : state :=
  if negb busy && bool_decide (is_Some (active m)) then State (active m) (S (timers m)) else m.
Definition fire (m : state) : state :=
  match timers m with O => m | S n => State None n end.
(** The control that shows the spinner. *)
Definition spins (busy : bool) (m : state) (a : A) : bool := busy && bool_decide (active m = Some a).
End marker.
Arguments state : clear implicits.
End Marker.

(** ** RouteList.tsx *)
Module RouteList.
Record row := Row {
  row_id : string;
  row_domain : jsval;
  row_port : jsval;
  row_proxied : bool;
  row_enabled : bool;
  row_disabled : bool;
  row_spins : bool
}.

Definition row_of (isRemoving : bool) (m : Marker.state string) (route : jsval) : row := {|
  row_id := route_id route;
  row_domain := jget "domain" route;
  row_port := jget "port" route;
  row_proxied := truthy (jget "proxy_pass" route);
  row_enabled := truthy (jget "enabled" route);
  row_disabled := isRemoving;
  row_spins := Marker.spins isRemoving m (route_id route) |}.

(** The notice of loading, the error, and the rows of the table when it is there. *)
Definition view (isLoading : bool) (error : option string) (isRemoving : bool) (m : Marker.state string)
    (routes : list jsval) : bool * option string * option (list row) :=
  let error := e ← error; if decide (e = "") then None else Some e in
  (isLoading, error,
   if isLoading || bool_decide (is_Some error) then None else Some (List.map (row_of isRemoving m) routes)).
End RouteList.

(** ** RouteModal/LocationsTab.tsx *)
Module LocationsTab.
Record row := Row { row_path : jsval; row_details : list (string * jsval); row_disabled : bool; row_spins : bool }.

(** Reading [loc.path] throws when there is no location. *)
Definition row_of (isRemoving : bool) (m : Marker.state nat) (index : nat) (loc : jsval) : outcome row :=
  path ← prop "path" loc;
  Return (Row path
    (List.filter (fun kv => truthy (snd kv)) (List.map (fun k => (k, jget k loc)) ["proxy_pass"; "try_files"; "index"]))
    isRemoving (Marker.spins isRemoving m index)).

(** The rows, and whether the text for no locations is shown instead.  [form.watch("locations")]
    is the form's list, which has a value from the form's defaults on. *)
Definition view (isRemoving : bool) (m : Marker.state nat) (values : jsval) : outcome (list row * bool) :=
  locations ← match jget "locations" values with JArr l => Return l | _ => Throw type_error end;
  rows ← mapM_out (fun il => row_of isRemoving m (fst il) (snd il)) (imap pair locations);
  Return (rows, (length locations =? 0)%nat).
End LocationsTab.

(** ** The handlers of the components, above the page's *)
Section components.
Context {S : Type} `{RouteRepository S} `{Zod} `{HostDate}.

Abbreviation world := (Page.page * (RouteOps.ops * (RoutesStore.state * S)))%type.

(** A control that changes the form's values. *)
Definition change_form (f : jsval -> jsval) : eff world unit := Page.set (fun p => Page.setForm (f (Page.form p)) p).

(** The edit button of a row: [onEdit(index, LocationConfigSchema.parse(loc))]. *)
Definition edit_click (index : nat) (loc : jsval) : eff world unit :=
  value ← lift_outcome (parse LocationConfigSchema loc);
  Page.onEditLocation index value.

(** The delete button of a row, with the tab's own state. *)
Definition delete_click (index : nat) : eff (Marker.state nat * world) unit := fun w =>
  let (o, w') := Page.onDeleteLocation index (snd w) in (o, (Marker.click index (fst w), w')).

(** The remove button of a row of the list. *)
Definition remove_click (captured : obj) (id : string) : eff (Marker.state string * world) unit := fun w =>
  let (o, w') := Page.onRemove captured id (snd w) in (o, (Marker.click id (fst w), w')).

(** *** RouteModal/LocationModal.tsx *)

Definition location_fields : list string := ["path"; "proxy_pass"; "try_files"; "index"; "extra_directives"].

(** The inputs with the texts they show; nothing for [editing.value] null. *)
Definition location_modal (value : jsval) : option (list (string * jsval)) :=
  if truthy value
  then Some (List.map (fun k => (k, if decide (k = "path") then jget k value else js_or (jget k value) (JStr "")))
                      location_fields)
  else None.

(** [onStartEditLocation(editing.index, { ...value, [field]: text })], the index and the value of
    the render. *)
Definition location_onChange (index : option nat) (value : jsval) (field text : string) : eff world unit :=
  Page.startEditLocation index (JObj (obj_set field (JStr text) (obj_spread [] (spread_props value)))).
Definition location_onCancel : eff world unit := Page.startEditLocation None JNull.

Inductive save_button := Force | Normal.
#[export] Instance save_button_eq_dec : EqDecision save_button.
Proof. solve_decision. Defined.

Definition location_onSave (b : save_button) (index : option nat) (value : jsval)
    : eff (Marker.state save_button * world) unit := fun w =>
  let save := match b with Force => Page.onSaveLocationForce | Normal => Page.onSaveLocation end in
  let (o, w') := save index value (snd w) in (o, (Marker.click b (fst w), w')).

(** *** RouteModal/RouteModal.tsx *)

Definition tabs : list ModalStore.tab :=
  [ModalStore.basic; ModalStore.locations; ModalStore.advanced; ModalStore.preview].

(** What the chosen tab shows. *)
Inductive tab_view :=
  | VBasic (inputs : list (string * jsval))
  | VLocations (rows : list LocationsTab.row) (empty : bool)
  | VAdvanced (inputs : list (string * jsval)) (boxes : bool * bool)
  | VPreview (text : string).

(** The title's mode, the tabs with the chosen one marked, the tab, and whether the submit
    button is disabled. *)
Record modal_view := ModalView {
  v_mode : ModalStore.mode;
  v_tabs : list (ModalStore.tab * bool);
  v_tab : tab_view;
  v_submit_disabled : bool
}.

Definition tab_eqb (a b : ModalStore.tab) : bool :=
  match a, b with
  | ModalStore.basic, ModalStore.basic | ModalStore.locations, ModalStore.locations
  | ModalStore.advanced, ModalStore.advanced | ModalStore.preview, ModalStore.preview => true
  | _, _ => false
  end.

Context `{ReactHookForm} (defaults : jsval).

Definition render_tab (p : Page.page) (m : Marker.state nat) (preview : string) : outcome tab_view :=
  match ModalStore.activeTab (Page.modal p) with
  | ModalStore.basic => inputs ← BasicTab.view defaults (Page.form p); Return (VBasic inputs)
  | ModalStore.locations =>
      v ← LocationsTab.view (Page.isRemovingLocation p) m (Page.form p); Return (VLocations (fst v) (snd v))
  | ModalStore.advanced => let v := AdvancedTab.view defaults (Page.form p) in Return (VAdvanced (fst v) (snd v))
  | ModalStore.preview => Return (VPreview preview)
  end.

Definition route_modal (p : Page.page) (m : Marker.state nat) (preview : string) : outcome (option modal_view) :=
  if ModalStore.modalOpen (Page.modal p) then
    body ← render_tab p m preview;
    Return (Some (ModalView (ModalStore.form_mode (Page.modal p))
      (List.map (fun t => (t, tab_eqb (ModalStore.activeTab (Page.modal p)) t)) tabs) body (Page.isSaving p)))
  else Return None.

(** [form.handleSubmit] with the resolver [zodResolver(RouteSchema)]: the values are parsed when
    the form is submitted, and [onSubmit] gets what the schema made of them. *)
Definition handleSubmit (mode : ModalStore.mode) (captured : obj) (values : jsval) (now : Z) (suffix : string)
    : eff world unit :=
  match parse RouteSchema values with
  | Return route => Page.onSubmit mode captured route now suffix
  | Throw _ => mret tt
  end.

(** Inside a form a button is a submit button unless its type says otherwise. *)
Inductive button_type := TButton | TSubmit.
Definition effective_type (t : option button_type) : button_type := default TSubmit t.

(** A click on a button of the form: its handler, then the submission it starts.  Each saves
    three seconds after the click, the handler first; the submission's values are those of the
    click. *)
Definition click_in_form (type : option button_type) (onClick : eff world unit) (mode : ModalStore.mode)
    (captured : obj) (now : Z) (suffix : string) : eff world unit :=
  w ← get_state;
  _ ← onClick;
  match effective_type type with
  | TSubmit => handleSubmit mode captured (Page.form (fst w)) now suffix
  | TButton => mret tt
  end.

(** [<Button onClick={onSaveRouteForce}>], without a type. *)
Definition force_click (mode : ModalStore.mode) (captured : obj) (now1 : Z) (suffix1 : string) (now2 : Z)
    (suffix2 : string) : eff world unit :=
  click_in_form None (Page.saveRouteForce mode captured now1 suffix1) mode captured now2 suffix2.

(** What happens to the locations of the form.  The location modal covers the page, so a row is
    edited only while no location is.  A delete and a save take effect three seconds after the
    click: no row can be edited while a delete runs, and a save keeps the index of its click and
    the value of that moment, which may be older than the one now shown. *)
Inductive location_step (w : world) : world -> Prop :=
  | L_add : location_step w (snd (Page.onAddLocation w))
  | L_edit i loc : truthy (ModalStore.editing_value (Page.modal (fst w))) = false ->
      jlist (jget "locations" (Page.form (fst w))) !! i = Some loc ->
      location_step w (snd (edit_click i loc w))
  | L_delete i m : ModalStore.editing_index (Page.modal (fst w)) = None ->
      location_step w (snd (snd (delete_click i (m, w))))
  | L_change field text : field ∈ location_fields ->
      location_step w (snd (location_onChange (ModalStore.editing_index (Page.modal (fst w)))
                              (ModalStore.editing_value (Page.modal (fst w))) field text w))
  | L_cancel : location_step w (snd (location_onCancel w))
  | L_save b m value :
      location_step w (snd (snd (location_onSave b (ModalStore.editing_index (Page.modal (fst w))) value (m, w)))).
End components.

(** * Reading what was written *)

Lemma jget_set_eq k x o : jget k (JObj (obj_set k x o)) = x.
Proof. cbn [jget]. by rewrite obj_get_set_eq. Qed.

Lemma jget_set_ne k k' x o : k <> k' -> jget k (JObj (obj_set k' x o)) = jget k (JObj o).
Proof. intros Hk. cbn [jget]. by rewrite obj_get_set_ne. Qed.

(** ** A form that keeps its values in an object

    A missing value on the way of a write is replaced by an object. *)
Definition form_object (v : jsval) : obj := match v with JObj o => o | _ => [] end.

Fixpoint set_path (path : list string) (x values : jsval) : jsval :=
  match path with
  | [] => x
  | k :: path' => JObj (obj_set k (set_path path' x (jget k values)) (form_object values))
  end.

Definition object_form : ReactHookForm := {|
  setValue := set_path;
  watch path defaults values := at_path path values;
  field_value path defaults values := match at_path path values with JUndef => at_path path defaults | v => v end
|}.

Lemma jget_form_object k v : jget k (JObj (form_object v)) = jget k v.
Proof. by destruct v. Qed.

Lemma object_form_laws : @ReactHookFormLaws object_form.
Proof.
  constructor; [| |done|done]; cbn [setValue object_form].
  - intros path x. induction path as [|k path IH]; intros v; [done|]. cbn [at_path set_path]. by rewrite jget_set_eq.
  - intros path k k' x v Hk. revert v. induction path as [|k0 path IH]; intros v; cbn [app at_path set_path].
    + by rewrite jget_set_ne, jget_form_object.
    + by rewrite jget_set_eq.
Qed.

(** * The port's input *)

(** What the schema reads a number as. *)
Lemma parse_port_num `{ZodLaws} n :
  is_return (parse PortSchema (JNum n)) = true <-> exists z, n = NInt z /\ 1 <= z <= 65535.
Proof.
  unfold PortSchema. split.
  - destruct (parse _ (JNum n)) as [w|] eqn:Hp; [intros _|done]. apply parse_accept_iff in Hp.
    rewrite accept_preprocess, accept_port_number in Hp. destruct Hp as (_ & z & [= ->] & Hz). by exists z.
  - intros (z & -> & Hz).
    assert (Hp : parse (ZPreprocess port_preprocess (ZNumber [num_int; num_min 1; num_max 65535])) (JNum (NInt z)) =
                 Return (JNum (NInt z))); [|by rewrite Hp].
    apply parse_accept_iff. rewrite accept_preprocess, accept_port_number. split; [done|]. by exists z.
Qed.

(** An object with a refused field is refused. *)
Lemma refused_field fs o k s : (k, s) ∈ fs -> accept s (jget k (JObj o)) = None -> accept_fields o fs = None.
Proof.
  intros Hin Hn. destruct (accept_fields o fs) as [o'|] eqn:Ho; [|done].
  destruct (accept_fields_all _ _ _ _ _ Ho Hin) as [w Hw]. congruence.
Qed.

Lemma refused_object fs v k s : (k, s) ∈ fs -> accept s (jget k v) = None -> accept (ZObject fs) v = None.
Proof.
  intros Hin Hn. rewrite accept_object. destruct (object_props v) as [o|] eqn:Ho; [|done].
  rewrite (refused_field _ _ k s); [done|done|]. by destruct v; try done; injection Ho as <-.
Qed.

Lemma refused_route `{ZodLaws} `{HostDate} v k s :
  (k, s) ∈ Route_shape -> accept s (jget k v) = None -> is_return (parse RouteSchema v) = false.
Proof.
  intros Hin Hn. destruct (parse RouteSchema v) as [r|] eqn:Hp; [|done]. exfalso. apply parse_accept_iff in Hp.
  unfold RouteSchema in Hp. apply accept_superRefine in Hp as (u & Hu & _). by rewrite (refused_object _ _ k s) in Hu.
Qed.

(** C21.  The port's input parses the value its field shows while it renders.  After the user
    enters a text, the open modal renders exactly when the text is a number from 1 to 65535:
    passing through any other number throws while rendering and takes the page down.  A
    cleared input writes no value and shows the one the field falls back to, so it renders
    exactly when that is a port, but what the form holds is then refused when it is
    submitted, whatever the input shows. *)
Theorem port_input_renders `{ZodLaws} `{HostDate} `{ReactHookFormLaws} defaults p m preview text :
  ModalStore.modalOpen (Page.modal p) = true -> ModalStore.activeTab (Page.modal p) = ModalStore.basic ->
  let values := BasicTab.port_onChange text (Page.form p) in
  (is_return (route_modal defaults (Page.setForm values p) m preview) = true <->
   if decide (text = "") then is_return (parse PortSchema (jget "port" defaults)) = true
   else exists z, toNumber text = NInt z /\ 1 <= z <= 65535) /\
  (text = "" -> is_return (parse RouteSchema values) = false).
Proof.
  intros Ho Ht values.
  assert (Hport : jget "port" values = if decide (text = "") then JUndef else JNum (toNumber text))
    by apply (setValue_at ["port"]).
  clearbody values. split.
  - unfold route_modal, render_tab, BasicTab.view. cbn [Page.modal Page.setForm Page.form]. rewrite Ho, Ht.
    rewrite (field_value_spec ["port"]). cbn [at_path]. rewrite Hport.
    destruct (decide (text = "")); [by destruct (parse PortSchema _)|]. rewrite <- parse_port_num.
    by destruct (parse PortSchema _).
  - intros ->. rewrite decide_True in Hport by done. apply (refused_route _ "port" PortSchema); [|by rewrite Hport].
    apply list_elem_of_In. simpl. tauto.
Qed.

(** * The advanced tab *)

Section advanced_theorems.
Context `{ReactHookFormLaws} (defaults : jsval).

Abbreviation at_field k values := (at_path (AdvancedTab.field k) values).

(** The boxes have values, and a list of types or a validity is there only while its box is
    checked. *)
Definition advanced_ok (values : jsval) : Prop :=
  at_field "gzip" values <> JUndef /\ at_field "caching" values <> JUndef /\
  (truthy (at_field "gzip" values) = false -> at_field "gzip_types" values = JUndef) /\
  (truthy (at_field "caching" values) = false -> at_field "cache_valid" values = JUndef).

Lemma at_field_set k x v : at_field k (setValue (AdvancedTab.field k) x v) = x.
Proof. apply setValue_at. Qed.

Lemma at_field_beside k k' x v : k <> k' -> at_field k (setValue (AdvancedTab.field k') x v) = at_field k v.
Proof. apply (setValue_beside ["advanced"]). Qed.

Lemma shown_spec values k :
  advanced_ok values -> k ∈ AdvancedTab.shown defaults values ->
  k <> "gzip" /\ k <> "caching" /\ (k = "gzip_types" -> truthy (at_field "gzip" values) = true) /\
  (k = "cache_valid" -> truthy (at_field "caching" values) = true).
Proof.
  intros (Hg & Hc & _). unfold AdvancedTab.shown, AdvancedTab.gzip, AdvancedTab.caching. rewrite !watch_defined by done.
  destruct (truthy (at_field "gzip" values)), (truthy (at_field "caching" values));
    intros Hk; apply list_elem_of_In in Hk; simpl in Hk; intuition (subst; discriminate).
Qed.

Lemma advanced_step_ok values values' : advanced_ok values -> AdvancedTab.step defaults values values' -> advanced_ok values'.
Proof.
  intros Hok Hs. pose proof Hok as (Hg & Hc & Hgt & Hcv). destruct Hs as [k text Hk|[]|[]]; unfold advanced_ok,
    AdvancedTab.gzip_onChange, AdvancedTab.caching_onChange, field_onChange;
    repeat first [rewrite at_field_set | rewrite at_field_beside by done]; try done.
  apply shown_spec in Hk as (? & ? & Hgt' & Hcv'); [|done]. rewrite !(at_field_beside "gzip"), !(at_field_beside "caching") by done.
  split_and!; [done|done|..]; intros Hoff; (rewrite at_field_beside; [by auto|]); intros <-.
  - rewrite Hgt' in Hoff by done. discriminate.
  - rewrite Hcv' in Hoff by done. discriminate.
Qed.

(** Whatever the user types and checks in the advanced tab, from a form in which a list of
    gzip types or a cache validity is there only while its box is checked, the form stays so;
    the schema's refinement then finds nothing to clear. *)
Theorem advanced_tab_consistent values values' :
  advanced_ok values -> rtc (AdvancedTab.step defaults) values values' ->
  advanced_ok values' /\
  fst (AdvancedConfig_refine (jget "advanced" values')) = jget "advanced" values'.
Proof.
  intros Hok Hr. assert (Hok' : advanced_ok values').
  { induction Hr as [|v1 v2 v3 Hs _ IH]; [done|]. apply IH. by eapply advanced_step_ok. }
  split; [done|]. destruct Hok' as (_ & _ & Hg & Hc). unfold AdvancedTab.field in Hg, Hc.
  cbn [at_path] in Hg, Hc. unfold AdvancedConfig_refine.
  set (adv := jget "advanced" values') in *.
  replace (negb (truthy (jget "gzip" adv)) && truthy (jget "gzip_types" adv)) with false.
  2: { destruct (truthy (jget "gzip" adv)); [done|]. by rewrite Hg. }
  cbn [fst]. destruct (truthy (jget "caching" adv)); [done|]. by rewrite Hc.
Qed.
End advanced_theorems.

(** * A cleared optional input *)

Lemma empty_proxy_refused `{ZodLaws} w : accept ProxyTargetSchema (JStr "") <> Some w.
Proof. vm_compute. discriminate. Qed.

Section components_theorems.
Context {S : Type} `{RouteRepository S} `{ZodLaws} `{HostDate}.

Abbreviation world := (Page.page * (RouteOps.ops * (RoutesStore.state * S)))%type.

(** The page's notice for a location it does not save. *)
Definition refusal (b : save_button) : Page.notice :=
  match b with Force => Page.LocationInvalidEn | Normal => Page.LocationInvalid end.

(** What saving a location does to the page: the rest of the state is not touched. *)
Definition saved_location (b : save_button) (index : option nat) (value : jsval) (p : Page.page) : Page.page :=
  if negb (length (UseCases.validateLocation value) =? 0)%nat then Page.toast (refusal b) p
  else match jget "locations" (Page.form p) with
       | JArr l =>
           Page.toast Page.LocationSaved (Page.start_edit None JNull (Page.set_locations
             (match index with None => addLocationToRoute l value | Some i => updateLocationInRoute l i value end) p))
       | _ => Page.toast Page.LocationSaveFailed p
       end.

Lemma location_onSave_spec b index value m (w : world) :
  location_onSave b index value (m, w) =
  (Return tt, (Marker.click b m,
    (Page.setIsSavingLocation false (saved_location b index value (Page.setIsSavingLocation true (fst w))), snd w))).
Proof.
  unfold location_onSave, saved_location. destruct w as [p o]. destruct b; cbn [fst snd];
    unfold Page.onSaveLocationForce, Page.onSaveLocation, Page.save_location, Page.set, Page.finally, try_finally,
      try_catch, get_state, lift_outcome, Page.form_locations, mbind, eff_bind; cbn [fst snd];
    (destruct (negb _); [reflexivity|]); cbn [fst snd Page.form Page.setIsSavingLocation];
    by destruct (jget "locations" (Page.form p)).
Qed.

Lemma location_refused value :
  jget "proxy_pass" value = JStr "" -> UseCases.validateLocation value <> [].
Proof.
  intros Hv Hl. apply validateLocation_agrees in Hl. destruct (parse LocationConfigSchema value) as [w|] eqn:Hp; [|done].
  apply parse_accept_iff in Hp. unfold LocationConfigSchema in Hp. apply accept_superRefine in Hp as (u & Hu & _).
  rewrite (refused_object _ _ "proxy_pass" ProxyTargetSchema) in Hu; [done| |by rewrite Hv].
  apply list_elem_of_In. simpl. auto.
Qed.

(** The proxy target is optional, but an input that was filled and cleared holds the empty
    text, which the schemas refuse: a form with a cleared target never parses, so neither
    button saves the route, and both buttons of the location modal refuse a location with a
    cleared target and leave the form and the modal as they were. *)
Theorem cleared_proxy_refused `{ReactHookFormLaws} :
  (forall values, is_return (parse RouteSchema (field_onChange ["proxy_pass"] "" values)) = false) /\
  (forall b index value m (w : world), jget "proxy_pass" value = JStr "" ->
     let p := fst (snd (snd (location_onSave b index value (m, w)))) in
     Page.form p = Page.form (fst w) /\ Page.modal p = Page.modal (fst w) /\
     Page.notices p = Page.notices (fst w) ++ [refusal b]).
Proof.
  split.
  - intros values. apply (refused_route _ "proxy_pass" ProxyTargetSchema); [apply list_elem_of_In; simpl; tauto|].
    unfold field_onChange. by rewrite (setValue_at ["proxy_pass"] (JStr "") values : jget "proxy_pass" _ = _).
  - intros b index value m w Hv. rewrite location_onSave_spec. cbn [fst snd]. unfold saved_location.
    destruct (UseCases.validateLocation value) eqn:Hl; [by apply location_refused in Hl|]. by destruct (fst w).
Qed.

(** * The locations of the form *)

(** Every location of the form is one the schema accepts, and an edited index is one of them. *)
Definition locations_ok (p : Page.page) : Prop :=
  exists l, jget "locations" (Page.form p) = JArr l /\
    Forall (fun loc => is_return (parse LocationConfigSchema loc) = true) l /\
    (forall i, ModalStore.editing_index (Page.modal p) = Some i -> (i < length l)%nat).

Lemma set_locations_ok next p :
  Forall (fun loc => is_return (parse LocationConfigSchema loc) = true) next ->
  ModalStore.editing_index (Page.modal p) = None -> locations_ok (Page.set_locations next p).
Proof.
  intros Hl Hi. exists next. cbn [Page.set_locations Page.form Page.setForm Page.modal]. rewrite jget_set_eq, Hi.
  by split_and!.
Qed.

Lemma saved_location_ok b value p :
  locations_ok p -> locations_ok (saved_location b (ModalStore.editing_index (Page.modal p)) value p).
Proof.
  intros (l & Hl & Hf & Hi). unfold saved_location. rewrite Hl.
  destruct (UseCases.validateLocation value) as [|] eqn:Hv; cbn [length Nat.eqb negb]; [|by exists l].
  apply validateLocation_agrees in Hv.
  assert (Hnext : Forall (fun loc => is_return (parse LocationConfigSchema loc) = true)
    (match ModalStore.editing_index (Page.modal p) with
     | None => addLocationToRoute l value | Some i => updateLocationInRoute l i value end)).
  { destruct (ModalStore.editing_index (Page.modal p)) as [i|].
    - unfold updateLocationInRoute. specialize (Hi i eq_refl). destruct (Nat.ltb_spec i (length l)); [|lia].
      by apply Forall_insert.
    - apply Forall_app. split; [done|]. by apply List.Forall_cons. }
  destruct (set_locations_ok _ (Page.start_edit None JNull p) Hnext eq_refl) as (l' & Hl' & Hf' & Hi').
  by exists l'.
Qed.

Lemma start_edit_ok index value p :
  locations_ok p -> (forall i l, index = Some i -> jget "locations" (Page.form p) = JArr l -> (i < length l)%nat) ->
  locations_ok (Page.start_edit index value p).
Proof. intros (l & Hl & Hf & _) Hi. exists l. split_and!; [done|done|]. intros i Hidx. by eapply Hi. Qed.

Lemma removeLocation_Forall (P : jsval -> Prop) l i : Forall P l -> Forall P (removeLocation l i).
Proof. intros Hf. rewrite removeLocation_spec. apply Forall_app. split; [by apply Forall_take|by apply Forall_drop]. Qed.

Lemma delete_click_ok i m (w : world) :
  locations_ok (fst w) -> ModalStore.editing_index (Page.modal (fst w)) = None ->
  locations_ok (fst (snd (snd (delete_click i (m, w))))).
Proof.
  destruct w as [p o]. intros (l & Hl & Hf & _) Hi. cbn [fst] in *.
  unfold delete_click, Page.onDeleteLocation, Page.set, Page.finally, Page.form_locations. run_eff. cbn [fst snd Page.form Page.setIsRemovingLocation]. rewrite Hl. cbn [fst snd].
  destruct (set_locations_ok (removeLocation l i) p (removeLocation_Forall _ _ _ Hf) Hi) as (l' & Hl' & Hf' & Hi').
  by exists l'.
Qed.

Lemma edit_click_spec i loc (w : world) :
  edit_click i loc w =
  match parse LocationConfigSchema loc with
  | Return value => (Return tt, (Page.start_edit (Some i) value (fst w), snd w))
  | Throw e => (Throw e, w)
  end.
Proof. unfold edit_click. run_eff. by destruct (parse LocationConfigSchema loc). Qed.

Lemma location_step_ok (w w' : world) : locations_ok (fst w) -> location_step w w' -> locations_ok (fst w').
Proof.
  intros Hok Hs. destruct Hs as [|i loc _ Hi|i m Hi|field text _| |b m value].
  - by apply start_edit_ok.
  - rewrite edit_click_spec. destruct (parse _ loc); [|done]. apply start_edit_ok; [done|].
    intros j l [= <-] Hl. rewrite Hl in Hi. by eapply lookup_lt_Some.
  - by apply delete_click_ok.
  - apply start_edit_ok; [done|]. intros j l Hj Hl. destruct Hok as (l' & Hl' & _ & Hlt).
    rewrite Hl' in Hl. injection Hl as <-. by apply Hlt.
  - by apply start_edit_ok.
  - rewrite location_onSave_spec. cbn [fst snd].
    destruct (saved_location_ok b value (Page.setIsSavingLocation true (fst w)) Hok) as (l & Hl). by exists l.
Qed.

Lemma mapM_out_returns {A B} (f : A -> outcome B) l :
  Forall (fun x => is_return (f x) = true) l -> is_return (mapM_out f l) = true.
Proof.
  induction 1 as [|x l Hx _ IH]; [done|]. cbn [mapM_out]. destruct (f x); [|done].
  cbn [mbind outcome_bind]. by destruct (mapM_out f l).
Qed.

Lemma row_returns isRemoving m i loc :
  is_return (parse LocationConfigSchema loc) = true -> is_return (LocationsTab.row_of isRemoving m i loc) = true.
Proof.
  destruct (parse LocationConfigSchema loc) as [v|] eqn:Hp; [intros _|done]. apply parse_accept_iff in Hp.
  unfold LocationConfigSchema in Hp. apply accept_superRefine in Hp as (u & Hu & _). rewrite accept_object in Hu.
  by destruct loc.
Qed.

(** C22.  From a form whose locations the schema accepts, whatever the user adds, edits, saves
    and deletes, the locations stay acceptable and without holes: the tab renders, and the
    edit button of every row, which parses the row's location, never throws but opens that
    location with its index. *)
Theorem locations_editable (w w' : world) m :
  locations_ok (fst w) -> rtc location_step w w' ->
  is_return (LocationsTab.view (Page.isRemovingLocation (fst w')) m (Page.form (fst w'))) = true /\
  forall i loc, jlist (jget "locations" (Page.form (fst w'))) !! i = Some loc ->
    fst (edit_click i loc w') = Return tt /\
    ModalStore.editing_index (Page.modal (fst (snd (edit_click i loc w')))) = Some i.
Proof.
  intros Hok Hr. assert (Hok' : locations_ok (fst w')).
  { induction Hr as [|w1 w2 w3 Hs _ IH]; [done|]. apply IH. by eapply location_step_ok. }
  destruct Hok' as (l & Hl & Hf & _). split.
  - unfold LocationsTab.view. rewrite Hl. unfold mbind, outcome_bind. cbn [fst snd].
    assert (Hrows : is_return (mapM_out (fun il => LocationsTab.row_of (Page.isRemovingLocation (fst w')) m (fst il) (snd il))
      (imap pair l)) = true); [|by destruct (mapM_out _ _)].
    apply mapM_out_returns, Forall_lookup. intros k il. rewrite list_lookup_imap.
    destruct (l !! k) as [loc|] eqn:Hk; [|done]. intros [= <-]. cbn [fst snd].
    apply row_returns, (proj1 (Forall_lookup _ _) Hf k loc Hk).
  - intros i loc Hi. rewrite Hl in Hi. rewrite edit_click_spec.
    pose proof (proj1 (Forall_lookup _ _) Hf i loc Hi) as Hp. cbn beta in Hp.
    by destruct (parse LocationConfigSchema loc).
Qed.
End components_theorems.

(** * The forced save *)
Section forced_save.
Context {S : Type} `{RouteRepository S} `{ZodLaws} `{HostDate}.

(** The routes a creation through the page writes: those captured by the render, and the new one. *)
Definition created_routes (captured data : obj) (now : Z) (suffix : string) : obj :=
  obj_of_entries (obj_set (generated_id "route" now suffix) (new_route data now suffix) (obj_of_entries captured)).

(** The repository after these routes are written and read again. *)
Definition written (rs : obj) (s : S) : S := snd (repo_loadAll (snd (repo_saveAll rs s))).

Lemma create_op_spec captured data now sfx (o : RouteOps.ops) st s :
  creatable data now sfx = true ->
  exists st', RouteOps.create captured data now sfx (o, (st, s)) =
    (Return (Some tt),
     (RouteOps.Ops false None (Some RouteOps.Saved), (st', written (created_routes captured data now sfx) s))).
Proof.
  intros Hc. unfold RouteOps.create. rewrite wrap_spec. run_eff.
  pose proof (@UseCases.createRoute_cases _ (RoutesStore.createRouteRepositoryAdapter captured) _ _
    data now sfx (st, s)) as Hcr.
  rewrite Hc in Hcr. rewrite Hcr.
  cbn [RoutesStore.createRouteRepositoryAdapter repo_save].
  unfold RoutesStore.adapter_set, RoutesStore.set. run_eff. rewrite route_id_new.
  fold (created_routes captured data now sfx). rewrite saveRoutes_cases.
  unfold written. cbn [RoutesStore.routes].
  destruct (repo_saveAll _ s) as [[[]|e] s1]; cbn [fst snd]; unfold mret, eff_ret; rewrite loadRoutes_cases;
    destruct (repo_loadAll s1) as [[rs|e2] s2]; by eexists.
Qed.

Lemma save_values_create captured values r now sfx (p : Page.page) (o : RouteOps.ops) st s :
  parse RouteSchema values = Return r -> creatable (spread_props r) now sfx = true ->
  exists st', Page.save_values ModalStore.create captured values now sfx (p, (o, (st, s))) =
    (Return tt, (Page.setIsSaving false (Page.setModal (ModalStore.closeModal (Page.modal p))
                   (Page.toast Page.Created (Page.setIsSaving true p))),
      (RouteOps.init, (st', written (created_routes captured (spread_props r) now sfx) s)))).
Proof.
  intros Hp Hc. rewrite save_values_spec. unfold submitted. cbn [Page.is_create orb]. rewrite Hp.
  cbn [mbind outcome_bind]. destruct (create_op_spec captured (spread_props r) now sfx o st s Hc) as [st' ->].
  by exists st'.
Qed.

(** C26.  The forced save of the route modal is a button without a type inside the form, so its
    click also submits the form.  For a new route with valid values both save: the page
    reports the creation twice, two ids are made, and the second write holds the routes of the
    render and the second route only, so that the first one is gone from the repository. *)
Theorem force_click_saves_twice captured r1 r2 now1 sfx1 now2 sfx2 (p : Page.page) (o : RouteOps.ops) st s :
  parse RouteSchema (Page.form p) = Return r1 -> parse RouteSchema r1 = Return r2 ->
  creatable (spread_props r1) now1 sfx1 = true -> creatable (spread_props r2) now2 sfx2 = true ->
  let (q, w') := force_click ModalStore.create captured now1 sfx1 now2 sfx2 (p, (o, (st, s))) in
  q = Return tt /\
  Page.notices (fst w') = Page.notices p ++ [Page.Created; Page.Created] /\
  snd (snd (snd w')) = written (created_routes captured (spread_props r2) now2 sfx2)
                         (written (created_routes captured (spread_props r1) now1 sfx1) s) /\
  (generated_id "route" now1 sfx1 <> generated_id "route" now2 sfx2 -> NoDup (List.map fst captured) ->
   obj_get (generated_id "route" now1 sfx1) captured = None ->
   obj_get (generated_id "route" now1 sfx1) (created_routes captured (spread_props r2) now2 sfx2) = None).
Proof.
  intros Hp1 Hp2 Hc1 Hc2. unfold force_click, click_in_form, Page.saveRouteForce, handleSubmit. run_eff.
  cbn [fst snd effective_type default]. rewrite Hp1.
  destruct (save_values_create captured (Page.form p) r1 now1 sfx1 p o st s Hp1 Hc1) as [st1 ->]. cbn [fst snd].
  unfold Page.onSubmit.
  match goal with |- context [Page.save_values _ _ _ _ _ (?p1, (?o1, (?t1, ?s1)))] =>
    destruct (save_values_create captured r1 r2 now2 sfx2 p1 o1 t1 s1 Hp2 Hc2) as [st2 ->] end. cbn [fst snd].
  split_and!; [done| |done|].
  - cbn [Page.notices Page.setIsSaving Page.setModal Page.toast]. by rewrite <- app_assoc.
  - intros Hne Hnd Hfresh. unfold created_routes. rewrite obj_of_entries_id, (obj_of_entries_id captured) by
      (try apply obj_set_NoDup; by rewrite ?obj_of_entries_id). by rewrite obj_get_set_ne.
Qed.
End forced_save.

(** * The busy marker *)

Lemma fire_all {A} (a : option A) n :
  Nat.iter n Marker.fire (Marker.State a n) = Marker.State (if decide (n = 0%nat) then a else None) 0.
Proof.
  revert a. induction n as [|n IH]; intros a; [done|]. rewrite Nat.iter_succ_r. cbn [Marker.fire Marker.timers].
  rewrite IH. by destruct n.
Qed.

(** Whatever was clicked and rendered before, once the operation is over and the component
    has rendered, the timers that are running leave no control marked and start no other; and
    at no time do two controls show the spinner. *)
Theorem marker_clears {A} `{EqDecision A} (m : Marker.state A) :
  (let m' := Marker.render false m in
   Nat.iter (Marker.timers m') Marker.fire m' = Marker.State None 0 /\
   Marker.render false (Marker.State None 0) = (Marker.State None 0 : Marker.state A)) /\
  (forall busy a b, Marker.spins busy m a && Marker.spins busy m b = bool_decide (a = b) && Marker.spins busy m a).
Proof.
  split.
  - split; [|done]. unfold Marker.render. destruct m as [[a|] n]; cbn [negb andb bool_decide Marker.active Marker.timers].
    + rewrite bool_decide_true by eauto. cbn [Marker.timers]. rewrite fire_all. by rewrite decide_False.
    + rewrite bool_decide_false by (intros [? ?]; done). cbn [Marker.timers]. rewrite fire_all. by destruct (decide _).
  - intros busy a b. unfold Marker.spins. destruct busy; [|by rewrite !andb_false_r]. cbn [andb].
    destruct (decide (a = b)) as [->|Hne]; [rewrite (bool_decide_true (b = b)) by done; by destruct (bool_decide _)|].
    rewrite (bool_decide_false (a = b)) by done. cbn [andb].
    destruct (bool_decide_reflect (Marker.active m = Some a)) as [Ha|]; [|done]. rewrite Ha. cbn [andb].
    apply bool_decide_eq_false. congruence.
Qed.

(** * The theorems at work *)

#[local] Existing Instances no_host zod_model zod_model_laws empty_repository object_form object_form_laws.

(** A page whose modal is open on a new route. *)
Definition new_page : Page.page :=
  Page.PageState false false false false [] (Factories.createRoute "a1" 0 []) (ModalStore.openForCreate ModalStore.init).

(** The new form resets the library's defaults to its own values, with port 80. *)
Definition rendered_after (text : string) : bool :=
  is_return (route_modal (Page.form new_page)
    (Page.setForm (BasicTab.port_onChange text (Page.form new_page)) new_page) Marker.init "").

Lemma port_input_renders_witness :
  rendered_after "8080" = true /\ rendered_after "" = true /\
  is_return (parse RouteSchema (BasicTab.port_onChange "" (Page.form new_page))) = false.
Proof.
  pose proof (fun text => port_input_renders (Page.form new_page) new_page Marker.init "" text eq_refl eq_refl) as Hp.
  split; [|split].
  - apply (proj1 (Hp "8080")). exists 8080. split; [vm_compute; reflexivity|lia].
  - apply (proj1 (Hp "")). vm_compute. reflexivity.
  - apply (proj2 (Hp "")). reflexivity.
Defined.

(** Typing one digit too many takes the page down. *)
Example large_port_throws : rendered_after "80800" = false.
Proof. vm_compute. reflexivity. Qed.

Lemma advanced_tab_consistent_witness :
  let values := AdvancedTab.gzip_onChange false
    (field_onChange (AdvancedTab.field "gzip_types") "text/css" (AdvancedTab.gzip_onChange true (Page.form new_page))) in
  at_path (AdvancedTab.field "gzip_types") values = JUndef.
Proof.
  intros values.
  refine (proj1 (proj2 (proj2 (proj1 (advanced_tab_consistent (Page.form new_page) (Page.form new_page) values _ _)))) _).
  - by split_and!.
  - eapply rtc_l; [apply (AdvancedTab.S_gzip _ _ true)|]. eapply rtc_l; [|apply rtc_once, AdvancedTab.S_gzip].
    apply (AdvancedTab.S_text _ _ "gzip_types" "text/css"). apply list_elem_of_In. simpl. auto.
  - vm_compute. reflexivity.
Defined.

Abbreviation sample_world := (Page.page * (RouteOps.ops * (RoutesStore.state * unit)))%type.
Definition new_world : sample_world := (new_page, (RouteOps.init, (RoutesStore.init, tt))).
Definition cleared_location : jsval := JObj [("path", JStr "/"); ("proxy_pass", JStr "")].

Lemma cleared_proxy_refused_witness :
  Page.notices (fst (snd (snd (location_onSave Normal None cleared_location (Marker.init, new_world))))) =
    [Page.LocationInvalid].
Proof. apply (proj2 cleared_proxy_refused Normal None cleared_location Marker.init new_world). reflexivity. Defined.

Definition with_location : sample_world :=
  snd (snd (location_onSave Normal None Page.new_location (Marker.init, snd (Page.onAddLocation new_world)))).

Lemma locations_editable_witness :
  fst (edit_click 0 Page.new_location with_location) = Return tt.
Proof.
  refine (proj1 (proj2 (locations_editable new_world with_location Marker.init _ _) 0%nat Page.new_location _)).
  - exists []. split; [reflexivity|]. split; [apply List.Forall_nil|]. intros i Hi. discriminate Hi.
  - eapply rtc_l; [apply L_add|]. apply rtc_once.
    apply (L_save (snd (Page.onAddLocation new_world)) Normal Marker.init Page.new_location).
  - vm_compute. reflexivity.
Defined.

Definition parsed_once : jsval := match parse RouteSchema (Page.form new_page) with Return r => r | Throw _ => JUndef end.
Definition parsed_twice : jsval := match parse RouteSchema parsed_once with Return r => r | Throw _ => JUndef end.

Lemma force_click_saves_twice_witness :
  let (q, w') := force_click ModalStore.create [] 5 "x" 6 "y" new_world in
  q = Return tt /\
  Page.notices (fst w') = [Page.Created; Page.Created] /\
  snd (snd (snd w')) = written (created_routes [] (spread_props parsed_twice) 6 "y")
                         (written (created_routes [] (spread_props parsed_once) 5 "x") tt) /\
  (generated_id "route" 5 "x" <> generated_id "route" 6 "y" -> NoDup (List.map fst ([] : obj)) ->
   obj_get (generated_id "route" 5 "x") ([] : obj) = None ->
   obj_get (generated_id "route" 5 "x") (created_routes [] (spread_props parsed_twice) 6 "y") = None).
Proof.
  apply (force_click_saves_twice [] parsed_once parsed_twice 5 "x" 6 "y" new_page RouteOps.init RoutesStore.init tt);
    vm_compute; reflexivity.
Defined.
