(* ===== verification/WebShell.v ===== *)
(** * The shell of the web application

    apps/web/src/App.tsx ([App]), the wiring of apps/web/src/pages/routes/RoutesPage.tsx and
    the copy button of RouteModal/PreviewTab.tsx ([RoutesPage], [PreviewTab]), and the form
    fields of packages/shared/src/ui-kit/form.tsx and form-hooks.ts ([FormField]). *)

From S2P Require Import Prelude JsString Regex JsValue Dates Json Secrets Zod Schemas ConfigGenerator.
From S2P Require Import Repositories UseCases Stores WebPage RouteViews.

(** ** App.tsx *)
Module App.
Inductive router := HashRouter | BrowserRouter.
Definition isProd (mode : string) : bool := bool_decide (mode = "production").
Definition Router (mode : string) : router := if isProd mode then HashRouter else BrowserRouter.

Inductive app_page := Overview | RoutesPage | ConfigPage | LogsPage | StatisticsPage | BootstrapPage.

(** The table of the router and the links of the side bar. *)
Definition routes : list (string * app_page) :=
  [("/", Overview); ("/routes", RoutesPage); ("/config", ConfigPage); ("/logs", LogsPage);
   ("/statistics", StatisticsPage); ("/bootstrap", BootstrapPage)].
Definition Sidebar : list (string * string) :=
  [("/", "Overview"); ("/routes", "Routes"); ("/config", "Config"); ("/logs", "Logs");
   ("/statistics", "Statistics"); ("/bootstrap", "Bootstrap")].

(** The page of a path of the table; [None] for a path it does not have. *)
Definition page_at (path : string) : option app_page := obj_get path routes.
End App.

(** ** PreviewTab.tsx *)
Module PreviewTab.
(** [copied], and the timers that will clear it. *)
Record state := State { copied : bool; timers : nat }.
Definition init : state := State false 0.

(** [handleCopy] with what the clipboard answered; a rejection is passed on. *)
Definition handleCopy (written : outcome unit) (st : state) : outcome unit * state :=
  match written with
  | Return _ => (Return tt, State true (S (timers st)))
  | Throw e => (Throw e, st)
  end.
Definition fire (st : state) : state := match timers st with O => st | S n => State false n end.

Inductive step (st : state) : state -> Prop :=
  | S_copy written : step st (snd (handleCopy written st))
  | S_fire : step st (fire st).

(** The preview and the button's mark. *)
Definition view (preview : string) (st : state) : string * bool := (preview, copied st).

(** The mark is only there while a timer is left to clear it. *)
Lemma mark_cleared st : rtc step init st -> copied st = true -> timers st <> O.
Proof.
  intros Hr. assert (Hi : copied init = true -> timers init <> O) by done. revert Hi.
  induction Hr as [|s1 s2 s3 Hs _ IH]; [done|]. intros Hi. apply IH. destruct Hs as [[]|]; [done|exact Hi|].
  unfold fire. destruct (timers s1) eqn:Ht; [by rewrite Ht|done].
Qed.

Lemma all_fired n st : timers st = S n -> copied (Nat.iter (S n) fire st) = false.
Proof.
  revert st. induction n as [|n IH]; intros st Hn; rewrite Nat.iter_succ_r; unfold fire at 2; rewrite Hn; [done|by apply IH].
Qed.

(** The timer of the first copy clears the mark of the second. *)
Example second_copy_loses_mark :
  copied (fire (snd (handleCopy (Return tt) (snd (handleCopy (Return tt) init))))) = false.
Proof. reflexivity. Qed.
End PreviewTab.

(** ** RoutesPage.tsx *)
Module RoutesPage.
Section view.
Context `{Zod} `{HostDate} `{ReactHookForm}.
(** The comment shown for values that do not parse, a text in Russian. *)
Context (error_comment : string).

(** The state the components keep for themselves. *)
Record markers := Markers {
  m_list : Marker.state string;
  m_locations : Marker.state nat;
  m_location : Marker.state save_button
}.

(** A save button of the location modal: disabled, spinning. *)
Definition location_buttons (isSavingLocation : bool) (m : Marker.state save_button) : list (save_button * (bool * bool)) :=
  List.map (fun b => (b, (isSavingLocation, Marker.spins isSavingLocation m b))) [Force; Normal].

Record view_state := View {
  v_list : bool * option string * option (list RouteList.row);
  v_modal : option modal_view;
  v_location : option (list (string * jsval) * list (save_button * (bool * bool)))
}.

(** The page over the routes store, its form falling back to [defaults]: an error of one
    component is the page's. *)
Definition view (defaults : jsval) (st : RoutesStore.state) (p : Page.page) (m : markers) : outcome view_state :=
  modal ← route_modal defaults p (m_locations m) (default error_comment (Page.useRoutePreview (Page.form p)));
  Return {|
    v_list := RouteList.view (RoutesStore.isLoading st) (RoutesStore.error st) (Page.isRemoving p) (m_list m)
                (Page.routes_list st);
    v_modal := modal;
    v_location := (fun fields => (fields, location_buttons (Page.isSavingLocation p) (m_location m))) <$>
                  location_modal (ModalStore.editing_value (Page.modal p)) |}.

(** The page is down exactly when the tab of an open modal cannot be shown. *)
Lemma view_down defaults st p m :
  is_return (view defaults st p m) = false <->
  ModalStore.modalOpen (Page.modal p) = true /\
  is_return (render_tab defaults p (m_locations m) (default error_comment (Page.useRoutePreview (Page.form p)))) = false.
Proof.
  unfold view, route_modal. destruct (ModalStore.modalOpen _); [|by split; [|intros []]].
  destruct (render_tab _ _ _ _); cbn; naive_solver.
Qed.
End view.
End RoutesPage.

(** ** form.tsx and form-hooks.ts *)
Module FormField.
(** The contexts hold an empty object outside their providers. *)
Definition FormFieldContext (name : option string) : jsval :=
  match name with Some n => JObj [("name", JStr n)] | None => JObj [] end.
Definition FormItemContext (id : option string) : jsval :=
  match id with Some i => JObj [("id", JStr i)] | None => JObj [] end.

Record field := Field {
  f_id : jsval; f_name : jsval; formItemId : string; formDescriptionId : string; formMessageId : string; f_error : jsval
}.

Section fields.
Context `{HostDate}.
(** The form library's [getFieldState(name).error]. *)
Context (error_of : jsval -> jsval).

Definition useFormField (fieldContext itemContext : jsval) : outcome field :=
  name ← prop "name" fieldContext;
  if negb (truthy fieldContext) then Throw (JsError EError "useFormField should be used within <FormField>") else
  id ← prop "id" itemContext;
  Return (Field id name (js_show id +:+ "-form-item") (js_show id +:+ "-form-item-description")
    (js_show id +:+ "-form-item-message") (error_of name)).

(** [FormLabel]: marked as an error, and the element it labels. *)
Definition FormLabel (f : field) : bool * string := (truthy (f_error f), formItemId f).

(** [FormControl]: the control's id, what describes it, whether it is invalid. *)
Definition FormControl (f : field) : string * list string * bool :=
  (formItemId f,
   if negb (truthy (f_error f)) then [formDescriptionId f] else [formDescriptionId f; formMessageId f],
   truthy (f_error f)).

Definition FormDescription (f : field) : string := formDescriptionId f.

(** [FormMessage]: its id and body, or nothing for an empty body; [children] is a text. *)
Definition FormMessage (f : field) (children : string) : option (string * string) :=
  let body := if truthy (f_error f) then js_show (js_nullish (jget "message" (f_error f)) (JStr "")) else children in
  if nonempty body then Some (formMessageId f, body) else None.

Lemma useFormField_item name id :
  useFormField (FormFieldContext (Some name)) (FormItemContext (Some id)) =
  Return (Field (JStr id) (JStr name) (id +:+ "-form-item") (id +:+ "-form-item-description")
    (id +:+ "-form-item-message") (error_of (JStr name))).
Proof. reflexivity. Qed.

(** The parts of one item belong together: the label names the control, and a message of an
    error is among what describes the control, which is then invalid. *)
Lemma parts_wired name id children : exists f, useFormField (FormFieldContext (Some name)) (FormItemContext (Some id)) = Return f /\
  snd (FormLabel f) = fst (fst (FormControl f)) /\
  snd (FormControl f) = truthy (error_of (JStr name)) /\
  (forall i body, FormMessage f children = Some (i, body) -> snd (FormControl f) = true ->
     i ∈ snd (fst (FormControl f)) /\ body = js_show (js_nullish (jget "message" (error_of (JStr name))) (JStr ""))).
Proof.
  eexists. split; [apply useFormField_item|]. split_and!; [done|done|]. unfold FormMessage, FormControl. cbn [f_error fst snd formMessageId].
  intros i body Hm Ht. rewrite Ht in *. cbn [negb]. destruct (nonempty _); [|done]. injection Hm as <- <-. set_solver.
Qed.

(** The guard against a use outside the provider is never reached: the context it tests is an
    object there too.  All such fields share the id of no item. *)
Lemma guard_unreachable fieldContext itemContext :
  fieldContext = FormFieldContext None -> itemContext = FormItemContext None ->
  exists f, useFormField fieldContext itemContext = Return f /\ formItemId f = "undefined-form-item".
Proof. intros -> ->. by eexists. Qed.

(** An error without a text leaves the control described by a message that is not there. *)
Lemma message_missing name id error children :
  error_of (JStr name) = JObj error -> jget "message" (JObj error) = JStr "" ->
  exists f, useFormField (FormFieldContext (Some name)) (FormItemContext (Some id)) = Return f /\
    FormMessage f children = None /\ formMessageId f ∈ snd (fst (FormControl f)).
Proof.
  intros He Hm. eexists. split; [apply useFormField_item|]. unfold FormMessage, FormControl.
  cbn [f_error fst snd formMessageId]. rewrite He, Hm. cbn. split; [done|]. set_solver.
Qed.
End fields.
End FormField.

(** ** The side bar reaches every page *)

Lemma sidebar_complete :
  List.map fst App.Sidebar = List.map fst App.routes /\
  Forall (fun link => is_Some (App.page_at (fst link))) App.Sidebar /\
  NoDup (List.map (fun link => App.page_at (fst link)) App.Sidebar).
Proof.
  split; [reflexivity|]. split; [repeat (apply List.Forall_cons; [by eexists|]); apply List.Forall_nil|].
  repeat (apply NoDup_cons; split; [set_solver|]). apply NoDup_nil_2.
Qed.
