(* ===== verification/UiKit.v ===== *)
(** * The components of the UI kit

    packages/shared/src/ui-kit: what each component renders for its properties.  An element is
    its type, a tag or a component of a library, and its properties; [children] is one of
    them.  The libraries that join class names are a parameter. *)

From S2P Require Import Prelude JsString Regex JsValue Dates Json Secrets Zod Schemas ConfigGenerator.
From S2P Require Import Repositories UseCases Stores WebPage RouteViews WebShell.

(** ** Elements *)
Unset Elimination Schemes.
Inductive node :=
  | Element (type : string) (props : list (string * node))
  | Children (l : list node)
  | Value (v : jsval).
Set Elimination Schemes.

Abbreviation properties := (list (string * node)).
Abbreviation text := (fun s => Value (JStr s)).

(** [props.k] *)
Definition prop_of (k : string) (props : properties) : node := default (Value JUndef) (obj_get k props).

(** [{ a, b, ...props }]: the properties that are not read by name. *)
Definition rest_of (read : list string) (props : properties) : properties :=
  List.filter (fun kv => negb (bool_decide (fst kv ∈ read))) props.

(** [k = d] in a destructuring: the default is for [undefined]. *)
Definition prop_or (k : string) (d : node) (props : properties) : node :=
  match prop_of k props with Value JUndef => d | n => n end.

Definition is_js (n : node) (s : string) : bool := match n with Value v => js_is_str v s | _ => false end.

(** What JSX makes of a tag: children written between its tags replace the property. *)
Definition jsx (type : string) (props : properties) (children : list node) : node :=
  Element type (match children with
                | [] => props
                | [c] => obj_spread props [("children", c)]
                | _ => obj_spread props [("children", Children children)]
                end).

(** The configuration of [cva]. *)
Record variants := Variants {
  v_base : string;
  v_variants : list (string * list (string * string));
  v_defaults : list (string * string)
}.

(** clsx, tailwind-merge and class-variance-authority. *)
Class ClassNames := {
  clsx : list node -> string;
  twMerge : string -> string;
  cva : variants -> properties -> string
}.

(** constants.ts *)
Definition buttonVariants : variants := {|
  v_base := "inline-flex items-center justify-center gap-2 whitespace-nowrap rounded-md text-sm font-medium transition-all disabled:pointer-events-none disabled:opacity-50 [&_svg]:pointer-events-none [&_svg:not([class*='size-'])]:size-4 shrink-0 [&_svg]:shrink-0 outline-none focus-visible:border-ring focus-visible:ring-ring/50 focus-visible:ring-[3px] aria-invalid:ring-destructive/20 dark:aria-invalid:ring-destructive/40 aria-invalid:border-destructive";
  v_variants := [("variant", [("default", "bg-primary text-primary-foreground shadow-xs hover:bg-primary/90");
      ("destructive", "bg-destructive text-white shadow-xs hover:bg-destructive/90 focus-visible:ring-destructive/20 dark:focus-visible:ring-destructive/40 dark:bg-destructive/60");
      ("outline", "border bg-background shadow-xs hover:bg-accent hover:text-accent-foreground dark:bg-input/30 dark:border-input dark:hover:bg-input/50");
      ("secondary", "bg-secondary text-secondary-foreground shadow-xs hover:bg-secondary/80");
      ("ghost", "hover:bg-accent hover:text-accent-foreground dark:hover:bg-accent/50");
      ("link", "text-primary underline-offset-4 hover:underline")]);
    ("size", [("default", "h-9 px-4 py-2 has-[>svg]:px-3");
      ("sm", "h-8 rounded-md gap-1.5 px-3 has-[>svg]:px-2.5");
      ("lg", "h-10 rounded-md px-6 has-[>svg]:px-4");
      ("icon", "size-9")])];
  v_defaults := [("variant", "default"); ("size", "default")]
|}.

Section kit.
Context `{ClassNames} `{HostDate}.

(** lib/utils.ts *)
Definition cn (inputs : list node) : node := text (twMerge (clsx inputs)).

(** The common shape: a [data-slot], the component's classes with the caller's, and then the
    properties of the caller. *)
Definition styled (type slot : string) (classes : list node) (props : properties) (children : list node) : node :=
  jsx type
    (obj_spread [("data-slot", text slot); ("className", cn (classes ++ [prop_of "className" props]))]
       (rest_of ["className"] props))
    children.

(** *** card.tsx *)
Definition Card (props : properties) : node :=
  styled "div" "card"
    [text "bg-card text-card-foreground flex flex-col gap-6 rounded-xl border py-6 shadow-sm"]
    props [].

Definition CardHeader (props : properties) : node :=
  styled "div" "card-header"
    [text "@container/card-header grid auto-rows-min grid-rows-[auto_auto] items-start gap-1.5 px-6 has-data-[slot=card-action]:grid-cols-[1fr_auto] [.border-b]:pb-6"]
    props [].

Definition CardTitle (props : properties) : node :=
  styled "div" "card-title"
    [text "leading-none font-semibold"]
    props [].

Definition CardDescription (props : properties) : node :=
  styled "div" "card-description"
    [text "text-muted-foreground text-sm"]
    props [].

Definition CardAction (props : properties) : node :=
  styled "div" "card-action"
    [text "col-start-2 row-span-2 row-start-1 self-start justify-self-end"]
    props [].

Definition CardContent (props : properties) : node :=
  styled "div" "card-content"
    [text "px-6"]
    props [].

Definition CardFooter (props : properties) : node :=
  styled "div" "card-footer"
    [text "flex items-center px-6 [.border-t]:pt-6"]
    props [].

(** *** label.tsx *)
Definition Label (props : properties) : node :=
  styled "LabelPrimitive.Root" "label"
    [text "flex items-center gap-2 text-sm leading-none font-medium select-none group-data-[disabled=true]:pointer-events-none group-data-[disabled=true]:opacity-50 peer-disabled:cursor-not-allowed peer-disabled:opacity-50"]
    props [].

(** *** input.tsx *)
Definition Input (props : properties) : node :=
  jsx "input"
    (obj_spread
       [("type", prop_of "type" props); ("data-slot", text "input");
        ("className", cn
           [text "file:text-foreground placeholder:text-muted-foreground selection:bg-primary selection:text-primary-foreground dark:bg-input/30 border-input flex h-9 w-full min-w-0 rounded-md border bg-transparent px-3 py-1 text-base shadow-xs transition-[color,box-shadow] outline-none file:inline-flex file:h-7 file:border-0 file:bg-transparent file:text-sm file:font-medium disabled:pointer-events-none disabled:cursor-not-allowed disabled:opacity-50 md:text-sm";
            text "focus-visible:border-ring focus-visible:ring-ring/50 focus-visible:ring-[3px]";
            text "aria-invalid:ring-destructive/20 dark:aria-invalid:ring-destructive/40 aria-invalid:border-destructive";
            prop_of "className" props])]
       (rest_of ["className"; "type"] props)) [].

(** *** button.tsx *)
Definition truthy_node (n : node) : bool := match n with Value v => truthy v | _ => true end.

Definition Button (props : properties) : node :=
  jsx (if truthy_node (prop_or "asChild" (Value (JBool false)) props) then "Slot" else "button")
    (obj_spread
       [("data-slot", text "button");
        ("className", cn [text (cva buttonVariants
           [("variant", prop_of "variant" props); ("size", prop_of "size" props); ("className", prop_of "className" props)])])]
       (rest_of ["className"; "variant"; "size"; "asChild"] props)) [].

(** *** select.tsx *)
Definition Select (props : properties) : node := jsx "SelectPrimitive.Root" (obj_spread [("data-slot", text "select")] props) [].
Definition SelectGroup (props : properties) : node := jsx "SelectPrimitive.Group" (obj_spread [("data-slot", text "select-group")] props) [].
Definition SelectValue (props : properties) : node := jsx "SelectPrimitive.Value" (obj_spread [("data-slot", text "select-value")] props) [].

Definition SelectTrigger (props : properties) : node :=
  jsx "SelectPrimitive.Trigger"
    (obj_spread
       [("data-slot", text "select-trigger"); ("data-size", prop_or "size" (text "default") props);
        ("className", cn
           [text "border-input data-[placeholder]:text-muted-foreground [&_svg:not([class*='text-'])]:text-muted-foreground focus-visible:border-ring focus-visible:ring-ring/50 aria-invalid:ring-destructive/20 dark:aria-invalid:ring-destructive/40 aria-invalid:border-destructive dark:bg-input/30 dark:hover:bg-input/50 flex w-fit items-center justify-between gap-2 rounded-md border bg-transparent px-3 py-2 text-sm whitespace-nowrap shadow-xs transition-[color,box-shadow] outline-none focus-visible:ring-[3px] disabled:cursor-not-allowed disabled:opacity-50 data-[size=default]:h-9 data-[size=sm]:h-8 *:data-[slot=select-value]:line-clamp-1 *:data-[slot=select-value]:flex *:data-[slot=select-value]:items-center *:data-[slot=select-value]:gap-2 [&_svg]:pointer-events-none [&_svg]:shrink-0 [&_svg:not([class*='size-'])]:size-4";
            prop_of "className" props])]
       (rest_of ["className"; "size"; "children"] props))
    [prop_of "children" props;
     jsx "SelectPrimitive.Icon" [("asChild", Value (JBool true))] [jsx "ChevronDownIcon" [("className", text "size-4 opacity-50")] []]].

Definition SelectScrollUpButton (props : properties) : node :=
  styled "SelectPrimitive.ScrollUpButton" "select-scroll-up-button"
    [text "flex cursor-default items-center justify-center py-1"]
    props [jsx "ChevronUpIcon" [("className", text "size-4")] []].

Definition SelectScrollDownButton (props : properties) : node :=
  styled "SelectPrimitive.ScrollDownButton" "select-scroll-down-button"
    [text "flex cursor-default items-center justify-center py-1"]
    props [jsx "ChevronDownIcon" [("className", text "size-4")] []].

Definition SelectContent (props : properties) : node :=
  let position := prop_or "position" (text "popper") props in
  let popper classes := if is_js position "popper" then text classes else Value (JBool false) in
  jsx "SelectPrimitive.Portal" []
    [jsx "SelectPrimitive.Content"
       (obj_spread
          [("data-slot", text "select-content");
           ("className", cn
              [text "bg-popover text-popover-foreground data-[state=open]:animate-in data-[state=closed]:animate-out data-[state=closed]:fade-out-0 data-[state=open]:fade-in-0 data-[state=closed]:zoom-out-95 data-[state=open]:zoom-in-95 data-[side=bottom]:slide-in-from-top-2 data-[side=left]:slide-in-from-right-2 data-[side=right]:slide-in-from-left-2 data-[side=top]:slide-in-from-bottom-2 relative z-50 max-h-(--radix-select-content-available-height) min-w-[8rem] origin-(--radix-select-content-transform-origin) overflow-x-hidden overflow-y-auto rounded-md border shadow-md";
               popper "data-[side=bottom]:translate-y-1 data-[side=left]:-translate-x-1 data-[side=right]:translate-x-1 data-[side=top]:-translate-y-1";
               prop_of "className" props]);
           ("position", position)]
          (rest_of ["className"; "children"; "position"] props))
       [SelectScrollUpButton [];
        jsx "SelectPrimitive.Viewport"
          [("className", cn
              [text "p-1";
               popper "h-[var(--radix-select-trigger-height)] w-full min-w-[var(--radix-select-trigger-width)] scroll-my-1"])]
          [prop_of "children" props];
        SelectScrollDownButton []]].

Definition SelectLabel (props : properties) : node :=
  styled "SelectPrimitive.Label" "select-label"
    [text "text-muted-foreground px-2 py-1.5 text-xs"]
    props [].

Definition SelectItem (props : properties) : node :=
  jsx "SelectPrimitive.Item"
    (obj_spread
       [("data-slot", text "select-item");
        ("className", cn
           [text "focus:bg-accent focus:text-accent-foreground [&_svg:not([class*='text-'])]:text-muted-foreground relative flex w-full cursor-default items-center gap-2 rounded-sm py-1.5 pr-8 pl-2 text-sm outline-hidden select-none data-[disabled]:pointer-events-none data-[disabled]:opacity-50 [&_svg]:pointer-events-none [&_svg]:shrink-0 [&_svg:not([class*='size-'])]:size-4 *:[span]:last:flex *:[span]:last:items-center *:[span]:last:gap-2";
            prop_of "className" props])]
       (rest_of ["className"; "children"] props))
    [jsx "span" [("className", text "absolute right-2 flex size-3.5 items-center justify-center")]
       [jsx "SelectPrimitive.ItemIndicator" [] [jsx "CheckIcon" [("className", text "size-4")] []]];
     jsx "SelectPrimitive.ItemText" [] [prop_of "children" props]].

Definition SelectSeparator (props : properties) : node :=
  styled "SelectPrimitive.Separator" "select-separator"
    [text "bg-border pointer-events-none -mx-1 my-1 h-px"]
    props [].

(** *** AnimatedTab.tsx: the children of each key are elements of their own. *)
Definition AnimatedTab (activeKey : string) (children : node) : node :=
  jsx "AnimatePresence" [("mode", text "wait")]
    [jsx "motion.div"
       [("key", text activeKey); ("layout", Value (JBool true));
        ("initial", Value (JObj [("opacity", JNum (NInt 0)); ("y", JNum (NInt 10))]));
        ("animate", Value (JObj [("opacity", JNum (NInt 1)); ("y", JNum (NInt 0))]));
        ("exit", Value (JObj [("opacity", JNum (NInt 0)); ("y", JNum (NInt (-10)))]));
        ("transition", Value (JObj [("duration", JNum (NDec 8 2)); ("ease", JStr "easeOut");
           ("layout", JObj [("duration", JNum (NDec 2 1)); ("ease", JStr "easeIn")])]))]
       [children]].

(** *** form.tsx *)
Definition FormField (props : properties) : node :=
  jsx "FormFieldContext.Provider"
    [("value", Value (JObj [("name", match prop_of "name" props with Value v => v | _ => JUndef end)]))]
    [jsx "Controller" props []].

Definition FormItem (id : string) (props : properties) : node :=
  jsx "FormItemContext.Provider" [("value", Value (FormField.FormItemContext (Some id)))]
    [styled "div" "form-item" [text "grid gap-2"] props []].

Definition FormLabel (f : FormField.field) (props : properties) : node :=
  Label
    (obj_spread
       [("data-slot", text "form-label"); ("data-error", Value (JBool (truthy (FormField.f_error f))));
        ("className", cn [text "data-[error=true]:text-destructive"; prop_of "className" props]);
        ("htmlFor", text (FormField.formItemId f))]
       (rest_of ["className"] props)).

Definition FormControl (f : FormField.field) (props : properties) : node :=
  jsx "Slot"
    (obj_spread
       [("data-slot", text "form-control"); ("id", text (FormField.formItemId f));
        ("aria-describedby", text (if negb (truthy (FormField.f_error f)) then FormField.formDescriptionId f
           else FormField.formDescriptionId f +:+ " " +:+ FormField.formMessageId f));
        ("aria-invalid", Value (JBool (truthy (FormField.f_error f))))]
       props) [].

Definition FormDescription (f : FormField.field) (props : properties) : node :=
  jsx "p"
    (obj_spread
       [("data-slot", text "form-description"); ("id", text (FormField.formDescriptionId f));
        ("className", cn [text "text-muted-foreground text-sm"; prop_of "className" props])]
       (rest_of ["className"] props)) [].

Definition FormMessage (f : FormField.field) (props : properties) : option node :=
  let error := FormField.f_error f in
  let body := if truthy error then text (js_show (js_nullish (jget "message" error) (JStr ""))) else prop_of "children" props in
  if negb (truthy_node body) then None
  else Some (jsx "p"
    (obj_spread
       [("data-slot", text "form-message"); ("id", text (FormField.formMessageId f));
        ("className", cn [text "text-destructive text-sm"; prop_of "className" props])]
       (rest_of ["className"] props)) [body]).

(** ** What a component passes on *)

(** The element a component is named after, inside the portal or provider around it. *)
Definition inner (n : node) : node :=
  match n with
  | Element type props =>
      if bool_decide (type = "SelectPrimitive.Portal" \/ type = "FormItemContext.Provider") then prop_of "children" props else n
  | _ => n
  end.
Definition attr (k : string) (n : node) : node :=
  match inner n with Element _ props => prop_of k props | _ => Value JUndef end.

Lemma get_rest read props k : k ∉ read -> obj_get k (rest_of read props) = obj_get k props.
Proof.
  intros Hk. unfold rest_of. induction props as [|[k' v] props IH]; [done|]. cbn [List.filter fst obj_get].
  destruct (bool_decide_reflect (k' ∈ read)) as [Hin|Hin]; cbn [negb obj_get].
  - rewrite IH. destruct (decide (k = k')) as [->|]; done.
  - by rewrite IH.
Qed.

Lemma rest_NoDup read props : NoDup (List.map fst props) -> NoDup (List.map fst (rest_of read props)).
Proof. apply filter_keys_NoDup. Qed.

(** The properties of an element made of [own] ones, the caller's rest and children. *)
Definition given_or (own : properties) (props : properties) (k : string) : node :=
  match obj_get k props with Some n => n | None => prop_of k own end.

Lemma get_spread_rest own read props k : NoDup (List.map fst props) -> k ∉ read ->
  prop_of k (obj_spread own (rest_of read props)) = given_or own props k.
Proof.
  intros Hnd Hk. unfold prop_of, given_or. rewrite obj_get_spread by by apply rest_NoDup. rewrite get_rest by done.
  by destruct (obj_get k props).
Qed.

Lemma attr_jsx type props children k : k <> "children" ->
  type <> "SelectPrimitive.Portal" -> type <> "FormItemContext.Provider" -> attr k (jsx type props children) = prop_of k props.
Proof.
  intros Hk Hp Hf. unfold attr, jsx, inner. rewrite bool_decide_false by naive_solver.
  destruct children as [|c [|c' l]]; [done|..];
    unfold prop_of; rewrite obj_get_spread by apply NoDup_singleton; cbn [obj_get]; by rewrite decide_False.
Qed.

(** A component with its [data-slot] and the properties it reads by name. *)
Abbreviation component := (string * (properties -> node) * list string)%type.

Definition kit (id : string) (f : FormField.field) : list component :=
  [("card", Card, ["className"]); ("card-header", CardHeader, ["className"]); ("card-title", CardTitle, ["className"]);
   ("card-description", CardDescription, ["className"]); ("card-action", CardAction, ["className"]);
   ("card-content", CardContent, ["className"]); ("card-footer", CardFooter, ["className"]);
   ("label", Label, ["className"]); ("input", Input, ["className"; "type"]);
   ("button", Button, ["className"; "variant"; "size"; "asChild"]);
   ("select", Select, []); ("select-group", SelectGroup, []); ("select-value", SelectValue, []);
   ("select-trigger", SelectTrigger, ["className"; "size"; "children"]);
   ("select-scroll-up-button", SelectScrollUpButton, ["className"]);
   ("select-scroll-down-button", SelectScrollDownButton, ["className"]);
   ("select-content", SelectContent, ["className"; "children"; "position"]);
   ("select-label", SelectLabel, ["className"]); ("select-item", SelectItem, ["className"; "children"]);
   ("select-separator", SelectSeparator, ["className"]);
   ("form-item", FormItem id, ["className"]); ("form-label", FormLabel f, ["className"]);
   ("form-control", FormControl f, []); ("form-description", FormDescription f, ["className"])].

(** The caller's value of a property that the component does not read, and the slot. *)
Definition passes_on (props : properties) (c : component) : Prop :=
  let '(slot, C, read) := c in
  (forall k n, k <> "children" -> k ∉ read -> obj_get k props = Some n -> attr k (C props) = n) /\
  (obj_get "data-slot" props = None -> attr "data-slot" (C props) = text slot).

Lemma passes_of_own props slot C read own :
  (forall k, k <> "children" -> k ∉ read -> attr k (C props) = given_or own props k) -> "data-slot" ∉ read ->
  prop_of "data-slot" own = text slot -> passes_on props (slot, C, read).
Proof.
  intros Hat Hr Hs. split.
  - intros k n Hk Hread Hn. rewrite Hat by done. unfold given_or. by rewrite Hn.
  - intros Hn. rewrite Hat by done. unfold given_or. by rewrite Hn.
Qed.

Lemma styled_passes_on props type slot classes children : NoDup (List.map fst props) ->
  type <> "SelectPrimitive.Portal" -> type <> "FormItemContext.Provider" ->
  passes_on props (slot, fun props => styled type slot classes props children, ["className"]).
Proof.
  intros Hnd Ht Ht'. eapply passes_of_own; [|by rewrite list_elem_of_singleton|].
  - intros k Hk Hr. unfold styled. rewrite attr_jsx by done. by apply get_spread_rest.
  - reflexivity.
Qed.

Lemma jsx_passes_on props type slot read own children C : NoDup (List.map fst props) ->
  type <> "SelectPrimitive.Portal" -> type <> "FormItemContext.Provider" ->
  C props = jsx type (obj_spread own (rest_of read props)) children -> "data-slot" ∉ read ->
  prop_of "data-slot" own = text slot -> passes_on props (slot, C, read).
Proof.
  intros Hnd Ht Ht' HC Hr Hs. eapply passes_of_own; [|done|done].
  intros k Hk Hread. rewrite HC, attr_jsx by done. by apply get_spread_rest.
Qed.

Lemma rest_of_none props : rest_of [] props = props.
Proof. unfold rest_of. induction props as [|kv props IH]; [done|]. cbn. by rewrite IH. Qed.

Lemma attr_wrapped k own type props children : type <> "SelectPrimitive.Portal" -> type <> "FormItemContext.Provider" ->
  k <> "children" -> own = [] \/ (exists v, own = [("value", v)]) ->
  attr k (jsx "SelectPrimitive.Portal" own [jsx type props children]) = prop_of k props /\
  attr k (jsx "FormItemContext.Provider" own [jsx type props children]) = prop_of k props.
Proof.
  intros Ht Ht' Hk Hown. rewrite <- (attr_jsx type props children k) by done.
  assert (Hi : inner (jsx type props children) = jsx type props children).
  { unfold inner, jsx. by rewrite bool_decide_false by naive_solver. }
  unfold attr. rewrite Hi. by destruct Hown as [->|[v ->]].
Qed.

Lemma SelectContent_passes_on props : NoDup (List.map fst props) ->
  passes_on props ("select-content", SelectContent, ["className"; "children"; "position"]).
Proof.
  intros Hnd. eapply passes_of_own; [|set_solver|].
  - intros k Hk Hr. unfold SelectContent. cbn zeta.
    rewrite (proj1 (attr_wrapped k [] "SelectPrimitive.Content" _ _ ltac:(done) ltac:(done) Hk (or_introl eq_refl))).
    by apply get_spread_rest.
  - reflexivity.
Qed.

Lemma FormItem_passes_on id props : NoDup (List.map fst props) -> passes_on props ("form-item", FormItem id, ["className"]).
Proof.
  intros Hnd. eapply passes_of_own; [|set_solver|].
  - intros k Hk Hr. unfold FormItem, styled.
    rewrite (proj2 (attr_wrapped k _ "div" _ _ ltac:(done) ltac:(done) Hk (or_intror (ex_intro _ _ eq_refl)))).
    by apply get_spread_rest.
  - reflexivity.
Qed.

(** The form's label is the kit's label with a slot of its own. *)
Lemma FormLabel_attr f props k : NoDup (List.map fst props) -> k <> "children" -> k <> "className" ->
  attr k (FormLabel f props) =
  given_or [("data-slot", text "form-label"); ("data-error", Value (JBool (truthy (FormField.f_error f))));
            ("htmlFor", text (FormField.formItemId f))] props k.
Proof.
  intros Hnd Hk Hc. unfold FormLabel. set (own := [_; _; _; _]). unfold Label, styled.
  rewrite attr_jsx, get_spread_rest by first [done|apply obj_spread_NoDup; nodup_literals|by rewrite list_elem_of_singleton].
  unfold given_or at 1. rewrite obj_get_spread by by apply rest_NoDup. rewrite get_rest by by rewrite list_elem_of_singleton.
  unfold given_or. destruct (obj_get k props); [done|]. unfold own, prop_of. cbn [obj_get].
  rewrite !(decide_False (P := k = "className")) by done.
  by destruct (decide (k = "data-slot")), (decide (k = "data-error")), (decide (k = "htmlFor")).
Qed.

Lemma FormLabel_passes_on f props : NoDup (List.map fst props) -> passes_on props ("form-label", FormLabel f, ["className"]).
Proof.
  intros Hnd. eapply passes_of_own; [|set_solver|].
  - intros k Hk Hr. apply FormLabel_attr; [done|done|]. by rewrite list_elem_of_singleton in Hr.
  - reflexivity.
Qed.

Lemma Button_passes_on props : NoDup (List.map fst props) ->
  passes_on props ("button", Button, ["className"; "variant"; "size"; "asChild"]).
Proof.
  intros Hnd. eapply passes_of_own; [|set_solver|].
  - intros k Hk Hr. unfold Button. rewrite attr_jsx by by (done || case_match). by apply get_spread_rest.
  - reflexivity.
Qed.

(** The three shapes of the other components, on an element of type [t]. *)
Tactic Notation "styled_case" constr(Hnd) constr(t) :=
  refine (styled_passes_on _ t _ _ _ Hnd _ _); [done|done].
Tactic Notation "jsx_case" constr(Hnd) constr(t) :=
  eapply (jsx_passes_on _ t); [exact Hnd|done|done|reflexivity|set_solver|reflexivity].
Tactic Notation "slot_case" constr(Hnd) constr(t) :=
  eapply (jsx_passes_on _ t _ [] _ []); [exact Hnd|done|done|rewrite rest_of_none; reflexivity|set_solver|reflexivity].

(** Every component of the kit passes on to its element each property it does not read by
    name, the caller's value in the place of its own, and marks the element with its slot
    unless the caller gives one. *)
Theorem kit_forwards id f props : NoDup (List.map fst props) -> Forall (passes_on props) (kit id f).
Proof.
  intros Hnd. unfold kit.
  do 7 (apply List.Forall_cons; [styled_case Hnd "div"|]).
  apply List.Forall_cons; [styled_case Hnd "LabelPrimitive.Root"|].
  apply List.Forall_cons; [jsx_case Hnd "input"|].
  apply List.Forall_cons; [by apply Button_passes_on|].
  apply List.Forall_cons; [slot_case Hnd "SelectPrimitive.Root"|].
  apply List.Forall_cons; [slot_case Hnd "SelectPrimitive.Group"|].
  apply List.Forall_cons; [slot_case Hnd "SelectPrimitive.Value"|].
  apply List.Forall_cons; [jsx_case Hnd "SelectPrimitive.Trigger"|].
  apply List.Forall_cons; [styled_case Hnd "SelectPrimitive.ScrollUpButton"|].
  apply List.Forall_cons; [styled_case Hnd "SelectPrimitive.ScrollDownButton"|].
  apply List.Forall_cons; [by apply SelectContent_passes_on|].
  apply List.Forall_cons; [styled_case Hnd "SelectPrimitive.Label"|].
  apply List.Forall_cons; [jsx_case Hnd "SelectPrimitive.Item"|].
  apply List.Forall_cons; [styled_case Hnd "SelectPrimitive.Separator"|].
  apply List.Forall_cons; [by apply FormItem_passes_on|].
  apply List.Forall_cons; [by apply FormLabel_passes_on|].
  apply List.Forall_cons; [slot_case Hnd "Slot"|].
  apply List.Forall_cons; [jsx_case Hnd "p"|]. apply List.Forall_nil.
Qed.

(** The label of an item names its control and the control is described by the item's message,
    unless the caller gives the element an identifier of its own. *)
Lemma item_wired f label_props control_props :
  NoDup (List.map fst label_props) -> NoDup (List.map fst control_props) ->
  obj_get "htmlFor" label_props = None -> obj_get "id" control_props = None ->
  attr "htmlFor" (FormLabel f label_props) = attr "id" (FormControl f control_props).
Proof.
  intros Hl Hc Hf Hi. rewrite FormLabel_attr by done. unfold FormControl. rewrite attr_jsx by done.
  unfold given_or, prop_of at 2. rewrite obj_get_spread by done. by rewrite Hf, Hi.
Qed.

(** The kit's button has the type its caller gives, and none otherwise: in a form it submits. *)
Definition type_of (n : node) : option button_type :=
  match attr "type" n with
  | Value (JStr t) => Some (if bool_decide (t = "button") then TButton else TSubmit)
  | _ => None
  end.

Lemma Button_type props : NoDup (List.map fst props) ->
  attr "type" (Button props) = prop_of "type" props.
Proof.
  intros Hnd. unfold Button. rewrite attr_jsx by by (done || case_match). rewrite get_spread_rest by (done || set_solver).
  unfold given_or, prop_of. by destruct (obj_get "type" props).
Qed.

(** The button of the forced save (RouteModal.tsx) has a handler and no type. *)
Lemma force_button_submits onClick className children :
  effective_type (type_of (Button [("onClick", onClick); ("className", text className); ("children", children)])) = TSubmit.
Proof. unfold type_of. rewrite Button_type by nodup_literals. reflexivity. Qed.
End kit.
