(* ===== verification/BootstrapPage.v ===== *)
(** * The bootstrap page of the web application

    The state and the handlers of apps/web/src/pages/bootstrap/BootstrapPage.tsx above the
    client of Bootstrap.v, and the whole path of an installation: page, client, preload
    script, handler of the main process, SSH executor. *)

From S2P Require Import Prelude JsString Regex JsValue Dates Json Secrets Repositories RoutesProcess.
From S2P Require Import SshConnection SshExecutor Bootstrap.

(** ** State *)
Record page := Page {
  context : option jsval;
  contextError : option string;
  checkResult : option jsval;
  checkError : option string;
  installResult : option jsval;
  installError : option string;
  isChecking : bool;
  isInstalling : bool;
  form : jsval
}.

Definition PRESET_VALUES : jsval :=
  JObj [("installScriptUrl", JStr "https://repo/install.sh"); ("serviceName", JStr "nginx-admin.service");
        ("healthCommand", JStr "nginx-admin status"); ("timeoutMs", JNum (NInt 120000))].

Definition init_page : page := Page None None None None None None false false PRESET_VALUES.

Definition setContext (c : option jsval) (p : page) : page :=
  Page c (contextError p) (checkResult p) (checkError p) (installResult p) (installError p) (isChecking p) (isInstalling p) (form p).
Definition setContextError (e : option string) (p : page) : page :=
  Page (context p) e (checkResult p) (checkError p) (installResult p) (installError p) (isChecking p) (isInstalling p) (form p).
Definition setCheckResult (r : option jsval) (p : page) : page :=
  Page (context p) (contextError p) r (checkError p) (installResult p) (installError p) (isChecking p) (isInstalling p) (form p).
Definition setCheckError (e : option string) (p : page) : page :=
  Page (context p) (contextError p) (checkResult p) e (installResult p) (installError p) (isChecking p) (isInstalling p) (form p).
Definition setInstallResult (r : option jsval) (p : page) : page :=
  Page (context p) (contextError p) (checkResult p) (checkError p) r (installError p) (isChecking p) (isInstalling p) (form p).
Definition setInstallError (e : option string) (p : page) : page :=
  Page (context p) (contextError p) (checkResult p) (checkError p) (installResult p) e (isChecking p) (isInstalling p) (form p).
Definition setIsChecking (b : bool) (p : page) : page :=
  Page (context p) (contextError p) (checkResult p) (checkError p) (installResult p) (installError p) b (isInstalling p) (form p).
Definition setIsInstalling (b : bool) (p : page) : page :=
  Page (context p) (contextError p) (checkResult p) (checkError p) (installResult p) (installError p) (isChecking p) b (form p).
Definition reset_form (v : jsval) (p : page) : page :=
  Page (context p) (contextError p) (checkResult p) (checkError p) (installResult p) (installError p) (isChecking p) (isInstalling p) v.

(** ** Handlers *)
Section handlers.
Context {S : Type} (bridge : option (string -> jsval -> eff S ipc_result)).

Abbreviation world := (page * S)%type.

Definition set (f : page -> page) : eff world unit := fun w => (Return tt, (f (fst w), snd w)).
Definition on_client {A} (m : eff S A) : eff world A := fun w =>
  let (o, s') := m (snd w) in (o, (fst w, s')).

(** [Number(v)] of a form value. *)
Definition form_number (v : jsval) : jsnum :=
  match v with JNum n => n | JStr s => toNumber s | JNull => NInt 0 | JBool b => NInt (if b then 1 else 0) | _ => NNaN end.

(** The values the form is reset to. *)
Definition form_of_defaults (data : jsval) : outcome jsval :=
  defaults ← prop "defaults" data;
  installScriptUrl ← prop "installScriptUrl" defaults;
  Return (JObj
    [("installScriptUrl", installScriptUrl); ("serviceName", jget "serviceName" defaults);
     ("healthCommand", jget "healthCommand" defaults);
     ("timeoutMs", js_nullish (jget "timeoutMs" defaults) (JNum (NInt 120000)))]).

(** The effect of the first render; [active] is that the page is still shown at the answer. *)
Definition load_context (active : bool) : eff world unit :=
  result ← on_client (getBootstrapContext bridge);
  if negb active then mret tt
  else match result with
  | IpcFailure message _ => set (setContextError (Some message))
  | IpcSuccess data =>
      _ ← set (setContext (Some data));
      values ← lift_outcome (form_of_defaults data);
      set (reset_form values)
  end.

Definition onCheckHost : eff world unit :=
  _ ← set (setIsChecking true);
  _ ← set (setCheckError None);
  _ ← set (setCheckResult None);
  try_finally
    (result ← on_client (checkBootstrapHost bridge);
     match result with
     | IpcFailure message _ => set (setCheckError (Some message))
     | IpcSuccess data => set (setCheckResult (Some data))
     end)
    (fun w => (setIsChecking false (fst w), snd w)).

(** [form.handleSubmit] calls it with the form's values. *)
Definition onInstall (values : jsval) : eff world unit :=
  _ ← set (setIsInstalling true);
  _ ← set (setInstallError None);
  _ ← set (setInstallResult None);
  try_finally
    (result ← on_client (installBootstrapDaemon bridge (JObj
       [("installScriptUrl", jget "installScriptUrl" values); ("serviceName", jget "serviceName" values);
        ("healthCommand", jget "healthCommand" values);
        ("timeoutMs", JNum (form_number (jget "timeoutMs" values)))]));
     match result with
     | IpcFailure message _ => set (setInstallError (Some message))
     | IpcSuccess data => set (setInstallResult (Some data))
     end)
    (fun w => (setIsInstalling false (fst w), snd w)).

(** ** The handlers settle *)

(** A handler's flag is down at its end; it shows a result or an error, and neither when the
    bridge itself rejects, which it passes on. *)
Definition shows_one (o : outcome unit) (result : option jsval) (error : option string) : Prop :=
  match o with
  | Return _ => is_Some result <-> error = None
  | Throw _ => result = None /\ error = None
  end.

Lemma install_settles values w :
  let (o, w') := onInstall values w in
  isInstalling (fst w') = false /\ shows_one o (installResult (fst w')) (installError (fst w')).
Proof.
  unfold onInstall, set, on_client. run_eff.
  destruct (installBootstrapDaemon bridge _ (snd w)) as [[[data|m c]|e] s']; (split; [reflexivity|]); cbn.
  - split; [done|]. intros _. by eexists.
  - split; [|done]. intros [? ?]. discriminate.
  - done.
Qed.

Lemma check_settles w :
  let (o, w') := onCheckHost w in
  isChecking (fst w') = false /\ shows_one o (checkResult (fst w')) (checkError (fst w')).
Proof.
  unfold onCheckHost, set, on_client. run_eff.
  destruct (checkBootstrapHost bridge (snd w)) as [[[data|m c]|e] s']; (split; [reflexivity|]); cbn.
  - split; [done|]. intros _. by eexists.
  - split; [|done]. intros [? ?]. discriminate.
  - done.
Qed.
End handlers.

(** ** The whole path *)
Section path.
Context `{HostUrl} (maxRetries retryBaseDelayMs : option Z) (env : bootstrap_env) (metadata : HostMetadata).
Context (clock : Z * Z * Z) (frame : option string).
Context (Hretries : 0 <= default 1 maxRetries) (Htrusted : trusted env frame = true).

(** The bridge a page in [frame] gets. *)
Definition desktop_bridge : option (string -> jsval -> eff scripted ipc_result) :=
  Some (ipc_main maxRetries retryBaseDelayMs env metadata clock frame).

(** From the page to the host and back.  With a trusted page an installation whose four
    commands succeed shows exactly what they printed, and one whose command fails shows the
    failure's redacted text and no result; in both the flag is down, and the host ran the
    configured commands up to the failure whatever the form held.  Outside the desktop the
    page says that the bridge is missing. *)
Theorem install_from_page values p rest :
  (forall o1 o2 o3 o4,
     onInstall desktop_bridge values
       (p, Script (Ran (Return o1) :: Ran (Return o2) :: Ran (Return o3) :: Ran (Return o4) :: rest) [] []) =
     (Return tt,
      (setIsInstalling false (setInstallResult (Some (installed env (snd (fst clock)) o2 o3 o4))
         (setInstallResult None (setInstallError None (setIsInstalling true p)))),
       Script rest [] (install_commands env)))) /\
  (forall outs code message, (length outs < 4)%nat -> code <> CONNECT_FAILED_CODE ->
     onInstall desktop_bridge values
       (p, Script (List.map (fun o => Ran (Return o)) outs ++ Ran (Throw (RemoteExecutionError message (Some code))) :: rest) [] []) =
     (Return tt,
      (setIsInstalling false (setInstallError (Some (redactPotentialSecrets message))
         (setInstallResult None (setInstallError None (setIsInstalling true p)))),
       Script rest [] (take (S (length outs)) (install_commands env))))) /\
  (forall s : scripted, installError (fst (snd (onInstall None values (p, s)))) =
     Some "Bootstrap bridge is available only in desktop runtime").
Proof.
  destruct clock as [[start checked] finish] eqn:Hclock. split_and!.
  - intros o1 o2 o3 o4. unfold onInstall, desktop_bridge, installBootstrapDaemon, bridge_installDaemon, ipc_main.
    rewrite Hclock. unfold set, on_client, try_finally, mbind at 1 2 3 4, eff_bind at 1 2 3 4. cbn [fst snd].
    rewrite decide_False, decide_False, decide_True by done. rewrite install_succeeds by done. reflexivity.
  - intros outs code message Hlen Hcode.
    unfold onInstall, desktop_bridge, installBootstrapDaemon, bridge_installDaemon, ipc_main.
    rewrite Hclock. unfold set, on_client, try_finally, mbind at 1 2 3 4, eff_bind at 1 2 3 4. cbn [fst snd].
    rewrite decide_False, decide_False, decide_True by done. rewrite install_fails; [reflexivity|done..|].
    unfold is_connect_failed. cbn. by rewrite bool_decide_false.
  - reflexivity.
Qed.
End path.

(** * The theorem at work *)

#[local] Existing Instance no_url.

Lemma install_from_page_witness :
  installError (fst (snd (onInstall (desktop_bridge (Some 1) None packaged_env sample_metadata (0, 0, 0) Bootstrap.page) JUndef
    (init_page, Script (List.map (fun o => Ran (Return o)) ["ok"] ++
       [Ran (Throw (RemoteExecutionError "inactive" (Some "SSH_NON_ZERO")))]) [] [])))) = Some "inactive".
Proof.
  rewrite (proj1 (proj2 (install_from_page (Some 1) None packaged_env sample_metadata (0, 0, 0) Bootstrap.page
             ltac:(cbn; lia) eq_refl JUndef init_page [])) ["ok"] "SSH_NON_ZERO" "inactive" ltac:(cbn; lia) ltac:(discriminate)).
  vm_compute. reflexivity.
Defined.
