(* ===== verification/InstallPath.v ===== *)
(** * An installation over the connection manager

    The whole path of an installation again (BootstrapPage.v), with the connection manager of
    SshPath.v under the executor in the place of a script of outcomes: page, client, preload
    script, handler of the main process, retry loop, connection. *)

From S2P Require Import Prelude JsString Regex JsValue Dates Json Secrets Repositories RoutesProcess.
From S2P Require Import SshConnection SshExecutor SshPath Bootstrap BootstrapPage.

(** ** The page over any bridge *)

(** What the page makes of the bridge's answer to an installation. *)
Definition install_shown (answer : outcome ipc_result) (p : page) : outcome unit * page :=
  let p := setInstallResult None (setInstallError None (setIsInstalling true p)) in
  match answer with
  | Return (IpcSuccess data) => (Return tt, setIsInstalling false (setInstallResult (Some data) p))
  | Return (IpcFailure message _) => (Return tt, setIsInstalling false (setInstallError (Some message) p))
  | Throw e => (Throw e, setIsInstalling false p)
  end.

(** The options the page sends for the values of its form. *)
Definition sent_options (values : jsval) : jsval :=
  JObj [("installScriptUrl", jget "installScriptUrl" values); ("serviceName", jget "serviceName" values);
        ("healthCommand", jget "healthCommand" values); ("timeoutMs", JNum (form_number (jget "timeoutMs" values)))].

Lemma onInstall_shows {S} (bridge : option (string -> jsval -> eff S ipc_result)) values p s :
  onInstall bridge values (p, s) =
  let (answer, s') := installBootstrapDaemon bridge (sent_options values) s in
  (fst (install_shown answer p), (snd (install_shown answer p), s')).
Proof.
  unfold onInstall, set, on_client. run_eff. fold (sent_options values).
  destruct (installBootstrapDaemon bridge _ s) as [[[data|message code]|e] s']; reflexivity.
Qed.

Section path.
Context `{HostUrl} (maxRetries retryBaseDelayMs : option Z) (env : bootstrap_env) (metadata : HostMetadata).
Context (clock : Z * Z * Z) (frame : option string) (Htrusted : trusted env frame = true).
Context (retries : nat) (Hretries : default 1 maxRetries = Z.of_nat retries).

(** The bridge of a page in [frame], over whatever answers the executor. *)
Definition bridge_over {S} `{SshApi S} : option (string -> jsval -> eff S ipc_result) :=
  Some (ipc_main maxRetries retryBaseDelayMs env metadata clock frame).

Abbreviation now := (snd (fst clock)).
Abbreviation install_on S := (fun request => handle_install (S := S) maxRetries retryBaseDelayMs env now frame request).

(** ** The handler answers alike over the manager and over a script *)
Lemma install_alike total request :
  alike (path_related total) same (install_on ssh_world request) (install_on scripted request).
Proof.
  unfold handle_install. rewrite Htrusted. cbn [negb]. apply alike_try; [|by intros e s1 s2 Hs].
  intros s1 s2 Hs. unfold run_shell, runShell.
  do 4 (eapply alike_bind; [by apply path_refines|]; clear s1 s2 Hs; intros ? ? s1 s2 Hs <-). done.
Qed.

(** ** The first command waits for a connection *)
Abbreviation refusal := (fun m => NoClient (refused m)).

Lemma first_command refusals command ms o rest :
  (length refusals <= retries)%nat -> retryable (Ran o) = false ->
  run_shell maxRetries retryBaseDelayMs command ms (Script (List.map refusal refusals ++ Ran o :: rest) [] []) =
  (o, Script rest (doubling retryBaseDelayMs (length refusals)) [command]).
Proof.
  intros Hlen Ho. unfold run_shell, runShell.
  rewrite (retry_spec maxRetries retryBaseDelayMs command ms retries _ (Ran o) rest (Some ms) Hretries eq_refl
             (refusals_retryable refusals)); [|by rewrite List.length_map|by rewrite Ho].
  unfold runs. rewrite flat_map_app. fold (runs command (List.map refusal refusals)).
  by rewrite refusals_run, List.length_map.
Qed.

Lemma final_not_retryable o : final o -> retryable (Ran o) = false.
Proof. unfold retryable. by destruct o. Qed.

Lemma retries_nonneg : 0 <= default 1 maxRetries.
Proof. rewrite Hretries. lia. Qed.

Lemma install_script_succeeds refusals request o1 o2 o3 o4 rest : (length refusals <= retries)%nat ->
  install_on scripted request
    (Script (List.map refusal refusals ++ List.map (fun o => Ran (Return o)) [o1; o2; o3; o4] ++ rest) [] []) =
  (Return (IpcSuccess (installed env now o2 o3 o4)),
   Script rest (doubling retryBaseDelayMs (length refusals)) (install_commands env)).
Proof.
  intros Hlen. pose proof retries_nonneg. unfold handle_install. rewrite Htrusted. cbn [negb List.map app]. run_eff.
  rewrite first_command by done. by rewrite !run_shell_once.
Qed.

Lemma install_script_fails refusals request outs e rest :
  (length refusals <= retries)%nat -> (length outs < 4)%nat -> is_connect_failed e = false ->
  install_on scripted request
    (Script (List.map refusal refusals ++ List.map (fun o => Ran (Return o)) outs ++ Ran (Throw e) :: rest) [] []) =
  (Return (toIpcError e),
   Script rest (doubling retryBaseDelayMs (length refusals)) (take (S (length outs)) (install_commands env))).
Proof.
  intros Hlen Hn He. pose proof retries_nonneg. unfold handle_install. rewrite Htrusted. cbn [negb]. run_eff.
  destruct outs as [|o1 outs]; cbn [List.map app].
  { rewrite first_command; [done|done|]. unfold retryable. cbn. exact He. }
  rewrite first_command by done.
  do 3 (destruct outs as [|? outs]; [cbn [List.map app]; by rewrite !run_shell_once|]). cbn in Hn. lia.
Qed.

Lemma install_script_refused refusals message request rest : length refusals = retries ->
  install_on scripted request (Script (List.map refusal (refusals ++ [message]) ++ rest) [] []) =
  (Return (toIpcError (refused message)), Script rest (doubling retryBaseDelayMs retries) []).
Proof.
  intros Hlen. unfold handle_install. rewrite Htrusted. cbn [negb]. run_eff.
  rewrite List.map_app, <- app_assoc. cbn [List.map app]. unfold run_shell, runShell at 1.
  rewrite (retry_spec maxRetries retryBaseDelayMs (install_command env) _ retries _ (refusal message) rest (Some _) Hretries eq_refl
             (refusals_retryable refusals)); [|by rewrite List.length_map; lia|by rewrite List.length_map].
  unfold runs. rewrite flat_map_app. fold (runs (install_command env) (List.map refusal refusals)).
  by rewrite refusals_run, List.length_map, Hlen.
Qed.

(** ** From the page to the connection *)

Lemma bridge_installs {S} `{SshApi S} options (s : S) :
  installBootstrapDaemon bridge_over options s =
  handle_install maxRetries retryBaseDelayMs env now frame (JObj [("options", options)]) s.
Proof.
  unfold bridge_over, installBootstrapDaemon, bridge_installDaemon, ipc_main. destruct clock as [[start checked] finish].
  by rewrite decide_False, decide_False, decide_True.
Qed.

Lemma install_path refusals outcomes st q rest ws cs values p : ready st refusals ->
  install_on scripted (JObj [("options", sent_options values)])
    (Script (List.map entry (answers_of refusals outcomes)) [] []) = (q, Script (List.map Ran rest) ws cs) ->
  exists st',
    onInstall bridge_over values (p, SshWorld st (answers_of refusals outcomes) [] []) =
      (fst (install_shown q p), (snd (install_shown q p), SshWorld st' (answers_of [] rest) ws cs)) /\
    ready st' [] /\ (cs <> [] -> activeClient st' <> None) /\
    (length (conns st') + attempts_left st' [] = length (conns st) + attempts_left st refusals)%nat.
Proof.
  intros Hr Hrun. rewrite onInstall_shows, bridge_installs.
  destruct (path_of_alike _ _ refusals outcomes st q rest ws cs (fun total => install_alike total _) Hr Hrun) as (st' & -> & Hst').
  by exists st'.
Qed.

(** How the page ends: no flag, and the outcome of the installation. *)
Definition page_shows (result : jsval + string) (p : page) : page :=
  setIsInstalling false
    (match result with inl data => setInstallResult (Some data) | inr message => setInstallError (Some message) end
       (setInstallResult None (setInstallError None (setIsInstalling true p)))).

Lemma shown_failure message code p :
  install_shown (Return (toIpcError (RemoteExecutionError message (Some code)))) p =
  (Return tt, page_shows (inr (redactPotentialSecrets message)) p).
Proof. reflexivity. Qed.

(** C20.  An installation from the page to the connection.  From a manager between two calls,
    refused connections are tried again after doubling delays; then one connection serves all
    the commands, those of the configuration, in order and up to the first that fails, and
    stays open.  The page shows what they printed, or the redacted text of the failure; when
    every connection is refused, the redacted refusal, and the host has run nothing. *)
Theorem install_over_connection refusals outcomes st values p : ready st refusals ->
  (forall o1 o2 o3 o4, (length refusals <= retries)%nat ->
     exists st', onInstall bridge_over values
         (p, SshWorld st (answers_of refusals (List.map Return [o1; o2; o3; o4] ++ outcomes)) [] []) =
       (Return tt, (page_shows (inl (installed env now o2 o3 o4)) p,
          SshWorld st' (answers_of [] outcomes) (doubling retryBaseDelayMs (length refusals)) (install_commands env))) /\
       ready st' [] /\ activeClient st' <> None /\
       length (conns st') = (length (conns st) + attempts_left st refusals)%nat) /\
  (forall outs code message, (length refusals <= retries)%nat -> (length outs < 4)%nat -> code <> CONNECT_FAILED_CODE ->
     exists st', onInstall bridge_over values
         (p, SshWorld st (answers_of refusals (List.map Return outs ++ Throw (RemoteExecutionError message (Some code)) :: outcomes)) [] []) =
       (Return tt, (page_shows (inr (redactPotentialSecrets message)) p,
          SshWorld st' (answers_of [] outcomes) (doubling retryBaseDelayMs (length refusals))
            (take (S (length outs)) (install_commands env)))) /\
       ready st' [] /\ activeClient st' <> None) /\
  (forall message, activeClient st = None -> length refusals = retries ->
     exists st', onInstall bridge_over values (p, SshWorld st (answers_of (refusals ++ [message]) outcomes) [] []) =
       (Return tt, (page_shows (inr (redactPotentialSecrets (redactPotentialSecrets message))) p,
          SshWorld st' (answers_of [] outcomes) (doubling retryBaseDelayMs retries) [])) /\ ready st' []).
Proof.
  intros Hready. split_and!.
  - intros o1 o2 o3 o4 Hlen.
    destruct (install_path refusals (List.map Return [o1; o2; o3; o4] ++ outcomes) st
      (Return (IpcSuccess (installed env now o2 o3 o4))) outcomes (doubling retryBaseDelayMs (length refusals)) (install_commands env)
      values p Hready) as (st' & Hrun & Hr' & Hc & Hn).
    + rewrite entry_answers, List.map_app. by apply install_script_succeeds.
    + exists st'. specialize (Hc ltac:(discriminate)). split; [exact Hrun|]. split; [done|]. split; [done|].
      unfold attempts_left at 1 in Hn. cbn [length] in Hn. destruct (activeClient st'); [lia|done].
  - intros outs code message Hlen Hn Hcode.
    destruct (install_path refusals (List.map Return outs ++ Throw (RemoteExecutionError message (Some code)) :: outcomes) st
      (Return (toIpcError (RemoteExecutionError message (Some code)))) outcomes (doubling retryBaseDelayMs (length refusals))
      (take (S (length outs)) (install_commands env)) values p Hready) as (st' & Hrun & Hr' & Hc & _).
    + rewrite entry_answers, List.map_app, List.map_map. apply install_script_fails; [done..|].
      unfold is_connect_failed. cbn. by rewrite bool_decide_false.
    + exists st'. rewrite shown_failure in Hrun. split; [exact Hrun|]. split; [done|]. apply Hc. discriminate.
  - intros message Ha Hlen. destruct Hready as (Hq & Hrch & _).
    destruct (install_path (refusals ++ [message]) outcomes st (Return (toIpcError (refused message))) outcomes
      (doubling retryBaseDelayMs retries) [] values p) as (st' & Hrun & Hr' & _).
    + by split_and!; [| |rewrite Ha].
    + rewrite entry_answers. by apply install_script_refused.
    + exists st'. unfold refused in Hrun. rewrite shown_failure in Hrun. split; [exact Hrun|exact Hr'].
Qed.
End path.

(** * The theorem at work *)

#[local] Existing Instance no_url.

Definition failed_health : outcome string := Throw (RemoteExecutionError "inactive" (Some "SSH_NON_ZERO")).

Lemma install_over_connection_witness :
  ready init_manager ["no route"] /\
  exists st', onInstall (bridge_over (S := ssh_world) (Some 1) None packaged_env sample_metadata (0, 0, 0) Bootstrap.page) JUndef
      (init_page, SshWorld init_manager (answers_of ["no route"] (List.map Return ["ok"] ++ [failed_health])) [] []) =
    (Return tt, (page_shows (inr (redactPotentialSecrets "inactive")) init_page,
       SshWorld st' (answers_of [] []) (doubling None 1) (take 2 (install_commands packaged_env)))) /\
    ready st' [] /\ activeClient st' <> None.
Proof.
  assert (Hr : ready init_manager ["no route"]) by (split; [done|]; split; [apply rtc_refl|done]).
  split; [exact Hr|].
  apply (proj1 (proj2 (install_over_connection (Some 1) None packaged_env sample_metadata (0, 0, 0) Bootstrap.page
    eq_refl 1 eq_refl ["no route"] [] init_manager JUndef init_page Hr))); [cbn; lia|cbn; lia|discriminate].
Defined.
