(* ===== verification/BootstrapView.v ===== *)
(** * What the bootstrap page shows, and when

    The markup of apps/web/src/pages/bootstrap/BootstrapPage.tsx (lines 106 to 181), and the
    page's handlers cut at their one [await]: the two operations and the loading of the
    context run beside each other, and their answers arrive in any order. *)

From S2P Require Import Prelude JsString Regex JsValue Dates Json Secrets Repositories RoutesProcess.
From S2P Require Import SshConnection SshExecutor Bootstrap BootstrapPage.

(** ** Rendering *)

(** React's rendering of a value in braces, which throws on what it cannot show: texts are
    shown as they are, numbers as some text, and null is nothing. *)
Class ReactChild := child : jsval -> outcome string.
Class ReactChildLaws `{ReactChild} := {
  child_str s : child (JStr s) = Return s;
  child_num n : exists text, child (JNum n) = Return text;
  child_null : child JNull = Return ""
}.

(** [{v && <...>}] *)
Definition when_truthy `{ReactChild} (v : jsval) (lines : outcome (list string)) : outcome (list string) :=
  if truthy v then lines else text ← child v; Return (if nonempty text then [text] else []).
Definition when_text (o : option string) : option string :=
  match o with Some m => if nonempty m then Some m else None | None => None end.

(** A button's label, and whether it is disabled. *)
Abbreviation button := (string * bool)%type.

Record view := View {
  v_context : list string;
  v_context_error : option string;
  v_check_button : button;
  v_check : list string;
  v_check_error : option string;
  v_inputs : list jsval;
  v_install_button : button;
  v_install : list string;
  v_install_error : option string
}.

Section render.
Context `{HostDate} `{ReactChild}.

Definition labelled (label : string) (v : jsval) : outcome string := text ← child v; Return (label +:+ text).

Definition context_lines (context : jsval) : outcome (list string) :=
  lines ← when_truthy context
    (connection ← prop "connection" context;
     name ← prop "name" connection;
     name ← labelled "Name: " name;
     host ← labelled "Host: " (jget "host" connection);
     port ← labelled "Port: " (jget "port" connection);
     status ← labelled "Status: " (js_nullish (jget "status" connection) (JStr "unknown"));
     Return [name; host; port; status]);
  Return (lines ++ if truthy context then [] else ["Loading connection context..."]).

Definition check_lines (result : jsval) : outcome (list string) :=
  when_truthy result
    (at_ ← child (jget "checkedAt" result);
     ms ← child (jget "latencyMs" result);
     Return ["Reachable at " +:+ at_ +:+ " (" +:+ ms +:+ " ms)"]).

Definition install_lines (result : jsval) : outcome (list string) :=
  when_truthy result
    (installed ← labelled "Installed at: " (jget "installedAt" result);
     let service := jget "service" result in
     name ← prop "name" service;
     name ← labelled "Service: " name;
     activeRaw ← child (jget "activeStateRaw" service);
     enabledRaw ← child (jget "enabledStateRaw" service);
     output ← prop "output" (jget "health" result);
     health ← labelled "Health output: " (js_or output (JStr "(empty)"));
     Return [installed; name;
       "Active: " +:+ js_show (jget "active" service) +:+ " (" +:+ activeRaw +:+ ")";
       "Enabled: " +:+ js_show (jget "enabled" service) +:+ " (" +:+ enabledRaw +:+ ")"; health]).

Definition install_fields : list string := ["installScriptUrl"; "serviceName"; "healthCommand"; "timeoutMs"].

(** The state of a result is null until something is set. *)
Definition state_value (o : option jsval) : jsval := default JNull o.

Definition render (p : page) : outcome view :=
  context ← context_lines (state_value (context p));
  check ← check_lines (state_value (checkResult p));
  install ← install_lines (state_value (installResult p));
  Return {|
    v_context := context;
    v_context_error := when_text (contextError p);
    v_check_button := (if isChecking p then "Checking..." else "Check Host Availability", isChecking p);
    v_check := check;
    v_check_error := when_text (checkError p);
    v_inputs := List.map (fun k => jget k (form p)) install_fields;
    v_install_button := (if isInstalling p then "Installing..." else "Install and Verify Daemon", isInstalling p);
    v_install := install;
    v_install_error := when_text (installError p) |}.
End render.

(** ** The handlers, before and after their [await] *)

Definition check_starts (p : page) : page := setCheckResult None (setCheckError None (setIsChecking true p)).
Definition check_arrives (answer : outcome ipc_result) (p : page) : page :=
  setIsChecking false
    (match answer with
     | Return (IpcFailure message _) => setCheckError (Some message) p
     | Return (IpcSuccess data) => setCheckResult (Some data) p
     | Throw _ => p
     end).

Definition install_starts (p : page) : page := setInstallResult None (setInstallError None (setIsInstalling true p)).
Definition install_arrives (answer : outcome ipc_result) (p : page) : page :=
  setIsInstalling false
    (match answer with
     | Return (IpcFailure message _) => setInstallError (Some message) p
     | Return (IpcSuccess data) => setInstallResult (Some data) p
     | Throw _ => p
     end).

Definition context_arrives (answer : outcome ipc_result) (p : page) : page :=
  match answer with
  | Return (IpcFailure message _) => setContextError (Some message) p
  | Return (IpcSuccess data) =>
      let p := setContext (Some data) p in
      match form_of_defaults data with Return values => reset_form values p | Throw _ => p end
  | Throw _ => p
  end.

(** What a handler's promise settles with. *)
Definition settled_with (answer : outcome ipc_result) : outcome unit :=
  match answer with Return _ => Return tt | Throw e => Throw e end.

(** The handlers are these pieces with the bridge's answer between them. *)
Section handlers_cut.
Context {S : Type} (bridge : option (string -> jsval -> eff S ipc_result)).

Lemma onCheckHost_cut p s :
  onCheckHost bridge (p, s) =
  let (answer, s') := checkBootstrapHost bridge s in
  (settled_with answer, (check_arrives answer (check_starts p), s')).
Proof.
  unfold onCheckHost, set, on_client. run_eff. by destruct (checkBootstrapHost bridge s) as [[[]|] s'].
Qed.

Lemma onInstall_cut values p s :
  onInstall bridge values (p, s) =
  let (answer, s') := installBootstrapDaemon bridge (JObj
       [("installScriptUrl", jget "installScriptUrl" values); ("serviceName", jget "serviceName" values);
        ("healthCommand", jget "healthCommand" values);
        ("timeoutMs", JNum (form_number (jget "timeoutMs" values)))]) s in
  (settled_with answer, (install_arrives answer (install_starts p), s')).
Proof.
  unfold onInstall, set, on_client. run_eff. by destruct (installBootstrapDaemon bridge _ s) as [[[]|] s'].
Qed.

Lemma load_context_cut p s :
  load_context bridge true (p, s) =
  let (answer, s') := getBootstrapContext bridge s in
  (match answer with
   | Return (IpcSuccess data) => _ ← form_of_defaults data; Return tt
   | _ => settled_with answer
   end, (context_arrives answer p, s')).
Proof.
  unfold load_context, set, on_client. run_eff. destruct (getBootstrapContext bridge s) as [[[data|]|] s']; try done.
  cbn [context_arrives]. by destruct (form_of_defaults data).
Qed.
End handlers_cut.

(** ** The page among its answers

    An operation is in flight from its click to its answer; a button that is disabled does not
    start another.  Answers are the ones of the main process's handlers, the client's own when
    there is no bridge, or a rejection of the bridge. *)
Record flight := Flight { awaits_context : bool; checks : nat; installs : nat }.

Section page_steps.
Context {S : Type} `{SshApi S} `{HostUrl}.
Context (maxRetries retryBaseDelayMs : option Z) (env : bootstrap_env) (metadata : HostMetadata).

Definition answer_on (channel : string) (answer : outcome ipc_result) : Prop :=
  answer = Return unavailable \/ (exists e, answer = Throw e) \/
  exists clock frame request s s',
    ipc_main maxRetries retryBaseDelayMs env metadata clock frame channel request s = (answer, s').

Inductive page_step : page * flight -> page * flight -> Prop :=
  | P_context p n m answer : answer_on BOOTSTRAP_GET_CONTEXT_CHANNEL answer ->
      page_step (p, Flight true n m) (context_arrives answer p, Flight false n m)
  | P_type values p f : page_step (p, f) (reset_form values p, f)
  | P_check p a n m : isChecking p = false -> page_step (p, Flight a n m) (check_starts p, Flight a (Datatypes.S n) m)
  | P_checked p a n m answer : answer_on BOOTSTRAP_CHECK_HOST_CHANNEL answer ->
      page_step (p, Flight a (Datatypes.S n) m) (check_arrives answer p, Flight a n m)
  | P_install p a n m : isInstalling p = false ->
      page_step (p, Flight a n m) (install_starts p, Flight a n (Datatypes.S m))
  | P_installed p a n m answer : answer_on BOOTSTRAP_INSTALL_DAEMON_CHANNEL answer ->
      page_step (p, Flight a n (Datatypes.S m)) (install_arrives answer p, Flight a n m).

Definition shown_first : page * flight := (init_page, Flight true 0 0).

(** An operation's part of the page: its flag, its result and its error. *)
Definition part_ok (busy : bool) (running : nat) (result : option jsval) (error : option string) : Prop :=
  running = (if busy then 1%nat else 0%nat) /\ (busy = true -> result = None /\ error = None) /\
  (result = None \/ error = None).

(** Results the page can render. *)
Definition renders (lines : jsval -> outcome (list string)) (o : option jsval) : Prop :=
  exists l, lines (state_value o) = Return l.

Context `{HostDate} `{RL : ReactChildLaws}.

Record consistent (w : page * flight) : Prop := {
  ok_check : part_ok (isChecking (fst w)) (checks (snd w)) (checkResult (fst w)) (checkError (fst w));
  ok_install : part_ok (isInstalling (fst w)) (installs (snd w)) (installResult (fst w)) (installError (fst w));
  ok_context : if awaits_context (snd w) then context (fst w) = None /\ contextError (fst w) = None
               else context (fst w) = None \/ contextError (fst w) = None;
  ok_context_lines : renders context_lines (context (fst w));
  ok_check_lines : renders check_lines (checkResult (fst w));
  ok_install_lines : renders install_lines (installResult (fst w))
}.

Lemma when_truthy_null lines : when_truthy JNull lines = Return [].
Proof. unfold when_truthy. cbn [truthy]. by rewrite child_null. Qed.

Lemma context_lines_null : context_lines JNull = Return ["Loading connection context..."].
Proof. unfold context_lines. by rewrite when_truthy_null. Qed.

Lemma check_lines_null : check_lines JNull = Return [].
Proof. apply when_truthy_null. Qed.

Lemma install_lines_null : install_lines JNull = Return [].
Proof. apply when_truthy_null. Qed.

Lemma renders_null lines l : lines JNull = Return l -> renders lines None.
Proof. by exists l. Qed.

(** What the handlers answer with can be shown. *)
Lemma guarded_success frame (m : eff S ipc_result) s data s' :
  (if negb (trusted env frame) then mret untrusted else m) s = (Return (IpcSuccess data), s') ->
  m s = (Return (IpcSuccess data), s').
Proof. by destruct (trusted env frame). Qed.

Lemma caught_success (body : eff S ipc_result) s data s' :
  try_catch body (fun e => mret (toIpcError e)) s = (Return (IpcSuccess data), s') ->
  body s = (Return (IpcSuccess data), s').
Proof.
  run_eff. destruct (body s) as [[r|e] s1]; [done|]. unfold toIpcError. by destruct (err_class_of e).
Qed.

(** Computing the lines up to the texts the host and the environment give. *)
Ltac show_step := lazy -[child iso_string trim redactPotentialSecrets DEFAULT_SERVICE_NAME String.append Z.sub].
Ltac show_lines :=
  show_step;
  repeat first
    [rewrite child_str; show_step
    |match goal with |- context [child (JNum ?n)] =>
       let H := fresh in destruct (child_num n) as [? H]; rewrite H; clear H; show_step end];
  eexists; reflexivity.

Lemma context_answer_renders data : answer_on BOOTSTRAP_GET_CONTEXT_CHANNEL (Return (IpcSuccess data)) ->
  renders context_lines (Some data).
Proof.
  intros [Ha|[[e Ha]|(clock & frame & request & s & s' & Ha)]]; [done|done|].
  destruct clock as [[start checked] finish]. unfold ipc_main in Ha. rewrite decide_True in Ha by done.
  apply guarded_success in Ha. injection Ha as <- _. unfold renders, connection_context.
  destruct (md_status metadata); show_lines.
Qed.

Lemma check_answer_renders data : answer_on BOOTSTRAP_CHECK_HOST_CHANNEL (Return (IpcSuccess data)) ->
  renders check_lines (Some data).
Proof.
  intros [Ha|[[e Ha]|(clock & frame & request & s & s' & Ha)]]; [done|done|].
  destruct clock as [[start checked] finish]. unfold ipc_main in Ha. rewrite decide_False, decide_True in Ha by done.
  apply guarded_success, caught_success in Ha. revert Ha. run_eff.
  destruct (checkConnection _ s) as [[[]|e] s1]; [|done]. intros [= <- _]. show_lines.
Qed.

Lemma install_answer_renders data : answer_on BOOTSTRAP_INSTALL_DAEMON_CHANNEL (Return (IpcSuccess data)) ->
  renders install_lines (Some data).
Proof.
  intros [Ha|[[e Ha]|(clock & frame & request & s & s' & Ha)]]; [done|done|].
  destruct clock as [[start checked] finish]. unfold ipc_main in Ha.
  rewrite decide_False, decide_False, decide_True in Ha by done.
  apply guarded_success, caught_success in Ha. revert Ha. run_eff.
  repeat (destruct (run_shell _ _ _ _ _) as [[?|?] ?]; [|done]). intros [= <- _].
  unfold renders, installed. generalize (bool_decide (trim a0 = "active")) (bool_decide (trim a1 = "enabled"))
    (redactPotentialSecrets (trim a2)). intros b1 b2 [|c output]; show_lines.
Qed.

Lemma part_starts : part_ok true 1 None None.
Proof. by split_and!; [| |left]. Qed.

Lemma part_settles running busy r e r' e' :
  part_ok busy (Datatypes.S running) r e -> r' = None \/ e' = None -> part_ok false running r' e'.
Proof. intros (Hn & _) Hr. destruct busy; [|done]. injection Hn as ->. by split_and!. Qed.

Lemma check_arrives_part answer p running :
  part_ok (isChecking p) (Datatypes.S running) (checkResult p) (checkError p) ->
  part_ok false running (checkResult (check_arrives answer p)) (checkError (check_arrives answer p)).
Proof.
  intros Hp. pose proof Hp as (Hn & Hb & Hor). eapply part_settles; [exact Hp|].
  destruct (isChecking p); [|done]. destruct (Hb eq_refl) as [Hr He].
  by destruct answer as [[data|m c]|e]; cbn; [right|left|left].
Qed.

Lemma install_arrives_part answer p running :
  part_ok (isInstalling p) (Datatypes.S running) (installResult p) (installError p) ->
  part_ok false running (installResult (install_arrives answer p)) (installError (install_arrives answer p)).
Proof.
  intros Hp. pose proof Hp as (Hn & Hb & Hor). eapply part_settles; [exact Hp|].
  destruct (isInstalling p); [|done]. destruct (Hb eq_refl) as [Hr He].
  by destruct answer as [[data|m c]|e]; cbn; [right|left|left].
Qed.

Lemma page_step_consistent w w' : consistent w -> page_step w w' -> consistent w'.
Proof.
  intros [Hc Hi Hx Rx Rc Ri] Hstep.
  destruct Hstep as [p n m answer Ha|values p f|p a n m Hb|p a n m answer Ha|p a n m Hb|p a n m answer Ha];
    cbn [fst snd awaits_context checks installs] in *.
  - destruct Hx as [Hx He]. destruct answer as [[data|msg c]|e]; cbn [context_arrives].
    + pose proof (context_answer_renders data Ha) as Hr. destruct (form_of_defaults data); (split; try done; by right).
    + split; try done. by left.
    + split; try done. by left.
  - by split.
  - destruct Hc as (Hn & _). rewrite Hb in Hn. subst n. split; try done; [apply part_starts|eapply renders_null, check_lines_null].
  - split; cbn [fst snd awaits_context checks installs]; try by destruct answer as [[data|msg c]|e].
    + exact (check_arrives_part answer p n Hc).
    + destruct answer as [[data|msg c]|e]; try done. by apply check_answer_renders.
  - destruct Hi as (Hn & _). rewrite Hb in Hn. subst m. split; try done; [apply part_starts|eapply renders_null, install_lines_null].
  - split; cbn [fst snd awaits_context checks installs]; try by destruct answer as [[data|msg c]|e].
    + exact (install_arrives_part answer p m Hi).
    + destruct answer as [[data|msg c]|e]; try done. by apply install_answer_renders.
Qed.

Lemma shown_first_consistent : consistent shown_first.
Proof.
  split; try by split_and!; try left.
  - eapply renders_null, context_lines_null.
  - eapply renders_null, check_lines_null.
  - eapply renders_null, install_lines_null.
Qed.

Lemma page_reachable w : rtc page_step shown_first w -> consistent w.
Proof.
  intros Hr. pose proof shown_first_consistent as Hi. revert Hi.
  induction Hr as [|w1 w2 w3 Hs _ IH]; [done|]. intros Hi. by apply IH, (page_step_consistent w1).
Qed.

(** What a part of the page shows for its operation: its button is disabled exactly while one
    answer is awaited, nothing is shown meanwhile, and never a result beside an error. *)
Definition part_shown (b : button) (lines : list string) (error : option string) (running : nat) : Prop :=
  (snd b = true <-> running = 1%nat) /\ (running <= 1)%nat /\
  (snd b = true -> lines = [] /\ error = None) /\ (lines = [] \/ error = None).

Lemma part_ok_shown f label lines busy running r e :
  part_ok busy running r e -> lines (state_value r) = Return f -> lines JNull = Return [] ->
  part_shown (label, busy) f (when_text e) running.
Proof.
  intros (Hn & Hb & Hor) Hf Hnull. split_and!; cbn [snd].
  - subst. by destruct busy.
  - subst. destruct busy; lia.
  - intros Hbusy. destruct (Hb Hbusy) as [-> ->]. cbn in Hf. split; [congruence|done].
  - destruct Hor as [-> | ->]; [left|by right]. cbn in Hf. congruence.
Qed.

(** C17.  However the context, the checks and the installations interleave, whatever the main
    process's handlers answer and even if the bridge rejects, the bootstrap page renders; each
    button is disabled exactly while its own operation awaits its one answer, and the page
    never shows a result beside an error.  An error of the context is shown together with the
    text that says the context is still loading. *)
Theorem bootstrap_page_renders w : rtc page_step shown_first w ->
  exists v, render (fst w) = Return v /\
    part_shown (v_check_button v) (v_check v) (v_check_error v) (checks (snd w)) /\
    part_shown (v_install_button v) (v_install v) (v_install_error v) (installs (snd w)) /\
    (v_context_error v <> None -> v_context v = ["Loading connection context..."]).
Proof.
  intros Hr. destruct (page_reachable w Hr) as [Hc Hi Hx [lx Hlx] [lc Hlc] [li Hli]].
  unfold render. rewrite Hlx, Hlc, Hli. eexists. split; [reflexivity|].
  cbn [v_check_button v_check v_check_error v_install_button v_install v_install_error v_context v_context_error].
  split; [by eapply part_ok_shown, check_lines_null|]. split; [by eapply part_ok_shown, install_lines_null|]. intros Hne.
  destruct (context (fst w)) as [c|]; [|by injection (eq_trans (eq_sym Hlx) context_lines_null)].
  assert (He : contextError (fst w) = None); [by destruct (awaits_context _); destruct Hx|by rewrite He in Hne].
Qed.
End page_steps.

(** * The theorem at work *)

#[local] Existing Instances no_url no_host.

(** A rendering with the laws. *)
#[local] Instance react_text : ReactChild := fun v =>
  match v with
  | JUndef | JNull | JBool _ => Return ""
  | JStr s => Return s
  | JNum _ => Return (js_show v)
  | _ => Throw (JsError EError "Objects are not valid as a React child")
  end.
#[local] Instance react_text_laws : ReactChildLaws.
Proof. split; [done|by eexists|done]. Qed.

(** An installation is started, the context arrives, a check is started and answered, and the
    installation fails: all outside the desktop. *)
Definition outside_page : page * flight :=
  (install_arrives (Return unavailable) (check_arrives (Return unavailable) (check_starts
     (context_arrives (Return unavailable) (install_starts init_page)))), Flight false 0 0).

Lemma bootstrap_page_renders_witness :
  exists v, render (fst outside_page) = Return v /\
    v_check_error v = Some "Bootstrap bridge is available only in desktop runtime" /\
    v_context v = ["Loading connection context..."].
Proof.
  destruct (bootstrap_page_renders (S := scripted) None None packaged_env sample_metadata outside_page)
    as (v & Hv & _ & _ & Hx).
  - eapply rtc_l; [by apply (P_install _ _ _ _ init_page true 0 0)|].
    eapply rtc_l; [eapply P_context; by left|]. eapply rtc_l; [by apply P_check|].
    eapply rtc_l; [eapply P_checked; by left|]. eapply rtc_l; [eapply P_installed; by left|]. apply rtc_refl.
  - exists v. split; [exact Hv|]. injection Hv as Hv. subst v. split; [reflexivity|]. apply Hx. discriminate.
Defined.
