(* ===== verification/DesktopMain.v ===== *)
(** * The main process of the desktop application

    apps/desktop/src/main/main.ts: reading the .env file into the environment, the port, the
    SSH runtime made from the environment and the migrated credentials, the choice of a
    window's page and the health check at the start.  The windows and the events of the
    application are in DesktopApp.v. *)

From S2P Require Import Prelude JsString Regex JsValue Dates Json Secrets Repositories RoutesProcess.
From S2P Require Import SshConnection SshExecutor Bootstrap DesktopSecrets.

(** ** Helpers *)

(** [candidates.find(fs.existsSync)], or the error that lists them. *)
Definition resolveExistingPath (exists_file : string -> bool) (candidates : list string) : outcome string :=
  match js_find exists_file candidates with
  | Some candidate => Return candidate
  | None => Throw (JsError EError ("Unable to resolve required file path. Checked: " +:+ join ", " candidates))
  end.

Definition parsePort (raw : option string) (fallback : Z) : outcome Z :=
  match raw with
  | Some text =>
      if nonempty text then
        match toNumber text with
        | NInt parsed => if parsed <=? 0 then Throw (JsError EError ("Invalid SSH_PORT value: " +:+ text)) else Return parsed
        | _ => Throw (JsError EError ("Invalid SSH_PORT value: " +:+ text))
        end
      else Return fallback
  | None => Return fallback
  end.

(** [value.slice(1, -1)] *)
Definition slice_ends (s : string) : string := str_take (String.length s - 2) (str_drop 1 s).

Definition parseEnvValue (rawValue : string) : string :=
  let value := trim rawValue in
  let quote1 := String SQUOTE "" in
  if negb (nonempty value) then ""
  else if (startsWith dq value && endsWith dq value) || (startsWith quote1 value && endsWith quote1 value)
  then slice_ends value
  else value.

(** The main process has its own copy of the names and of the loop that deletes them. *)
Module MainEnv.
Definition SECRET_ENV_KEYS : list string :=
  ["SSH_USERNAME"; "SSH_PASSWORD"; "SSH_PRIVATE_KEY"; "SSH_PRIVATE_KEY_PATH"; "SSH_PASSPHRASE"].
Definition clearSecretProcessEnv (env : env_map) : env_map := fold_left (fun e k => base.delete k e) SECRET_ENV_KEYS env.
End MainEnv.

Definition safeErrorMessage (e : jserror) : string := redactPotentialSecrets (err_message e).

(** [error.name] of an [Error]. *)
Definition error_name (e : jserror) : option string :=
  match err_class_of e with
  | EError => Some "Error" | EType => Some "TypeError" | ESyntax => Some "SyntaxError" | ERange => Some "RangeError"
  | EZod => Some "ZodError" | EDom name => Some name | ERemote _ => Some "RemoteExecutionError"
  | ESecrets _ => Some "SecretsRepositoryError" | ENotError => None
  end.

(** What a log line says of an error. *)
Record error_meta := ErrorMeta { em_name : option string; em_message : string; em_code : option string }.
Definition safeErrorMeta (e : jserror) : error_meta :=
  ErrorMeta (error_name e) (safeErrorMessage e) (match err_class_of e with ESecrets code => Some code | _ => None end).

(** ** loadDesktopEnv *)

(** [Array.from(new Set(...))] *)
Fixpoint distinct (l : list string) : list string :=
  match l with
  | [] => []
  | x :: rest => x :: List.filter (fun y => negb (bool_decide (y = x))) (distinct rest)
  end.

(** DESKTOP_ENV_PATH, then the paths the host resolves. *)
Definition env_candidates (desktop_env_path : option string) (resolved : list string) : list string :=
  distinct (List.filter nonempty (match desktop_env_path with Some p => p :: resolved | None => resolved end)).

(** One line of the file: it sets a variable that is not set yet. *)
Definition apply_line (env : env_map) (rawLine : string) : env_map :=
  match env_assignment rawLine with
  | Some (key, rest) =>
      if negb (nonempty key) || bool_decide (is_Some (env !! key)) then env
      else <[key := parseEnvValue rest]> env
  | None => env
  end.

Definition load_env (env : env_map) (content : string) : env_map := fold_left apply_line (split_lines content) env.

Section startup.
Context {S : Type} `{SecretsRepository S} `{FileHost}.

Definition loadDesktopEnv (resolved : list string) : eff (world S) (option string) :=
  w ← get_state;
  match js_find (fun p => existsSync p w) (env_candidates (w_env w !! "DESKTOP_ENV_PATH") resolved) with
  | None => mret None
  | Some envPath =>
      content ← readFileSync envPath;
      _ ← modify (fun w => World (load_env (w_env w) content) (w_files w) (w_store w));
      mret (Some envPath)
  end.

(** ** createSshRuntime *)

(** The configuration and the options the executor is made with. *)
Record SSHExecutorConfig := ExecutorConfig {
  cfg_host : string; cfg_username : string; cfg_port : Z;
  cfg_password : option string; cfg_privateKey : option string; cfg_passphrase : option string;
  cfg_cliPath : string
}.
Record SshRuntime := Runtime {
  rt_executor : SSHExecutorConfig; rt_hasAuth : bool; rt_metadata : HostMetadata
}.

Definition RUNTIME_MAX_RETRIES : Z := 1.
Definition RUNTIME_RETRY_DELAY : Z := 250.
Definition DEFAULT_CLI_PATH : string := "/usr/local/bin/nginx-admin-cli".

(** [secrets?.k]: a field of normalised credentials is a string or missing. *)
Definition secret_field (k : string) (secrets : option obj) : option string :=
  match secrets with
  | Some o => match obj_get k o with Some (JStr s) => Some s | _ => None end
  | None => None
  end.

Definition is_set (o : option string) : bool := match o with Some s => nonempty s | None => false end.

(** What the runtime is, by the environment and the credentials. *)
Definition runtime_of (env : env_map) (port : Z) (host : string) (secrets : option obj) : SshRuntime :=
  let usesPassword := is_set (secret_field "password" secrets) in
  let usesPrivateKey := is_set (secret_field "privateKey" secrets) in
  Runtime
    (ExecutorConfig host
       (default "unknown" (union (union (secret_field "username" secrets) (env !! "USER")) (env !! "USERNAME")))
       port (secret_field "password" secrets) (secret_field "privateKey" secrets) (secret_field "passphrase" secrets)
       (default DEFAULT_CLI_PATH (env !! "NGINX_ADMIN_CLI_PATH")))
    (usesPassword || usesPrivateKey)
    (Metadata "default" (default host (env !! "SSH_HOST_NAME")) host port
       (env !! "SSH_HOST_DESCRIPTION") None None None None (Some "unknown")).

(** The host and the port are read before the migration, the rest after it. *)
Definition createSshRuntime (envPath : option string) : eff (world S) SshRuntime :=
  w ← get_state;
  let host := default "127.0.0.1" (w_env w !! "SSH_HOST") in
  port ← lift_outcome (parsePort (w_env w !! "SSH_PORT") 22);
  secrets ← try_catch
    (migration ← runDesktopSecretsMigration envPath "default"; mret (DesktopSecrets.secrets migration))
    (fun _ => _ ← modify (fun w => World (MainEnv.clearSecretProcessEnv (w_env w)) (w_files w) (w_store w)); mret None);
  w ← get_state;
  mret (runtime_of (w_env w) port host secrets).

(** Loading the file and creating the runtime, as the module and [whenReady] do. *)
Definition start (resolved : list string) : eff (world S) SshRuntime :=
  envPath ← loadDesktopEnv resolved; createSshRuntime envPath.
End startup.

(** The handlers [whenReady] registers for the runtime's executor, with the executor's retries. *)
Definition ready_handlers {S} `{SshApi S} `{HostUrl} (env : bootstrap_env) (rt : SshRuntime) :
    Z * Z * Z -> option string -> string -> jsval -> eff S ipc_result :=
  ipc_main (Some RUNTIME_MAX_RETRIES) (Some RUNTIME_RETRY_DELAY) env (rt_metadata rt).

(** ** Windows and the health check *)

(** The page the window loads. *)
Inductive window_page := DevServer (url : string) | IndexFile (path : string).
Definition window_content (exists_file : string -> bool) (devServerUrl : option string) (candidates : list string)
    : outcome window_page :=
  if is_set devServerUrl then Return (DevServer (default "" devServerUrl))
  else path ← resolveExistingPath exists_file candidates; Return (IndexFile path).

(** The check after the first window: not without credentials; a failure is only logged, the
    answer is what the log says of it. *)
Definition startup_check {S} `{SshApi S} (hasAuth : bool) : eff S (option error_meta) :=
  if negb hasAuth then mret None
  else try_catch (_ ← checkConnection (Some 7000); mret None) (fun e => mret (Some (safeErrorMeta e))).

Lemma startup_check_logs {S} `{SshApi S} hasAuth (s : S) :
  exists logged s', startup_check hasAuth s = (Return logged, s') /\
    (hasAuth = false -> logged = None /\ s' = s) /\
    forall m, logged = Some m -> test bearer_pattern (em_message m) = false.
Proof.
  unfold startup_check. destruct hasAuth; cbn [negb]; [|by eexists _, _]. run_eff.
  destruct (checkConnection (Some 7000) s) as [[[]|e] s']; eexists _, _; (split; [reflexivity|]); (split; [done|]); [done|].
  intros m [= <-]. apply redacted_no_bearer.
Qed.

(** * The environment file only adds *)

(** The first line of the file that assigns the variable. *)
Fixpoint first_assignment (k : string) (lines : list string) : option string :=
  match lines with
  | [] => None
  | l :: rest =>
      match env_assignment l with
      | Some (key, value) => if decide (key = k) then Some (parseEnvValue value) else first_assignment k rest
      | None => first_assignment k rest
      end
  end.

Lemma apply_lines k lines env : k <> "" ->
  fold_left apply_line lines env !! k =
  match env !! k with Some v => Some v | None => first_assignment k lines end.
Proof.
  intros Hk. revert env. induction lines as [|l lines IH]; intros env; [cbn; by destruct (_ !! k)|].
  cbn [fold_left first_assignment]. rewrite IH. unfold apply_line. destruct (env_assignment l) as [[key rest]|]; [|done].
  unfold nonempty. destruct (bool_decide_reflect (key = "")) as [->|Hkey]; cbn [negb orb].
  - by rewrite decide_False.
  - destruct (bool_decide_reflect (is_Some (env !! key))) as [[v Hv]|Hn].
    + destruct (decide (key = k)) as [->|]; [by rewrite Hv|done].
    + apply eq_None_not_Some in Hn. destruct (decide (key = k)) as [->|Hne].
      * by rewrite lookup_insert_eq, Hn.
      * by rewrite lookup_insert_ne.
Qed.

(** Loading the environment file is the merge it is meant to be: a variable that is set
    keeps its value, and one that is not takes the value of the first line that assigns it,
    unquoted, if any does. *)
Theorem load_env_merge env content k : k <> "" ->
  load_env env content !! k =
  match env !! k with Some v => Some v | None => first_assignment k (split_lines content) end.
Proof. apply apply_lines. Qed.

Lemma str_take_app s t : str_take (String.length s) (s +:+ t) = s.
Proof. induction s as [|c s IH]; [by destruct t|]. cbn. by f_equal. Qed.

(** A value in matching quotes loses them and nothing else. *)
Lemma parseEnvValue_quoted q s :
  q = DQUOTE \/ q = SQUOTE -> parseEnvValue (String q (s +:+ String q "")) = s.
Proof.
  intros Hq.
  assert (Hs : is_space q = false) by (by destruct Hq as [->| ->]).
  assert (Ht : trim (String q (s +:+ String q "")) = String q (s +:+ String q "")).
  { unfold trim. cbn [trimStart]. rewrite Hs. change (String q (s +:+ String q "")) with (String q s +:+ String q "").
    by apply trimEnd_keep. }
  assert (Hends : endsWith (String q "") (String q (s +:+ String q "")) = true).
  { apply endsWith_spec. by exists (String q s). }
  assert (Hslice : slice_ends (String q (s +:+ String q "")) = s).
  { unfold slice_ends. cbn [String.length str_drop]. rewrite length_app_str. cbn [String.length].
    replace (S (String.length s + 1) - 2)%nat with (String.length s) by lia. apply str_take_app. }
  unfold parseEnvValue. rewrite Ht. unfold nonempty. rewrite bool_decide_false by done. cbn [negb].
  destruct Hq as [->| ->].
  - change dq with (String DQUOTE ""). rewrite Hends. cbn [startsWith]. rewrite Ascii.eqb_refl. exact Hslice.
  - rewrite Hends. cbn [startsWith]. rewrite Ascii.eqb_refl, orb_true_r. exact Hslice.
Qed.

(** * The runtime *)

Lemma parsePort_positive raw fallback p : parsePort raw fallback = Return p -> p = fallback \/ 0 < p.
Proof.
  unfold parsePort. destruct raw as [text|]; [|intros <-%Return_inj; by left].
  destruct (nonempty text); [|intros <-%Return_inj; by left].
  destruct (toNumber text) as [z| | |]; try discriminate. destruct (Z.leb_spec z 0); [discriminate|].
  intros <-%Return_inj. by right.
Qed.

Section runtime_theorems.
Context {S : Type} `{SecretsRepositoryLaws S} `{FileHost}.

(** C29.  Starting the SSH runtime fails only on the port, before anything is read or changed.
    Otherwise, whatever becomes of the migration, no secret variable is left in the
    environment, the port is positive, and the runtime only has a password or a key that the
    credential store gives back for the host. *)
Theorem runtime_safe envPath (w : world S) :
  let (o, w') := createSshRuntime envPath w in
  match o with
  | Throw e => parsePort (w_env w !! "SSH_PORT") 22 = Throw e /\ w' = w
  | Return rt =>
      (forall k, k ∈ SECRET_ENV_KEYS -> w_env w' !! k = None) /\ 0 < cfg_port (rt_executor rt) /\
      (rt_hasAuth rt = true -> exists n, stored_secrets "default" (w_store w') (Some n) /\
         cfg_password (rt_executor rt) = secret_field "password" (Some n) /\
         cfg_privateKey (rt_executor rt) = secret_field "privateKey" (Some n))
  end.
Proof.
  unfold createSshRuntime. run_eff.
  destruct (parsePort (w_env w !! "SSH_PORT") 22) as [port|e] eqn:Hp; [|done].
  assert (Hport : 0 < port) by (destruct (parsePort_positive _ _ _ Hp); lia).
  destruct (runDesktopSecretsMigration envPath "default" w) as [[r|e] w1] eqn:Hm.
  - destruct (migration_spec envPath "default" w w1 r ltac:(discriminate) Hm) as (Henv & Hno & Hyes).
    split; [done|]. split; [done|]. cbn [rt_hasAuth runtime_of rt_executor cfg_password cfg_privateKey].
    destruct (DesktopSecrets.secrets r) as [n|] eqn:Hr; [|discriminate]. intros _. exists n. split; [|by split].
    destruct (migrated r) eqn:Hmig.
    + destruct (Hyes eq_refl) as (es & existing & m & _ & _ & Hm1 & Hst & _). congruence.
    + destruct (Hno eq_refl) as (_ & Hst & Hsame). unfold stored_secrets in *. by rewrite Hsame.
  - split; [|split; [done|discriminate]]. intros k Hk. cbn. by apply clear_env_gone.
Qed.
End runtime_theorems.

(** * The theorems at work *)

#[local] Existing Instance willing_keytar.
#[local] Existing Instance open_files.
#[local] Existing Instance given_repository.
#[local] Existing Instance given_laws.

Lemma load_env_merge_witness :
  load_env (<["A" := "kept"]> ∅) ("A=1" +:+ nl +:+ "# B=0" +:+ nl +:+ "B = 'x y'") !! "B" = Some "x y".
Proof. rewrite (load_env_merge _ _ "B"); [vm_compute; reflexivity|discriminate]. Defined.

Definition started : outcome SshRuntime * world keytar_store := createSshRuntime (S := keytar_store) (Some ".env") before.
Definition started_runtime : SshRuntime :=
  runtime_of ∅ 22 "127.0.0.1" (Some [("password", JStr "s3cret"); ("token", JStr "t")]).

Lemma runtime_safe_witness :
  fst started = Return started_runtime /\ w_env (snd started) !! "SSH_PASSWORD" = None.
Proof.
  pose proof (runtime_safe (S := keytar_store) (Some ".env") before) as Hs. fold started in Hs.
  assert (Hr : fst started = Return started_runtime) by (vm_compute; reflexivity).
  split; [exact Hr|]. rewrite (surjective_pairing started), Hr in Hs. destruct Hs as (Henv & _). apply Henv. right. left.
Defined.
