(* ===== verification/DesktopApp.v ===== *)
(** * The life of the desktop application

    The last part of apps/desktop/src/main/main.ts (lines 196 to 277): [createWindow], the
    callback of [app.whenReady] cut at its awaits, and the listeners of the application's
    events, as steps on the windows that are open.  Electron's own part is the order in which
    it raises the events; the paths Node resolves are arguments. *)

From S2P Require Import Prelude JsString Regex JsValue Dates Json Secrets Repositories RoutesProcess.
From S2P Require Import SshConnection SshExecutor Bootstrap DesktopSecrets DesktopMain.

Definition DEFAULT_WIDTH : Z := 1400.
Definition DEFAULT_HEIGHT : Z := 900.

(** The options of [new BrowserWindow]; [visible] starts as [show: false]. *)
Record window := Window {
  width : Z; height : Z; autoHideMenuBar : bool;
  preload : string; contextIsolation : bool; nodeIntegration : bool; sandbox : bool; webSecurity : bool; devTools : bool;
  visible : bool
}.

(** Where the callback of [whenReady] is: waiting for the runtime, for the first window's page,
    for the health check; returned; or rejected, which nothing catches. *)
Inductive stage := Preparing | Loading | Checking | Returned | Rejected.
#[export] Instance stage_eq_dec : EqDecision stage.
Proof. solve_decision. Defined.

(** [sshRuntime] is known by its [hasAuth]. *)
Record desktop := Desktop {
  app_stage : stage;
  windows : list window;
  sshRuntime : option bool;
  on_activate : bool;
  before_quit_seen : bool;
  executor_down : bool
}.
Definition launched : desktop := Desktop Preparing [] None false false false.

Section desktop_app.
Context (isPackaged darwin : bool) (exists_file : string -> bool).
Context (preload_paths index_paths : list string) (rendererUrl : option string).

Definition in_stage (st : stage) (d : desktop) : desktop :=
  Desktop st (windows d) (sshRuntime d) (on_activate d) (before_quit_seen d) (executor_down d).
Definition with_windows (ws : list window) (d : desktop) : desktop :=
  Desktop (app_stage d) ws (sshRuntime d) (on_activate d) (before_quit_seen d) (executor_down d).

(** [createWindow] up to its await: the window is open before its page is looked for. *)
Definition createWindow : eff desktop window_page :=
  preloadPath ← lift_outcome (resolveExistingPath exists_file preload_paths);
  _ ← modify (fun d => with_windows
        (windows d ++ [Window DEFAULT_WIDTH DEFAULT_HEIGHT true preloadPath true false true true (negb isPackaged) false]) d);
  lift_outcome (window_content exists_file rendererUrl index_paths).

(** [win.once("ready-to-show", ...)] *)
Definition show_window (i : nat) (d : desktop) : desktop :=
  with_windows (alter (fun w => Window (width w) (height w) (autoHideMenuBar w) (preload w) (contextIsolation w)
    (nodeIntegration w) (sandbox w) (webSecurity w) (devTools w) true) i (windows d)) d.

(** The callback: the runtime arrives and the first window is made. *)
Definition runtime_arrives (hasAuth : bool) (d : desktop) : desktop :=
  let d := Desktop (app_stage d) (windows d) (Some hasAuth) (on_activate d) (before_quit_seen d) (executor_down d) in
  let (o, d') := createWindow d in in_stage (if is_return o then Loading else Rejected) d'.

(** Its page is loaded: without credentials the callback returns here. *)
Definition page_loaded (d : desktop) : desktop :=
  in_stage (match sshRuntime d with Some true => Checking | _ => Returned end) d.

(** The health check has passed or failed: the listener is installed. *)
Definition health_checked (d : desktop) : desktop :=
  Desktop Returned (windows d) (sshRuntime d) true (before_quit_seen d) (executor_down d).

Definition activate (d : desktop) : desktop :=
  if on_activate d && (length (windows d) =? 0)%nat then snd (createWindow d) else d.

(** [sshRuntime?.executor.shutdown()] *)
Definition before_quit (d : desktop) : desktop :=
  Desktop (app_stage d) (windows d) (sshRuntime d) (on_activate d) true
    (executor_down d || bool_decide (is_Some (sshRuntime d))).

(** Electron's [app.quit] raises before-quit and closes the windows. *)
Definition app_quit (d : desktop) : desktop := with_windows [] (before_quit d).

Definition window_all_closed (d : desktop) : desktop := if darwin then d else app_quit d.

Definition close_window (i : nat) (d : desktop) : desktop :=
  let d := with_windows (delete i (windows d)) d in
  if (length (windows d) =? 0)%nat then window_all_closed d else d.

Inductive app_step (d : desktop) : desktop -> Prop :=
  | A_runtime hasAuth : app_stage d = Preparing -> app_step d (runtime_arrives hasAuth d)
  | A_no_runtime : app_stage d = Preparing -> app_step d (in_stage Rejected d)
  | A_loaded : app_stage d = Loading -> app_step d (page_loaded d)
  | A_not_loaded : app_stage d = Loading -> app_step d (in_stage Rejected d)
  | A_checked : app_stage d = Checking -> app_step d (health_checked d)
  | A_ready i : app_step d (show_window i d)
  | A_close i : (i < length (windows d))%nat -> app_step d (close_window i d)
  | A_activate : app_step d (activate d)
  | A_quit : app_step d (app_quit d).

(** * One window, isolated *)

(** What a window's page may do: nothing of Node, and the tools only in development. *)
Definition isolated (w : window) : Prop :=
  contextIsolation w = true /\ nodeIntegration w = false /\ sandbox w = true /\ webSecurity w = true /\
  devTools w = negb isPackaged /\ exists_file (preload w) = true.

Record desktop_ok (d : desktop) : Prop := {
  ok_one : (length (windows d) <= 1)%nat;
  ok_isolated : Forall isolated (windows d);
  ok_preparing : app_stage d = Preparing -> windows d = [] /\ sshRuntime d = None;
  ok_listener : on_activate d = true -> app_stage d = Returned /\ sshRuntime d = Some true;
  ok_checking : app_stage d = Checking -> sshRuntime d = Some true
}.

Lemma js_find_true {A} (p : A -> bool) l x : js_find p l = Some x -> p x = true.
Proof.
  induction l as [|y l IH]; [done|]. cbn [js_find]. destruct (p y) eqn:Hy; [by intros [= ->]|done].
Qed.

Lemma createWindow_ok d : windows d = [] ->
  (length (windows (snd (createWindow d))) <= 1)%nat /\ Forall isolated (windows (snd (createWindow d))) /\
  exists ws, snd (createWindow d) = with_windows ws d.
Proof.
  intros Hd. unfold createWindow. run_eff. unfold resolveExistingPath.
  destruct (js_find exists_file preload_paths) as [path|] eqn:Hp; cbn [fst snd windows with_windows]; rewrite ?Hd.
  - split; [done|]. split; [|by eexists]. apply List.Forall_cons; [|by apply List.Forall_nil].
    split_and!; try done. by eapply js_find_true.
  - split; [cbn; lia|]. split; [by apply List.Forall_nil|]. exists []. destruct d. cbn in *. by subst.
Qed.

Lemma show_window_ok i ws : Forall isolated ws ->
  Forall isolated (alter (fun w => Window (width w) (height w) (autoHideMenuBar w) (preload w) (contextIsolation w)
    (nodeIntegration w) (sandbox w) (webSecurity w) (devTools w) true) i ws).
Proof. intros Hws. apply Forall_alter; [done|]. by intros w _ Hw. Qed.

Lemma no_windows (ws : list window) : (length ws =? 0)%nat = true -> ws = [].
Proof. by destruct ws. Qed.

Lemma with_windows_ok ws d : desktop_ok d ->
  (length ws <= 1)%nat -> Forall isolated ws -> (app_stage d = Preparing -> ws = []) -> desktop_ok (with_windows ws d).
Proof. intros [H1 H2 H3 H4 H5] Hl Hf Hp. split; try done. intros Hst. split; [by apply Hp|by apply H3]. Qed.

Lemma leave_stage_ok st d : desktop_ok d -> st <> Preparing -> app_stage d <> Returned ->
  (st = Checking -> sshRuntime d = Some true) -> desktop_ok (in_stage st d).
Proof. intros [H1 H2 H3 H4 H5] Hst Hret Hc. split; try done. intros Ha. by destruct (H4 Ha). Qed.

Lemma before_quit_ok d : desktop_ok d -> desktop_ok (before_quit d).
Proof. by intros [H1 H2 H3 H4 H5]. Qed.

Lemma app_quit_ok d : desktop_ok d -> desktop_ok (app_quit d).
Proof. intros Hd. apply with_windows_ok; [by apply before_quit_ok|cbn; lia|by apply List.Forall_nil|done]. Qed.

Lemma close_window_ok i d : desktop_ok d -> desktop_ok (close_window i d).
Proof.
  intros Hd. unfold close_window, window_all_closed.
  assert (Hk : desktop_ok (with_windows (delete i (windows d)) d)).
  { pose proof Hd as [H1 H2 H3 _ _]. apply with_windows_ok; [done| |by apply Forall_delete|].
    - destruct (windows d) as [|w []]; [by destruct i| |cbn in H1; lia]. destruct i as [|[]]; cbn; lia.
    - intros Hp. by destruct (H3 Hp) as [-> _]. }
  destruct (length _ =? 0)%nat; [|done]. destruct darwin; [done|by apply app_quit_ok].
Qed.

Lemma runtime_arrives_ok hasAuth d : desktop_ok d -> app_stage d = Preparing -> desktop_ok (runtime_arrives hasAuth d).
Proof.
  intros [H1 H2 H3 H4 H5] Hst. destruct (H3 Hst) as [Hw Hr]. unfold runtime_arrives.
  set (d1 := Desktop _ _ _ _ _ _). pose proof (createWindow_ok d1 Hw) as (Hl & Hf & ws & Hws).
  destruct (createWindow d1) as [o d2]. cbn [snd] in *. subst d2. split; try done; try by destruct (is_return o).
  intros Ha. destruct (H4 Ha). congruence.
Qed.

Lemma app_step_ok d d' : desktop_ok d -> app_step d d' -> desktop_ok d'.
Proof.
  intros Hd Hstep. pose proof Hd as [H1 H2 H3 H4 H5].
  destruct Hstep as [hasAuth Hst|Hst|Hst|Hst|Hst|i|i Hi| |].
  - by apply runtime_arrives_ok.
  - apply leave_stage_ok; [done|done|congruence|done].
  - apply leave_stage_ok; [done| |congruence|]; by destruct (sshRuntime d) as [[]|].
  - apply leave_stage_ok; [done|done|congruence|done].
  - split; try done. intros _. split; [done|by apply H5].
  - apply with_windows_ok; [done|by rewrite length_alter|by apply show_window_ok|]. intros Hp. by destruct (H3 Hp) as [-> _].
  - by apply close_window_ok.
  - unfold activate. destruct (on_activate d) eqn:Ha; [|done].
    destruct (length (windows d) =? 0)%nat eqn:Hw; [|done]. apply no_windows in Hw.
    destruct (createWindow_ok d Hw) as (Hl & Hf & ws & Hws). cbn [andb]. rewrite Hws in *.
    destruct (H4 eq_refl) as [Hret _]. apply with_windows_ok; [done|done|done|congruence].
  - by apply app_quit_ok.
Qed.

Lemma app_reachable d : rtc app_step launched d -> desktop_ok d.
Proof.
  intros Hr. assert (Hi : desktop_ok launched) by (split; try done; cbn; lia).
  revert Hi. induction Hr as [|d1 d2 d3 Hs _ IH]; [done|]. intros Hi. by apply IH, (app_step_ok d1).
Qed.

(** C28.  However Electron orders its events, the application has at most one window, and every
    window it opens runs its page isolated: no Node, the sandbox and the preload script that
    exists on disk, the developer tools only in an unpackaged build. *)
Theorem one_isolated_window d : rtc app_step launched d ->
  (length (windows d) <= 1)%nat /\ Forall isolated (windows d).
Proof.
  intros Hr. by destruct (app_reachable d Hr).
Qed.

(** * A window that is never opened again *)

(** The callback of [whenReady] has ended without installing the listener. *)
Definition deaf (d : desktop) : Prop :=
  (app_stage d = Returned \/ app_stage d = Rejected) /\ on_activate d = false /\ windows d = [].

Lemma app_step_deaf d d' : deaf d -> app_step d d' -> deaf d'.
Proof.
  intros (Hst & Ha & Hw) Hstep. destruct Hstep; try by (destruct Hst; congruence).
  - unfold show_window, deaf. cbn [windows with_windows app_stage on_activate]. by rewrite Hw.
  - rewrite Hw in *. cbn in *. lia.
  - unfold activate. by rewrite Ha.
  - done.
Qed.

(** C37.  A start without credentials, or one whose runtime or page fails, leaves an application
    whose window, once closed, no event opens again: on macOS it stays running without one, and
    with a runtime that fails it has none from the start. *)
Theorem closed_for_good d d' : rtc app_step launched d ->
  app_stage d = Rejected \/ (app_stage d = Returned /\ sshRuntime d <> Some true) -> windows d = [] ->
  rtc app_step d d' -> windows d' = [].
Proof.
  intros Hr Hst Hw Hr'. destruct (app_reachable d Hr) as [_ _ _ H4 _].
  assert (Hd : deaf d).
  { split_and!; [by destruct Hst as [Hst|[Hst _]]; [right|left]| |done].
    destruct (on_activate d); [|done]. destruct (H4 eq_refl), Hst as [?|[? ?]]; congruence. }
  clear Hr Hst Hw H4. induction Hr' as [|d1 d2 d3 Hs _ IH]; [apply Hd|]. by apply IH, (app_step_deaf d1).
Qed.
End desktop_app.

(** * The theorems at work *)

Definition on_disk (path : string) : bool := bool_decide (path ∈ ["/app/preload.js"; "/app/index.html"]).
Definition first_window (hasAuth : bool) : desktop :=
  page_loaded (runtime_arrives true on_disk ["/app/preload.js"] ["/app/index.html"] None hasAuth launched).

Abbreviation mac_step := (app_step true true on_disk ["/app/preload.js"] ["/app/index.html"] None).

Lemma first_window_reached hasAuth : rtc mac_step launched (first_window hasAuth).
Proof. eapply rtc_l; [by apply (A_runtime _ _ _ _ _ _ _ hasAuth)|]. apply rtc_once. by apply A_loaded. Qed.

Lemma one_isolated_window_witness :
  length (windows (first_window true)) = 1%nat /\ Forall (isolated true on_disk) (windows (first_window true)).
Proof.
  split; [reflexivity|]. eapply one_isolated_window, first_window_reached.
Defined.

(** Without credentials the window is closed and the dock's icon is clicked. *)
Lemma closed_for_good_witness :
  let closed := close_window true 0 (first_window false) in
  windows (activate true on_disk ["/app/preload.js"] ["/app/index.html"] None closed) = [].
Proof.
  intros closed. apply (closed_for_good true true on_disk ["/app/preload.js"] ["/app/index.html"] None closed).
  - eapply rtc_r; [apply first_window_reached|]. apply A_close. vm_compute. constructor.
  - right. split; [reflexivity|discriminate].
  - reflexivity.
  - apply rtc_once, A_activate.
Defined.

(** With them it is opened again. *)
Example reopened : length (windows (activate true on_disk ["/app/preload.js"] ["/app/index.html"] None
  (close_window true 0 (health_checked (first_window true))))) = 1%nat.
Proof. reflexivity. Qed.
